(* ===== verification/_CoqProject ===== *)
-Q . S2P
Prelude.v
ByteStrings.v
Timestamp.v
Names.v
Float64.v
Json.v
Asl.v
Errors.v
Meta.v
Entities.v
Tasks.v
Keys.v
Commands.v
Storage.v
StorageFacts.v
Rows.v
RocksStorage.v
RocksFacts.v
RocksRefinement.v
RocksScans.v
Applier.v
ApplierFacts.v
Eval.v
LogStream.v
RocksLog.v
RocksLogFacts.v
Handler.v
Containers.v
StateHandler.v
States.v
TaskState.v
FanOut.v
ActivityElement.v
Elements.v
Dispatch.v
HandlerFacts.v
Emission.v
HandlerSim.v
Leader.v
StreamProcessor.v
Working.v
LeaderSim.v
Scheduler.v
Facade.v
FacadeFacts.v
PersistentLeader.v
Gateway.v
Wire.v
MetaSerde.v
Services.v
Client.v
Worker.v
Cli.v
Projection.v
Runs.v
LeaderFacts.v
GatewayFacts.v
HandlerLogic.v
WireFacts.v
WorkerFacts.v
StreamFacts.v
System.v
Durability.v
CacheFacts.v
WorkQueue.v
Flows.v
StateFacts.v
Fixture.v
RocksFixture.v
StorageTheorems.v
LogTheorems.v
SystemTheorems.v
ServerTheorems.v
DurabilityTheorems.v
LeaderTheorems.v
DomainTheorems.v
StateTheorems.v
RemoteTheorems.v
MetaTheorems.v
FlowTheorems.v
