(* ===== verification/Prelude.v ===== *)
(** * Spica: a durable workflow engine

    Spica runs Amazon States Language definitions. A client submits commands; they are
    appended to a log; one leader reads the log in order, runs the handler of each command over
    a working transaction of its store, appends the events, commands and rejections the handler
    emitted as one batch closed by a mark, and commits the transaction with the position of the
    mark as its resume position. Followers and a restarted leader fold the events of the log into
    a store of their own. A server stands in front of the leader: it pairs each request with the
    outcome the leader reports, and a scheduler turns the deadlines of the events into commands.
    Clients, workers that execute tasks and a command line reach the server over a wire contract.
    Stores and logs come in two forms, in memory and over RocksDB. This development models that
    program as it is written in [src/crates/] and proves what makes it correct; it also proves the
    places where it is not.

    ** How the code is modelled

    A Rust function is a definition of the same name. Mutable state is passed explicitly: a
    handler is a computation [M S E A := S -> Res E A * S], whose outcome is a value, an error
    the caller propagates, or a panic no caller handles. A method that mutates [self] returns the
    new row. Machine integers are integers of [Z] with the checks, saturations, truncations and
    wrap-arounds of the source written out; [f64] is the binary64 of [Float64]; hash tables are
    finite maps whose iteration order is a parameter. The build profile is a parameter too: an
    update written inside [debug_assert!] happens only with debug assertions. What the sources
    call and do not contain is a parameter of the class [Handler.Engine]: the JSONata parser and
    evaluator, the JSON deserializer of whole definitions, the CRC, [powf], the RFC 3339 parser,
    the clock, the id generator and some debug texts. The persistent backends are written over
    classes of the database operations they call ([RocksStorage.RocksDb], [RocksLog.LogDb]) and of
    the serializer of rows and entries ([Rows.RowCodecs], [RocksLog.EntryCodec]); what the
    theorems rely on of them are the laws [RocksLaws], [RowLaws], [LogDbLaws] and [EntryLaws], which
    the ordered map of [RocksFixture] satisfies. At the wire, [Wire.WireText] and [Wire.WireJson]
    stand for the id parser, some texts and the JSON of values, [Client.Rpc] for the generated
    clients and [Cli.CliWorld] for files and the connection; [MetaSerde.DocFormat] stands for the
    derived serialization under the hand-written one.

    ** The files

    - [Prelude]: outcomes, the monad, the relational rules [steps] and [sim], machine integers,
      strings, the hint database [spica]. [ByteStrings]: prefixes, slices and the byte order.
    - [Timestamp], [Names]: [crates/machinery] (instants, clocks, ids; object names).
    - [Float64], [Json]: the parts of [f64] and [serde_json] the engine computes with.
    - [Asl]: [crates/asl] (state types, value parsers, state paths and their resolution).
    - [Errors], [Meta], [Entities], [Tasks], [Commands]: [crates/engine-types/src/types] (errors,
      references and metadata, executions, threads, activities, flows, tasks with their retry
      plans, commands, events and entries).
    - [Storage]: the trait [StorageTxn] as a class, the in-memory database and its overlay
      transaction ([crates/storage/src/memory.rs]); [StorageFacts]: committing the overlay is
      writing to the database.
    - [Keys]: [crates/storage/src/key.rs], and the address a key stands for.
    - [Rows]: the serialized rows of a listing and the listing of the in-memory store;
      [RocksStorage]: [crates/storage/src/rocks.rs], the committed store ([rs_]) and its transaction
      ([rt_]); [RocksFacts]: the laws, and when a database holds given tables ([stores]);
      [RocksRefinement]: each operation simulates the one on the tables; [RocksScans]: the scans
      that do not stop at the end of their range.
    - [Applier]: one definition per event applier and [dispatch_event]; [ApplierFacts]: they
      respect every agreement of stores ([TxnSim]), every preorder the writes respect
      ([PlainSteps], [TxnSteps]), and always succeed on a total store.
    - [Eval]: [eval_env.rs] and [context.rs], with the equivalence of cached and plain evaluation.
    - [LogStream]: the in-memory log of [crates/logstream]; [RocksLog]: the durable one;
      [RocksLogFacts]: it refines the former.
    - [Handler]: the collector of [handler.rs]: every event is projected onto the
      working transaction as it is emitted. [Containers], [StateHandler], [States], [TaskState],
      [FanOut], [ActivityElement], [Elements], [Dispatch]: [elements/] and [handlers/], one
      definition per hook and command handler.
    - [HandlerFacts]: a preorder the primitives of [Handler] respect is respected by every
      command ([dispatch_steps]); [HandlerSim]: so is the agreement of two stores, short of panics
      ([dispatch_sim]); [Emission]: every successful dispatch emits an entry;
      [Projection]: the working transaction agrees with the fold of what was emitted; [Runs]: the
      executions of the transaction only move forward.
    - [Working]: [working.rs]; a command has on the overlay the outcome it has on its transaction.
    - [Leader]: [leader.rs] over the class [Storage] of stores with transactions;
      [StreamProcessor]: [stream_processor.rs], [log.rs], [follower.rs] and the submission of
      [engine.rs]; [LeaderFacts], [StreamFacts]: their specifications; [LeaderSim]: relational
      triples over nodes, and that what a node does depends on its store only through the promise
      [StoreSim] of one store to another.
    - [Scheduler]: [crates/scheduler]: the loop, its callers and the clock as a step relation, and
      its invariant.
    - [Facade]: the operations of [engine.rs] and the reads of [query.rs] over the class
      [StoreReads], which both stores implement; [FacadeFacts]: the pages of a listing.
      [PersistentLeader]: the in-memory store behind a check of its arguments keeps that promise to
      the in-memory store and to the persistent one.
    - [Gateway]: [crates/server/src/gateway.rs]: the acknowledgement registry, the observer, the
      requests; [GatewayFacts]: what a registered channel may come to hold, and the outcome every
      awaited command has.
    - [Wire]: the messages of [crates/proto/proto/spica.proto] and the conversions of
      [crates/server/src/common.rs] and [query.rs]; [MetaSerde]: the hand-written documents of
      references and metadata; [Services]: the handlers of the four gRPC
      services; [Client]: [crates/client/src/lib.rs] over the class [Rpc], and [served], the
      transport that hands requests to the services; [Worker]: [crates/client/src/worker], its
      loop and jobs as a step relation; [Cli]: [crates/cli/src]. [WireFacts]: reads leave the
      server alone, references and executions survive the wire; [WorkerFacts]: the books of the
      worker.
    - [System]: clients, log, store and leader as a step relation with stops, starts and crashes,
      and the invariant of its reachable states; [Durability]: every creation in the log is a row
      of the store, what the observer hears is in the log, what a caller receives the observer
      heard ([gw_step], the steps of a serving process).
    - [HandlerLogic]: weakest preconditions of handlers, over what a state shows (the database its
      transaction would commit, the commands emitted, the definitions cached); [CacheFacts]: the
      expression cache is sound in every reachable state; [WorkQueue]: the leader and its log as
      a first-in first-out queue of commands ([queue_turn]); [Flows]: the interpreter of a
      definition ([flow_eval]), which reads neither log nor store, and one lemma per command of
      the engine against it.
    - [StateFacts]: the commands a container state sends, as a function of the rows it reads.
    - [Fixture], [RocksFixture]: a concrete engine, definitions and database, for the witnesses.
    - [SystemTheorems], [LeaderTheorems], [StateTheorems], [DomainTheorems], [StorageTheorems],
      [LogTheorems], [ServerTheorems], [DurabilityTheorems], [RemoteTheorems], [MetaTheorems],
      [FlowTheorems]: the properties.

    ** What is proved

    [SystemTheorems] is about every state reachable by submissions, processing, stops, starts and
    crashes between append and commit: the store is the fold of the log; recovery after a crash
    leaves what the commit would have left; a restart succeeds and keeps the data; a follower
    agrees with the leader; the leader never meets an event it has not applied; an execution keeps
    its identity, only moves along its lifecycle, and is final once terminal; and, as the code is,
    a restart skips the commands still pending. [LeaderTheorems] is about one command: it is
    answered by a non-empty batch caused by it, its transaction refines the fold of its own
    events, a rejection is atomic, attempts are bounded. [StateTheorems] gives the functional
    behaviour of [Parallel], [Map], [Choice] and [Wait], and the failures of the code: a lost
    failure in release builds, an item started twice, a catcher that repeats for ever, a panic on
    an accepted definition, a truncated retry limit. [DomainTheorems] covers names, references,
    time, lifecycles, tasks, error matching, state paths, expressions and the log.
    [StorageTheorems]: keys identify rows; a transaction on the persistent store and its commit
    refine the tables, and so do its committed reads and writes, for valid names, serializable rows
    and one uid per name (a name with two shares its edges on the persistent store), up to which
    claimable tasks a scan takes first when the tables are not iterated by name; a leader that
    runs, recovers, stops and crashes over the persistent store does what it does over the
    in-memory one, under those conditions and when the script does not panic; a listing may run
    past its kind and the scan for claimable tasks fails beside a thread. [LogTheorems]: the
    durable log refines the in-memory one and resumes after a restart. [ServerTheorems]: deadlines
    fire once, never early, all of them when due, and not after their element settled, unless the
    loop had already collected them; every command a caller awaits is answered, and callers only
    get their own answers; an awaited run is final; paging enumerates every object; and, as the
    code is, a worker polling the persistent store starves. [DurabilityTheorems]: an execution the
    server acknowledged stays in the store, through restarts and crashes. [RemoteTheorems]: a
    remote worker has the effect of a local one that asks for the 32 low bits of its batch size, a
    worker settles each claim once over any interleaving, [executions wait] reports what the store
    holds, references survive the wire and the command line, and a malformed request submits
    nothing.
    [MetaTheorems]: a metadata document reads back as what was written, and a document of another
    kind or with the wrong owner is refused. [FlowTheorems] is the contract of the whole: a run of
    a definition of Pass, Choice, Succeed and Fail states ends, through log and store, with the
    outcome the interpreter gives, failures included, and with the two deviations of a build
    without debug assertions; and evaluation through the cache is plain evaluation in every
    reachable state.

    ** Fuel and bounds

    Handlers are structural. The command loop takes the three attempts of the code. The recovery
    loop gets one step more than the log has entries, which is enough: [restart_keeps_data] proves
    that it returns. The tail loop of the leader never ends in the code; [run_leader] runs as many
    iterations as it is given, and the theorems are about the steps, for any number of them;
    [flow_computes_its_reference] proves that some number is enough to end a run, and that more
    changes nothing. The interpreter [flow_eval] takes one unit of fuel per state entered. The
    tailing read of the durable log sweeps once and finds nothing new in the second pass. A client
    that follows continue tokens needs one page more than there are objects. [executions_wait]
    reads as often as it is given; [cli_wait_reports_the_settlement] says how often is enough.

    ** What is not modelled

    The set-up of the server process; the encoding of messages and their transport (a request is
    handed to its service, with the identifier and the clock reading the server takes as
    arguments); argument parsing by clap; the tasks and shutdown of the asynchronous runtime;
    tracing; the derived serialization of the types. The waiting of a
    request is a function of the state of the process, so that any interleaving is a choice of it.
    The clock of the scheduler does not go back. The store and the log of [System] are the
    in-memory ones, whose operations do not fail; the persistent store is related to the in-memory
    one by [PersistentLeader], the durable log to the in-memory one operation by operation. The
    behaviour of the leader over a store whose operations fail is covered by the theorems stated
    over [Storage] (bounded attempts, acknowledgements). *)
From Stdlib Require Export ZArith Lia Ascii String.
From stdpp Require Export base tactics numbers list gmap strings sorting.

(** ** Outcomes

    A Rust function of the engine either returns a value, returns an error that
    its caller propagates with [?], or panics ([panic!], [unreachable!], a failed
    [expect] or [assert!]).  A panic is an outcome of its own: no caller handles
    it. *)
Inductive Res (E A : Type) : Type :=
  | Ok (a : A)
  | Err (e : E)
  | Panic (msg : string).
Arguments Ok {E A} a.
Arguments Err {E A} e.
Arguments Panic {E A} msg.

Definition res_map {E A B} (f : A -> B) (r : Res E A) : Res E B :=
  match r with Ok a => Ok (f a) | Err e => Err e | Panic m => Panic m end.

Definition res_bind {E A B} (r : Res E A) (k : A -> Res E B) : Res E B :=
  match r with Ok a => k a | Err e => Err e | Panic m => Panic m end.

Definition res_map_err {E F A} (f : E -> F) (r : Res E A) : Res F A :=
  match r with Ok a => Ok a | Err e => Err (f e) | Panic m => Panic m end.

(** [Option::ok_or]. *)
Definition ok_or {E A} (e : E) (o : option A) : Res E A :=
  match o with Some a => Ok a | None => Err e end.

Definition is_ok {E A} (r : Res E A) : bool :=
  match r with Ok _ => true | _ => false end.

(** ** The state and error monad of the handlers *)
Definition M (S E A : Type) : Type := S -> Res E A * S.

Definition ret {S E A} (a : A) : M S E A := fun s => (Ok a, s).
Definition throw {S E A} (e : E) : M S E A := fun s => (Err e, s).
Definition panic {S E A} (msg : string) : M S E A := fun s => (Panic msg, s).

Definition bind {S E A B} (m : M S E A) (k : A -> M S E B) : M S E B :=
  fun s => match m s with
           | (Ok a, s') => k a s'
           | (Err e, s') => (Err e, s')
           | (Panic msg, s') => (Panic msg, s')
           end.

(** [r.map_err(f)] followed by the implicit conversion of [?]. *)
Definition map_err {S E F A} (f : E -> F) (m : M S E A) : M S F A :=
  fun s => match m s with (r, s') => (res_map_err f r, s') end.

(** The result of a fallible call as a value ([match call.await { Ok(x) => .., Err(e) => .. }]).
    A panic is not caught. *)
Definition attempt {S E F A} (m : M S E A) : M S F (E + A) :=
  fun s => match m s with
           | (Ok a, s') => (Ok (inr a), s')
           | (Err e, s') => (Ok (inl e), s')
           | (Panic msg, s') => (Panic msg, s')
           end.

Definition lift_res {S E A} (r : Res E A) : M S E A := fun s => (r, s).
Definition get_st {S E} : M S E S := fun s => (Ok s, s).
Definition put_st {S E} (s : S) : M S E unit := fun _ => (Ok tt, s).

Declare Scope monad_scope.
Delimit Scope monad_scope with M.
Notation "'let*' x := m 'in' k" := (bind m (fun x => k))
  (at level 10, x pattern, m at level 100, k at level 200) : monad_scope.
Notation "m ;;; k" := (bind m (fun _ => k))
  (at level 199, right associativity) : monad_scope.
Open Scope monad_scope.

(** [for x in xs { .. }] with an effectful body. *)
Fixpoint forM_ {S E A} (l : list A) (f : A -> M S E unit) : M S E unit :=
  match l with
  | [] => ret tt
  | x :: l' => f x ;;; forM_ l' f
  end.

(** ** Relational reasoning on computations *)

(** [steps R m]: the state after [m], whatever its outcome short of a panic, is
    [R]-related to the state before it. *)
Definition not_panic {E A} (r : Res E A) : Prop :=
  match r with Panic _ => False | _ => True end.
Definition steps {S E A} (R : relation S) (m : M S E A) : Prop :=
  forall s, not_panic (m s).1 -> R s (m s).2.

Section Steps.
Context {S E : Type} (R : relation S) {HR : PreOrder R}.

Lemma steps_ret {A} (a : A) : steps (E:=E) R (ret a).
Proof. intros s _; simpl; reflexivity. Qed.

Lemma steps_throw {A} (e : E) : steps (A:=A) R (throw e).
Proof. intros s _; simpl; reflexivity. Qed.

Lemma steps_panic {A} msg : steps (E:=E) (A:=A) R (panic msg).
Proof. by intros s. Qed.

Lemma steps_lift_res {A} (r : Res E A) : steps R (lift_res r).
Proof. intros s _; simpl; reflexivity. Qed.

Lemma steps_get_st : steps (E:=E) R get_st.
Proof. intros s _; simpl; reflexivity. Qed.

Lemma steps_bind {A B} (m : M S E A) (k : A -> M S E B) :
  steps R m -> (forall a, steps R (k a)) -> steps R (bind m k).
Proof.
  intros Hm Hk s. unfold bind. specialize (Hm s).
  destruct (m s) as [[a|e|msg] s']; simpl in *; [|by auto..].
  intros Hp. etrans; [by apply Hm|by apply Hk].
Qed.

Lemma steps_map_err {F A} (f : E -> F) (m : M S E A) :
  steps R m -> steps R (map_err f m).
Proof.
  intros Hm s. specialize (Hm s). unfold map_err.
  by destruct (m s) as [[]].
Qed.

Lemma steps_attempt {F A} (m : M S E A) :
  steps R m -> steps (E:=F) R (attempt m).
Proof.
  intros Hm s. specialize (Hm s). unfold attempt. by destruct (m s) as [[]].
Qed.

Lemma steps_forM {A} (l : list A) (f : A -> M S E unit) :
  (forall x, x ∈ l -> steps R (f x)) -> steps R (forM_ l f).
Proof.
  induction l as [|x l IH]; intros Hf; simpl; [apply steps_ret|].
  apply steps_bind; [apply Hf; set_solver|intros _; apply IH; intros y Hy; apply Hf; set_solver].
Qed.
End Steps.

(** [sim R RA m1 m2]: from [R]-related states the two computations have related
    outcomes (values by [RA], the same error, the same panic) and end in
    [R]-related states. *)
Definition res_rel {E A B} (RA : A -> B -> Prop) (r1 : Res E A) (r2 : Res E B) : Prop :=
  match r1, r2 with
  | Ok a, Ok b => RA a b
  | Err e1, Err e2 => e1 = e2
  | Panic m1, Panic m2 => m1 = m2
  | _, _ => False
  end.

Definition sim {S1 S2 E A B} (R : S1 -> S2 -> Prop) (RA : A -> B -> Prop)
    (m1 : M S1 E A) (m2 : M S2 E B) : Prop :=
  forall s1 s2, R s1 s2 ->
    res_rel RA (m1 s1).1 (m2 s2).1 /\ R (m1 s1).2 (m2 s2).2.

Section Sim.
Context {S1 S2 E : Type} (R : S1 -> S2 -> Prop).

Lemma sim_ret {A B} (RA : A -> B -> Prop) a b :
  RA a b -> sim (E:=E) R RA (ret a) (ret b).
Proof. by intros ? s1 s2. Qed.

Lemma sim_throw {A B} (RA : A -> B -> Prop) (e : E) : sim R RA (throw e) (throw e).
Proof. by intros s1 s2. Qed.

Lemma sim_panic {A B} (RA : A -> B -> Prop) msg :
  sim (E:=E) R RA (panic msg) (panic msg).
Proof. by intros s1 s2. Qed.

Lemma sim_lift_res {A} (r : Res E A) : sim R eq (lift_res r) (lift_res r).
Proof. by intros s1 s2; destruct r. Qed.

Lemma sim_bind {A B A' B'} (RA : A -> B -> Prop) (RB : A' -> B' -> Prop)
    (m1 : M S1 E A) (m2 : M S2 E B) k1 k2 :
  sim R RA m1 m2 -> (forall a b, RA a b -> sim R RB (k1 a) (k2 b)) ->
  sim R RB (bind m1 k1) (bind m2 k2).
Proof.
  intros Hm Hk s1 s2 Hs. specialize (Hm s1 s2 Hs) as [Hr Hs'].
  unfold bind. destruct (m1 s1) as [[]], (m2 s2) as [[]]; simpl in *; try done.
  by apply Hk.
Qed.

Lemma sim_bind_eq {A A' B'} (RB : A' -> B' -> Prop)
    (m1 : M S1 E A) (m2 : M S2 E A) k1 k2 :
  sim R eq m1 m2 -> (forall a, sim R RB (k1 a) (k2 a)) ->
  sim R RB (bind m1 k1) (bind m2 k2).
Proof. intros Hm Hk. eapply sim_bind; [exact Hm|]. intros a ? <-. apply Hk. Qed.

Lemma sim_map_err {F A B} (RA : A -> B -> Prop) (f : E -> F) m1 m2 :
  sim R RA m1 m2 -> sim R RA (map_err f m1) (map_err f m2).
Proof.
  intros Hm s1 s2 Hs. specialize (Hm s1 s2 Hs) as [Hr Hs']. unfold map_err.
  destruct (m1 s1) as [[]], (m2 s2) as [[]]; simpl in *; by subst.
Qed.

Lemma sim_attempt {F A} (m1 : M S1 E A) (m2 : M S2 E A) :
  sim R eq m1 m2 -> sim (E:=F) R eq (attempt m1) (attempt m2).
Proof.
  intros Hm s1 s2 Hs. specialize (Hm s1 s2 Hs) as [Hr Hs']. unfold attempt.
  destruct (m1 s1) as [[]], (m2 s2) as [[]]; simpl in *; by subst.
Qed.

Lemma sim_forM {A} (l : list A) (f1 : A -> M S1 E unit) (f2 : A -> M S2 E unit) :
  (forall x, sim R eq (f1 x) (f2 x)) -> sim R eq (forM_ l f1) (forM_ l f2).
Proof.
  intros Hf. induction l as [|x l IH]; simpl; [by apply sim_ret|].
  apply sim_bind_eq; [apply Hf|done].
Qed.
End Sim.

(** The shared hint database: [steps] and [sim] goals over composed computations. *)
Create HintDb spica discriminated.
#[export] Hint Resolve steps_ret steps_throw steps_panic steps_lift_res steps_get_st
  steps_map_err steps_attempt sim_throw sim_panic sim_lift_res sim_map_err sim_attempt : spica.

(** Case analysis on every [match]/[if] scrutinee of the goal, remembering the equation. *)
Ltac split_match :=
  match goal with
  | |- context [match ?x with _ => _ end] => let H := fresh "Heq" in destruct x eqn:H
  end.

(** ** Machine integers *)
Definition u32_max : Z := 2 ^ 32 - 1.
Definition u64_max : Z := 2 ^ 64 - 1.
Definition i64_min : Z := - 2 ^ 63.
Definition i64_max : Z := 2 ^ 63 - 1.
Definition u128_max : Z := 2 ^ 128 - 1.

(** [u64::checked_add]. *)
Definition u64_checked_add (a b : Z) : option Z :=
  if decide (a + b <= u64_max)%Z then Some (a + b)%Z else None.
(** [u64::checked_mul]. *)
Definition u64_checked_mul (a b : Z) : option Z :=
  if decide (a * b <= u64_max)%Z then Some (a * b)%Z else None.
(** [u64::saturating_add] and [saturating_sub]. *)
Definition u64_saturating_add (a b : Z) : Z := Z.min (a + b) u64_max.
Definition u64_saturating_sub (a b : Z) : Z := Z.max 0 (a - b).
(** [v as u32], [v as u64], [v as i64]: truncation to the width. *)
Definition as_u32 (v : Z) : Z := (v mod 2 ^ 32)%Z.
Definition as_u64 (v : Z) : Z := (v mod 2 ^ 64)%Z.
Definition as_i64 (v : Z) : Z := ((v + 2 ^ 63) mod 2 ^ 64 - 2 ^ 63)%Z.

(** ** Strings (UTF-8 byte strings) *)
Definition starts_with (p s : string) : bool := String.prefix p s.

Fixpoint string_rev_app (s acc : string) : string :=
  match s with
  | EmptyString => acc
  | String c s' => string_rev_app s' (String c acc)
  end.
Definition string_rev (s : string) : string := string_rev_app s "".

Definition ends_with (p s : string) : bool := String.prefix (string_rev p) (string_rev s).

Fixpoint string_forallb (f : Ascii.ascii -> bool) (s : string) : bool :=
  match s with
  | EmptyString => true
  | String c s' => f c && string_forallb f s'
  end.

(** [str::split_once(c)]. *)
Fixpoint split_once (c : Ascii.ascii) (s : string) : option (string * string) :=
  match s with
  | EmptyString => None
  | String d s' =>
      if Ascii.eqb d c then Some (""%string, s')
      else match split_once c s' with
           | Some (a, b) => Some (String d a, b)
           | None => None
           end
  end.

Fixpoint string_join (sep : string) (l : list string) : string :=
  match l with
  | [] => ""
  | [x] => x
  | x :: l' => x +:+ sep +:+ string_join sep l'
  end.

(** [format!("{:?}", s)] of a string whose characters are printable or ASCII. *)
Definition hex_digit (n : nat) : Ascii.ascii :=
  Ascii.ascii_of_nat (if (n <? 10)%nat then 48 + n else 87 + n).
Definition escape_debug (c : Ascii.ascii) : string :=
  let n := Ascii.nat_of_ascii c in
  let bs := String (Ascii.ascii_of_nat 92) "" in
  if (n =? 0)%nat then bs +:+ "0" else if (n =? 9)%nat then bs +:+ "t"
  else if (n =? 10)%nat then bs +:+ "n" else if (n =? 13)%nat then bs +:+ "r"
  else if (n =? 34)%nat || (n =? 92)%nat then bs +:+ String c ""
  else if (n <? 16)%nat then bs +:+ "u{" +:+ String (hex_digit n) "}"
  else if (n <? 32)%nat || (n =? 127)%nat then
    bs +:+ "u{" +:+ String (hex_digit (n / 16)) (String (hex_digit (n mod 16)) "}")
  else String c "".
Fixpoint escape_debug_all (s : string) : string :=
  match s with EmptyString => "" | String c s' => escape_debug c +:+ escape_debug_all s' end.
Definition quote : string := String (Ascii.ascii_of_nat 34) "".
Definition debug_str (s : string) : string := quote +:+ escape_debug_all s +:+ quote.
Definition debug_opt_str (o : option string) : string :=
  match o with None => "None" | Some s => "Some(" +:+ debug_str s +:+ ")" end.

(** ** Build profile

    [debug_assertions] is the profile's flag: it compiles [debug_assert!] in, and by
    default turns integer overflow into a panic instead of a wrap-around. *)
Class Profile : Type := debug_assertions : bool.

(** [a + b] on [u32]. *)
Definition u32_add `{Profile} {E} (a b : Z) : Res E Z :=
  if decide (a + b <= u32_max)%Z then Ok (a + b)%Z
  else if debug_assertions then Panic "attempt to add with overflow"
  else Ok (as_u32 (a + b)).
(** [a + b] on [i64]. *)
Definition i64_add `{Profile} {E} (a b : Z) : Res E Z :=
  if decide (i64_min <= a + b <= i64_max)%Z then Ok (a + b)%Z
  else if debug_assertions then Panic "attempt to add with overflow"
  else Ok (as_i64 (a + b)).
