(* ===== verification/ByteStrings.v ===== *)
(** Byte strings as keys: prefixes and the byte-wise order of [\[u8\]] (also [str]'s), with
    the facts a forward scan over an ordered key space relies on. *)
From S2P Require Import Prelude.
Local Open Scope string_scope.

(** ** Prefixes *)

Lemma starts_with_app p s : starts_with p (p +:+ s) = true.
Proof.
  unfold starts_with. induction p as [|c p IH]; simpl; [by destruct s|].
  by destruct (ascii_dec c c).
Qed.

Lemma starts_with_split p s : starts_with p s = true <-> exists r, s = p +:+ r.
Proof.
  unfold starts_with. split.
  - revert s. induction p as [|c p IH]; intros s Hp; [by exists s|].
    destruct s as [|d s]; [done|]. simpl in Hp. destruct (ascii_dec c d) as [->|]; [|done].
    destruct (IH _ Hp) as [r ->]. by exists r.
  - intros [r ->]. apply starts_with_app.
Qed.

Lemma string_app_inj (a b c : string) : a +:+ b = a +:+ c -> b = c.
Proof. induction a as [|x a IH]; simpl; [done|]. intros [= H]. auto. Qed.

Lemma string_app_assoc (a b c : string) : a +:+ (b +:+ c) = (a +:+ b) +:+ c.
Proof. induction a as [|x a IH]; simpl; [done|]. exact (f_equal (String x) IH). Qed.

Lemma string_app_nil_r (a : string) : a +:+ "" = a.
Proof. induction a as [|x a IH]; simpl; [done|]. exact (f_equal (String x) IH). Qed.

(** The bytes of [s] from [n] on ([&s\[n..\]], which panics beyond the end). *)
Fixpoint slice_from (n : nat) (s : string) : option string :=
  match n, s with
  | O, _ => Some s
  | S _, EmptyString => None
  | S n', String _ s' => slice_from n' s'
  end.

Lemma slice_from_app p s : slice_from (String.length p) (p +:+ s) = Some s.
Proof. induction p as [|c p IH]; simpl; [by destruct s|done]. Qed.

(** ** The byte-wise order *)

Definition str_lt (a b : string) : Prop := String.compare a b = Lt.
Definition str_le (a b : string) : Prop := String.compare a b <> Gt.
#[export] Instance str_lt_dec a b : Decision (str_lt a b).
Proof. unfold str_lt. destruct (String.compare a b); [right|left|right]; done. Defined.
#[export] Instance str_le_dec a b : Decision (str_le a b).
Proof. unfold str_le. destruct (String.compare a b); [left|left|right]; naive_solver. Defined.

Lemma ascii_compare_refl c : Ascii.compare c c = Eq.
Proof. unfold Ascii.compare. apply N.compare_refl. Qed.
Lemma ascii_compare_eq c d : Ascii.compare c d = Eq -> c = d.
Proof. apply Ascii.compare_eq_iff. Qed.

Lemma str_compare_refl a : String.compare a a = Eq.
Proof. induction a as [|c a IH]; simpl; [done|]. by rewrite ascii_compare_refl. Qed.

Lemma str_lt_trans a b c : str_lt a b -> str_lt b c -> str_lt a c.
Proof.
  unfold str_lt. revert b c.
  induction a as [|x a IH]; intros [|y b] [|z c]; simpl; try done.
  unfold Ascii.compare.
  destruct (N.compare_spec (N_of_ascii x) (N_of_ascii y)) as [Exy|Lxy|];
    destruct (N.compare_spec (N_of_ascii y) (N_of_ascii z)) as [Eyz|Lyz|]; intros Hab Hbc; try done.
  - rewrite Exy, Eyz, N.compare_refl. eauto.
  - rewrite Exy. apply N.compare_lt_iff in Lyz. by rewrite Lyz.
  - rewrite <- Eyz. apply N.compare_lt_iff in Lxy. by rewrite Lxy.
  - assert (N_of_ascii x < N_of_ascii z)%N as ->%N.compare_lt_iff by lia. done.
Qed.

Lemma str_lt_irrefl a : ~ str_lt a a.
Proof. unfold str_lt. by rewrite str_compare_refl. Qed.

Lemma str_lt_not_le a b : str_lt a b <-> ~ str_le b a.
Proof.
  unfold str_lt, str_le. rewrite (String.compare_antisym b a).
  destruct (String.compare a b); simpl; split; intros H; try congruence; exfalso; by apply H.
Qed.

Lemma str_le_lt_eq a b : str_le a b <-> str_lt a b \/ a = b.
Proof.
  unfold str_lt, str_le. destruct (String.compare a b) eqn:E.
  - apply String.compare_eq_iff in E. naive_solver.
  - naive_solver.
  - split; [done|]. intros [?| ->]; [done|]. by rewrite str_compare_refl in E.
Qed.

#[export] Instance str_le_preorder : PreOrder str_le.
Proof.
  split.
  - intros a. apply str_le_lt_eq. auto.
  - intros a b c. rewrite !str_le_lt_eq. intros [Hab| ->] [Hbc| ->]; auto.
    left. by eapply str_lt_trans.
Qed.
#[export] Instance str_le_total : Total str_le.
Proof.
  intros a b. unfold str_le. rewrite (String.compare_antisym b a).
  destruct (String.compare a b); simpl; [left|left|right]; done.
Qed.
#[export] Instance str_le_antisymm : AntiSymm (=) str_le.
Proof.
  intros a b. rewrite !str_le_lt_eq. intros [Hab|?] [Hba|?]; try done.
  destruct (str_lt_irrefl a). by eapply str_lt_trans.
Qed.

Lemma str_le_lt_trans a b c : str_le a b -> str_lt b c -> str_lt a c.
Proof. rewrite str_le_lt_eq. intros [?| ->] ?; [by eapply str_lt_trans|done]. Qed.

(** ** Prefixes are ranges of the order *)

Lemma prefix_le p s : starts_with p s = true -> str_le p s.
Proof.
  rewrite starts_with_split. intros [r ->]. unfold str_le.
  induction p as [|c p IH]; simpl; [by destruct r|]. by rewrite ascii_compare_refl.
Qed.

(** Between a prefix and a string that has it, every string has it. *)
Lemma prefix_convex p a b :
  str_le p a -> str_le a b -> starts_with p b = true -> starts_with p a = true.
Proof.
  unfold str_le, starts_with. revert a b. induction p as [|c p IH]; intros a b; [by destruct a|].
  destruct b as [|e b]; [by destruct a|]. destruct a as [|d a]; [done|]. simpl.
  unfold Ascii.compare.
  destruct (ascii_dec c e) as [<-|]; [|done].
  destruct (N.compare_spec (N_of_ascii c) (N_of_ascii d)) as [Ecd|Lcd|]; [|..|done].
  - rewrite Ecd, N.compare_refl.
    assert (c = d) as <- by (by rewrite <- (ascii_N_embedding c), Ecd, ascii_N_embedding).
    destruct (ascii_dec c c); [|done]. eauto.
  - assert ((N_of_ascii d ?= N_of_ascii c)%N = Gt) as -> by by apply N.compare_gt_iff. done.
Qed.
Lemma str_app_cancel p a b : String.compare (p +:+ a) (p +:+ b) = String.compare a b.
Proof. induction p as [|c p IH]; simpl; [done|]. by rewrite ascii_compare_refl. Qed.
