(* ===== verification/Timestamp.v ===== *)
(** Time and identity seams of [crates/machinery/src]: [Timestamp] (an absolute
    instant, [u64] milliseconds since the epoch), the injected [Clock] and
    [IdGenerator], and the test doubles [ManualClock] and [CountingIdGenerator]. *)
From S2P Require Import Prelude.
Local Open Scope Z_scope.

(** ** Timestamp *)

(** [pub struct Timestamp(u64)]. *)
Definition Timestamp : Type := Z.
Definition ts_wf (t : Timestamp) : Prop := 0 <= t <= u64_max.

Definition from_millis (millis : Z) : Timestamp := millis.
Definition as_millis (t : Timestamp) : Z := t.

(** A [std::time::Duration] built by [Duration::from_secs] / [from_millis], by its
    exact number of milliseconds ([as_millis] is a [u128]: no wrap for a [u64] of
    seconds). *)
Definition Duration : Type := Z.
Definition from_secs (secs : Z) : Duration := secs * 1000.

(** [Timestamp::checked_add]: the duration's milliseconds must fit a [u64], and so
    must the sum. *)
Definition checked_add (t : Timestamp) (d : Duration) : option Timestamp :=
  if decide (d <= u64_max) then u64_checked_add t d else None.

(** [Timestamp::saturating_duration_since]. *)
Definition saturating_duration_since (t earlier : Timestamp) : Duration :=
  u64_saturating_sub t earlier.

(** [Timestamp::from_rfc3339] after the third-party parse: [unix] is
    [dt.unix_timestamp()] (an [i64]), [ms] is [dt.millisecond()]. *)
Definition from_unix_parts (unix ms : Z) : option Timestamp :=
  if decide (0 <= unix) then
    match u64_checked_mul unix 1000 with
    | Some m => Some (u64_saturating_add m ms)
    | None => None
    end
  else None.

(** ** Clock and IdGenerator *)

(** [trait Clock]: the n-th reading of the injected clock. *)
Definition Clock : Type := nat -> Timestamp.

(** [trait IdGenerator]: the n-th minted ULID (a [u128]). *)
Definition Ulid : Type := Z.
Definition ulid_nil : Ulid := 0.
Definition IdGenerator : Type := nat -> Ulid.

(** [ManualClock]: [advance] saturates on both the step and the sum, [set] stores. *)
Record ManualClock := { mc_millis : Z }.
Definition manual_new (at_ : Timestamp) : ManualClock := {| mc_millis := as_millis at_ |}.
Definition manual_set (c : ManualClock) (at_ : Timestamp) : ManualClock :=
  {| mc_millis := as_millis at_ |}.
Definition manual_now (c : ManualClock) : Timestamp := from_millis (mc_millis c).
Definition manual_advance (c : ManualClock) (by_ : Duration) : Timestamp * ManualClock :=
  let step := if decide (by_ <= u64_max) then by_ else u64_max in
  let next := from_millis (u64_saturating_add (mc_millis c) step) in
  (next, manual_set c next).

(** [CountingIdGenerator]: [fetch_add] on an [AtomicU64] wraps at the width. *)
Record CountingIdGenerator := { cg_next : Z }.
Definition counting_starting_at (first : Z) : CountingIdGenerator := {| cg_next := first |}.
Definition next_ulid (g : CountingIdGenerator) : Ulid * CountingIdGenerator :=
  (cg_next g, {| cg_next := as_u64 (cg_next g + 1) |}).

(** ** Properties *)

Lemma u64_checked_add_Some a b c :
  u64_checked_add a b = Some c <-> c = a + b /\ a + b <= u64_max.
Proof. unfold u64_checked_add. case_decide; naive_solver lia. Qed.

(** A deadline is either the exact sum or refused: it is never in the past of its
    base, and never leaves the [u64] range. *)
Lemma checked_add_exact t d t' :
  ts_wf t -> 0 <= d -> checked_add t d = Some t' -> t' = t + d /\ t <= t' /\ ts_wf t'.
Proof.
  unfold checked_add, ts_wf. intros Ht Hd H. case_decide; [|done].
  apply u64_checked_add_Some in H as [-> ?]. lia.
Qed.

Lemma checked_add_None_iff t d :
  ts_wf t -> 0 <= d -> checked_add t d = None <-> u64_max < t + d.
Proof.
  unfold checked_add, u64_checked_add, ts_wf. intros Ht Hd.
  split; repeat case_decide; intros; try done; lia.
Qed.

Lemma manual_advance_monotone c d :
  ts_wf (mc_millis c) -> 0 <= d ->
  mc_millis c <= (manual_advance c d).1 /\ ts_wf (manual_advance c d).1 /\
  manual_now (manual_advance c d).2 = (manual_advance c d).1.
Proof.
  unfold manual_advance, manual_now, manual_set, from_millis, as_millis, ts_wf,
    u64_saturating_add, u64_max; simpl. case_decide; lia.
Qed.
