(* ===== verification/Names.v ===== *)
(** Object names ([crates/machinery/src/name.rs]): user-supplied plain names, the
    system's generated names [{base}-{suffix}], their validation, printing, parsing
    and order. *)
From S2P Require Import Prelude.
From Stdlib Require Import DecimalString DecimalN Decimal DecimalFacts.
Local Open Scope string_scope.

(** ** Decimal [u64] printing and parsing *)

(** [impl Display for u64]. *)
Definition u64_to_string (n : Z) : string :=
  NilZero.string_of_uint (N.to_uint (Z.to_N n)).

Arguments u64_to_string : simpl never.

(** [str::parse::<u64>()]: one optional [+], then at least one digit, and the value
    must fit. *)
Definition u64_from_str (s : string) : option Z :=
  let digits := match s with String "+"%char s' => s' | _ => s end in
  match digits with
  | EmptyString => None
  | _ =>
      match NilEmpty.uint_of_string digits with
      | Some d =>
          let v := Z.of_N (N.of_uint d) in
          if decide (v <= u64_max)%Z then Some v else None
      | None => None
      end
  end.

(** ** Names *)

(** [enum NameError]. *)
Inductive NameError := Invalid (msg : string).

(** [struct PlainName(String)]; [ScopeName] and [FlowName] are aliases. *)
Record PlainName := mkPlainName { pn_str : string }.

(** [enum ObjectName] with [struct GeneratedName { base, suffix }] inlined. *)
Inductive ObjectName :=
  | Plain (p : PlainName)
  | Generated (base : PlainName) (suffix : Z).

#[export] Instance PlainName_eq_dec : EqDecision PlainName.
Proof. solve_decision. Defined.
#[export] Instance PlainName_countable : Countable PlainName.
Proof. by refine (inj_countable' pn_str mkPlainName _); intros []. Defined.
#[export] Instance ObjectName_eq_dec : EqDecision ObjectName.
Proof. solve_decision. Defined.
#[export] Instance ObjectName_countable : Countable ObjectName.
Proof.
  refine (inj_countable'
    (fun n => match n with Plain p => inl p | Generated b k => inr (b, k) end)
    (fun x => match x with inl p => Plain p | inr (b, k) => Generated b k end) _).
  by intros [].
Defined.

(** [u8::is_ascii_alphanumeric]. *)
Definition is_ascii_alphanumeric (c : Ascii.ascii) : bool :=
  let n := Ascii.nat_of_ascii c in
  ((48 <=? n) && (n <=? 57))%nat || ((65 <=? n) && (n <=? 90))%nat ||
  ((97 <=? n) && (n <=? 122))%nat.

Definition plain_byte (c : Ascii.ascii) : bool :=
  is_ascii_alphanumeric c || Ascii.eqb c "_"%char.
Definition object_byte (c : Ascii.ascii) : bool :=
  is_ascii_alphanumeric c || Ascii.eqb c "_"%char || Ascii.eqb c "-"%char.

Definition first_alphanumeric (raw : string) : bool :=
  match raw with String c _ => is_ascii_alphanumeric c | EmptyString => false end.

(** The validity test of [PlainName::new]. *)
Definition plain_valid (raw : string) : bool :=
  (4 <=? String.length raw)%nat && (String.length raw <=? 64)%nat &&
  first_alphanumeric raw && string_forallb plain_byte raw.

(** [PlainName::new]. *)
Definition PlainName_new (raw : string) : Res NameError PlainName :=
  if plain_valid raw then Ok (mkPlainName raw)
  else Err (Invalid ("invalid plain object name " +:+ debug_str raw +:+
    ": must be 4..=64 chars of A-Za-z0-9_; '-' is reserved for generated names")).

(** [PlainName::generated_from_key]. *)
Definition generated_from_key (p : PlainName) (key : Z) : ObjectName := Generated p key.

(** [ObjectName::plain], [base], [suffix], [as_plain], [is_generated]. *)
Definition ObjectName_plain (raw : string) : Res NameError ObjectName :=
  res_map Plain (PlainName_new raw).
Definition base (n : ObjectName) : PlainName :=
  match n with Plain p => p | Generated b _ => b end.
Definition suffix (n : ObjectName) : option Z :=
  match n with Plain _ => None | Generated _ k => Some k end.
Definition as_plain (n : ObjectName) : option PlainName :=
  match n with Plain p => Some p | Generated _ _ => None end.
Definition is_generated (n : ObjectName) : bool :=
  match n with Plain _ => false | Generated _ _ => true end.

(** [ObjectName::as_str] (also [Display] and [Serialize]). *)
Definition as_str (n : ObjectName) : string :=
  match n with
  | Plain p => pn_str p
  | Generated b k => pn_str b +:+ "-" +:+ u64_to_string k
  end.

(** [ObjectName::from_parsed] (also [FromStr] and [Deserialize]). *)
Definition from_parsed (raw : string) : Res NameError ObjectName :=
  if first_alphanumeric raw && string_forallb object_byte raw then
    match split_once "-"%char raw with
    | Some (b, sfx) =>
        match u64_from_str sfx with
        | Some k => res_map (fun p => generated_from_key p k) (PlainName_new b)
        | None => Err (Invalid ("invalid generateName suffix " +:+ debug_str sfx +:+
                                ": must be a decimal u64"))
        end
    | None => res_map Plain (PlainName_new raw)
    end
  else Err (Invalid ("invalid object name " +:+ debug_str raw +:+ " in address")).

(** [impl Ord for ObjectName]: the order of the printed names, byte by byte. *)
Definition name_cmp (a b : ObjectName) : comparison := String.compare (as_str a) (as_str b).

(** The values the constructors of the crate build: a validated base, a [u64] suffix. *)
Definition plain_wf (p : PlainName) : Prop := plain_valid (pn_str p) = true.
Definition name_wf (n : ObjectName) : Prop :=
  match n with
  | Plain p => plain_wf p
  | Generated b k => plain_wf b /\ (0 <= k <= u64_max)%Z
  end.
#[export] Instance name_wf_dec n : Decision (name_wf n).
Proof. destruct n; simpl; unfold plain_wf; apply _. Defined.

(** ** Strings *)

Lemma forallb_app f a b :
  string_forallb f (a +:+ b) = string_forallb f a && string_forallb f b.
Proof. induction a as [|c a IH]; simpl; [done|]. by rewrite IH, andb_assoc. Qed.

Lemma forallb_impl (f g : Ascii.ascii -> bool) s :
  (forall c, f c = true -> g c = true) -> string_forallb f s = true ->
  string_forallb g s = true.
Proof.
  intros Hfg. induction s as [|c s IH]; simpl; [done|].
  rewrite !andb_true_iff. naive_solver.
Qed.

Lemma split_once_app c a b :
  string_forallb (fun d => negb (Ascii.eqb d c)) a = true ->
  split_once c (a +:+ String c b) = Some (a, b).
Proof.
  induction a as [|d a IH]; simpl.
  - by rewrite Ascii.eqb_refl.
  - rewrite andb_true_iff, negb_true_iff. intros [-> Ha]. by rewrite (IH Ha).
Qed.

Lemma split_once_sep c a b :
  string_forallb (fun d => negb (Ascii.eqb d c)) a = true ->
  split_once c (a +:+ (String c "" +:+ b)) = Some (a, b).
Proof. apply split_once_app. Qed.

Lemma split_once_none c a :
  string_forallb (fun d => negb (Ascii.eqb d c)) a = true -> split_once c a = None.
Proof.
  induction a as [|d a IH]; simpl; [done|].
  rewrite andb_true_iff, negb_true_iff. intros [-> Ha]. by rewrite (IH Ha).
Qed.

Definition is_digit (c : Ascii.ascii) : bool :=
  let n := Ascii.nat_of_ascii c in ((48 <=? n) && (n <=? 57))%nat.

Lemma string_of_uint_digits d :
  string_forallb is_digit (NilEmpty.string_of_uint d) = true.
Proof. induction d; simpl; auto. Qed.

Lemma u64_to_string_digits n : string_forallb is_digit (u64_to_string n) = true.
Proof.
  unfold u64_to_string, NilZero.string_of_uint.
  destruct (N.to_uint (Z.to_N n)); [done|apply string_of_uint_digits..].
Qed.

Lemma u64_to_string_nonempty n :
  exists c s, u64_to_string n = String c s /\ is_digit c = true.
Proof.
  unfold u64_to_string, NilZero.string_of_uint.
  destruct (N.to_uint (Z.to_N n)); simpl; eauto.
Qed.

Lemma to_uint_nonnil n : N.to_uint n <> Nil.
Proof.
  intros Hn. assert (nzhead (N.to_uint n) = N.to_uint n \/ N.to_uint n = Nil) by auto.
  destruct n as [|p]; simpl in *; [done|].
  revert Hn. apply DecimalPos.Unsigned.to_uint_nonnil.
Qed.

(** Printing a [u64] and parsing it back is the identity. *)
Lemma u64_roundtrip n : (0 <= n <= u64_max)%Z -> u64_from_str (u64_to_string n) = Some n.
Proof.
  intros Hn. unfold u64_from_str.
  destruct (u64_to_string_nonempty n) as (c & s & Hs & Hc).
  assert (c <> "+"%char) as Hplus by (intros ->; done).
  assert (match u64_to_string n with String "+" s' => s' | _ => u64_to_string n end
          = u64_to_string n) as ->.
  { rewrite Hs. destruct c as [[] [] [] [] [] [] [] []]; done. }
  rewrite Hs, <- Hs.
  assert (NilEmpty.uint_of_string (u64_to_string n) = Some (N.to_uint (Z.to_N n))) as ->.
  { unfold u64_to_string, NilZero.string_of_uint.
    pose proof (to_uint_nonnil (Z.to_N n)).
    destruct (N.to_uint (Z.to_N n)) eqn:E; [done|..]; rewrite <- E; apply NilEmpty.usu. }
  rewrite DecimalN.Unsigned.of_to, Z2N.id by lia. by rewrite decide_True by lia.
Qed.

Lemma digit_plain c : is_digit c = true -> object_byte c = true.
Proof.
  unfold object_byte, is_ascii_alphanumeric, is_digit. by intros ->.
Qed.

Lemma plain_object c : plain_byte c = true -> object_byte c = true.
Proof. unfold plain_byte, object_byte. by intros ->. Qed.

Lemma plain_no_dash c : plain_byte c = true -> negb (Ascii.eqb c "-"%char) = true.
Proof. destruct c as [[] [] [] [] [] [] [] []]; done. Qed.

Lemma plain_valid_parts raw :
  plain_valid raw = true ->
  first_alphanumeric raw = true /\ string_forallb plain_byte raw = true.
Proof. unfold plain_valid. rewrite !andb_true_iff. tauto. Qed.

Lemma first_alphanumeric_app a b :
  first_alphanumeric a = true -> first_alphanumeric (a +:+ b) = true.
Proof. by destruct a. Qed.

Lemma PlainName_new_wf p : plain_wf p -> PlainName_new (pn_str p) = Ok p.
Proof. unfold PlainName_new, plain_wf. intros ->. by destruct p. Qed.

Lemma plain_as_str_no_dash p :
  plain_wf p -> string_forallb (fun d => negb (Ascii.eqb d "-"%char)) (pn_str p) = true.
Proof.
  intros [_ Hp]%plain_valid_parts. eapply forallb_impl, Hp. apply plain_no_dash.
Qed.

(** Printing then parsing a name built by the crate gives the same name back. *)
Lemma name_roundtrip n : name_wf n -> from_parsed (as_str n) = Ok n.
Proof.
  unfold from_parsed. destruct n as [p|b k]; simpl.
  - intros Hp. destruct (plain_valid_parts _ Hp) as [H1 H2].
    rewrite H1, (forallb_impl _ _ _ plain_object H2), split_once_none
      by by apply plain_as_str_no_dash.
    simpl. by rewrite PlainName_new_wf.
  - intros [Hb Hk]. destruct (plain_valid_parts _ Hb) as [H1 H2].
    rewrite first_alphanumeric_app by done.
    pose proof (forallb_impl _ _ _ digit_plain (u64_to_string_digits k)) as H3.
    rewrite forallb_app, (forallb_impl _ _ _ plain_object H2). cbn [andb].
    change ("-" +:+ u64_to_string k) with (String "-"%char (u64_to_string k)).
    cbn [string_forallb]. rewrite H3. cbn.
    rewrite split_once_app by by apply plain_as_str_no_dash.
    by rewrite u64_roundtrip, PlainName_new_wf.
Qed.

(** What the parser accepts is well formed. *)
Lemma PlainName_new_ok raw p : PlainName_new raw = Ok p -> plain_wf p /\ pn_str p = raw.
Proof.
  unfold PlainName_new, plain_wf. destruct (plain_valid raw) eqn:E; naive_solver.
Qed.

Lemma u64_from_str_bound s k : u64_from_str s = Some k -> (0 <= k <= u64_max)%Z.
Proof.
  unfold u64_from_str. intros H. repeat (case_match; simplify_eq; try done); lia.
Qed.

Lemma from_parsed_wf raw n : from_parsed raw = Ok n -> name_wf n.
Proof.
  unfold from_parsed. case_match; [|done].
  destruct (split_once _ raw) as [[b s]|] eqn:Hs.
  - destruct (u64_from_str s) as [k|] eqn:Hk; [|done].
    destruct (PlainName_new b) as [p|e|m] eqn:Hp; intros H'; simplify_eq/=.
    split; [by eapply PlainName_new_ok|by eapply u64_from_str_bound].
  - destruct (PlainName_new raw) as [p|e|m] eqn:Hp; intros H'; simplify_eq/=.
    by eapply PlainName_new_ok.
Qed.

Lemma as_str_inj n m : name_wf n -> name_wf m -> as_str n = as_str m -> n = m.
Proof.
  intros Hn Hm H. apply (f_equal from_parsed) in H.
  rewrite !name_roundtrip in H by done. congruence.
Qed.
