(* ===== verification/Float64.v ===== *)
(** The [f64] operations the engine uses (retry backoff, JSONata numbers): values of
    the Standard Library's executable binary format, conversions from and to machine
    integers, exact comparison, [min], [max], [ceil] and the [fract() == 0.0] test.
    [powf] is not here: Rust leaves its precision unspecified, so it is a parameter
    where it is used. *)
From S2P Require Import Prelude.
From Stdlib Require Export SpecFloat.
Local Open Scope Z_scope.

Definition f64 : Type := spec_float.

(** The integer magnitude of a finite value: [m * 2^e] rounded towards zero and away
    from zero. *)
Definition mag_floor (m : positive) (e : Z) : Z :=
  if decide (0 <= e) then Z.pos m * 2 ^ e else Z.pos m / 2 ^ (- e).
Definition mag_ceil (m : positive) (e : Z) : Z :=
  if decide (0 <= e) then Z.pos m * 2 ^ e else - ((- Z.pos m) / 2 ^ (- e)).

(** [n as f64] for an integer: round to nearest, ties to even, in canonical form
    (a 53-bit mantissa). *)
Definition f64_of_pos (p : positive) : positive * Z :=
  let d := Z.log2 (Z.pos p) + 1 in
  if decide (d <= 53) then (Z.to_pos (Z.pos p * 2 ^ (53 - d)), d - 53)
  else
    let k := d - 53 in
    let q := Z.pos p / 2 ^ k in
    let r := Z.pos p mod 2 ^ k in
    let half := 2 ^ (k - 1) in
    let q' := if decide (r < half) then q
              else if decide (half < r) then q + 1
              else if Z.even q then q else q + 1 in
    if decide (q' = 2 ^ 53) then (Z.to_pos (2 ^ 52), k + 1) else (Z.to_pos q', k).
Definition f64_of_Z (z : Z) : f64 :=
  match z with
  | Z0 => S754_zero false
  | Zpos p => let '(m, e) := f64_of_pos p in S754_finite false m e
  | Zneg p => let '(m, e) := f64_of_pos p in S754_finite true m e
  end.

Definition f64_one : f64 := f64_of_Z 1.
Definition f64_zero : f64 := S754_zero false.

(** [a * b]. *)
Definition f64_mul (a b : f64) : f64 := SFmul 53 1024 a b.

(** [f64::is_finite], [f64::is_nan]. *)
Definition f64_is_finite (a : f64) : bool :=
  match a with S754_zero _ | S754_finite _ _ _ => true | _ => false end.
Definition f64_is_nan (a : f64) : bool :=
  match a with S754_nan => true | _ => false end.

(** [partial_cmp]: the exact order of the values; [None] on a NaN. *)
Definition scaled (s : bool) (m : positive) (e emin : Z) : Z :=
  (if s then -1 else 1) * Z.pos m * 2 ^ (e - emin).
Definition f64_partial_cmp (a b : f64) : option comparison :=
  match a, b with
  | S754_nan, _ | _, S754_nan => None
  | S754_zero _, S754_zero _ => Some Eq
  | S754_zero _, S754_finite s _ _ | S754_zero _, S754_infinity s =>
      Some (if s then Gt else Lt)
  | S754_finite s _ _, S754_zero _ | S754_infinity s, S754_zero _ =>
      Some (if s then Lt else Gt)
  | S754_infinity s1, S754_infinity s2 =>
      Some (match s1, s2 with true, false => Lt | false, true => Gt | _, _ => Eq end)
  | S754_infinity s, S754_finite _ _ _ => Some (if s then Lt else Gt)
  | S754_finite _ _ _, S754_infinity s => Some (if s then Gt else Lt)
  | S754_finite s1 m1 e1, S754_finite s2 m2 e2 =>
      let emin := Z.min e1 e2 in
      Some (Z.compare (scaled s1 m1 e1 emin) (scaled s2 m2 e2 emin))
  end.
Definition f64_lt (a b : f64) : bool :=
  match f64_partial_cmp a b with Some Lt => true | _ => false end.
Definition f64_le (a b : f64) : bool :=
  match f64_partial_cmp a b with Some Lt | Some Eq => true | _ => false end.

(** [f64::min], [f64::max]: a NaN operand yields the other operand. *)
Definition f64_min (a b : f64) : f64 :=
  if f64_is_nan a then b else if f64_is_nan b then a else if f64_lt b a then b else a.
Definition f64_max (a b : f64) : f64 :=
  if f64_is_nan a then b else if f64_is_nan b then a else if f64_lt a b then b else a.

(** [f64::ceil]. *)
Definition f64_ceil (a : f64) : f64 :=
  match a with
  | S754_finite s m e =>
      if decide (0 <= e) then a
      else if s then
        match mag_floor m e with Z0 => S754_zero true | z => f64_of_Z (- z) end
      else f64_of_Z (mag_ceil m e)
  | _ => a
  end.

(** [f.fract() == 0.0]: false on NaN and the infinities. *)
Definition f64_fract_is_zero (a : f64) : bool :=
  match a with
  | S754_zero _ => true
  | S754_finite _ m e =>
      if decide (0 <= e) then true else bool_decide (Z.pos m mod 2 ^ (- e) = 0)
  | _ => false
  end.

(** [f as u64], [f as usize], [f as i64]: truncate, saturate, NaN to zero. *)
Definition f64_trunc_sat (lo hi : Z) (a : f64) : Z :=
  match a with
  | S754_nan | S754_zero _ => 0
  | S754_infinity s => if s then lo else hi
  | S754_finite s m e =>
      let v := if s then - mag_floor m e else mag_floor m e in
      Z.max lo (Z.min hi v)
  end.
Definition f64_as_u64 : f64 -> Z := f64_trunc_sat 0 u64_max.
Definition f64_as_usize : f64 -> Z := f64_trunc_sat 0 u64_max.
Definition f64_as_i64 : f64 -> Z := f64_trunc_sat i64_min i64_max.

(** ** Lemmas *)


Lemma f64_one_eq : f64_one = S754_finite false 4503599627370496 (-52).
Proof. reflexivity. Qed.

(** A value that is not below [1.0] truncates to at least one. *)
Lemma as_u64_ge_one a :
  f64_is_nan a = false -> f64_lt a f64_one = false -> 1 <= f64_as_u64 a.
Proof.
  destruct a as [s|s| |s m e]; intros Hnan Hlt; try done; try (by destruct s).
  destruct s.
  - exfalso. revert Hlt. rewrite f64_one_eq. unfold f64_lt, f64_partial_cmp. cbv zeta.
    set (emin := Z.min e _).
    assert (scaled true m e emin < scaled false 4503599627370496 (-52) emin) as Hl.
    { unfold scaled. pose proof (Z.pow_pos_nonneg 2 (e - emin)).
      pose proof (Z.pow_pos_nonneg 2 (-52 - emin)). nia. }
    apply Z.compare_lt_iff in Hl. by rewrite Hl.
  - assert (1 <= mag_floor m e) as Hfl.
    { revert Hlt. rewrite f64_one_eq. unfold f64_lt, f64_partial_cmp. cbv zeta.
      set (emin := Z.min e _). destruct (Z.compare_spec (scaled false m e emin)
        (scaled false 4503599627370496 (-52) emin)) as [H|H|H]; intros; try done;
      (assert (scaled false 4503599627370496 (-52) emin <= scaled false m e emin) as Hle by lia;
       clear H; unfold scaled, mag_floor in *; case_decide as He;
       [pose proof (Z.pow_pos_nonneg 2 e); nia|]; apply Z.div_le_lower_bound;
       [apply Z.pow_pos_nonneg; lia|]).
      all: destruct (decide (e <= -52)) as [H52|H52];
        [replace emin with e in Hle by lia; rewrite Z.sub_diag in Hle;
         replace (-52 - e) with (- e - 52) in Hle by lia;
         assert (2 ^ (- e) = 2 ^ (- e - 52) * 2 ^ 52) as -> by
           (rewrite <- Z.pow_add_r by lia; f_equal; lia); nia
        |replace emin with (-52) in Hle by lia; rewrite Z.sub_diag in Hle;
         replace (e - -52) with (e + 52) in Hle by lia;
         assert (2 ^ 52 = 2 ^ (e + 52) * 2 ^ (- e)) as H2 by
           (rewrite <- Z.pow_add_r by lia; f_equal; lia);
         change 4503599627370496 with (2 ^ 52) in Hle;
         pose proof (Z.pow_pos_nonneg 2 (e + 52)); nia]. }
    unfold f64_as_u64, f64_trunc_sat. assert (1 <= u64_max) by done. lia.
Qed.

Lemma f64_max_one_not_below a :
  f64_is_nan (f64_max a f64_one) = false /\ f64_lt (f64_max a f64_one) f64_one = false.
Proof.
  unfold f64_max. destruct (f64_is_nan a) eqn:Hn; [done|]. simpl.
  destruct (f64_lt a f64_one) eqn:Hl; done.
Qed.

(** [x.max(1.0) as u64] is at least one and fits. *)
Lemma max_one_as_u64 a : 1 <= f64_as_u64 (f64_max a f64_one) <= u64_max.
Proof.
  destruct (f64_max_one_not_below a) as [Hn Hl]. split; [by apply as_u64_ge_one|].
  assert (0 <= u64_max) by done.
  unfold f64_as_u64, f64_trunc_sat. destruct (f64_max a f64_one) as [|[]| |]; lia.
Qed.
