(* ===== verification/Json.v ===== *)
(** JSON values ([serde_json::Value], whose object maps keep insertion order), the
    accessors the engine uses, [str::trim], and the JSONata-expression wrapper of
    [crates/asl/src/utils.rs]. *)
From S2P Require Import Prelude Float64.
Local Open Scope string_scope.

(** [serde_json::Number]. *)
Inductive Number :=
  | PosInt (n : Z)
  | NegInt (n : Z)
  | NFloat (f : f64).

(** [serde_json::Value]; an object is its key/value sequence in insertion order. *)
Inductive Value :=
  | VNull
  | VBool (b : bool)
  | VNumber (n : Number)
  | VString (s : string)
  | VArray (l : list Value)
  | VObject (m : list (string * Value)).

(** Induction over values, through arrays and objects. *)
Section ValueInd.
Context (P : Value -> Prop).
Hypothesis HNull : P VNull.
Hypothesis HBool : forall b, P (VBool b).
Hypothesis HNumber : forall n, P (VNumber n).
Hypothesis HString : forall s, P (VString s).
Hypothesis HArray : forall l, Forall P l -> P (VArray l).
Hypothesis HObject : forall m, Forall (fun kv => P kv.2) m -> P (VObject m).

Fixpoint Value_ind' (v : Value) : P v :=
  match v with
  | VNull => HNull
  | VBool b => HBool b
  | VNumber n => HNumber n
  | VString s => HString s
  | VArray l =>
      HArray l ((fix go l : Forall P l := match l with
                             | [] => Forall_nil_2 _
                             | x :: l' => Forall_cons_2 _ x l' (Value_ind' x) (go l')
                             end) l)
  | VObject m =>
      HObject m ((fix go m : Forall (fun kv => P kv.2) m :=
                    match m with
                    | [] => Forall_nil_2 _
                    | kv :: m' => Forall_cons_2 (fun kv => P kv.2) kv m' (Value_ind' kv.2) (go m')
                    end) m)
  end.
End ValueInd.

(** [Number::as_i64], [Number::as_f64]. *)
Definition as_i64_num (n : Number) : option Z :=
  match n with
  | PosInt k => if decide (k <= i64_max)%Z then Some k else None
  | NegInt k => Some k
  | NFloat _ => None
  end.
Definition as_f64_num (n : Number) : option f64 :=
  match n with
  | PosInt k | NegInt k => Some (f64_of_Z k)
  | NFloat f => Some f
  end.

(** [Map::get]. *)
Fixpoint obj_get (m : list (string * Value)) (k : string) : option Value :=
  match m with
  | [] => None
  | (k', v) :: m' => if String.eqb k k' then Some v else obj_get m' k
  end.

(** [Map::insert]: an existing key keeps its place, a new key goes last. *)
Fixpoint obj_insert (m : list (string * Value)) (k : string) (v : Value)
    : list (string * Value) :=
  match m with
  | [] => [(k, v)]
  | (k', v') :: m' => if String.eqb k k' then (k', v) :: m' else (k', v') :: obj_insert m' k v
  end.

(** [Value::get(key)]: [None] unless the value is an object with the key. *)
Definition value_get (v : Value) (k : string) : option Value :=
  match v with VObject m => obj_get m k | _ => None end.

(** [value == Value::Null]. *)
Definition is_null (v : Value) : bool := match v with VNull => true | _ => false end.

(** ** [str::trim] on UTF-8 bytes *)

Definition bytes (l : list nat) : string :=
  fold_right (fun n s => String (Ascii.ascii_of_nat n) s) "" l.

(** The encodings of the characters with the Unicode property [White_Space]. *)
Definition white_space : list string :=
  map bytes
    ([[9]; [10]; [11]; [12]; [13]; [32]; [194; 133]; [194; 160]; [225; 154; 128]] ++
     map (fun n => [226; 128; n]) (seq 128 11) ++
     [[226; 128; 168]; [226; 128; 169]; [226; 128; 175]; [226; 129; 159]; [227; 128; 128]])%list.

Fixpoint string_drop (n : nat) (s : string) : string :=
  match n, s with
  | S n', String _ s' => string_drop n' s'
  | _, _ => s
  end.
Fixpoint string_take (n : nat) (s : string) : string :=
  match n, s with
  | S n', String c s' => String c (string_take n' s')
  | _, _ => ""
  end.

Fixpoint strip_prefixes (fuel : nat) (ws : list string) (s : string) : string :=
  match fuel with
  | O => s
  | S fuel' =>
      match List.find (fun w => starts_with w s) ws with
      | Some w => strip_prefixes fuel' ws (string_drop (String.length w) s)
      | None => s
      end
  end.
Definition trim_start (s : string) : string :=
  strip_prefixes (String.length s) white_space s.
Definition trim_end (s : string) : string :=
  string_rev (strip_prefixes (String.length s) (map string_rev white_space) (string_rev s)).
Definition trim (s : string) : string := trim_end (trim_start s).

(** ** JSONata expression strings *)

(** [is_jsonata_expr]. *)
Definition is_jsonata_expr (value : string) : bool :=
  let trimmed := trim value in starts_with "{%" trimmed && ends_with "%}" trimmed.

(** [struct JsonataExpr(String)]. *)
Record JsonataExpr := mkJsonataExpr { jx_str : string }.

(** [JsonataExpr::new]. *)
Definition JsonataExpr_new (value : string) : Res string JsonataExpr :=
  if is_jsonata_expr value then Ok (mkJsonataExpr value)
  else Err "value must be a JSONata expression wrapped in {% %}".

(** [JsonataExpr::parse]; the error is the deserializer's custom message. *)
Definition JsonataExpr_parse (value field_name : string) : Res string JsonataExpr :=
  if is_jsonata_expr value then Ok (mkJsonataExpr value)
  else Err (field_name +:+ " string must be a JSONata expression wrapped in {% %}").

(** [enum IntOrExpr]. *)
Inductive IntOrExpr :=
  | IInt (n : Z)
  | IExpr (e : JsonataExpr).

(** [parse_int_or_expr]. *)
Definition parse_int_or_expr (value : Value) (field_name : string) : Res string IntOrExpr :=
  match value with
  | VNumber n => ok_or (field_name +:+ " must be an integer") (option_map IInt (as_i64_num n))
  | VString s => res_map IExpr (JsonataExpr_parse s field_name)
  | _ => Err (field_name +:+ " must be either an integer or a JSONata string")
  end.

(** [parse_non_negative_int_or_expr]. *)
Definition parse_non_negative_int_or_expr (value : Value) (field_name : string)
    : Res string IntOrExpr :=
  match value with
  | VNumber n =>
      ok_or (field_name +:+ " must be a non-negative integer")
        (match as_i64_num n with
         | Some v => if decide (0 <= v)%Z then Some (IInt v) else None
         | None => None
         end)
  | VString s => res_map IExpr (JsonataExpr_parse s field_name)
  | _ => Err (field_name +:+ " must be either a non-negative integer or a JSONata string")
  end.

(** ** Lemmas on object maps *)

Lemma obj_get_insert m k v : obj_get (obj_insert m k v) k = Some v.
Proof.
  induction m as [|[k' v'] m IH]; simpl; [by rewrite String.eqb_refl|].
  destruct (String.eqb k k') eqn:E; simpl; by rewrite E.
Qed.

Lemma obj_get_insert_ne m k k' v :
  k' <> k -> obj_get (obj_insert m k v) k' = obj_get m k'.
Proof.
  intros Hne%String.eqb_neq. induction m as [|[k0 v0] m IH]; simpl; [by rewrite Hne|].
  destruct (String.eqb k k0) eqn:E; simpl.
  - apply String.eqb_eq in E as <-. by rewrite Hne.
  - by rewrite IH.
Qed.

Lemma obj_insert_new m k v :
  k ∉ m.*1 -> obj_insert m k v = (m ++ [(k, v)])%list.
Proof.
  induction m as [|[k' v'] m IH]; simpl; [done|]. intros [Hne Hm]%not_elem_of_cons.
  rewrite (proj2 (String.eqb_neq k k') Hne). by rewrite IH.
Qed.

Example trim_ex : trim (bytes [32; 194; 160; 97; 32; 98; 226; 128; 131; 10]%nat) = "a b".
Proof. reflexivity. Qed.
