(* ===== verification/Asl.v ===== *)
(** The Amazon States Language definition ([crates/asl]): the state types as the
    deserializer builds them, the field parsers and defaults, state paths and the
    resolution of a path to its state ([state_path.rs]). *)
From S2P Require Import Prelude Float64 Json Names.
Local Open Scope string_scope.

(** ** State definitions *)

(** [struct AssignObject(serde_json::Map)]. *)
Definition AssignObject : Type := list (string * Value).

(** [struct Retrier]. *)
Record Retrier := mkRetrier {
  rt_error_equals : list string;
  rt_interval_seconds : option Z;
  rt_max_attempts : option Z;
  rt_backoff_rate : option Number;
  rt_max_delay_seconds : option Z;
  rt_jitter_strategy : option string }.

(** [Retrier::interval_seconds], [max_attempts], [backoff_rate]. *)
Definition interval_seconds (r : Retrier) : Z := default 1%Z (rt_interval_seconds r).
Definition max_attempts (r : Retrier) : Z := default 3%Z (rt_max_attempts r).
Definition backoff_rate (r : Retrier) : f64 :=
  default (f64_of_Z 2)
    (match rt_backoff_rate r with Some n => as_f64_num n | None => None end).

(** [struct Catcher]. *)
Record Catcher := mkCatcher {
  ca_error_equals : list string;
  ca_next : string;
  ca_assign : option AssignObject;
  ca_output : option Value }.

(** [struct PassState]. *)
Record PassState := mkPassState {
  ps_comment : option string; ps_output : option Value; ps_assign : option AssignObject;
  ps_next : option string; ps_end : option bool }.

(** [enum WaitTimestamp]; [WaitSeconds] is [IntOrExpr]. *)
Inductive WaitTimestamp :=
  | WLiteral (s : string)
  | WExpr (e : JsonataExpr).

(** [struct WaitState]. *)
Record WaitState := mkWaitState {
  ws_comment : option string; ws_output : option Value; ws_assign : option AssignObject;
  ws_next : option string; ws_end : option bool;
  ws_seconds : option IntOrExpr; ws_timestamp : option WaitTimestamp }.

(** [struct SucceedState]. *)
Record SucceedState := mkSucceedState { ss_comment : option string; ss_output : option Value }.

(** [struct FailState]. *)
Record FailState := mkFailState {
  fs_comment : option string; fs_cause : option string; fs_error : option string }.

(** [struct TaskState]. *)
Record TaskState := mkTaskState {
  ts_comment : option string; ts_output : option Value; ts_assign : option AssignObject;
  ts_next : option string; ts_end : option bool; ts_arguments : option Value;
  ts_retry : option (list Retrier); ts_catch : option (list Catcher);
  ts_resource : string;
  ts_timeout_seconds : option IntOrExpr; ts_heartbeat_seconds : option IntOrExpr }.

(** [enum ChoiceCondition], [struct ChoiceRule], [struct ChoiceState]. *)
Inductive ChoiceCondition :=
  | CBool (b : bool)
  | CExpr (e : JsonataExpr).
Record ChoiceRule := mkChoiceRule {
  cr_condition : option ChoiceCondition; cr_next : string;
  cr_assign : option AssignObject; cr_output : option Value }.
Record ChoiceState := mkChoiceState {
  cs_comment : option string; cs_output : option Value; cs_assign : option AssignObject;
  cs_default : option string; cs_choices : list ChoiceRule }.

(** [struct Branch] and [struct ParallelState], over the type of states. *)
Record BranchOf (St : Type) := mkBranch {
  br_start_at : string; br_states : gmap string St }.
Arguments mkBranch {St}. Arguments br_start_at {St}. Arguments br_states {St}.
Record ParallelStateOf (St : Type) := mkParallelState {
  pl_comment : option string; pl_output : option Value; pl_assign : option AssignObject;
  pl_next : option string; pl_end : option bool;
  pl_branches : list (BranchOf St); pl_arguments : option Value;
  pl_retry : option (list Retrier); pl_catch : option (list Catcher) }.
Arguments mkParallelState {St}. Arguments pl_comment {St}. Arguments pl_output {St}.
Arguments pl_assign {St}. Arguments pl_next {St}. Arguments pl_end {St}.
Arguments pl_branches {St}. Arguments pl_arguments {St}. Arguments pl_retry {St}.
Arguments pl_catch {St}.

(** [enum MapItems], [enum MapToleratedFailurePercentage]. *)
Inductive MapItems :=
  | MArray (l : list Value)
  | MExpr (e : JsonataExpr).
Inductive MapToleratedFailurePercentage :=
  | PNumber (n : Number)
  | PExpr (e : JsonataExpr).

(** [struct ItemProcessor] and [struct MapState], over the type of states. *)
Record ItemProcessorOf (St : Type) := mkItemProcessor {
  ip_start_at : string; ip_states : gmap string St }.
Arguments mkItemProcessor {St}. Arguments ip_start_at {St}. Arguments ip_states {St}.
Record MapStateOf (St : Type) := mkMapState {
  ms_comment : option string; ms_output : option Value; ms_assign : option AssignObject;
  ms_next : option string; ms_end : option bool;
  ms_item_processor : option (ItemProcessorOf St);
  ms_items : option MapItems; ms_item_selector : option Value;
  ms_max_concurrency : option IntOrExpr;
  ms_tolerated_failure_percentage : option MapToleratedFailurePercentage;
  ms_tolerated_failure_count : option IntOrExpr;
  ms_retry : option (list Retrier); ms_catch : option (list Catcher) }.
Arguments mkMapState {St}. Arguments ms_comment {St}. Arguments ms_output {St}.
Arguments ms_assign {St}. Arguments ms_next {St}. Arguments ms_end {St}.
Arguments ms_item_processor {St}. Arguments ms_items {St}. Arguments ms_item_selector {St}.
Arguments ms_max_concurrency {St}. Arguments ms_tolerated_failure_percentage {St}.
Arguments ms_tolerated_failure_count {St}. Arguments ms_retry {St}. Arguments ms_catch {St}.

(** [enum State]. *)
Inductive State :=
  | Pass (s : PassState)
  | Wait (s : WaitState)
  | Succeed (s : SucceedState)
  | Fail_ (s : FailState)
  | Task_ (s : TaskState)
  | Choice (s : ChoiceState)
  | Parallel (s : ParallelStateOf State)
  | Map_ (s : MapStateOf State).
Definition Branch : Type := BranchOf State.
Definition ParallelState : Type := ParallelStateOf State.
Definition ItemProcessor : Type := ItemProcessorOf State.
Definition MapState : Type := MapStateOf State.

(** [struct StateMachine]; [StateLanguageVersion] has the one value [V1]. *)
Inductive StateLanguageVersion := V1.
Record StateMachine := mkStateMachine {
  sm_start_at : string; sm_comment : option string;
  sm_version : option StateLanguageVersion; sm_timeout_seconds : option Z;
  sm_states : gmap string State }.

(** ** Field defaults and field parsers *)

(** [MapState::max_concurrency], [tolerated_failure_count],
    [tolerated_failure_percentage]. *)
Definition max_concurrency (m : MapState) : IntOrExpr :=
  default (IInt 0) (ms_max_concurrency m).
Definition tolerated_failure_count (m : MapState) : IntOrExpr :=
  default (IInt 0) (ms_tolerated_failure_count m).
Definition tolerated_failure_percentage (m : MapState) : MapToleratedFailurePercentage :=
  default (PNumber (NFloat f64_zero)) (ms_tolerated_failure_percentage m).

(** [parse_choice_condition] and [deserialize_choice_condition_option]. *)
Definition parse_choice_condition (value : Value) : Res string ChoiceCondition :=
  match value with
  | VBool b => Ok (CBool b)
  | VString s => res_map CExpr (JsonataExpr_parse s "Condition")
  | _ => Err "Condition must be either a boolean or a JSONata string"
  end.
Definition deserialize_choice_condition_option (value : Value)
    : Res string (option ChoiceCondition) :=
  match value with
  | VNull => Err "Condition must be either a boolean or a JSONata string"
  | _ => res_map Some (parse_choice_condition value)
  end.

(** [parse_map_items] and [deserialize_map_items_option]. *)
Definition parse_map_items (value : Value) : Res string MapItems :=
  match value with
  | VArray items => Ok (MArray items)
  | VString s => res_map MExpr (JsonataExpr_parse s "Items")
  | _ => Err "Items must be either a JSON array or a JSONata string"
  end.
Definition deserialize_map_items_option (value : Value) : Res string (option MapItems) :=
  match value with
  | VNull => Err "Items must be either a JSON array or a JSONata string"
  | _ => res_map Some (parse_map_items value)
  end.

(** [parse_map_max_concurrency], [parse_map_tolerated_failure_count] and the option
    deserializers over them. *)
Definition parse_map_max_concurrency (value : Value) : Res string IntOrExpr :=
  parse_non_negative_int_or_expr value "MaxConcurrency".
Definition deserialize_map_max_concurrency_option (value : Value)
    : Res string (option IntOrExpr) :=
  match value with
  | VNull => Err "MaxConcurrency must be either a non-negative integer or a JSONata string"
  | _ => res_map Some (parse_map_max_concurrency value)
  end.
Definition parse_map_tolerated_failure_count (value : Value) : Res string IntOrExpr :=
  parse_non_negative_int_or_expr value "ToleratedFailureCount".
Definition deserialize_map_tolerated_failure_count_option (value : Value)
    : Res string (option IntOrExpr) :=
  match value with
  | VNull =>
      Err "ToleratedFailureCount must be either a non-negative integer or a JSONata string"
  | _ => res_map Some (parse_map_tolerated_failure_count value)
  end.

(** [parse_map_tolerated_failure_percentage]. *)
Definition parse_map_tolerated_failure_percentage (value : Value)
    : Res string MapToleratedFailurePercentage :=
  match value with
  | VNumber n =>
      match as_f64_num n with
      | Some v =>
          if f64_le f64_zero v && f64_le v (f64_of_Z 100) then Ok (PNumber n)
          else Err "ToleratedFailurePercentage must be a number between 0 and 100"
      | None => Err "ToleratedFailurePercentage must be a number between 0 and 100"
      end
  | VString s => res_map PExpr (JsonataExpr_parse s "ToleratedFailurePercentage")
  | _ => Err "ToleratedFailurePercentage must be either a number between 0 and 100 or a JSONata string"
  end.

(** [impl Deserialize for WaitTimestamp]: any string; a JSONata wrapper makes it an
    expression. *)
Definition parse_wait_timestamp (s : string) : WaitTimestamp :=
  match JsonataExpr_parse s "Timestamp" with Ok e => WExpr e | _ => WLiteral s end.

(** The [Option<Value>] field deserializers of [Seconds], [TimeoutSeconds] and
    [HeartbeatSeconds]: [null] reads as absent. *)
Definition deserialize_int_or_expr_option (field : string) (value : Value)
    : Res string (option IntOrExpr) :=
  match value with
  | VNull => Ok None
  | _ => res_map Some (parse_int_or_expr value field)
  end.

(** ** State paths *)

(** [struct StatePath(jsonptr::PointerBuf)]: a JSON pointer, as its decoded tokens. *)
Definition StatePath : Type := list string.

Definition STATES : string := "States".
Definition BRANCHES : string := "Branches".
Definition ITEM_PROCESSOR : string := "ItemProcessor".

(** [pop_back] on a pointer (nothing to do on the empty one). *)
Definition pop_back (p : StatePath) : StatePath := removelast p.

(** [StatePath::root], [state_name], [state], [branch], [item_processor], [sibling]. *)
Definition sp_root : StatePath := [STATES].
Definition state_name (p : StatePath) : string := List.last p "".
Definition sp_state (p : StatePath) (name : string) : StatePath := (p ++ [name])%list.
Definition sp_branch (p : StatePath) (index : Z) : StatePath :=
  (p ++ [BRANCHES; u64_to_string index; STATES])%list.
Definition sp_item_processor (p : StatePath) : StatePath :=
  (p ++ [ITEM_PROCESSOR; STATES])%list.
Definition sp_sibling (p : StatePath) (next : string) : StatePath :=
  (pop_back p ++ [next])%list.

(** [enum StatePathError]. *)
Inductive StatePathError :=
  | Malformed (msg : string)
  | NotFound (msg : string).

(** [Vec::get(i)] with a [usize] index. *)
Definition vec_get {A} (l : list A) (i : Z) : option A :=
  if decide (0 <= i < Z.of_nat (length l))%Z then l !! Z.to_nat i else None.

(** [StateMachine::walk_states]: the loop over the tokens, from a map of states. *)
Fixpoint walk_from (states : gmap string State) (tokens : list string)
    : Res StatePathError (gmap string State) :=
  match tokens with
  | [] => Ok states
  | opener :: after_opener =>
      if negb (String.eqb opener STATES) then
        Err (Malformed ("state_path malformed: expected '" +:+ STATES +:+ "', got '" +:+
                        opener +:+ "'"))
      else
        match after_opener with
        | [] => Ok states
        | name :: rest =>
            match states !! name with
            | None => Err (NotFound name)
            | Some (Parallel p) =>
                match rest with
                | key :: after_key =>
                    if String.eqb key BRANCHES then
                      match after_key with
                      | [] => Err (NotFound "state_path truncated at branch index")
                      | ix :: rest' =>
                          match u64_from_str ix with
                          | None => Err (Malformed "state_path branch index is not an integer")
                          | Some idx =>
                              match vec_get (pl_branches p) idx with
                              | None =>
                                  Err (NotFound ("branch index " +:+ u64_to_string idx +:+
                                                 " of state " +:+ name))
                              | Some b => walk_from (br_states b) rest'
                              end
                          end
                      end
                    else Err (Malformed ("state_path malformed: expected '" +:+ BRANCHES +:+ "'"))
                | [] => Err (Malformed ("state_path malformed: expected '" +:+ BRANCHES +:+ "'"))
                end
            | Some (Map_ m) =>
                match rest with
                | key :: rest' =>
                    if String.eqb key ITEM_PROCESSOR then
                      match ms_item_processor m with
                      | None =>
                          Err (Malformed ("Map state '" +:+ name +:+ "' has no ItemProcessor"))
                      | Some ip => walk_from (ip_states ip) rest'
                      end
                    else
                      Err (Malformed ("state_path malformed: expected '" +:+ ITEM_PROCESSOR +:+ "'"))
                | [] =>
                    Err (Malformed ("state_path malformed: expected '" +:+ ITEM_PROCESSOR +:+ "'"))
                end
            | Some _ =>
                Err (Malformed ("state_path step '" +:+ name +:+
                                "' is not a Parallel or Map state"))
            end
        end
  end.
Definition walk_states (sm : StateMachine) (pointer : StatePath)
    : Res StatePathError (gmap string State) :=
  walk_from (sm_states sm) pointer.

(** [StateMachine::state_at]. *)
Definition state_at (sm : StateMachine) (path : StatePath) : Res StatePathError State :=
  let leaf := state_name path in
  res_bind (walk_states sm (pop_back path)) (fun states =>
  ok_or (NotFound leaf) (states !! leaf)).

(** ** Path resolution *)

(** The scopes of a definition: where a map of states lives and how a path reaches it,
    from the definition alone. *)
Inductive scope_at (sm : StateMachine) : StatePath -> gmap string State -> Prop :=
  | scope_root : scope_at sm sp_root (sm_states sm)
  | scope_branch p states name pl i b :
      scope_at sm p states -> states !! name = Some (Parallel pl) ->
      vec_get (pl_branches pl) i = Some b -> (0 <= i <= u64_max)%Z ->
      scope_at sm (sp_branch (sp_state p name) i) (br_states b)
  | scope_item p states name m ip :
      scope_at sm p states -> states !! name = Some (Map_ m) ->
      ms_item_processor m = Some ip ->
      scope_at sm (sp_item_processor (sp_state p name)) (ip_states ip).

Lemma last_snoc {A} (l : list A) x d : List.last (l ++ [x]) d = x.
Proof. induction l as [|y [|z l] IH]; simpl in *; done. Qed.

Lemma pop_back_snoc (p : StatePath) x : pop_back (p ++ [x])%list = p.
Proof. apply removelast_last. Qed.

(** Walking a prefix that ends on an opener continues from the scope it reaches. *)
Lemma walk_from_app states p states' t ts :
  walk_from states (p ++ [STATES])%list = Ok states' ->
  walk_from states ((p ++ [STATES]) ++ t :: ts)%list = walk_from states' (STATES :: t :: ts).
Proof.
  remember (length p) as n eqn:Hn. revert p states Hn.
  induction (lt_wf n) as [n _ IH]; intros p states ->.
  destruct p as [|op [|name p]]; [by intros [= ->]| |].
  - cbn. destruct (String.eqb op STATES); cbn; [|done].
    by destruct (states !! STATES) as [[]|].
  - cbn [app walk_from]. destruct (String.eqb op STATES); cbn [negb]; [|done].
    destruct (states !! name) as [[]|]; try done.
    + destruct p as [|k p]; [done|]. cbn [app].
      destruct (String.eqb k BRANCHES); [|done].
      destruct p as [|ix p]; cbn [app].
      * done.
      * destruct (u64_from_str ix); [|done]. destruct (vec_get _ _); [|done].
        intros H. eapply IH; [|done|done]. cbn. lia.
    + destruct p as [|k p]; [done|]. cbn [app].
      destruct (String.eqb k ITEM_PROCESSOR); [|done].
      destruct (ms_item_processor _); [|done].
      intros H. eapply IH; [|done|done]. cbn. lia.
Qed.

Lemma scope_at_walk sm p states :
  scope_at sm p states ->
  exists q, p = (q ++ [STATES])%list /\ walk_states sm p = Ok states.
Proof.
  unfold walk_states.
  induction 1 as [|p states name pl i b _ (q & -> & IH) Hn Hb Hi
                  |p states name m ip _ (q & -> & IH) Hn Hip].
  - by exists [].
  - eexists (((q ++ [STATES]) ++ [name]) ++ [BRANCHES; u64_to_string i])%list.
    unfold sp_branch, sp_state. split; [by rewrite <- !app_assoc|].
    rewrite <- (app_assoc _ [name]). cbn [app].
    rewrite (walk_from_app _ _ _ _ _ IH). cbn. rewrite Hn.
    by rewrite u64_roundtrip, Hb.
  - eexists (((q ++ [STATES]) ++ [name]) ++ [ITEM_PROCESSOR])%list.
    unfold sp_item_processor, sp_state. split; [by rewrite <- !app_assoc|].
    rewrite <- (app_assoc _ [name]). cbn [app].
    rewrite (walk_from_app _ _ _ _ _ IH). cbn. by rewrite Hn, Hip.
Qed.

(** A path built by the constructors resolves in the scope it names: to the state of
    that name, or to [NotFound] of that name. *)
Lemma state_at_scope sm p states name :
  scope_at sm p states ->
  state_at sm (sp_state p name) = ok_or (NotFound name) (states !! name).
Proof.
  intros (q & _ & H)%scope_at_walk. unfold state_at, sp_state, state_name.
  by rewrite pop_back_snoc, last_snoc, H.
Qed.

Lemma sp_sibling_state p a b : sp_sibling (sp_state p a) b = sp_state p b.
Proof. unfold sp_sibling, sp_state. by rewrite pop_back_snoc. Qed.
