(* ===== verification/Errors.v ===== *)
(** Error values ([crates/engine-types/src/types/error.rs], [reject.rs]) and the
    termination reasons of [command.rs]: names, payloads, the [ErrorEquals] matching
    rule and the conversions that [?] applies at crate boundaries. *)
From S2P Require Import Prelude Timestamp Names Json Asl.
Local Open Scope string_scope.

(** [struct RequestId(pub ulid::Ulid)]. *)
Definition RequestId : Type := Ulid.
Definition RequestId_nil : RequestId := ulid_nil.

(** [enum RuntimeError]. *)
Inductive RuntimeError :=
  | StateNotFound (msg : string)
  | NoTerminal
  | NoChoiceMatched (state : string)
  | StateFailed (state error : string) (output : Value)
  | Jsonata (field message : string)
  | InvalidDefinition (msg : string)
  | TimedOutError (message : string)
  | CancelledError (message : string).

(** [enum StorageError], [enum InfraError]. *)
Inductive StorageError :=
  | Backend (msg : string)
  | Codec (msg : string)
  | InvalidKey (msg : string)
  | Unsupported (msg : string).
Inductive InfraError :=
  | Log (msg : string)
  | Storage_ (e : StorageError).

(** [enum RejectionType], [struct Reject]. *)
Inductive RejectionType :=
  | InvalidArgument | InvalidState | RNotFound | AlreadyExists | ProcessingError.
Record Reject := mkReject {
  rj_request_id : RequestId;
  rj_rejection_type : RejectionType;
  rj_rejection_reason : string }.

(** [enum ExecutionError]. *)
Inductive ExecutionError :=
  | Runtime (e : RuntimeError)
  | Infra (e : InfraError)
  | Rejected (r : Reject).

(** [RuntimeError::error_name], [ExecutionError::error_name]. *)
Definition runtime_error_name (e : RuntimeError) : string :=
  match e with
  | StateFailed _ error _ => error
  | NoChoiceMatched _ => "States.NoChoiceMatched"
  | Jsonata _ _ | StateNotFound _ | NoTerminal | InvalidDefinition _ => "States.Runtime"
  | TimedOutError _ => "States.Timeout"
  | CancelledError _ => "States.Cancelled"
  end.
Definition error_name (e : ExecutionError) : string :=
  match e with Runtime r => runtime_error_name r | Infra _ | Rejected _ => "States.Runtime" end.

(** [RuntimeError::error_output], [ExecutionError::error_output]. *)
Definition error_cause (error cause : string) : Value :=
  VObject [("Error", VString error); ("Cause", VString cause)].
Definition runtime_error_output (e : RuntimeError) : option Value :=
  match e with
  | StateFailed _ _ output => Some output
  | NoChoiceMatched state =>
      Some (error_cause "States.NoChoiceMatched"
              ("Choice state '" +:+ state +:+ "' matched no rule and has no Default"))
  | Jsonata field message =>
      Some (error_cause "States.Runtime" ("JSONata error in " +:+ field +:+ ": " +:+ message))
  | TimedOutError message => Some (error_cause "States.Timeout" message)
  | CancelledError _ | StateNotFound _ | NoTerminal | InvalidDefinition _ => None
  end.
Definition error_output (e : ExecutionError) : option Value :=
  match e with Runtime r => runtime_error_output r | Infra _ | Rejected _ => None end.

(** [ExecutionError::matches_error_names]. *)
Definition lists (l : list string) (s : string) : bool := existsb (String.eqb s) l.
Definition matches_error_names (e : ExecutionError) (error_equals : list string) : bool :=
  if lists error_equals "States.ALL" then true
  else if lists error_equals "States.TaskFailed" then
    negb (String.eqb (error_name e) "States.Timeout")
  else lists error_equals (error_name e).

(** [Display] of the errors. *)
Definition rejection_type_str (t : RejectionType) : string :=
  match t with
  | InvalidArgument => "INVALID_ARGUMENT"
  | InvalidState => "INVALID_STATE"
  | RNotFound => "NOT_FOUND"
  | AlreadyExists => "ALREADY_EXISTS"
  | ProcessingError => "PROCESSING_ERROR"
  end.
Definition reject_str (r : Reject) : string :=
  rejection_type_str (rj_rejection_type r) +:+ ": " +:+ rj_rejection_reason r.
Definition runtime_error_str (e : RuntimeError) : string :=
  match e with
  | StateNotFound m => "state not found: " +:+ m
  | NoTerminal => "no terminal state reached (a state is missing Next/End)"
  | NoChoiceMatched s => "choice state " +:+ s +:+ " matched no rule and has no Default"
  | StateFailed s er _ => "Fail state " +:+ s +:+ " reported error " +:+ er
  | Jsonata f m => "JSONata error in " +:+ f +:+ ": " +:+ m
  | InvalidDefinition m => "invalid state definition: " +:+ m
  | TimedOutError m => "execution timed out: " +:+ m
  | CancelledError m => "execution cancelled: " +:+ m
  end.
Definition storage_error_str (e : StorageError) : string :=
  match e with
  | Backend m => "storage backend: " +:+ m
  | Codec m => "storage row: " +:+ m
  | InvalidKey m => "storage key: " +:+ m
  | Unsupported m => "storage operation unsupported: " +:+ m
  end.
Definition infra_error_str (e : InfraError) : string :=
  match e with Log m => "log/storage error: " +:+ m | Storage_ s => storage_error_str s end.
Definition execution_error_str (e : ExecutionError) : string :=
  match e with
  | Runtime r => runtime_error_str r
  | Infra i => infra_error_str i
  | Rejected r => "command rejected: " +:+ reject_str r
  end.

(** The [From] conversions: storage, name and state-path errors. *)
Definition from_storage (e : StorageError) : ExecutionError := Infra (Storage_ e).
Definition from_name (e : NameError) : ExecutionError :=
  match e with Invalid m => Runtime (InvalidDefinition m) end.
Definition from_state_path (e : StatePathError) : ExecutionError :=
  Runtime (match e with Malformed m => InvalidDefinition m | NotFound m => StateNotFound m end).

(** [enum TerminationReason]. *)
Inductive TerminationReason :=
  | Failed (error : ExecutionError)
  | TimedOut
  | Cancelled.

(** [TerminationReason::error_name], [error_output], [to_execution_error]. *)
Definition elapsed_message : string := "The execution's TimeoutSeconds elapsed".
Definition reason_error_name (r : TerminationReason) : string :=
  match r with
  | Failed e => error_name e
  | TimedOut => "States.Timeout"
  | Cancelled => "States.Cancelled"
  end.
Definition reason_error_output (r : TerminationReason) : option Value :=
  match r with
  | Failed e => error_output e
  | TimedOut => Some (error_cause "States.Timeout" elapsed_message)
  | Cancelled => None
  end.
Definition to_execution_error (r : TerminationReason) : ExecutionError :=
  match r with
  | Failed e => e
  | TimedOut => Runtime (TimedOutError elapsed_message)
  | Cancelled => Runtime (CancelledError "The execution was cancelled")
  end.

(** ** Lemmas *)

Lemma lists_true l s : lists l s = true <-> s ∈ l.
Proof.
  unfold lists. rewrite existsb_exists. split.
  - by intros (x & Hx & ->%String.eqb_eq); apply list_elem_of_In.
  - intros H. exists s. split; [by apply list_elem_of_In|apply String.eqb_refl].
Qed.

(** A termination reason and the error it converts to agree on name and payload. *)
Lemma to_execution_error_name r :
  error_name (to_execution_error r) = reason_error_name r /\
  error_output (to_execution_error r) = reason_error_output r.
Proof. by destruct r. Qed.

(** What [ErrorEquals] intercepts when [States.TaskFailed] is not listed. *)
Lemma matches_without_task_failed e l :
  "States.TaskFailed" ∉ l ->
  matches_error_names e l = true <-> "States.ALL" ∈ l \/ error_name e ∈ l.
Proof.
  intros Htf. unfold matches_error_names.
  destruct (lists l "States.ALL") eqn:Ha; [apply lists_true in Ha; naive_solver|].
  destruct (lists l "States.TaskFailed") eqn:Ht; [by apply lists_true in Ht|].
  rewrite lists_true. split; [auto|]. intros [H|]; [|done].
  apply lists_true in H. congruence.
Qed.
