(* ===== verification/Meta.v ===== *)
(** Object identity ([crates/engine-types/src/types/meta.rs]): kinds, typed and raw
    references, owner slots, object metadata, and the printed form of a reference. *)
From S2P Require Import Prelude Names Timestamp Json Errors.
Local Open Scope string_scope.

(** [enum ObjectKind]. *)
Inductive ObjectKind :=
  | FlowKind | FlowVersionKind | ExecutionKind | ThreadKind | ActivityKind | TaskKind.
#[export] Instance ObjectKind_eq_dec : EqDecision ObjectKind.
Proof. solve_decision. Defined.
#[export] Instance ObjectKind_countable : Countable ObjectKind.
Proof.
  refine (inj_countable'
    (fun k => match k with
              | FlowKind => 0 | FlowVersionKind => 1 | ExecutionKind => 2
              | ThreadKind => 3 | ActivityKind => 4 | TaskKind => 5 end)%nat
    (fun n => match n with
              | 0 => FlowKind | 1 => FlowVersionKind | 2 => ExecutionKind
              | 3 => ThreadKind | 4 => ActivityKind | _ => TaskKind end)%nat _).
  by intros [].
Defined.

(** [ObjectKind::as_str], [ObjectKind::parse]. *)
Definition kind_str (k : ObjectKind) : string :=
  match k with
  | FlowKind => "flow" | FlowVersionKind => "flowversion" | ExecutionKind => "execution"
  | ThreadKind => "thread" | ActivityKind => "activity" | TaskKind => "task"
  end.
Definition kind_parse (s : string) : option ObjectKind :=
  if String.eqb s "flow" then Some FlowKind
  else if String.eqb s "flowversion" then Some FlowVersionKind
  else if String.eqb s "execution" then Some ExecutionKind
  else if String.eqb s "thread" then Some ThreadKind
  else if String.eqb s "activity" then Some ActivityKind
  else if String.eqb s "task" then Some TaskKind
  else None.

(** [struct RawObjectRef]. *)
Record RawObjectRef := mkRaw {
  raw_kind : ObjectKind; raw_name : ObjectName; raw_uid : Ulid }.
#[export] Instance RawObjectRef_eq_dec : EqDecision RawObjectRef.
Proof. solve_decision. Defined.
#[export] Instance RawObjectRef_countable : Countable RawObjectRef.
Proof.
  refine (inj_countable' (fun r => (raw_kind r, raw_name r, raw_uid r))
            (fun x => mkRaw x.1.1 x.1.2 x.2) _).
  by intros [].
Defined.

(** [struct ObjectRef<K>]: a reference whose kind is [K] by type. *)
Record ObjectRef (K : ObjectKind) := mkRef { ref_name : ObjectName; ref_uid : Ulid }.
Arguments mkRef {K}. Arguments ref_name {K}. Arguments ref_uid {K}.
#[export] Instance ObjectRef_eq_dec K : EqDecision (ObjectRef K).
Proof. solve_decision. Defined.
#[export] Instance ObjectRef_countable K : Countable (ObjectRef K).
Proof.
  refine (inj_countable' (fun r : ObjectRef K => (ref_name r, ref_uid r))
            (fun x => mkRef x.1 x.2) _).
  by intros [].
Defined.

(** [as_raw_object_ref], [TryFrom<RawObjectRef>], [ObjectRef::nil], [RawObjectRef::nil]. *)
Definition as_raw {K} (r : ObjectRef K) : RawObjectRef := mkRaw K (ref_name r) (ref_uid r).
Record KindMismatch := mkKindMismatch { km_seen : ObjectKind; km_expected : ObjectKind }.
Definition ref_try_from (K : ObjectKind) (r : RawObjectRef) : Res KindMismatch (ObjectRef K) :=
  if decide (raw_kind r = K) then Ok (mkRef (raw_name r) (raw_uid r))
  else Err (mkKindMismatch (raw_kind r) K).
Definition ref_nil {K} : ObjectRef K := mkRef (Plain (mkPlainName "unset")) ulid_nil.
Definition raw_nil : RawObjectRef :=
  mkRaw FlowVersionKind (Generated (mkPlainName "flow") 0) ulid_nil.

(** [RawObjectRef::typed]: re-type a reference whose kind the caller matched. *)
Definition typed {E} (K : ObjectKind) (r : RawObjectRef) : Res E (ObjectRef K) :=
  match ref_try_from K r with
  | Ok t => Ok t
  | _ => Panic "the caller matched the kind before re-typing the reference"
  end.

(** [Display]: [{kind}/{name}]. *)
Definition raw_str (r : RawObjectRef) : string :=
  kind_str (raw_kind r) +:+ "/" +:+ as_str (raw_name r).
Definition ref_str {K} (r : ObjectRef K) : string := raw_str (as_raw r).

(** [FromStr for RawObjectRef]. *)
Definition invalid_owner_ref (s : string) : ExecutionError :=
  Runtime (InvalidDefinition ("invalid owner reference " +:+ debug_str s +:+
                              ": expected {kind}/{name}")).
Definition raw_from_str (s : string) : Res ExecutionError RawObjectRef :=
  let '(kind_raw, rest) :=
    match split_once "/"%char s with Some (a, b) => (a, Some b) | None => (s, None) end in
  res_bind (ok_or (invalid_owner_ref s) (kind_parse kind_raw)) (fun kind =>
  match rest with
  | None => Err (invalid_owner_ref s)
  | Some rest =>
      let '(name_raw, more) :=
        match split_once "/"%char rest with Some (a, _) => (a, true) | None => (rest, false) end in
      res_bind (res_map_err from_name (from_parsed name_raw)) (fun name =>
      if (more : bool) then Err (invalid_owner_ref s) else Ok (mkRaw kind name ulid_nil))
  end).

(** [enum ThreadOwner] and the owner slot [OwnedBy] of each kind ([NoOwner] is [unit]). *)
Inductive ThreadOwner :=
  | OwnerExecution (r : ObjectRef ExecutionKind)
  | OwnerActivity (r : ObjectRef ActivityKind).
#[export] Instance ThreadOwner_eq_dec : EqDecision ThreadOwner.
Proof. solve_decision. Defined.
Definition OwnedBy (K : ObjectKind) : Type :=
  match K with
  | FlowKind | ExecutionKind => unit
  | FlowVersionKind => ObjectRef FlowKind
  | ThreadKind => ThreadOwner
  | ActivityKind => ObjectRef ThreadKind
  | TaskKind => ObjectRef ActivityKind
  end.
Definition thread_owner_raw (o : ThreadOwner) : RawObjectRef :=
  match o with OwnerExecution r => as_raw r | OwnerActivity r => as_raw r end.

(** [struct ObjectMeta<K>]. *)
Record ObjectMeta (K : ObjectKind) := mkMeta {
  m_tenant : PlainName; m_namespace : PlainName; m_name : ObjectName; m_uid : Ulid;
  m_created_at : Timestamp; m_updated_at : Timestamp; m_owner : OwnedBy K }.
Arguments mkMeta {K}. Arguments m_tenant {K}. Arguments m_namespace {K}. Arguments m_name {K}.
Arguments m_uid {K}. Arguments m_created_at {K}. Arguments m_updated_at {K}.
Arguments m_owner {K}.

(** [ObjectMeta::object_ref], [raw_object_ref], [with_update_at], [with_owner]. *)
Definition object_ref {K} (m : ObjectMeta K) : ObjectRef K := mkRef (m_name m) (m_uid m).
Definition raw_object_ref {K} (m : ObjectMeta K) : RawObjectRef := mkRaw K (m_name m) (m_uid m).
Definition with_update_at {K} (at_ : Timestamp) (m : ObjectMeta K) : ObjectMeta K :=
  mkMeta (m_tenant m) (m_namespace m) (m_name m) (m_uid m) (m_created_at m) at_ (m_owner m).
Definition with_owner {K} (m : ObjectMeta K) (o : OwnedBy K) : ObjectMeta K :=
  mkMeta (m_tenant m) (m_namespace m) (m_name m) (m_uid m) (m_created_at m) (m_updated_at m) o.

(** [ObjectMeta::builder(uid).name(name).at(at).with_owner(owner)]: the builder chain of
    the engine; the scope segments keep their default. *)
Definition default_scope : PlainName := mkPlainName "default".
Definition build_meta {K} (uid : Ulid) (name : ObjectName) (at_ : Timestamp) (o : OwnedBy K)
    : ObjectMeta K :=
  mkMeta default_scope default_scope name uid at_ at_ o.
(** The name [ObjectMetaBuilder::new] starts from. *)
Definition builder_default_name (uid : Ulid) : ObjectName :=
  Generated (mkPlainName "child") (as_u64 uid).

(** [struct ObjectMetaBuilder], its constructor, setters and last step. *)
Record ObjectMetaBuilder := mkMetaBuilder {
  mb_tenant : PlainName; mb_namespace : PlainName; mb_name : ObjectName; mb_uid : Ulid;
  mb_created_at : Timestamp; mb_updated_at : Timestamp }.
Definition meta_builder (uid : Ulid) : ObjectMetaBuilder :=
  mkMetaBuilder default_scope default_scope (builder_default_name uid) uid 0%Z 0%Z.
Definition builder_tenant (t : PlainName) (b : ObjectMetaBuilder) : ObjectMetaBuilder :=
  mkMetaBuilder t (mb_namespace b) (mb_name b) (mb_uid b) (mb_created_at b) (mb_updated_at b).
Definition builder_namespace (n : PlainName) (b : ObjectMetaBuilder) : ObjectMetaBuilder :=
  mkMetaBuilder (mb_tenant b) n (mb_name b) (mb_uid b) (mb_created_at b) (mb_updated_at b).
Definition builder_name (n : ObjectName) (b : ObjectMetaBuilder) : ObjectMetaBuilder :=
  mkMetaBuilder (mb_tenant b) (mb_namespace b) n (mb_uid b) (mb_created_at b) (mb_updated_at b).
Definition builder_timestamps (created updated : Timestamp) (b : ObjectMetaBuilder)
    : ObjectMetaBuilder :=
  mkMetaBuilder (mb_tenant b) (mb_namespace b) (mb_name b) (mb_uid b) created updated.
Definition builder_at (at_ : Timestamp) (b : ObjectMetaBuilder) : ObjectMetaBuilder :=
  builder_timestamps at_ at_ b.
Definition builder_with_owner {K} (b : ObjectMetaBuilder) (o : OwnedBy K) : ObjectMeta K :=
  mkMeta (mb_tenant b) (mb_namespace b) (mb_name b) (mb_uid b) (mb_created_at b)
    (mb_updated_at b) o.

(** [enum DeadlineTarget]. *)
Inductive DeadlineTarget :=
  | DExecution (r : ObjectRef ExecutionKind)
  | DActivity (r : ObjectRef ActivityKind).
#[export] Instance DeadlineTarget_eq_dec : EqDecision DeadlineTarget.
Proof. solve_decision. Defined.
Definition deadline_raw (d : DeadlineTarget) : RawObjectRef :=
  match d with DExecution r => as_raw r | DActivity r => as_raw r end.

(** ** Lemmas *)

Lemma as_raw_inj K (a b : ObjectRef K) : as_raw a = as_raw b -> a = b.
Proof. destruct a, b. by intros [= -> ->]. Qed.

Lemma ref_try_from_as_raw K (r : ObjectRef K) : ref_try_from K (as_raw r) = Ok r.
Proof. unfold ref_try_from. rewrite decide_True by done. by destruct r. Qed.

Lemma typed_as_raw E K (r : ObjectRef K) : typed (E:=E) K (as_raw r) = Ok r.
Proof. unfold typed. by rewrite ref_try_from_as_raw. Qed.

Lemma kind_parse_str k : kind_parse (kind_str k) = Some k.
Proof. by destruct k. Qed.

Definition no_slash (s : string) : bool := string_forallb (fun d => negb (Ascii.eqb d "/"%char)) s.

Lemma object_byte_no_slash c : object_byte c = true -> negb (Ascii.eqb c "/"%char) = true.
Proof. destruct c as [[] [] [] [] [] [] [] []]; done. Qed.

Lemma name_no_slash n : name_wf n -> no_slash (as_str n) = true.
Proof.
  intros Hwf. pose proof (name_roundtrip n Hwf) as H. unfold from_parsed in H.
  destruct (first_alphanumeric _ && string_forallb object_byte (as_str n)) eqn:E; [|done].
  apply andb_true_iff in E as [_ E]. eapply forallb_impl; [|exact E].
  apply object_byte_no_slash.
Qed.

(** A reference prints as [{kind}/{name}] and parses back to the same kind and name. *)
Lemma raw_from_str_display k n u :
  name_wf n -> raw_from_str (raw_str (mkRaw k n u)) = Ok (mkRaw k n ulid_nil).
Proof.
  intros Hwf. unfold raw_from_str, raw_str. simpl raw_kind. simpl raw_name.
  rewrite (split_once_sep "/"%char (kind_str k) (as_str n)) by by destruct k.
  rewrite kind_parse_str. simpl res_bind.
  rewrite split_once_none by by apply name_no_slash.
  by rewrite name_roundtrip.
Qed.
