(* ===== verification/Entities.v ===== *)
(** The persistent entities ([crates/engine-types/src/types/]: [execution.rs],
    [thread.rs], [activity.rs], [task.rs], [flow.rs], [flow_version.rs]) and the
    lifecycle methods that guard their transitions.  A method that mutates [self] and
    returns [Result<(), String>] returns the mutated entity on [Ok]. *)
From S2P Require Import Prelude Names Timestamp Float64 Json Asl Errors Meta.
Local Open Scope string_scope.
Local Open Scope Z_scope.

(** ** The shared lifecycle

    [ExecutionStatus], [ThreadStatus] and [ActivityStatus] are three enums with the same
    five variants and the same predicates. *)
Inductive Lifecycle :=
  | Running
  | Completing
  | Terminating (reason : TerminationReason)
  | Completed
  | Terminated (reason : TerminationReason).
Definition ExecutionStatus : Type := Lifecycle.
Definition ThreadStatus : Type := Lifecycle.
Definition ActivityStatus : Type := Lifecycle.

Definition is_running (s : Lifecycle) : bool := match s with Running => true | _ => false end.
Definition is_completing (s : Lifecycle) : bool :=
  match s with Completing => true | _ => false end.
Definition is_terminating (s : Lifecycle) : bool :=
  match s with Terminating _ => true | _ => false end.
Definition is_terminal (s : Lifecycle) : bool :=
  match s with Completed | Terminated _ => true | _ => false end.
Definition termination_reason (s : Lifecycle) : option TerminationReason :=
  match s with Terminating r | Terminated r => Some r | _ => None end.
Definition phase (s : Lifecycle) : string :=
  match s with
  | Running => "Running" | Completing => "Completing" | Terminating _ => "Terminating"
  | Completed => "Completed" | Terminated _ => "Terminated"
  end.

(** ** Execution *)
Record Execution := mkExecution {
  ex_meta : ObjectMeta ExecutionKind;
  ex_flow_version : ObjectRef FlowVersionKind;
  ex_status : ExecutionStatus;
  ex_deadline : option Timestamp;
  ex_input : Value;
  ex_output : option Value }.

Definition exec_advance (e : Execution) (s : ExecutionStatus) (out : option Value)
    (at_ : Timestamp) : Execution :=
  mkExecution (with_update_at at_ (ex_meta e)) (ex_flow_version e) s (ex_deadline e)
    (ex_input e) out.

(** [Execution::mark_completing], [mark_completed], [mark_terminating], [mark_terminated]. *)
Definition exec_mark_completing (e : Execution) (output : Value) (at_ : Timestamp)
    : Res string Execution :=
  if negb (is_running (ex_status e)) then
    Err ("only a Running execution can begin completing, but it is " +:+ phase (ex_status e))
  else Ok (exec_advance e Completing (Some output) at_).
Definition exec_mark_completed (e : Execution) (at_ : Timestamp) : Res string Execution :=
  if negb (is_completing (ex_status e)) then
    Err ("only a Completing execution can be completed, but it is " +:+ phase (ex_status e))
  else Ok (exec_advance e Completed (ex_output e) at_).
Definition exec_mark_terminating (e : Execution) (reason : TerminationReason) (at_ : Timestamp)
    : Res string Execution :=
  if negb (is_running (ex_status e)) then
    Err ("only a Running execution can begin terminating, but it is " +:+ phase (ex_status e))
  else Ok (exec_advance e (Terminating reason) (ex_output e) at_).
Definition exec_mark_terminated (e : Execution) (at_ : Timestamp) : Res string Execution :=
  match ex_status e with
  | Terminating reason => Ok (exec_advance e (Terminated reason) (ex_output e) at_)
  | other =>
      Err ("only a Terminating execution can be terminated, but it is " +:+ phase other)
  end.

(** ** Thread *)
Record Thread := mkThread {
  th_meta : ObjectMeta ThreadKind;
  th_execution : ObjectRef ExecutionKind;
  th_state_path : StatePath;
  th_start_at : string;
  th_index : Z;
  th_status : ThreadStatus;
  th_input : Value;
  th_output : option Value }.

Definition thread_advance (t : Thread) (s : ThreadStatus) (out : option Value)
    (at_ : Timestamp) : Thread :=
  mkThread (with_update_at at_ (th_meta t)) (th_execution t) (th_state_path t) (th_start_at t)
    (th_index t) s (th_input t) out.

(** [Thread::mark_terminating]. *)
Definition thread_mark_terminating (t : Thread) (reason : TerminationReason) (at_ : Timestamp)
    : Res string Thread :=
  if negb (is_running (th_status t)) then
    Err ("only a Running thread can begin terminating, but it is " +:+ phase (th_status t))
  else Ok (thread_advance t (Terminating reason) (th_output t) at_).

(** ** Retry state *)
Record RetrierAttemptState := mkRetrierAttempt {
  ra_attempt_count : Z; ra_last_retry_at : option Timestamp }.
Record RetryState := mkRetryState {
  rs_attempts : Z;
  rs_retrier_attempts : list RetrierAttemptState;
  rs_next_available_at : option Timestamp }.
Definition RetryState_default : RetryState := mkRetryState 0 [] None.
Record RetryPolicy := mkRetryPolicy {
  rp_error_equals : list string;
  rp_interval_seconds : Z;
  rp_max_attempts : Z;
  rp_backoff_rate : f64;
  rp_max_delay_seconds : option Z }.

(** [RetryPolicy::resolve]. *)
Definition resolve (r : Retrier) : RetryPolicy :=
  mkRetryPolicy (rt_error_equals r) (interval_seconds r) (max_attempts r) (backoff_rate r)
    (rt_max_delay_seconds r).

(** [f64::powf], whose precision Rust leaves to the platform. *)
Class Libm : Type := powf : f64 -> f64 -> f64.

(** [RetryPolicy::backoff_for_attempt]. *)
Definition backoff_for_attempt `{Libm} (p : RetryPolicy) (attempt : Z) : Z :=
  let raw := f64_mul (f64_of_Z (rp_interval_seconds p))
                     (powf (rp_backoff_rate p) (f64_of_Z attempt)) in
  let capped :=
    match rp_max_delay_seconds p with
    | Some max => if decide (0 < max) then f64_min raw (f64_of_Z max) else raw
    | None => raw
    end in
  f64_as_u64 (f64_max (f64_ceil capped) f64_one).

(** [RetryPolicy::has_budget_after]: the [i64] limit is cast to [u32]. *)
Definition has_budget_after (p : RetryPolicy) (attempts : Z) : bool :=
  bool_decide (attempts < as_u32 (Z.max (rp_max_attempts p) 0)).

(** ** Activity *)
Record ParallelActivityState := mkParallelActivity {
  pa_branches : gmap Z (ObjectRef ThreadKind) }.
Record WaitActivityState := mkWaitActivity { wa_resume_at : Timestamp }.
Record MapActivityState := mkMapActivity {
  ma_items : list Value;
  ma_total : Z;
  ma_max_concurrency : Z;
  ma_children : gmap Z (ObjectRef ThreadKind) }.
Inductive ActivityState :=
  | ASParallel (p : ParallelActivityState)
  | ASMap (m : MapActivityState)
  | ASWait (w : WaitActivityState).

Record Activity := mkActivity {
  ac_meta : ObjectMeta ActivityKind;
  ac_execution : ObjectRef ExecutionKind;
  ac_state_path : StatePath;
  ac_status : ActivityStatus;
  ac_raw_input : Value;
  ac_input : option Value;
  ac_raw_output : option Value;
  ac_activity_state : option ActivityState;
  ac_retry_state : option RetryState;
  ac_output : option Value }.

(** [Activity::retry_count]. *)
Definition retry_count (a : Activity) : Z :=
  match ac_retry_state a with Some r => rs_attempts r | None => 0 end.

Definition act_advance (a : Activity) (s : ActivityStatus) (raw_out out : option Value)
    (at_ : Timestamp) : Activity :=
  mkActivity (with_update_at at_ (ac_meta a)) (ac_execution a) (ac_state_path a) s
    (ac_raw_input a) (ac_input a) raw_out (ac_activity_state a) (ac_retry_state a) out.

(** [Activity::mark_completing], [mark_completed], [mark_terminating], [mark_terminated]. *)
Definition act_mark_completing (a : Activity) (raw_output : Value) (at_ : Timestamp)
    : Res string Activity :=
  if negb (is_running (ac_status a)) then
    Err ("only a Running activity can begin completing, but it is " +:+ phase (ac_status a))
  else Ok (act_advance a Completing (Some raw_output) (ac_output a) at_).
Definition act_mark_completed (a : Activity) (output : Value) (at_ : Timestamp)
    : Res string Activity :=
  if negb (is_completing (ac_status a)) then
    Err ("only a Completing activity can complete, but it is " +:+ phase (ac_status a))
  else Ok (act_advance a Completed (ac_raw_output a) (Some output) at_).
Definition act_mark_terminating (a : Activity) (reason : TerminationReason) (at_ : Timestamp)
    : Res string Activity :=
  if is_terminating (ac_status a) || is_terminal (ac_status a) then
    Err ("only a Running or Completing activity can begin terminating, but it is " +:+
         phase (ac_status a))
  else Ok (act_advance a (Terminating reason) (ac_raw_output a) (ac_output a) at_).
Definition act_mark_terminated (a : Activity) (at_ : Timestamp) : Res string Activity :=
  match ac_status a with
  | Terminating reason =>
      Ok (act_advance a (Terminated reason) (ac_raw_output a) (ac_output a) at_)
  | other => Err ("only a Terminating activity can terminate, but it is " +:+ phase other)
  end.
