(* ===== verification/Tasks.v ===== *)
(** Tasks, flows and flow versions ([crates/engine-types/src/types/task.rs], [flow.rs],
    [flow_version.rs]): the task's claim/complete/fail/cancel transitions and the retry
    budget that bounds them. *)
From S2P Require Import Prelude Names Timestamp Float64 Json Asl Errors Meta Entities.
Local Open Scope string_scope.
Local Open Scope Z_scope.

(** ** Task rows *)

(** [enum TaskStatus]. *)
Inductive TaskStatus := TPending | TRunning | TCompleted | TFailed | TCancelled.
#[export] Instance TaskStatus_eq_dec : EqDecision TaskStatus.
Proof. solve_decision. Defined.
Definition task_is_pending (s : TaskStatus) : bool := bool_decide (s = TPending).
Definition task_is_running (s : TaskStatus) : bool := bool_decide (s = TRunning).
Definition task_is_terminal (s : TaskStatus) : bool :=
  match s with TCompleted | TFailed | TCancelled => true | _ => false end.
Definition task_is_in_flight (s : TaskStatus) : bool := negb (task_is_terminal s).
Definition task_phase (s : TaskStatus) : string :=
  match s with
  | TPending => "Pending" | TRunning => "Running" | TCompleted => "Completed"
  | TFailed => "Failed" | TCancelled => "Cancelled"
  end.

(** [struct Task]. *)
Record Task := mkTask {
  tk_meta : ObjectMeta TaskKind;
  tk_execution : ObjectRef ExecutionKind;
  tk_resource : string;
  tk_arguments : Value;
  tk_status : TaskStatus;
  tk_deadline : option Timestamp;
  tk_worker_id : option string;
  tk_lease_expires_at : option Timestamp;
  tk_retry_plan : list RetryPolicy;
  tk_retry_state : RetryState }.

(** The fields a transition writes: status, lease, retry state and [updated_at]. *)
Definition task_update (t : Task) (s : TaskStatus) (w : option string) (l : option Timestamp)
    (rs : RetryState) (at_ : Timestamp) : Task :=
  mkTask (with_update_at at_ (tk_meta t)) (tk_execution t) (tk_resource t) (tk_arguments t) s
    (tk_deadline t) w l (tk_retry_plan t) rs.
Definition with_next_available (rs : RetryState) (o : option Timestamp) : RetryState :=
  mkRetryState (rs_attempts rs) (rs_retrier_attempts rs) o.

(** [Task::is_claimable_at]. *)
Definition is_claimable_at (t : Task) (now : Timestamp) : bool :=
  match tk_status t with
  | TPending =>
      match rs_next_available_at (tk_retry_state t) with
      | Some at_ => negb (bool_decide (now < at_))
      | None => true
      end
  | TRunning =>
      match tk_lease_expires_at t with
      | Some at_ => bool_decide (at_ <= now)
      | None => false
      end
  | TCompleted | TFailed | TCancelled => false
  end.

(** [Task::claim]. *)
Definition claim (t : Task) (worker_id : string) (lease_expires_at at_ : Timestamp) : Task :=
  task_update t TRunning (Some worker_id) (Some lease_expires_at)
    (with_next_available (tk_retry_state t) None) at_.

(** [Task::mark_cancelled]. *)
Definition task_mark_cancelled (t : Task) (at_ : Timestamp) : Res string Task :=
  if task_is_terminal (tk_status t) then
    Err ("only an in-flight task can be cancelled, but it is " +:+ task_phase (tk_status t))
  else Ok (task_update t TCancelled (tk_worker_id t) (tk_lease_expires_at t)
             (tk_retry_state t) at_).

(** [self.worker_id.as_deref() != Some(worker_id)], negated. *)
Definition leased_to (t : Task) (worker_id : string) : bool :=
  match tk_worker_id t with Some w => String.eqb w worker_id | None => false end.

(** [Task::mark_completed]. *)
Definition task_mark_completed (t : Task) (worker_id : string) (at_ : Timestamp)
    : Res string Task :=
  if negb (task_is_running (tk_status t)) then
    Err ("only a Running task can be completed, but it is " +:+ task_phase (tk_status t))
  else if String.eqb worker_id "" || negb (leased_to t worker_id) then
    Err ("it is leased to " +:+ debug_opt_str (tk_worker_id t) +:+ ", not " +:+ worker_id)
  else Ok (task_update t TCompleted None None (tk_retry_state t) at_).

(** [enum FailureOutcome]. *)
Inductive FailureOutcome := Retried | Terminal.

(** The first retrier whose [ErrorEquals] intercepts the error, with its index. *)
Definition matched_policy (plan : list RetryPolicy) (error : ExecutionError)
    : option (nat * RetryPolicy) :=
  list_find (fun p => matches_error_names error (rp_error_equals p) = true) plan.

(** [retrier_attempts.get(index).map(|a| a.attempt_count).unwrap_or(0)]. *)
Definition attempts_of (l : list RetrierAttemptState) (index : nat) : Z :=
  match l !! index with Some a => ra_attempt_count a | None => 0 end.

(** [if len <= index { resize(index + 1, default) }] then the indexed store. *)
Definition record_attempt (l : list RetrierAttemptState) (index : nat)
    (a : RetrierAttemptState) : list RetrierAttemptState :=
  let l' := if decide (length l <= index)%nat
            then resize (index + 1) (mkRetrierAttempt 0 None) l else l in
  <[index := a]> l'.

(** [Task::handle_failure]. *)
Definition handle_failure `{Profile, Libm} (t : Task) (worker_id : string)
    (error : ExecutionError) (now : Timestamp) : Res string (Task * FailureOutcome) :=
  if task_is_terminal (tk_status t) then
    Err ("only an in-flight task takes a failure report, but it is " +:+
         task_phase (tk_status t))
  else if negb (String.eqb worker_id "") &&
          (negb (task_is_running (tk_status t)) || negb (leased_to t worker_id)) then
    Err ("it is " +:+ task_phase (tk_status t) +:+ " and leased to " +:+
         debug_opt_str (tk_worker_id t) +:+ ", not " +:+ worker_id)
  else
    let rs := tk_retry_state t in
    let failed_row :=
      Ok (task_update t TFailed None None (with_next_available rs None) now, Terminal) in
    match matched_policy (tk_retry_plan t) error with
    | None => failed_row
    | Some (index, policy) =>
        let attempts := attempts_of (rs_retrier_attempts rs) index in
        if has_budget_after policy attempts then
          let next_available_at :=
            default now (checked_add now (from_secs (backoff_for_attempt policy attempts))) in
          res_bind (u32_add attempts 1) (fun attempt_count =>
          let slots := record_attempt (rs_retrier_attempts rs) index
                         (mkRetrierAttempt attempt_count (Some now)) in
          res_bind (u32_add (rs_attempts rs) 1) (fun total =>
          Ok (task_update t TPending None None
                (mkRetryState total slots (Some next_available_at)) now, Retried)))
        else failed_row
    end.

(** ** Flows *)

(** [enum FlowStatus], [struct Flow], [Flow::new] on a validated name. *)
Inductive FlowStatus := FlowActive | FlowDeleted.
Record Flow := mkFlow {
  fl_meta : ObjectMeta FlowKind; fl_status : FlowStatus; fl_latest_version : Z }.
Definition Flow_new (uid : Ulid) (name : PlainName) (created_at : Timestamp)
    : Res ExecutionError Flow :=
  match ObjectName_plain (pn_str name) with
  | Ok n => Ok (mkFlow (build_meta uid n created_at (tt : OwnedBy FlowKind)) FlowActive 1)
  | _ => Panic "a FlowName is a valid object name"
  end.

(** [crc::Crc::<u64>::new(&CRC_64_ECMA_182).checksum], of the [crc] crate. *)
Class Crc : Type := crc64 : string -> Z.

(** [struct FlowVersion], [FlowVersion::version_name], [new], [flow_name]. *)
Record FlowVersion := mkFlowVersion {
  fv_meta : ObjectMeta FlowVersionKind; fv_version : Z; fv_definition : string;
  fv_checksum : Z }.
Definition version_name (flow : PlainName) (version : Z) : ObjectName :=
  generated_from_key flow version.
Definition definition_checksum `{Crc} (definition : string) : Z := crc64 definition.
Definition FlowVersion_new `{Crc} (uid : Ulid) (flow : ObjectRef FlowKind) (version : Z)
    (definition : string) (created_at : Timestamp) : Res ExecutionError FlowVersion :=
  match as_plain (ref_name flow) with
  | Some flow_name =>
      Ok (mkFlowVersion
            (build_meta uid (version_name flow_name version) created_at
               (flow : OwnedBy FlowVersionKind))
            version definition (definition_checksum definition))
  | None => Panic "a Flow's name is a user plain name, never a generated one"
  end.
Definition flow_owner (v : FlowVersion) : ObjectRef FlowKind := m_owner (fv_meta v).
Definition flow_name (v : FlowVersion) : Res ExecutionError PlainName :=
  match as_plain (ref_name (flow_owner v)) with
  | Some n => Ok n
  | None => Panic "a Flow's name is a user plain name, never a generated one"
  end.

(** ** The retry budget *)

(** The budget a policy grants, and what is left of the whole plan's. *)
Definition budget (p : RetryPolicy) : Z := as_u32 (Z.max (rp_max_attempts p) 0).
Fixpoint remaining_from (plan : list RetryPolicy) (l : list RetrierAttemptState) (i : nat) : Z :=
  match plan with
  | [] => 0
  | p :: plan' => Z.max 0 (budget p - attempts_of l i) + remaining_from plan' l (S i)
  end.
Definition remaining (t : Task) : Z :=
  remaining_from (tk_retry_plan t) (rs_retrier_attempts (tk_retry_state t)) 0.

(** What one recorded retry does to the per-retrier counters. *)
Lemma record_attempt_lookup l i j a :
  attempts_of (record_attempt l i a) j =
  if decide (i = j) then ra_attempt_count a else attempts_of l j.
Proof.
  unfold attempts_of, record_attempt.
  assert (i < length (if decide (length l <= i)%nat
                      then resize (i + 1) (mkRetrierAttempt 0 None) l else l))%nat as Hi.
  { case_decide; [rewrite length_resize|]; lia. }
  destruct (decide (i = j)) as [<-|Hne]; [by rewrite list_lookup_insert_eq|].
  rewrite list_lookup_insert_ne by done. case_decide as Hl; [|done].
  destruct (decide (j < length l)%nat) as [Hj|Hj].
  - by rewrite lookup_resize by lia.
  - rewrite (lookup_ge_None_2 l j) by lia.
    destruct (decide (j < i + 1)%nat).
    + by rewrite lookup_resize_new by lia.
    + by rewrite lookup_resize_old by lia.
Qed.

Lemma remaining_from_ext plan l l' i :
  (forall j, (i <= j)%nat -> attempts_of l j = attempts_of l' j) ->
  remaining_from plan l i = remaining_from plan l' i.
Proof.
  revert i. induction plan as [|p plan IH]; intros i H; simpl; [done|].
  rewrite (H i) by lia. f_equal. apply IH. intros j ?. apply H. lia.
Qed.

Lemma remaining_from_nonneg plan l i : 0 <= remaining_from plan l i.
Proof. revert i. induction plan as [|p plan IH]; intros i; simpl; [lia|]. specialize (IH (S i)). lia. Qed.

Lemma remaining_from_step plan l i k p a :
  plan !! k = Some p -> attempts_of l (i + k) < budget p ->
  ra_attempt_count a = attempts_of l (i + k) + 1 ->
  remaining_from plan (record_attempt l (i + k) a) i = remaining_from plan l i - 1.
Proof.
  revert i k. induction plan as [|q plan IH]; intros i [|k] Hk Hb Ha; simplify_eq/=.
  - rewrite Nat.add_0_r in *. rewrite record_attempt_lookup, decide_True, Ha by done.
    rewrite (remaining_from_ext plan _ l); [lia|].
    intros j ?. by rewrite record_attempt_lookup, decide_False by lia.
  - rewrite record_attempt_lookup, decide_False by lia.
    rewrite <- Nat.add_succ_comm in *.
    rewrite (IH (S i) k) by done. lia.
Qed.

Lemma has_budget_after_true p n : has_budget_after p n = true <-> n < budget p.
Proof. unfold has_budget_after. rewrite bool_decide_eq_true. done. Qed.

Lemma budget_bound p : 0 <= budget p <= u32_max.
Proof. unfold budget, as_u32, u32_max. pose proof (Z.mod_pos_bound (Z.max (rp_max_attempts p) 0) (2 ^ 32)). lia. Qed.

Section Retry.
Context `{Profile, Libm}.

(** Every accepted failure report either re-queues the task and uses up exactly one unit
    of the plan's budget, or ends the task [Failed]. *)
Lemma handle_failure_spec t w e now t' o :
  handle_failure t w e now = Ok (t', o) ->
  task_is_terminal (tk_status t) = false /\
  tk_worker_id t' = None /\ tk_lease_expires_at t' = None /\
  tk_retry_plan t' = tk_retry_plan t /\
  match o with
  | Retried => tk_status t' = TPending /\ remaining t' = remaining t - 1 /\ 1 <= remaining t
  | Terminal => tk_status t' = TFailed /\ remaining t' = remaining t
  end.
Proof.
  unfold handle_failure. destruct (task_is_terminal _); [done|]. case_match; [done|].
  destruct (matched_policy _ _) as [[i p]|] eqn:Hm; [|by intros [= <- <-]].
  apply list_find_Some in Hm as (Hi & _ & _).
  destruct (has_budget_after p _) eqn:Hb; [|by intros [= <- <-]].
  apply has_budget_after_true in Hb. pose proof (budget_bound p).
  unfold u32_add at 1. rewrite decide_True by lia. cbn [res_bind].
  destruct (u32_add (rs_attempts _) 1) as [total| |]; cbn [res_bind]; [|done..].
  intros [= <- <-]. unfold remaining; simpl.
  pose proof (remaining_from_step _ _ 0 i p (mkRetrierAttempt
    (attempts_of (rs_retrier_attempts (tk_retry_state t)) i + 1) (Some now)) Hi Hb eq_refl) as Hs.
  simpl in Hs. rewrite Hs.
  pose proof (remaining_from_nonneg (tk_retry_plan t) (record_attempt
    (rs_retrier_attempts (tk_retry_state t)) i (mkRetrierAttempt
    (attempts_of (rs_retrier_attempts (tk_retry_state t)) i + 1) (Some now))) 0).
  repeat split; lia.
Qed.

(** The backoff is at least one second and fits a [u64], whatever [powf] returns. *)
Lemma backoff_bounds p n : 1 <= backoff_for_attempt p n <= u64_max.
Proof. apply max_one_as_u64. Qed.

(** ** Histories of a task *)

(** What can happen to a task row: a claim (when claimable), a completion, a failure
    report, a cancellation.  A rejected report leaves the row as it is. *)
Inductive TaskOp :=
  | OClaim (worker : string) (lease at_ : Timestamp)
  | OComplete (worker : string) (at_ : Timestamp)
  | OFail (worker : string) (error : ExecutionError) (at_ : Timestamp)
  | OCancel (at_ : Timestamp).

Definition run_op (op : TaskOp) (t : Task) : Task * nat :=
  match op with
  | OClaim w l at_ => (if is_claimable_at t at_ then claim t w l at_ else t, 0%nat)
  | OComplete w at_ =>
      (match task_mark_completed t w at_ with Ok t' => t' | _ => t end, 0%nat)
  | OFail w e at_ =>
      match handle_failure t w e at_ with
      | Ok (t', Retried) => (t', 1%nat)
      | Ok (t', Terminal) => (t', 0%nat)
      | _ => (t, 0%nat)
      end
  | OCancel at_ => (match task_mark_cancelled t at_ with Ok t' => t' | _ => t end, 0%nat)
  end.

Fixpoint run_ops (ops : list TaskOp) (t : Task) : Task * nat :=
  match ops with
  | [] => (t, 0%nat)
  | op :: ops' =>
      let '(t1, n1) := run_op op t in
      let '(t2, n2) := run_ops ops' t1 in (t2, (n1 + n2)%nat)
  end.

Lemma run_op_remaining op t :
  remaining (run_op op t).1 = remaining t - Z.of_nat (run_op op t).2.
Proof.
  destruct op as [w l a|w a|w e a|a]; simpl.
  - case_match; unfold remaining; simpl; lia.
  - unfold task_mark_completed. repeat case_match; simplify_eq/=; unfold remaining; simpl; lia.
  - destruct (handle_failure t w e a) as [[t' []]| |] eqn:Hf; simpl; [..|lia|lia];
      apply handle_failure_spec in Hf; naive_solver lia.
  - unfold task_mark_cancelled. destruct (task_is_terminal _); unfold remaining; simpl; lia.
Qed.

Lemma run_ops_remaining ops t :
  remaining (run_ops ops t).1 = remaining t - Z.of_nat (run_ops ops t).2.
Proof.
  revert t. induction ops as [|op ops IH]; intros t; simpl; [lia|].
  pose proof (run_op_remaining op t) as H1. destruct (run_op op t) as [t1 n1].
  specialize (IH t1). destruct (run_ops ops t1) as [t2 n2]. simpl in *. lia.
Qed.

Lemma run_ops_retries_bounded ops t : Z.of_nat (run_ops ops t).2 <= remaining t.
Proof.
  pose proof (run_ops_remaining ops t).
  pose proof (remaining_from_nonneg (tk_retry_plan (run_ops ops t).1)
    (rs_retrier_attempts (tk_retry_state (run_ops ops t).1)) 0).
  unfold remaining in *. lia.
Qed.

Lemma run_op_terminal op t :
  task_is_terminal (tk_status t) = true -> run_op op t = (t, 0%nat).
Proof.
  intros Ht. destruct op as [w l a|w a|w e a|a]; simpl.
  - unfold is_claimable_at. by destruct (tk_status t).
  - unfold task_mark_completed, task_is_running. by destruct (tk_status t).
  - unfold handle_failure. by rewrite Ht.
  - unfold task_mark_cancelled. by rewrite Ht.
Qed.

Lemma run_ops_terminal ops t :
  task_is_terminal (tk_status t) = true -> run_ops ops t = (t, 0%nat).
Proof.
  intros Ht. induction ops as [|op ops IH]; simpl; [done|]. by rewrite run_op_terminal, IH.
Qed.
End Retry.
