(* ===== verification/Keys.v ===== *)
(** The storage key encoding ([crates/storage/src/key.rs]): every row, ownership edge,
    variable scope and scalar of a store lives at one text key
    [/<tenant>/<namespace>/<kind>/<identifier>]. The keys identify what they address, and
    the prefixes of the range scans match exactly the rows they are for. *)
From S2P Require Import Prelude ByteStrings Names Timestamp Json Errors Meta Entities Tasks.
Local Open Scope string_scope.

(** ** Scope and kinds *)

(** [struct Scope], [Scope::new], [Scope::default_scope]. *)
Record Scope := mkScope { sc_tenant : PlainName; sc_namespace : PlainName }.
Definition Scope_new (tenant namespace : PlainName) : Scope := mkScope tenant namespace.
Definition Scope_default_scope : Res NameError Scope :=
  match PlainName_new "default" with
  | Ok d => Ok (Scope_new d d)
  | _ => Panic "`default` is a valid plain name"
  end.

(** [Scope::tenant], [Scope::namespace]. *)
Definition tenant (s : Scope) : string := pn_str (sc_tenant s).
Definition namespace (s : Scope) : string := pn_str (sc_namespace s).

(** [enum Kind], [Kind::segment], [Kind::from_object]. *)
Inductive Kind := KExecution | KThread | KActivity | KTask | KFlow | KFlowVersion.
#[export] Instance Kind_eq_dec : EqDecision Kind.
Proof. solve_decision. Defined.
Definition segment (k : Kind) : string :=
  match k with
  | KExecution => "execution" | KThread => "thread" | KActivity => "activity"
  | KTask => "task" | KFlow => "flow" | KFlowVersion => "flowversion"
  end.
Definition from_object (k : ObjectKind) : Kind :=
  match k with
  | ExecutionKind => KExecution | ThreadKind => KThread | ActivityKind => KActivity
  | TaskKind => KTask | FlowKind => KFlow | FlowVersionKind => KFlowVersion
  end.

(** ** The builder *)

(** [fn join]: the loop pushes [/] and the segment. *)
Definition join (segments : list string) : string :=
  foldl (fun key s => key +:+ "/" +:+ s) "" segments.

(** [struct KeyBuilder]. *)
Record KeyBuilder := KeyBuilder_new { kb_scope : Scope }.

(** [KeyBuilder::row] and the row keys. *)
Definition key_row (kb : KeyBuilder) (kind : Kind) (identifier : string) : string :=
  join [tenant (kb_scope kb); namespace (kb_scope kb); segment kind; identifier].
Definition key_execution (kb : KeyBuilder) (r : ObjectRef ExecutionKind) : string :=
  key_row kb KExecution (as_str (ref_name r)).
Definition key_thread (kb : KeyBuilder) (r : ObjectRef ThreadKind) : string :=
  key_row kb KThread (as_str (ref_name r)).
Definition key_activity (kb : KeyBuilder) (r : ObjectRef ActivityKind) : string :=
  key_row kb KActivity (as_str (ref_name r)).
Definition key_task (kb : KeyBuilder) (r : ObjectRef TaskKind) : string :=
  key_row kb KTask (as_str (ref_name r)).
Definition key_flow (kb : KeyBuilder) (name : PlainName) : string :=
  key_row kb KFlow (pn_str name).
Definition key_flow_version (kb : KeyBuilder) (name : ObjectName) : string :=
  key_row kb KFlowVersion (as_str name).

(** [task_prefix], [kind_prefix], [flow_version_prefix]. *)
Definition task_prefix (kb : KeyBuilder) : string :=
  join [tenant (kb_scope kb); namespace (kb_scope kb); segment KTask; ""].
Definition kind_prefix (kb : KeyBuilder) (kind : Kind) : string :=
  join [tenant (kb_scope kb); namespace (kb_scope kb); segment kind; ""].
Definition flow_version_prefix (kb : KeyBuilder) (flow_name : PlainName) : string :=
  join [tenant (kb_scope kb); namespace (kb_scope kb); segment KFlowVersion;
        pn_str flow_name +:+ "-"].

(** [child_edge_prefix], [child_edge]. *)
Definition child_edge_prefix (kb : KeyBuilder) (parent : RawObjectRef) : string :=
  join [tenant (kb_scope kb); namespace (kb_scope kb); "_index"; "children";
        segment (from_object (raw_kind parent)); as_str (raw_name parent); ""].
Definition child_edge (kb : KeyBuilder) (parent child : RawObjectRef) : string :=
  join [tenant (kb_scope kb); namespace (kb_scope kb); "_index"; "children";
        segment (from_object (raw_kind parent)); as_str (raw_name parent);
        segment (from_object (raw_kind child)); as_str (raw_name child)].

(** [variables], [last_processed_position], [next_generated_seq]. *)
Definition key_variables (kb : KeyBuilder) (thread_name : ObjectName) : string :=
  join [tenant (kb_scope kb); namespace (kb_scope kb); "_index"; "variables"; as_str thread_name].
Definition key_last_processed_position (kb : KeyBuilder) : string :=
  join [tenant (kb_scope kb); namespace (kb_scope kb); "_global"; "last_processed_position"].
Definition key_next_generated_seq (kb : KeyBuilder) : string :=
  join [tenant (kb_scope kb); namespace (kb_scope kb); "_global"; "next_generated_seq"].

Arguments join : simpl never.

(** ** What a key addresses

    The table of the module's documentation as a type: [address] is every cell a store
    has, [key_of] its key through the builder. *)
Inductive address :=
  | ARow (k : ObjectKind) (n : ObjectName)
  | AEdge (pk : ObjectKind) (pn : ObjectName) (ck : ObjectKind) (cn : ObjectName)
  | AVariables (n : ObjectName)
  | APosition
  | ASeq.

Definition key_segments (kb : KeyBuilder) (a : address) : list string :=
  [tenant (kb_scope kb); namespace (kb_scope kb)] ++
  match a with
  | ARow k n => [segment (from_object k); as_str n]
  | AEdge pk pn ck cn => ["_index"; "children"; segment (from_object pk); as_str pn;
                          segment (from_object ck); as_str cn]
  | AVariables n => ["_index"; "variables"; as_str n]
  | APosition => ["_global"; "last_processed_position"]
  | ASeq => ["_global"; "next_generated_seq"]
  end.
Definition key_of (kb : KeyBuilder) (a : address) : string := join (key_segments kb a).

Arguments key_of : simpl never.
Arguments kind_prefix : simpl never.
Arguments task_prefix : simpl never.
Arguments child_edge_prefix : simpl never.

Definition address_wf (a : address) : Prop :=
  match a with
  | ARow _ n | AVariables n => name_wf n
  | AEdge _ pn _ cn => name_wf pn /\ name_wf cn
  | APosition | ASeq => True
  end.
Definition kb_wf (kb : KeyBuilder) : Prop :=
  plain_wf (sc_tenant (kb_scope kb)) /\ plain_wf (sc_namespace (kb_scope kb)).

Lemma default_scope_wf :
  exists s, Scope_default_scope = Ok s /\ kb_wf (KeyBuilder_new s).
Proof. by eexists. Qed.

(** ** Joined segments *)

(** A slash before each segment. *)
Fixpoint slashed (segs : list string) : string :=
  match segs with [] => "" | s :: l => String "/" (s +:+ slashed l) end.

Lemma join_slashed segs : join segs = slashed segs.
Proof.
  unfold join. assert (forall acc, foldl (fun key s => key +:+ "/" +:+ s) acc segs
                                   = acc +:+ slashed segs) as H; [|apply H].
  induction segs as [|s l IH]; intros acc; simpl; [by rewrite string_app_nil_r|].
  rewrite IH. rewrite <- string_app_assoc. f_equal.
Qed.

Lemma slashed_last l s : slashed (l ++ [s]) = slashed (l ++ [""]) +:+ s.
Proof.
  induction l as [|x l IH]; simpl; [by rewrite string_app_nil_r|].
  rewrite IH, (string_app_assoc x). done.
Qed.

Definition seg (s : string) : Prop := no_slash s = true.

(** What follows a segment is nothing, or begins with a slash: the segment is determined. *)
Definition bounded (s : string) : Prop := s = "" \/ exists v, s = String "/" v.

Lemma slashed_bounded l : bounded (slashed l).
Proof. destruct l; [by left|right; simpl; eauto]. Qed.

Lemma seg_head s t a b :
  seg s -> seg t -> bounded a -> bounded b -> s +:+ a = t +:+ b -> s = t /\ a = b.
Proof.
  unfold seg, no_slash. intros Hs Ht Ba Bb. revert t Ht.
  induction s as [|c s IH]; intros [|d t] Ht Heq; simpl in *.
  - done.
  - destruct Ba as [->|[v ->]]; [done|]. injection Heq as <- _. done.
  - destruct Bb as [->|[v ->]]; [done|]. injection Heq as -> _. done.
  - apply andb_true_iff in Hs as [_ Hs], Ht as [_ Ht]. injection Heq as -> Heq.
    destruct (IH Hs t Ht Heq) as [-> ?]. done.
Qed.

Lemma slashed_inj a b : Forall seg a -> Forall seg b -> slashed a = slashed b -> a = b.
Proof.
  intros Ha. revert b. induction Ha as [|s a Hs Ha IH]; intros [|t b] Hb Heq; try done.
  apply Forall_cons in Hb as [Ht Hb]. simpl in Heq. injection Heq as Heq.
  destruct (seg_head s t _ _ Hs Ht (slashed_bounded a) (slashed_bounded b) Heq) as [-> Heq'].
  f_equal. auto.
Qed.

(** An open segment at the end of a prefix matches the segments that begin with it. *)
Lemma seg_prefix p s r :
  seg p -> seg s -> bounded r -> starts_with p (s +:+ r) = true <-> starts_with p s = true.
Proof.
  unfold seg, no_slash, starts_with. intros Hp Hs Br. revert s Hs.
  induction p as [|c p IH]; intros s Hs; [by destruct s, r|].
  simpl in Hp. apply andb_true_iff in Hp as [Hc Hp]. destruct s as [|d s]; simpl.
  - destruct Br as [->|[v ->]]; [done|]. simpl.
    destruct (ascii_dec c "/") as [->|]; [|done]. by rewrite Ascii.eqb_refl in Hc.
  - simpl in Hs. apply andb_true_iff in Hs as [_ Hs]. destruct (ascii_dec c d); auto.
Qed.

(** A prefix of segments, the last one open, matches the lists of segments that begin with
    the closed ones and continue with a segment the open one begins. *)
Lemma slashed_prefix a p b :
  Forall seg a -> seg p -> Forall seg b ->
  starts_with (slashed (a ++ [p])) (slashed b) = true <->
  exists s r, b = (a ++ s :: r)%list /\ starts_with p s = true.
Proof.
  intros Ha Hp. revert b. induction Ha as [|x a Hx Ha IH]; intros b Hb.
  - destruct b as [|s r]; [split; [done|naive_solver]|]. apply Forall_cons in Hb as [Hs _].
    transitivity (starts_with p (s +:+ slashed r) = true); [simpl; by rewrite string_app_nil_r|].
    rewrite seg_prefix by auto using slashed_bounded. naive_solver.
  - destruct b as [|y b]; [split; [done|naive_solver]|]. apply Forall_cons in Hb as [Hy Hb].
    specialize (IH b Hb). split.
    + intros [u Hu]%starts_with_split. simpl in Hu. injection Hu as Hu.
      rewrite <- (string_app_assoc x) in Hu.
      apply seg_head in Hu as [-> Hu]; [|done..|apply slashed_bounded|destruct a; right; simpl; eauto].
      destruct (proj1 IH) as (s & r & -> & Hs); [apply starts_with_split; eauto|]. eauto.
    + intros (s & r & [= -> ->] & Hs).
      assert (starts_with (slashed (a ++ [p])) (slashed (a ++ s :: r)) = true)
        as [u Hu]%starts_with_split by (apply IH; eauto).
      apply starts_with_split. exists u. simpl. rewrite Hu, string_app_assoc. done.
Qed.

(** ** Keys and addresses *)

Lemma plain_seg p : plain_wf p -> seg (pn_str p).
Proof. intros Hp. exact (name_no_slash (Plain p) Hp). Qed.

Lemma segment_seg k : seg (segment k).
Proof. by destruct k. Qed.

Lemma from_object_inj k k' : segment (from_object k) = segment (from_object k') -> k = k'.
Proof. by destruct k, k'. Qed.

Lemma key_segments_seg kb a : kb_wf kb -> address_wf a -> Forall seg (key_segments kb a).
Proof.
  intros [Ht Hn] Ha. unfold key_segments, tenant, namespace.
  repeat apply Forall_cons_2; try by apply plain_seg.
  destruct a; simpl in *; repeat apply Forall_cons_2; try apply Forall_nil_2;
    try apply segment_seg; try done; apply name_no_slash; tauto.
Qed.

(** Two addresses with the same key are the same address. *)
Lemma key_of_inj kb a b :
  kb_wf kb -> address_wf a -> address_wf b -> key_of kb a = key_of kb b -> a = b.
Proof.
  intros Hk Ha Hb. unfold key_of. rewrite !join_slashed.
  intros Heq%slashed_inj; [|by apply key_segments_seg..].
  unfold key_segments in Heq. simplify_list_eq.
  destruct a, b; simpl in *; simplify_eq; try done;
    repeat match goal with
    | H : segment (from_object ?k) = segment (from_object _) |- _ =>
        apply from_object_inj in H as ->
    | H : as_str _ = as_str _ |- _ => apply as_str_inj in H as ->; [|tauto..]
    | H : segment (from_object ?k) = _ |- _ => by destruct k
    | H : _ = segment (from_object ?k) |- _ => by destruct k
    end; done.
Qed.

Lemma key_of_prefix kb a segs p :
  kb_wf kb -> address_wf a -> Forall seg segs -> seg p ->
  starts_with (join (tenant (kb_scope kb) :: namespace (kb_scope kb) :: segs ++ [p]))
    (key_of kb a) = true <->
  exists s r, key_segments kb a = ([tenant (kb_scope kb); namespace (kb_scope kb)] ++ segs
                                   ++ s :: r)%list /\ starts_with p s = true.
Proof.
  intros Hk Ha Hs Hp. unfold key_of. rewrite !join_slashed.
  apply (slashed_prefix (tenant (kb_scope kb) :: namespace (kb_scope kb) :: segs)).
  - destruct Hk. by repeat apply Forall_cons_2; try apply plain_seg.
  - done.
  - by apply key_segments_seg.
Qed.

(** The range of a kind is its rows. *)
Lemma kind_prefix_iff kb k a :
  kb_wf kb -> address_wf a ->
  starts_with (kind_prefix kb (from_object k)) (key_of kb a) = true <-> exists n, a = ARow k n.
Proof.
  intros Hk Ha. unfold kind_prefix.
  rewrite (key_of_prefix kb a [segment (from_object k)] "") by
    (try done; apply Forall_singleton, segment_seg).
  split.
  - intros (s & r & Heq & _). unfold key_segments in Heq. simplify_list_eq.
    destruct a; simpl in Heq; simplify_eq; try (by destruct k).
    match goal with H : segment _ = _ |- _ => apply from_object_inj in H as -> end. eauto.
  - intros [n ->]. exists (as_str n), []. split; [done|by destruct (as_str n)].
Qed.

(** The range of a parent is its edges. *)
Lemma child_edge_prefix_iff kb p a :
  kb_wf kb -> name_wf (raw_name p) -> address_wf a ->
  starts_with (child_edge_prefix kb p) (key_of kb a) = true <->
  exists ck cn, a = AEdge (raw_kind p) (raw_name p) ck cn.
Proof.
  intros Hk Hp Ha. unfold child_edge_prefix.
  rewrite (key_of_prefix kb a ["_index"; "children"; segment (from_object (raw_kind p));
    as_str (raw_name p)] "") by
    (try done; repeat apply Forall_cons_2; try apply Forall_nil_2; try done;
     try apply segment_seg; by apply name_no_slash).
  split.
  - intros (s & r & Heq & _). unfold key_segments in Heq. simplify_list_eq.
    destruct a as [k ?|pk pn ck cn|?| |]; simpl in *; simplify_eq; try (by destruct k).
    match goal with H : segment _ = _ |- _ => apply from_object_inj in H as -> end.
    match goal with H : as_str _ = _ |- _ => apply as_str_inj in H as ->; [|tauto..] end. eauto.
  - intros (ck & cn & ->). exists (segment (from_object ck)), [as_str cn]. by destruct ck.
Qed.

Lemma version_text_prefix f n :
  plain_wf f -> name_wf n ->
  starts_with (pn_str f +:+ "-") (as_str n) = true <-> exists k, n = Generated f k.
Proof.
  intros Hf Hn. rewrite starts_with_split. split.
  - intros [r Hr]. rewrite <- string_app_assoc in Hr.
    assert (split_once "-" (as_str n) = Some (pn_str f, r)) as Hs.
    { rewrite Hr. apply split_once_sep. by apply plain_as_str_no_dash. }
    destruct n as [p|b k]; simpl in *.
    + by rewrite split_once_none in Hs by by apply plain_as_str_no_dash.
    + rewrite split_once_sep in Hs by (apply plain_as_str_no_dash; tauto).
      exists k. destruct b, f; simpl in *. by simplify_eq.
  - intros [k ->]. exists (u64_to_string k). simpl. by rewrite <- string_app_assoc.
Qed.

(** The range of a flow's versions is the rows of the versions of that flow. *)
Lemma flow_version_prefix_iff kb f a :
  kb_wf kb -> plain_wf f -> address_wf a ->
  starts_with (flow_version_prefix kb f) (key_of kb a) = true <->
  exists k, a = ARow FlowVersionKind (Generated f k).
Proof.
  intros Hk Hf Ha. unfold flow_version_prefix.
  rewrite (key_of_prefix kb a [segment KFlowVersion] (pn_str f +:+ "-")); [|done|done| |].
  2: by apply Forall_singleton, segment_seg.
  2: { unfold seg, no_slash. rewrite forallb_app. apply andb_true_iff. split; [|done].
       by apply plain_seg. }
  split.
  - intros (s & r & Heq & Hs). unfold key_segments in Heq. simplify_list_eq.
    destruct a as [k n|? ? ? ?|?| |]; simpl in *; simplify_eq.
    apply version_text_prefix in Hs as [v ->]; [|done..].
    match goal with H : segment _ = _ |- _ => destruct k; simplify_eq end. eauto.
  - intros [v ->]. exists (as_str (Generated f v)), []. split; [done|].
    apply version_text_prefix; eauto.
Qed.
