(* ===== verification/Commands.v ===== *)
(** The write-ahead log's payloads ([crates/engine-types/src/types/command.rs],
    [event.rs], [entry.rs]): commands, events, and the log entry that carries them. *)
From S2P Require Import Prelude Names Timestamp Json Asl Errors Meta Entities Tasks.

(** [type Variables = HashMap<String, Value>]. *)
Definition Variables : Type := gmap string Value.

(** ** Commands *)
Record ActivateState := mkActivateState {
  as_execution : ObjectRef ExecutionKind; as_owner : ObjectRef ThreadKind;
  as_state_path : StatePath; as_input : Value }.
Record CreateFlow := mkCreateFlow {
  cf_request_id : RequestId; cf_name : PlainName; cf_definition : string }.
Record CreateExecution := mkCreateExecution {
  ce_request_id : RequestId; ce_name : ObjectName;
  ce_flow_version : ObjectRef FlowVersionKind; ce_input : Value }.
Record SpawnThread := mkSpawnThread {
  sp_owner : ObjectRef ActivityKind; sp_execution : ObjectRef ExecutionKind;
  sp_state_path : option StatePath; sp_index : Z; sp_start_at : string; sp_input : Value }.
Record CompleteExecution := mkCompleteExecution {
  cx_execution : ObjectRef ExecutionKind; cx_output : Value }.
Record CompleteThread := mkCompleteThread {
  ct_thread : ObjectRef ThreadKind; ct_output : Value }.
Record TerminateExecution := mkTerminateExecution {
  te_name : ObjectName; te_uid : option Ulid; te_reason : TerminationReason }.
Record TerminateThread := mkTerminateThread {
  tt_thread : ObjectRef ThreadKind; tt_reason : TerminationReason }.
Record CompleteState := mkCompleteState {
  cst_activity : ObjectRef ActivityKind; cst_output : Value }.
Record TerminateState := mkTerminateState {
  tst_activity : ObjectRef ActivityKind; tst_reason : TerminationReason }.
Record ActivateTask := mkActivateTask {
  at_execution : ObjectRef ExecutionKind; at_owner : ObjectRef ActivityKind;
  at_task : ObjectRef TaskKind; at_resource : string; at_arguments : Value;
  at_retry_plan : list RetryPolicy; at_deadline : option Timestamp }.
Record ClaimTasks := mkClaimTasks {
  cl_request_id : RequestId; cl_worker_id : string; cl_resource : string;
  cl_max_tasks : Z; cl_lease_seconds : Z }.
Record CompleteTask := mkCompleteTask {
  ctk_request_id : RequestId; ctk_task : ObjectRef TaskKind; ctk_worker_id : string;
  ctk_output : Value }.
Record FailTask := mkFailTask {
  ftk_task : ObjectRef TaskKind; ftk_worker_id : string; ftk_error : ExecutionError }.

(** [enum Command]. *)
Inductive Command :=
  | CCreateFlow (p : CreateFlow)
  | CCreateExecution (p : CreateExecution)
  | CSpawnThread (p : SpawnThread)
  | CCompleteExecution (p : CompleteExecution)
  | CCompleteThread (p : CompleteThread)
  | CTerminateExecution (p : TerminateExecution)
  | CTerminateThread (p : TerminateThread)
  | CActivateState (p : ActivateState)
  | CCompleteState (p : CompleteState)
  | CTerminateState (p : TerminateState)
  | CTriggerDeadline (target : DeadlineTarget) (deadline : Timestamp)
  | CActivateTask (p : ActivateTask)
  | CClaimTasks (p : ClaimTasks)
  | CCompleteTask (p : CompleteTask)
  | CFailTask (p : FailTask)
  | CCancelTask (task : ObjectRef TaskKind)
  | CContinueComplete (owner : RawObjectRef)
  | CContinueTerminate (owner : RawObjectRef).

(** [Command::request_id]. *)
Definition command_request_id (c : Command) : option RequestId :=
  match c with
  | CCreateFlow p => Some (cf_request_id p)
  | CCreateExecution p => Some (ce_request_id p)
  | CClaimTasks p => Some (cl_request_id p)
  | CCompleteTask p => Some (ctk_request_id p)
  | _ => None
  end.

(** ** Events *)

(** [enum Event], the one-field payload structs inlined. *)
Inductive Event :=
  | FlowCreated (request_id : RequestId) (flow : Flow)
  | FlowVersionCreated (request_id : RequestId) (flow_version : FlowVersion)
  | ExecutionCreated (request_id : RequestId) (execution : Execution)
  | ExecutionCompleting (execution : Execution)
  | ExecutionCompleted (execution : Execution)
  | ExecutionTerminating (execution : Execution)
  | ExecutionTerminated (execution : Execution)
  | ThreadCreated (thread : Thread)
  | ThreadCompleting (thread : Thread)
  | ThreadCompleted (thread : Thread)
  | ThreadTerminating (thread : Thread)
  | ThreadTerminated (thread : Thread)
  | StateActivating (activity : Activity)
  | StateActivated (activity : Activity)
  | StateCompleting (activity : Activity)
  | StateCompleted (activity : Activity)
  | StateTerminating (activity : Activity)
  | StateTerminated (activity : Activity)
  | VariablesAssigned (scope : ObjectRef ThreadKind) (variables : Variables)
  | StateTransitioned (activity : ObjectRef ActivityKind) (next : StatePath)
  | TaskActivated (task : Task)
  | TasksClaimed (request_id : RequestId) (tasks : list Task)
  | TaskCompleted (request_id : RequestId) (task : Task) (output : Value)
  | TaskFailed (task : Task) (error : ExecutionError)
  | TaskCancelled (task : Task).

(** [enum EntryPayload]. *)
Inductive EntryPayload :=
  | PCommand (c : Command)
  | PEvent (e : Event)
  | PReject (r : Reject)
  | PNoop.
