(* ===== verification/Storage.v ===== *)
(** Storage ([crates/engine-types/src/storage/mod.rs], [crates/storage/src/memory.rs]):
    the transaction interface the appliers and handlers are written against, the
    in-memory database, and its overlay transaction (reads see the batch over the base,
    writes go to the batch, [commit] folds the batch in). *)
From S2P Require Import Prelude Names Timestamp Json Errors Meta Entities Tasks Commands.
Local Open Scope string_scope.
Local Open Scope Z_scope.

(** ** The interface *)

(** [trait StorageTxn]; [ReadonlyStorageTxn] is its read half. *)
Class StorageTxn (T : Type) : Type := {
  get_execution : ObjectRef ExecutionKind -> M T StorageError (option Execution);
  get_thread : ObjectRef ThreadKind -> M T StorageError (option Thread);
  get_variables : ObjectRef ThreadKind -> M T StorageError Variables;
  get_activity : ObjectRef ActivityKind -> M T StorageError (option Activity);
  get_task : ObjectRef TaskKind -> M T StorageError (option Task);
  get_children : RawObjectRef -> M T StorageError (gset RawObjectRef);
  activatable_tasks : string -> Timestamp -> Z -> M T StorageError (list Task);
  get_flow_by_name : PlainName -> M T StorageError (option Flow);
  get_flow_version : ObjectRef FlowVersionKind -> M T StorageError (option FlowVersion);
  flow_version_of : PlainName -> Z -> M T StorageError (option FlowVersion);
  put_execution : Execution -> M T StorageError unit;
  put_thread : Thread -> M T StorageError unit;
  put_variables : ObjectRef ThreadKind -> Variables -> M T StorageError unit;
  put_activity : Activity -> M T StorageError unit;
  put_task : Task -> M T StorageError unit;
  remove_child : RawObjectRef -> RawObjectRef -> M T StorageError unit;
  add_child : RawObjectRef -> RawObjectRef -> M T StorageError unit;
  put_flow : Flow -> M T StorageError unit;
  put_flow_version : FlowVersion -> M T StorageError unit;
  next_generated_seq : M T StorageError Z;
  put_next_generated_seq : Z -> M T StorageError unit }.

(** Iteration order of [HashMap] and [HashSet]: unspecified, so a parameter; an order
    visits every element once. *)
Class HashOrder : Type := {
  map_iter : gmap ObjectName Task -> list Task;
  set_iter : gset RawObjectRef -> list RawObjectRef;
  index_iter : gmap Z (ObjectRef ThreadKind) -> list (Z * ObjectRef ThreadKind);
  map_iter_perm m : map_iter m ≡ₚ (map_to_list m).*2;
  set_iter_perm X : set_iter X ≡ₚ elements X;
  index_iter_perm m : index_iter m ≡ₚ map_to_list m }.

(** The orders stdpp computes with are such an order. *)
Definition canonical_order : HashOrder := {|
  map_iter m := (map_to_list m).*2;
  set_iter X := elements X;
  index_iter m := map_to_list m;
  map_iter_perm m := reflexivity _;
  set_iter_perm X := reflexivity _;
  index_iter_perm m := reflexivity _ |}.

(** ** The database *)

(** [struct InMemoryDb]. *)
Record InMemoryDb := mkDb {
  db_executions : gmap ObjectName Execution;
  db_threads : gmap ObjectName Thread;
  db_variables : gmap ObjectName Variables;
  db_activities : gmap ObjectName Activity;
  db_tasks : gmap ObjectName Task;
  db_flows : gmap PlainName Flow;
  db_flow_versions : gmap ObjectName FlowVersion;
  db_last_processed_position : Z;
  db_next_generated_seq : Z;
  db_edges : gset (RawObjectRef * RawObjectRef) }.
Definition db_default : InMemoryDb := mkDb ∅ ∅ ∅ ∅ ∅ ∅ ∅ 0 0 ∅.

(** Field updates. *)
Definition db_set_executions (d : InMemoryDb) m := mkDb m (db_threads d) (db_variables d)
  (db_activities d) (db_tasks d) (db_flows d) (db_flow_versions d)
  (db_last_processed_position d) (db_next_generated_seq d) (db_edges d).
Definition db_set_threads (d : InMemoryDb) m := mkDb (db_executions d) m (db_variables d)
  (db_activities d) (db_tasks d) (db_flows d) (db_flow_versions d)
  (db_last_processed_position d) (db_next_generated_seq d) (db_edges d).
Definition db_set_variables (d : InMemoryDb) m := mkDb (db_executions d) (db_threads d) m
  (db_activities d) (db_tasks d) (db_flows d) (db_flow_versions d)
  (db_last_processed_position d) (db_next_generated_seq d) (db_edges d).
Definition db_set_activities (d : InMemoryDb) m := mkDb (db_executions d) (db_threads d)
  (db_variables d) m (db_tasks d) (db_flows d) (db_flow_versions d)
  (db_last_processed_position d) (db_next_generated_seq d) (db_edges d).
Definition db_set_tasks (d : InMemoryDb) m := mkDb (db_executions d) (db_threads d)
  (db_variables d) (db_activities d) m (db_flows d) (db_flow_versions d)
  (db_last_processed_position d) (db_next_generated_seq d) (db_edges d).
Definition db_set_flows (d : InMemoryDb) m := mkDb (db_executions d) (db_threads d)
  (db_variables d) (db_activities d) (db_tasks d) m (db_flow_versions d)
  (db_last_processed_position d) (db_next_generated_seq d) (db_edges d).
Definition db_set_flow_versions (d : InMemoryDb) m := mkDb (db_executions d) (db_threads d)
  (db_variables d) (db_activities d) (db_tasks d) (db_flows d) m
  (db_last_processed_position d) (db_next_generated_seq d) (db_edges d).
Definition db_set_position (d : InMemoryDb) p := mkDb (db_executions d) (db_threads d)
  (db_variables d) (db_activities d) (db_tasks d) (db_flows d) (db_flow_versions d)
  p (db_next_generated_seq d) (db_edges d).
Definition db_set_seq (d : InMemoryDb) s := mkDb (db_executions d) (db_threads d)
  (db_variables d) (db_activities d) (db_tasks d) (db_flows d) (db_flow_versions d)
  (db_last_processed_position d) s (db_edges d).
Definition db_set_edges (d : InMemoryDb) e := mkDb (db_executions d) (db_threads d)
  (db_variables d) (db_activities d) (db_tasks d) (db_flows d) (db_flow_versions d)
  (db_last_processed_position d) (db_next_generated_seq d) e.

(** [InMemoryDb::children]. *)
Definition db_children (d : InMemoryDb) (parent : RawObjectRef) : gset RawObjectRef :=
  set_map snd (filter (fun e : RawObjectRef * RawObjectRef => e.1 = parent) (db_edges d)).

(** The filter of [activatable_tasks] over a table of tasks. *)
Definition select_tasks `{HashOrder} (tasks : gmap ObjectName Task) (resource : string)
    (now : Timestamp) (limit : Z) : list Task :=
  take (Z.to_nat limit)
    (filter (fun t => tk_resource t = resource /\ is_claimable_at t now = true) (map_iter tasks)).

Definition flow_key {T A} (flow : Flow) (k : PlainName -> M T StorageError A)
    : M T StorageError A :=
  match as_plain (m_name (fl_meta flow)) with
  | Some n => k n
  | None => panic "a Flow's meta.name is always a user FlowName"
  end.

(** [impl Storage for InMemoryStorage]: direct reads and writes of the database. *)
Definition reads {T A} (f : T -> A) : M T StorageError A := fun t => (Ok (f t), t).
Definition writes {T} (f : T -> T) : M T StorageError unit := fun t => (Ok tt, f t).
#[export] Instance InMemoryStorage `{HashOrder} : StorageTxn InMemoryDb := {
  get_execution r := reads (fun d => db_executions d !! ref_name r);
  get_thread r := reads (fun d => db_threads d !! ref_name r);
  get_variables r := reads (fun d => default ∅ (db_variables d !! ref_name r));
  get_activity r := reads (fun d => db_activities d !! ref_name r);
  get_task r := reads (fun d => db_tasks d !! ref_name r);
  get_children r := reads (fun d => db_children d r);
  activatable_tasks res now limit := reads (fun d => select_tasks (db_tasks d) res now limit);
  get_flow_by_name n := reads (fun d => db_flows d !! n);
  get_flow_version r := reads (fun d => db_flow_versions d !! ref_name r);
  flow_version_of n v := reads (fun d => db_flow_versions d !! version_name n v);
  put_execution e :=
    writes (fun d => db_set_executions d (<[m_name (ex_meta e) := e]> (db_executions d)));
  put_thread t := writes (fun d => db_set_threads d (<[m_name (th_meta t) := t]> (db_threads d)));
  put_variables r v := writes (fun d => db_set_variables d (<[ref_name r := v]> (db_variables d)));
  put_activity a :=
    writes (fun d => db_set_activities d (<[m_name (ac_meta a) := a]> (db_activities d)));
  put_task t := writes (fun d => db_set_tasks d (<[m_name (tk_meta t) := t]> (db_tasks d)));
  remove_child p c := writes (fun d => db_set_edges d (db_edges d ∖ {[(p, c)]}));
  add_child p c := writes (fun d => db_set_edges d (db_edges d ∪ {[(p, c)]}));
  put_flow f :=
    flow_key f (fun n => writes (fun d => db_set_flows d (<[n := f]> (db_flows d))));
  put_flow_version v :=
    writes (fun d => db_set_flow_versions d (<[m_name (fv_meta v) := v]> (db_flow_versions d)));
  next_generated_seq := reads db_next_generated_seq;
  put_next_generated_seq s := writes (fun d => db_set_seq d s) }.

(** ** The overlay transaction *)

(** [struct InMemoryBatch]; a child edge maps to whether it is present. *)
Record InMemoryBatch := mkBatch {
  b_executions : gmap ObjectName Execution;
  b_threads : gmap ObjectName Thread;
  b_variables : gmap ObjectName Variables;
  b_activities : gmap ObjectName Activity;
  b_tasks : gmap ObjectName Task;
  b_flows : gmap PlainName Flow;
  b_flow_versions : gmap ObjectName FlowVersion;
  b_next_generated_seq : option Z;
  b_children : gmap (RawObjectRef * RawObjectRef) bool }.
Definition batch_default : InMemoryBatch := mkBatch ∅ ∅ ∅ ∅ ∅ ∅ ∅ None ∅.

(** [struct InMemoryTxn]. *)
Record InMemoryTxn := mkTxn { tx_db : InMemoryDb; tx_batch : InMemoryBatch }.

(** [Storage::begin_txn]. *)
Definition begin_txn (d : InMemoryDb) : InMemoryTxn := mkTxn d batch_default.

(** [InMemoryBatch::children]: the loop over the batch's edges, onto the base's set. *)
Definition batch_children (b : InMemoryBatch) (d : InMemoryDb) (parent : RawObjectRef)
    : gset RawObjectRef :=
  map_fold (fun (e : RawObjectRef * RawObjectRef) (present : bool) out =>
    if decide (e.1 = parent) then (if present then out ∪ {[e.2]} else out ∖ {[e.2]}) else out)
    (db_children d parent) (b_children b).

Definition upd (f : InMemoryBatch -> InMemoryBatch) : M InMemoryTxn StorageError unit :=
  writes (fun t => mkTxn (tx_db t) (f (tx_batch t))).
Definition overlay {K A} `{Countable K} (fb : InMemoryBatch -> gmap K A)
    (fd : InMemoryDb -> gmap K A) (k : K) : M InMemoryTxn StorageError (option A) :=
  reads (fun t => match fb (tx_batch t) !! k with
                  | Some x => Some x
                  | None => fd (tx_db t) !! k
                  end).

(** [impl StorageTxn for InMemoryTxn]. *)
#[export] Instance InMemoryTxn_ops `{HashOrder} : StorageTxn InMemoryTxn := {
  get_execution r := overlay b_executions db_executions (ref_name r);
  get_thread r := overlay b_threads db_threads (ref_name r);
  get_variables r :=
    reads (fun t => match b_variables (tx_batch t) !! ref_name r with
                    | Some v => v
                    | None => default ∅ (db_variables (tx_db t) !! ref_name r)
                    end);
  get_activity r := overlay b_activities db_activities (ref_name r);
  get_task r := overlay b_tasks db_tasks (ref_name r);
  get_children r := reads (fun t => batch_children (tx_batch t) (tx_db t) r);
  activatable_tasks res now limit :=
    reads (fun t => select_tasks (map_fold insert (db_tasks (tx_db t)) (b_tasks (tx_batch t)))
                      res now limit);
  get_flow_by_name n := overlay b_flows db_flows n;
  get_flow_version r := overlay b_flow_versions db_flow_versions (ref_name r);
  flow_version_of n v := overlay b_flow_versions db_flow_versions (version_name n v);
  put_execution e := upd (fun b => mkBatch (<[m_name (ex_meta e) := e]> (b_executions b))
    (b_threads b) (b_variables b) (b_activities b) (b_tasks b) (b_flows b) (b_flow_versions b)
    (b_next_generated_seq b) (b_children b));
  put_thread th := upd (fun b => mkBatch (b_executions b)
    (<[m_name (th_meta th) := th]> (b_threads b)) (b_variables b) (b_activities b) (b_tasks b)
    (b_flows b) (b_flow_versions b) (b_next_generated_seq b) (b_children b));
  put_variables r v := upd (fun b => mkBatch (b_executions b) (b_threads b)
    (<[ref_name r := v]> (b_variables b)) (b_activities b) (b_tasks b) (b_flows b)
    (b_flow_versions b) (b_next_generated_seq b) (b_children b));
  put_activity a := upd (fun b => mkBatch (b_executions b) (b_threads b) (b_variables b)
    (<[m_name (ac_meta a) := a]> (b_activities b)) (b_tasks b) (b_flows b) (b_flow_versions b)
    (b_next_generated_seq b) (b_children b));
  put_task t := upd (fun b => mkBatch (b_executions b) (b_threads b) (b_variables b)
    (b_activities b) (<[m_name (tk_meta t) := t]> (b_tasks b)) (b_flows b) (b_flow_versions b)
    (b_next_generated_seq b) (b_children b));
  remove_child p c := upd (fun b => mkBatch (b_executions b) (b_threads b) (b_variables b)
    (b_activities b) (b_tasks b) (b_flows b) (b_flow_versions b) (b_next_generated_seq b)
    (<[(p, c) := false]> (b_children b)));
  add_child p c := upd (fun b => mkBatch (b_executions b) (b_threads b) (b_variables b)
    (b_activities b) (b_tasks b) (b_flows b) (b_flow_versions b) (b_next_generated_seq b)
    (<[(p, c) := true]> (b_children b)));
  put_flow f := flow_key f (fun n => upd (fun b => mkBatch (b_executions b) (b_threads b)
    (b_variables b) (b_activities b) (b_tasks b) (<[n := f]> (b_flows b)) (b_flow_versions b)
    (b_next_generated_seq b) (b_children b)));
  put_flow_version v := upd (fun b => mkBatch (b_executions b) (b_threads b) (b_variables b)
    (b_activities b) (b_tasks b) (b_flows b) (<[m_name (fv_meta v) := v]> (b_flow_versions b))
    (b_next_generated_seq b) (b_children b));
  next_generated_seq :=
    reads (fun t => default (db_next_generated_seq (tx_db t)) (b_next_generated_seq (tx_batch t)));
  put_next_generated_seq s := upd (fun b => mkBatch (b_executions b) (b_threads b)
    (b_variables b) (b_activities b) (b_tasks b) (b_flows b) (b_flow_versions b) (Some s)
    (b_children b)) }.

(** The loop of [commit] over the batch's edges. *)
Definition commit_edges (edges : gset (RawObjectRef * RawObjectRef))
    (batch : gmap (RawObjectRef * RawObjectRef) bool) : gset (RawObjectRef * RawObjectRef) :=
  map_fold (fun e (present : bool) out => if present then out ∪ {[e]} else out ∖ {[e]})
    edges batch.

(** [InMemoryTxn::commit]: [extend] every table, fold the edges, raise the counter, store
    the watermark. *)
Definition commit (t : InMemoryTxn) (watermark : option Z) : Res StorageError InMemoryDb :=
  let b := tx_batch t in
  let d := tx_db t in
  Ok (mkDb (b_executions b ∪ db_executions d) (b_threads b ∪ db_threads d)
        (b_variables b ∪ db_variables d) (b_activities b ∪ db_activities d)
        (b_tasks b ∪ db_tasks d) (b_flows b ∪ db_flows d)
        (b_flow_versions b ∪ db_flow_versions d)
        (default (db_last_processed_position d) watermark)
        (match b_next_generated_seq b with
         | Some s => Z.max (db_next_generated_seq d) s
         | None => db_next_generated_seq d
         end)
        (commit_edges (db_edges d) (b_children b))).
