(* ===== verification/StorageFacts.v ===== *)
(** The overlay transaction refines direct writes: [TxnSim] states what it means for two
    implementations of the storage interface to agree along a relation, and
    [flushes_sim] shows that a transaction and the database its commit would produce
    agree, operation by operation. *)
From S2P Require Import Prelude Names Timestamp Json Errors Meta Entities Tasks Commands Storage.
Local Open Scope Z_scope.

(** ** Agreement of two storage implementations

    The operations the appliers use: every read and write, and the counter through the
    read-and-raise step that is its only use there. *)
Definition bump_to `{StorageTxn T} (k : Z) : M T StorageError unit :=
  let* current := next_generated_seq in put_next_generated_seq (Z.max current k).

Class TxnSim {T1 T2 : Type} `{StorageTxn T1, StorageTxn T2} (R : T1 -> T2 -> Prop) : Prop := {
  sim_get_execution r : sim R eq (get_execution r) (get_execution r);
  sim_get_thread r : sim R eq (get_thread r) (get_thread r);
  sim_get_variables r : sim R eq (get_variables r) (get_variables r);
  sim_get_activity r : sim R eq (get_activity r) (get_activity r);
  sim_get_task r : sim R eq (get_task r) (get_task r);
  sim_get_children r : sim R eq (get_children r) (get_children r);
  sim_activatable_tasks res now n :
    sim R eq (activatable_tasks res now n) (activatable_tasks res now n);
  sim_get_flow_by_name n : sim R eq (get_flow_by_name n) (get_flow_by_name n);
  sim_get_flow_version r : sim R eq (get_flow_version r) (get_flow_version r);
  sim_flow_version_of n v : sim R eq (flow_version_of n v) (flow_version_of n v);
  sim_put_execution e : sim R eq (put_execution e) (put_execution e);
  sim_put_thread t : sim R eq (put_thread t) (put_thread t);
  sim_put_variables r v : sim R eq (put_variables r v) (put_variables r v);
  sim_put_activity a : sim R eq (put_activity a) (put_activity a);
  sim_put_task t : sim R eq (put_task t) (put_task t);
  sim_remove_child p c : sim R eq (remove_child p c) (remove_child p c);
  sim_add_child p c : sim R eq (add_child p c) (add_child p c);
  sim_put_flow f : sim R eq (put_flow f) (put_flow f);
  sim_put_flow_version v : sim R eq (put_flow_version v) (put_flow_version v);
  sim_next : sim R (fun _ _ => True) next_generated_seq next_generated_seq;
  sim_bump k : sim R eq (bump_to k) (bump_to k) }.
#[export] Hint Resolve sim_get_execution sim_get_thread sim_get_variables sim_get_activity
  sim_get_task sim_get_children sim_activatable_tasks sim_get_flow_by_name
  sim_get_flow_version sim_flow_version_of sim_put_execution sim_put_thread
  sim_put_variables sim_put_activity sim_put_task sim_remove_child sim_add_child
  sim_put_flow sim_put_flow_version sim_bump : spica.

(** ** Child edges *)

Definition edge_view (edges : gset (RawObjectRef * RawObjectRef))
    (batch : gmap (RawObjectRef * RawObjectRef) bool) (e : RawObjectRef * RawObjectRef) : Prop :=
  match batch !! e with Some true => True | Some false => False | None => e ∈ edges end.

Lemma elem_of_commit_edges edges batch e :
  e ∈ commit_edges edges batch <-> edge_view edges batch e.
Proof.
  unfold commit_edges, edge_view.
  induction batch as [|e' b m Hm Hf IH] using map_first_key_ind.
  { by rewrite map_fold_empty, lookup_empty. }
  rewrite map_fold_insert_first_key by done.
  destruct (decide (e = e')) as [->|Hne].
  - rewrite lookup_insert_eq. destruct b; set_solver.
  - rewrite lookup_insert_ne by done. rewrite <- IH. destruct b; set_solver.
Qed.

Lemma elem_of_db_children d p c : c ∈ db_children d p <-> (p, c) ∈ db_edges d.
Proof.
  unfold db_children. rewrite elem_of_map. split.
  - intros ([p' c'] & -> & [Hp Hin]%elem_of_filter). simpl in *. by subst.
  - intros Hin. exists (p, c). by rewrite elem_of_filter.
Qed.

Lemma elem_of_batch_children b d p c :
  c ∈ batch_children b d p <-> edge_view (db_edges d) (b_children b) (p, c).
Proof.
  unfold batch_children, edge_view. generalize (b_children b) as m. intros m.
  induction m as [|[p' c'] pr m Hm Hf IH] using map_first_key_ind.
  { by rewrite map_fold_empty, lookup_empty, elem_of_db_children. }
  rewrite map_fold_insert_first_key by done. simpl.
  destruct (decide ((p, c) = (p', c'))) as [[= -> ->]|Hne].
  - rewrite lookup_insert_eq, decide_True by done. destruct pr; set_solver.
  - rewrite lookup_insert_ne by done. rewrite <- IH. case_decide; [|done].
    subst. assert (c <> c') by congruence. destruct pr; set_solver.
Qed.

Lemma map_fold_insert_union {K A} `{Countable K} (d b : gmap K A) :
  map_fold insert d b = b ∪ d.
Proof.
  induction b as [|k x b Hb Hf IH] using map_first_key_ind.
  { by rewrite map_fold_empty, left_id_L by apply _. }
  rewrite map_fold_insert_first_key by done. by rewrite IH, insert_union_l.
Qed.

(** ** The transaction and what its commit would leave *)

(** The batch's counter, when set, is not below the base's. *)
Definition seq_ok (t : InMemoryTxn) : Prop :=
  match b_next_generated_seq (tx_batch t) with
  | Some s => db_next_generated_seq (tx_db t) <= s
  | None => True
  end.
Definition flushes (t : InMemoryTxn) (d : InMemoryDb) : Prop :=
  seq_ok t /\ commit t None = Ok d.

Lemma flushes_begin d : flushes (begin_txn d) d.
Proof.
  split; [done|]. unfold commit, begin_txn; simpl. f_equal. destruct d; simpl.
  f_equal; try apply (left_id_L ∅ (∪)).
Qed.

Lemma lookup_overlay {K A} `{Countable K} (b d : gmap K A) k :
  match b !! k with Some x => Some x | None => d !! k end = (b ∪ d) !! k.
Proof. rewrite lookup_union. by destruct (b !! k), (d !! k). Qed.

(** Reduce a simulation goal for a concrete operation to its state-level content. *)
Ltac flush_op :=
  intros [d0 b] d [Hseq Hc]; unfold commit in Hc; simplify_eq/=;
  unfold reads, overlay, writes, upd; simpl;
  repeat split; simpl; rewrite ?lookup_overlay; try done.

Section Flush.
Context `{HashOrder}.

Lemma commit_edges_insert edges m (e : RawObjectRef * RawObjectRef) (b : bool) :
  commit_edges edges (<[e:=b]> m) =
  if b then commit_edges edges m ∪ {[e]} else commit_edges edges m ∖ {[e]}.
Proof.
  apply set_eq. intros e'.
  assert (edge_view edges (<[e := b]> m) e' <->
          if decide (e' = e) then b = true else edge_view edges m e') as Hv.
  { unfold edge_view. case_decide as He; subst.
    - rewrite lookup_insert_eq. by destruct b.
    - by rewrite lookup_insert_ne. }
  rewrite elem_of_commit_edges, Hv. destruct b; rewrite ?elem_of_union, ?elem_of_difference,
    elem_of_commit_edges, elem_of_singleton; case_decide; naive_solver.
Qed.

#[export] Instance flushes_sim : TxnSim flushes.
Proof.
  split.
  - intros r. flush_op.
  - intros r. flush_op.
  - intros r. flush_op. rewrite lookup_union.
    by destruct (b_variables b !! _), (db_variables d0 !! _).
  - intros r. flush_op.
  - intros r. flush_op.
  - intros r. flush_op. apply set_eq. intros c.
    by rewrite elem_of_batch_children, elem_of_db_children; simpl; rewrite elem_of_commit_edges.
  - intros res now n. flush_op. by rewrite map_fold_insert_union.
  - intros n. flush_op.
  - intros r. flush_op.
  - intros n v. flush_op.
  - intros e. flush_op. unfold commit; simpl. by rewrite insert_union_l.
  - intros e. flush_op. unfold commit; simpl. by rewrite insert_union_l.
  - intros e v. flush_op. unfold commit; simpl. by rewrite insert_union_l.
  - intros e. flush_op. unfold commit; simpl. by rewrite insert_union_l.
  - intros e. flush_op. unfold commit; simpl. by rewrite insert_union_l.
  - intros p c. flush_op. unfold commit; simpl. by rewrite commit_edges_insert.
  - intros p c. flush_op. unfold commit; simpl. by rewrite commit_edges_insert.
  - intros f. unfold put_flow; simpl. unfold flow_key.
    destruct (as_plain _); [|apply sim_panic].
    flush_op. unfold commit; simpl. by rewrite insert_union_l.
  - intros v. flush_op. unfold commit; simpl. by rewrite insert_union_l.
  - flush_op.
  - intros k. unfold bump_to, bind. flush_op.
    + destruct b as [? ? ? ? ? ? ? [s|] ?]; unfold seq_ok in *; simpl in *; lia.
    + unfold commit; simpl. unfold db_set_seq; simpl. do 2 f_equal.
      destruct b as [? ? ? ? ? ? ? [s|] ?]; unfold seq_ok in *; simpl in *; lia.
Qed.
End Flush.
