(* ===== verification/Rows.v ===== *)
(** The rows of a store as bytes: the serializer the backends share, and the in-memory
    [list_kind] ([crates/storage/src/memory.rs]), which orders a kind's rows by name and
    serves them a page at a time. *)
From S2P Require Import Prelude ByteStrings Names Timestamp Json Errors Meta Entities Tasks.
From S2P Require Import Commands Storage.
Local Open Scope string_scope.
Local Open Scope Z_scope.

(** ** The serializer

    [serde_json::to_vec] and [from_slice] at a row type, with the text of their error. The
    derived implementations are not in the sources: they are a parameter, and [codes] is the
    set of values they round-trip. *)
Class RowCodec (B A : Type) : Type := {
  to_vec : A -> Res string B;
  from_slice : B -> Res string A }.
Class RowCodecLaws (B A : Type) `{RowCodec B A} (codes : A -> Prop) : Prop :=
  row_roundtrip a : codes a -> exists b, to_vec a = Ok b /\ from_slice b = Ok a.

(** The serializer at every type a store writes. *)
Class RowCodecs (B : Type) : Type := {
  codec_execution :: RowCodec B Execution;
  codec_thread :: RowCodec B Thread;
  codec_variables :: RowCodec B Variables;
  codec_activity :: RowCodec B Activity;
  codec_task :: RowCodec B Task;
  codec_flow :: RowCodec B Flow;
  codec_flow_version :: RowCodec B FlowVersion;
  codec_ref :: RowCodec B RawObjectRef;
  codec_i64 :: RowCodec B Z }.

(** The order a hash table is iterated in. *)
Class RowOrder : Type := {
  row_iter {K A : Type} `{Countable K} : gmap K A -> list (K * A);
  row_iter_perm {K A : Type} `{Countable K} (m : gmap K A) : row_iter m ≡ₚ map_to_list m }.
Definition canonical_row_order : RowOrder := {|
  row_iter _ _ _ _ m := map_to_list m;
  row_iter_perm _ _ _ _ m := reflexivity _ |}.

(** Rows by the text of their name ([sort_by_key(|a| a.0.as_str())]). *)
Definition name_le {A : Type} (x y : ObjectName * A) : Prop :=
  str_le (as_str x.1) (as_str y.1).
#[export] Instance name_le_dec {A} (x y : ObjectName * A) : Decision (name_le x y).
Proof. unfold name_le. apply _. Defined.
#[export] Instance name_le_trans {A} : Transitive (@name_le A).
Proof. intros x y z. unfold name_le. apply transitivity. Qed.
#[export] Instance name_le_total {A} : Total (@name_le A).
Proof. intros x y. unfold name_le. apply total, _. Qed.
Definition sort_by_name {A : Type} (l : list (ObjectName * A)) : list (ObjectName * A) :=
  merge_sort name_le l.

(** Collect the results of a map over rows. *)
Fixpoint collect {E A} (l : list (Res E A)) : Res E (list A) :=
  match l with
  | [] => Ok []
  | r :: l' => res_bind r (fun a => res_map (cons a) (collect l'))
  end.

Section MemoryList.
Context {B : Type} `{RowCodecs B, RowOrder}.

(** [fn encode_rows]; a row that does not serialize is a panic. *)
Definition encode_rows {V} `{RowCodec B V} (map : gmap ObjectName V)
    : Res StorageError (list (ObjectName * B)) :=
  collect ((fun kv : ObjectName * V =>
    match to_vec kv.2 with
    | Ok b => Ok (kv.1, b)
    | _ => Panic "storage rows are serializable"
    end) <$> row_iter map).

(** The rows of [ObjectKind::Flow]. *)
Definition encode_flows (flows : gmap PlainName Flow)
    : Res StorageError (list (ObjectName * B)) :=
  collect ((fun kv : PlainName * Flow =>
    match ObjectName_plain (pn_str kv.1) with
    | Ok name =>
        match to_vec kv.2 with
        | Ok b => Ok (name, b)
        | _ => Panic "Flow serializes"
        end
    | _ => Panic "a FlowName is a valid plain ObjectName"
    end) <$> row_iter flows).

(** The page of sorted rows after a name. *)
Definition after_name (after : option ObjectName) (row : ObjectName * B) : Prop :=
  match after with Some a => str_lt (as_str a) (as_str row.1) | None => True end.
#[export] Instance after_name_dec after row : Decision (after_name after row).
Proof. destruct after; simpl; apply _. Defined.
Definition page (after : option ObjectName) (limit : Z) (rows : list (ObjectName * B))
    : list (ObjectName * B) :=
  take (Z.to_nat limit) (filter (after_name after) rows).

(** [InMemoryStorage::list_kind]. *)
Definition memory_list_kind (kind : ObjectKind) (start_after : option ObjectName) (limit : Z)
    : M InMemoryDb StorageError (list (ObjectName * B)) :=
  fun db =>
  (res_map (fun rows => page start_after limit (sort_by_name rows))
     match kind with
     | ExecutionKind => encode_rows (db_executions db)
     | ThreadKind => encode_rows (db_threads db)
     | ActivityKind => encode_rows (db_activities db)
     | TaskKind => encode_rows (db_tasks db)
     | FlowKind => encode_flows (db_flows db)
     | FlowVersionKind => encode_rows (db_flow_versions db)
     end, db).
End MemoryList.
