(* ===== verification/RocksStorage.v ===== *)
(** The persistent store ([crates/storage/src/rocks.rs]): rows at the keys of [Keys], as
    their JSON bytes, in a RocksDB database opened with its default options; [RocksStorage]
    is the committed store, [RocksTxn] a native transaction over it.

    The [rocksdb] crate is a parameter: [RocksDb] names the calls the source makes, with the
    text of their errors. *)
From S2P Require Import Prelude ByteStrings Names Timestamp Json Errors Meta Entities Tasks.
From S2P Require Import Commands Keys Storage Rows.
Local Open Scope string_scope.
Local Open Scope Z_scope.

(** [OptimisticTransactionDB] ([D]) and [Transaction] ([X]). An iterator is the list of the
    items it yields. *)
Class RocksDb (B D X : Type) : Type := {
  rdb_open_default : string -> Res string D;
  rdb_get : D -> string -> Res string (option B);
  rdb_put : string -> B -> M D string unit;
  rdb_delete : string -> M D string unit;
  rdb_prefix_iterator : D -> string -> list (Res string (string * B));
  rdb_transaction : D -> X;
  rtx_get : X -> string -> Res string (option B);
  rtx_put : string -> B -> M X string unit;
  rtx_delete : string -> M X string unit;
  rtx_iterator_from : X -> string -> list (Res string (string * B));
  rtx_commit : X -> M D string unit }.

(** ** Text of a key ([std::str::from_utf8]) *)

(** [struct Utf8Error] and its [Display]. *)
Record Utf8Error := mkUtf8Error { valid_up_to : Z; error_len : option Z }.
Definition utf8_error_str (e : Utf8Error) : string :=
  match error_len e with
  | Some n => "invalid utf-8 sequence of " +:+ u64_to_string n +:+ " bytes from index "
              +:+ u64_to_string (valid_up_to e)
  | None => "incomplete utf-8 byte sequence from index " +:+ u64_to_string (valid_up_to e)
  end.

Definition in_range (lo hi : Z) (c : ascii) : bool :=
  let n := Z.of_N (N_of_ascii c) in (lo <=? n) && (n <=? hi).
Definition continuation (c : ascii) : bool := in_range 0x80 0xBF c.

(** One character at the head of [s], [at_] bytes in: what follows it and its width. *)
Definition utf8_char (at_ : Z) (c : ascii) (s : string) : Res Utf8Error (string * Z) :=
  let bad n := Err (mkUtf8Error at_ (Some n)) in
  let short := Err (mkUtf8Error at_ None) in
  let tail (n : Z) (s : string) (k : string -> Res Utf8Error (string * Z)) :=
    match s with
    | EmptyString => short
    | String d s' => if continuation d then k s' else bad n
    end in
  let second (ok : ascii -> bool) (k : string -> Res Utf8Error (string * Z)) :=
    match s with
    | EmptyString => short
    | String d s' => if ok d then k s' else bad 1
    end in
  if in_range 0 0x7F c then Ok (s, 1)
  else if in_range 0xC2 0xDF c then second continuation (fun s => Ok (s, 2))
  else if in_range 0xE0 0xEF c then
    second (if in_range 0xE0 0xE0 c then in_range 0xA0 0xBF
            else if in_range 0xED 0xED c then in_range 0x80 0x9F else continuation)
      (fun s => tail 2 s (fun s => Ok (s, 3)))
  else if in_range 0xF0 0xF4 c then
    second (if in_range 0xF0 0xF0 c then in_range 0x90 0xBF
            else if in_range 0xF4 0xF4 c then in_range 0x80 0x8F else continuation)
      (fun s => tail 2 s (fun s => tail 3 s (fun s => Ok (s, 4))))
  else bad 1.

Fixpoint from_utf8_from (fuel : nat) (at_ : Z) (s : string) : Res Utf8Error unit :=
  match fuel, s with
  | S fuel', String c s' =>
      res_bind (utf8_char at_ c s') (fun '(rest, w) => from_utf8_from fuel' (at_ + w) rest)
  | _, _ => Ok tt
  end.
Definition from_utf8 (s : string) : Res Utf8Error string :=
  res_map (fun _ => s) (from_utf8_from (String.length s) 0 s).

(** [format!("{kind:?}")]. *)
Definition kind_debug (k : ObjectKind) : string :=
  match k with
  | FlowKind => "Flow" | FlowVersionKind => "FlowVersion" | ExecutionKind => "Execution"
  | ThreadKind => "Thread" | ActivityKind => "Activity" | TaskKind => "Task"
  end.
Definition name_error_str (e : NameError) : string := match e with Invalid m => m end.
Definition slice_panic (start len : nat) : string :=
  "range start index " +:+ u64_to_string (Z.of_nat start) +:+
  " out of range for slice of length " +:+ u64_to_string (Z.of_nat len).

(** ** The committed store *)

(** [struct RocksStorage]. *)
Record RocksStorage (D : Type) := mkRocksStorage { rs_db : D; rs_keys : KeyBuilder }.
Arguments mkRocksStorage {D}. Arguments rs_db {D}. Arguments rs_keys {D}.

(** [struct RocksTxn]. *)
Record RocksTxn (X : Type) := mkRocksTxn { rt_txn : X; rt_keys : KeyBuilder }.
Arguments mkRocksTxn {X}. Arguments rt_txn {X}. Arguments rt_keys {X}.

Section Rocks.
Context {B D X : Type} `{RocksDb B D X, RowCodecs B}.

Definition backend (what : string) (e : string) : StorageError := Backend (what +:+ ": " +:+ e).
Definition codec (what : string) (e : string) : StorageError := Codec (what +:+ ": " +:+ e).

(** [RocksStorage::open]. *)
Definition RocksStorage_open (path : string) : Res StorageError (RocksStorage D) :=
  res_bind (res_map_err (backend "rocksdb open") (rdb_open_default path)) (fun db =>
  match Scope_default_scope with
  | Ok scope => Ok (mkRocksStorage db (KeyBuilder_new scope))
  | Err e => Panic (name_error_str e)
  | Panic m => Panic m
  end).

(** The [match] of [get_row] on what the key holds. *)
Definition decode_row {A} `{RowCodec B A} (o : option B) : Res StorageError (option A) :=
  match o with
  | Some bytes => res_map_err (codec "deserialize row") (res_map Some (from_slice bytes))
  | None => Ok None
  end.

(** [RocksStorage::get_row], [put_row], [delete_row]. *)
Definition rs_get_row {A} `{RowCodec B A} (key : KeyBuilder -> string)
    : M (RocksStorage D) StorageError (option A) :=
  fun s => (res_bind (res_map_err (backend "rocksdb read") (rdb_get (rs_db s) (key (rs_keys s))))
              decode_row, s).
Definition on_db {A} (what : string) (m : M D string A) : M (RocksStorage D) StorageError A :=
  fun s => let '(r, db) := m (rs_db s) in
           (res_map_err (backend what) r, mkRocksStorage db (rs_keys s)).
Definition rs_put_row {A} `{RowCodec B A} (key : KeyBuilder -> string) (value : A)
    : M (RocksStorage D) StorageError unit :=
  let* bytes := lift_res (res_map_err (codec "serialize row") (to_vec value)) in
  let* s := get_st in
  on_db "rocksdb write" (rdb_put (key (rs_keys s)) bytes).
Definition rs_delete_row (key : KeyBuilder -> string) : M (RocksStorage D) StorageError unit :=
  let* s := get_st in
  on_db "rocksdb delete" (rdb_delete (key (rs_keys s))).

(** [impl Storage for RocksStorage]: the point reads. *)
Definition rs_get_execution (r : ObjectRef ExecutionKind) :=
  rs_get_row (A:=Execution) (fun kb => key_execution kb r).
Definition rs_get_thread (r : ObjectRef ThreadKind) :=
  rs_get_row (A:=Thread) (fun kb => key_thread kb r).
Definition rs_get_variables (r : ObjectRef ThreadKind) :=
  let* v := rs_get_row (A:=Variables) (fun kb => key_variables kb (ref_name r)) in
  ret (default ∅ v).
Definition rs_get_activity (r : ObjectRef ActivityKind) :=
  rs_get_row (A:=Activity) (fun kb => key_activity kb r).
Definition rs_get_task (r : ObjectRef TaskKind) :=
  rs_get_row (A:=Task) (fun kb => key_task kb r).
Definition rs_get_flow_by_name (n : PlainName) :=
  rs_get_row (A:=Flow) (fun kb => key_flow kb n).
Definition rs_get_flow_version (r : ObjectRef FlowVersionKind) :=
  rs_get_row (A:=FlowVersion) (fun kb => key_flow_version kb (ref_name r)).
Definition rs_flow_version_of (n : PlainName) (version : Z) :=
  rs_get_row (A:=FlowVersion) (fun kb => key_flow_version kb (version_name n version)).
Definition rs_last_processed_position :=
  let* p := rs_get_row (A:=Z) key_last_processed_position in ret (default 0 p).
Definition rs_next_generated_seq :=
  let* p := rs_get_row (A:=Z) key_next_generated_seq in ret (default 0 p).

(** The loop of [RocksStorage::activatable_tasks] over the items of the iterator. *)
Definition claimable (resource : string) (now : Timestamp) (t : Task) : bool :=
  bool_decide (tk_resource t = resource) && is_claimable_at t now.
Fixpoint rs_task_scan (resource : string) (now : Timestamp) (limit : Z)
    (items : list (Res string (string * B))) (out : list Task) : Res StorageError (list Task) :=
  match items with
  | [] => Ok out
  | item :: rest =>
      res_bind (res_map_err (backend "rocksdb task scan") item) (fun '(_, value) =>
      res_bind (res_map_err (codec "rocksdb task decode") (from_slice value)) (fun task =>
      if claimable resource now task then
        if decide (limit <= Z.of_nat (length out)) then Ok out
        else rs_task_scan resource now limit rest (out ++ [task])
      else rs_task_scan resource now limit rest out))
  end.
Definition rs_activatable_tasks (resource : string) (now : Timestamp) (limit : Z)
    : M (RocksStorage D) StorageError (list Task) :=
  fun s => (rs_task_scan resource now limit
              (rdb_prefix_iterator (rs_db s) (task_prefix (rs_keys s))) [], s).

(** The loop of [RocksStorage::list_kind]. *)
Fixpoint rs_list_scan (kind : ObjectKind) (prefix : string) (after : option string) (limit : Z)
    (items : list (Res string (string * B))) (out : list (ObjectName * B))
    : Res StorageError (list (ObjectName * B)) :=
  match items with
  | [] => Ok out
  | item :: rest =>
      res_bind (res_map_err (backend ("rocksdb " +:+ kind_debug kind +:+ " scan")) item)
        (fun '(key, value) =>
      match slice_from (String.length prefix) key with
      | None => Panic (slice_panic (String.length prefix) (String.length key))
      | Some name =>
          let bad m := InvalidKey ("rocksdb " +:+ kind_debug kind +:+ " name: " +:+ m) in
          res_bind (res_map_err (fun e => bad (utf8_error_str e)) (from_utf8 name)) (fun name =>
          if match after with Some a => bool_decide (str_le name a) | None => false end
          then rs_list_scan kind prefix after limit rest out
          else
            res_bind (res_map_err (fun e => bad (name_error_str e)) (from_parsed name))
              (fun name =>
            let out := (out ++ [(name, value)])%list in
            if decide (limit <= Z.of_nat (length out)) then Ok out
            else rs_list_scan kind prefix after limit rest out))
      end)
  end.
Definition rs_list_kind (kind : ObjectKind) (start_after : option ObjectName) (limit : Z)
    : M (RocksStorage D) StorageError (list (ObjectName * B)) :=
  fun s =>
  let prefix := kind_prefix (rs_keys s) (from_object kind) in
  (rs_list_scan kind prefix (as_str <$> start_after) limit
     (rdb_prefix_iterator (rs_db s) prefix) [], s).

(** The loop of [RocksStorage::get_children]. *)
Fixpoint rs_edge_scan (prefix : string) (items : list (Res string (string * B)))
    (out : gset RawObjectRef) : Res StorageError (gset RawObjectRef) :=
  match items with
  | [] => Ok out
  | item :: rest =>
      res_bind (res_map_err (backend "rocksdb edge scan") item) (fun '(key, value) =>
      if negb (starts_with prefix key) then Ok out
      else
        res_bind (res_map_err (codec "rocksdb edge decode") (from_slice value)) (fun child =>
        rs_edge_scan prefix rest ({[child]} ∪ out)))
  end.
Definition rs_get_children (id : RawObjectRef)
    : M (RocksStorage D) StorageError (gset RawObjectRef) :=
  fun s =>
  let prefix := child_edge_prefix (rs_keys s) id in
  (rs_edge_scan prefix (rdb_prefix_iterator (rs_db s) prefix) ∅, s).

(** The writes. *)
Definition rs_put_execution (e : Execution) :=
  rs_put_row (fun kb => key_execution kb (object_ref (ex_meta e))) e.
Definition rs_put_thread (t : Thread) :=
  rs_put_row (fun kb => key_thread kb (object_ref (th_meta t))) t.
Definition rs_put_variables (r : ObjectRef ThreadKind) (v : Variables) :=
  rs_put_row (fun kb => key_variables kb (ref_name r)) v.
Definition rs_put_activity (a : Activity) :=
  rs_put_row (fun kb => key_activity kb (object_ref (ac_meta a))) a.
Definition rs_put_task (t : Task) :=
  rs_put_row (fun kb => key_task kb (object_ref (tk_meta t))) t.
Definition rs_remove_child (parent child : RawObjectRef) :=
  rs_delete_row (fun kb => child_edge kb parent child).
Definition rs_add_child (parent child : RawObjectRef) :=
  rs_put_row (fun kb => child_edge kb parent child) child.
Definition rs_put_flow (f : Flow) :=
  flow_key f (fun n => rs_put_row (fun kb => key_flow kb n) f).
Definition rs_put_flow_version (v : FlowVersion) :=
  rs_put_row (fun kb => key_flow_version kb (m_name (fv_meta v))) v.
Definition rs_put_last_processed_position (position : Z) :=
  rs_put_row key_last_processed_position position.

(** [RocksStorage::begin_txn]. *)
Definition rs_begin_txn : M (RocksStorage D) StorageError (RocksTxn X) :=
  fun s => (Ok (mkRocksTxn (rdb_transaction (rs_db s)) (rs_keys s)), s).

(** ** The transaction *)

(** [RocksTxn::get_row], [put_row], [delete_row]. *)
Definition rt_get_row {A} `{RowCodec B A} (key : KeyBuilder -> string)
    : M (RocksTxn X) StorageError (option A) :=
  fun t => (res_bind (res_map_err (backend "txn read") (rtx_get (rt_txn t) (key (rt_keys t))))
              decode_row, t).
Definition on_rocks_txn {A} (what : string) (m : M X string A) : M (RocksTxn X) StorageError A :=
  fun t => let '(r, x) := m (rt_txn t) in (res_map_err (backend what) r, mkRocksTxn x (rt_keys t)).
Definition rt_put_row {A} `{RowCodec B A} (key : KeyBuilder -> string) (value : A)
    : M (RocksTxn X) StorageError unit :=
  let* bytes := lift_res (res_map_err (codec "serialize row") (to_vec value)) in
  let* t := get_st in
  on_rocks_txn "txn write" (rtx_put (key (rt_keys t)) bytes).
Definition rt_delete_row (key : KeyBuilder -> string) : M (RocksTxn X) StorageError unit :=
  let* t := get_st in
  on_rocks_txn "txn delete" (rtx_delete (key (rt_keys t))).

(** The loop of [RocksTxn::activatable_tasks]. *)
Fixpoint rt_task_scan (prefix resource : string) (now : Timestamp) (limit : Z)
    (items : list (Res string (string * B))) (out : list Task) : Res StorageError (list Task) :=
  match items with
  | [] => Ok out
  | item :: rest =>
      res_bind (res_map_err (backend "rocksdb txn task scan") item) (fun '(key, value) =>
      if negb (starts_with prefix key) then Ok out
      else
        res_bind (res_map_err (codec "rocksdb txn task decode") (from_slice value)) (fun task =>
        if claimable resource now task then
          if decide (limit <= Z.of_nat (length out)) then Ok out
          else rt_task_scan prefix resource now limit rest (out ++ [task])
        else rt_task_scan prefix resource now limit rest out))
  end.
Definition rt_activatable_tasks (resource : string) (now : Timestamp) (limit : Z)
    : M (RocksTxn X) StorageError (list Task) :=
  fun t =>
  let prefix := task_prefix (rt_keys t) in
  (rt_task_scan prefix resource now limit (rtx_iterator_from (rt_txn t) prefix) [], t).

(** The loop of [RocksTxn::get_children]. *)
Fixpoint rt_edge_scan (prefix : string) (items : list (Res string (string * B)))
    (out : gset RawObjectRef) : Res StorageError (gset RawObjectRef) :=
  match items with
  | [] => Ok out
  | item :: rest =>
      res_bind (res_map_err (backend "rocksdb txn edge scan") item) (fun '(key, value) =>
      if negb (starts_with prefix key) then Ok out
      else
        res_bind (res_map_err (codec "rocksdb txn edge decode") (from_slice value)) (fun child =>
        rt_edge_scan prefix rest ({[child]} ∪ out)))
  end.
Definition rt_get_children (id : RawObjectRef)
    : M (RocksTxn X) StorageError (gset RawObjectRef) :=
  fun t =>
  let prefix := child_edge_prefix (rt_keys t) id in
  (rt_edge_scan prefix (rtx_iterator_from (rt_txn t) prefix) ∅, t).

(** [RocksTxn::next_generated_seq], [put_next_generated_seq], [put_flow]. *)
Definition rt_next_generated_seq : M (RocksTxn X) StorageError Z :=
  let* p := rt_get_row key_next_generated_seq in ret (default 0 p).
Definition rt_put_next_generated_seq (seq : Z) : M (RocksTxn X) StorageError unit :=
  rt_put_row key_next_generated_seq seq.
Definition rt_put_flow (f : Flow) : M (RocksTxn X) StorageError unit :=
  flow_key f (fun n => rt_put_row (fun kb => key_flow kb n) f).

(** [impl StorageTxn for RocksTxn]. *)
#[export] Instance RocksTxn_ops : StorageTxn (RocksTxn X) := {
  get_execution r := rt_get_row (fun kb => key_execution kb r);
  get_thread r := rt_get_row (fun kb => key_thread kb r);
  get_variables r :=
    let* v := rt_get_row (fun kb => key_variables kb (ref_name r)) in ret (default ∅ v);
  get_activity r := rt_get_row (fun kb => key_activity kb r);
  get_task r := rt_get_row (fun kb => key_task kb r);
  get_children := rt_get_children;
  activatable_tasks := rt_activatable_tasks;
  get_flow_by_name n := rt_get_row (fun kb => key_flow kb n);
  get_flow_version r := rt_get_row (fun kb => key_flow_version kb (ref_name r));
  flow_version_of n v := rt_get_row (fun kb => key_flow_version kb (version_name n v));
  put_execution e := rt_put_row (fun kb => key_execution kb (object_ref (ex_meta e))) e;
  put_thread t := rt_put_row (fun kb => key_thread kb (object_ref (th_meta t))) t;
  put_variables r v := rt_put_row (fun kb => key_variables kb (ref_name r)) v;
  put_activity a := rt_put_row (fun kb => key_activity kb (object_ref (ac_meta a))) a;
  put_task t := rt_put_row (fun kb => key_task kb (object_ref (tk_meta t))) t;
  remove_child p c := rt_delete_row (fun kb => child_edge kb p c);
  add_child p c := rt_put_row (fun kb => child_edge kb p c) c;
  put_flow := rt_put_flow;
  put_flow_version v := rt_put_row (fun kb => key_flow_version kb (m_name (fv_meta v))) v;
  next_generated_seq := rt_next_generated_seq;
  put_next_generated_seq := rt_put_next_generated_seq }.

(** [RocksTxn::commit]: the watermark joins the transaction, which is committed whole. *)
Definition rt_commit (t : RocksTxn X) (watermark : option Z)
    : M (RocksStorage D) StorageError unit :=
  fun s =>
  let '(r, t) := match watermark with
                 | Some w => rt_put_row key_last_processed_position w t
                 | None => (Ok tt, t)
                 end in
  match r with
  | Ok _ => on_db "rocksdb txn commit" (rtx_commit (rt_txn t)) s
  | Err e => (Err e, s)
  | Panic m => (Panic m, s)
  end.
End Rocks.
