(* ===== verification/RocksFacts.v ===== *)
(** The persistent store refines the in-memory one: [stores] relates the keys and bytes of
    a database to the tables of [InMemoryDb]; every operation of a transaction and of the
    committed store keeps it and answers alike, the scans of a transaction included.

    What is assumed of RocksDB ([RocksLaws]) is its documented behaviour on a disk that
    works: point reads and writes of one ordered map, iterators in key order from a start
    key on, transactions that read their own writes and are applied whole by a commit
    nothing conflicts with. A database opened without a prefix extractor has prefix
    iterators that run to the end of the key space. *)
From S2P Require Import Prelude ByteStrings Names Timestamp Json Errors Meta Entities Tasks.
From S2P Require Import Commands Keys Storage StorageFacts Rows RocksStorage.
Local Open Scope string_scope.
Local Open Scope Z_scope.

(** ** What is assumed of RocksDB *)

Definition scan_of {B} (m : gmap string B) (from : string) (l : list (string * B)) : Prop :=
  StronglySorted (fun x y => str_lt x.1 y.1) l /\
  forall k b, (k, b) ∈ l <-> m !! k = Some b /\ str_le from k.

Class RocksLaws (B D X : Type) `{RocksDb B D X} : Type := {
  dview : D -> gmap string B;
  xview : X -> gmap string B;
  xbase : X -> gmap string B;
  law_get d k : rdb_get d k = Ok (dview d !! k);
  law_put k b d : exists d', rdb_put k b d = (Ok tt, d') /\ dview d' = <[k := b]> (dview d);
  law_delete k d : exists d', rdb_delete k d = (Ok tt, d') /\ dview d' = delete k (dview d);
  law_prefix_iterator d p :
    exists l, rdb_prefix_iterator d p = Ok <$> l /\ scan_of (dview d) p l;
  law_transaction d : xview (rdb_transaction d) = dview d /\ xbase (rdb_transaction d) = dview d;
  law_txn_get x k : rtx_get x k = Ok (xview x !! k);
  law_txn_put k b x : exists x', rtx_put k b x = (Ok tt, x') /\
    xview x' = <[k := b]> (xview x) /\ xbase x' = xbase x;
  law_txn_delete k x : exists x', rtx_delete k x = (Ok tt, x') /\
    xview x' = delete k (xview x) /\ xbase x' = xbase x;
  law_txn_iterator x p :
    exists l, rtx_iterator_from x p = Ok <$> l /\ scan_of (xview x) p l;
  law_commit x d : dview d = xbase x ->
    exists d', rtx_commit x d = (Ok tt, d') /\ dview d' = xview x }.

(** The rows the serializer round-trips. *)
Class RowLaws (B : Type) `{RowCodecs B} : Type := {
  ok_execution : Execution -> Prop; law_execution :: RowCodecLaws B Execution ok_execution;
  ok_thread : Thread -> Prop; law_thread :: RowCodecLaws B Thread ok_thread;
  ok_variables : Variables -> Prop; law_variables :: RowCodecLaws B Variables ok_variables;
  ok_activity : Activity -> Prop; law_activity :: RowCodecLaws B Activity ok_activity;
  ok_task : Task -> Prop; law_task :: RowCodecLaws B Task ok_task;
  ok_flow : Flow -> Prop; law_flow :: RowCodecLaws B Flow ok_flow;
  ok_flow_version : FlowVersion -> Prop;
  law_flow_version :: RowCodecLaws B FlowVersion ok_flow_version;
  ok_ref : RawObjectRef -> Prop; law_ref :: RowCodecLaws B RawObjectRef ok_ref;
  ok_i64 : Z -> Prop; law_i64 :: RowCodecLaws B Z ok_i64 }.

(** The table of tasks iterated in the order of their names: the order of a key scan. *)
Definition name_order : HashOrder.
Proof.
  refine {| map_iter m := (sort_by_name (map_to_list m)).*2;
            set_iter X := elements X; index_iter m := map_to_list m |}; try reflexivity.
  intros m. unfold sort_by_name. by rewrite merge_sort_Permutation.
Defined.

(** ** Operations as data *)

Inductive TxnOp :=
  | OpGetExecution (r : ObjectRef ExecutionKind)
  | OpGetThread (r : ObjectRef ThreadKind)
  | OpGetVariables (r : ObjectRef ThreadKind)
  | OpGetActivity (r : ObjectRef ActivityKind)
  | OpGetTask (r : ObjectRef TaskKind)
  | OpGetChildren (id : RawObjectRef)
  | OpActivatableTasks (resource : string) (now : Timestamp) (limit : Z)
  | OpGetFlowByName (n : PlainName)
  | OpGetFlowVersion (r : ObjectRef FlowVersionKind)
  | OpFlowVersionOf (n : PlainName) (v : Z)
  | OpPutExecution (e : Execution)
  | OpPutThread (t : Thread)
  | OpPutVariables (r : ObjectRef ThreadKind) (v : Variables)
  | OpPutActivity (a : Activity)
  | OpPutTask (t : Task)
  | OpRemoveChild (p c : RawObjectRef)
  | OpAddChild (p c : RawObjectRef)
  | OpPutFlow (f : Flow)
  | OpPutFlowVersion (v : FlowVersion)
  | OpNextGeneratedSeq
  | OpPutNextGeneratedSeq (s : Z).
Inductive OpVal :=
  | VExecution (o : option Execution) | VThread (o : option Thread) | VVariables (v : Variables)
  | VActivity (o : option Activity) | VTask (o : option Task) | VChildren (s : gset RawObjectRef)
  | VTasks (l : list Task) | VFlow (o : option Flow) | VFlowVersion (o : option FlowVersion)
  | VSeq (z : Z) | VUnit.

Definition answer {T A} (f : A -> OpVal) (m : M T StorageError A) : M T StorageError OpVal :=
  let* a := m in ret (f a).
Definition perform `{StorageTxn T} (op : TxnOp) : M T StorageError OpVal :=
  match op with
  | OpGetExecution r => answer VExecution (get_execution r)
  | OpGetThread r => answer VThread (get_thread r)
  | OpGetVariables r => answer VVariables (get_variables r)
  | OpGetActivity r => answer VActivity (get_activity r)
  | OpGetTask r => answer VTask (get_task r)
  | OpGetChildren id => answer VChildren (get_children id)
  | OpActivatableTasks res now n => answer VTasks (activatable_tasks res now n)
  | OpGetFlowByName n => answer VFlow (get_flow_by_name n)
  | OpGetFlowVersion r => answer VFlowVersion (get_flow_version r)
  | OpFlowVersionOf n v => answer VFlowVersion (flow_version_of n v)
  | OpPutExecution e => answer (fun _ => VUnit) (put_execution e)
  | OpPutThread t => answer (fun _ => VUnit) (put_thread t)
  | OpPutVariables r v => answer (fun _ => VUnit) (put_variables r v)
  | OpPutActivity a => answer (fun _ => VUnit) (put_activity a)
  | OpPutTask t => answer (fun _ => VUnit) (put_task t)
  | OpRemoveChild p c => answer (fun _ => VUnit) (remove_child p c)
  | OpAddChild p c => answer (fun _ => VUnit) (add_child p c)
  | OpPutFlow f => answer (fun _ => VUnit) (put_flow f)
  | OpPutFlowVersion v => answer (fun _ => VUnit) (put_flow_version v)
  | OpNextGeneratedSeq => answer VSeq next_generated_seq
  | OpPutNextGeneratedSeq s => answer (fun _ => VUnit) (put_next_generated_seq s)
  end.
Fixpoint perform_all `{StorageTxn T} (ops : list TxnOp) : M T StorageError (list OpVal) :=
  match ops with
  | [] => ret []
  | op :: l => let* v := perform op in let* vs := perform_all l in ret (v :: vs)
  end.

(** ** The order of the tables *)

(** Answers alike up to the order a table of tasks is iterated in: a scan takes the first of
    the claimable tasks, in an order of its own. *)
Definition claimable_tasks (d : InMemoryDb) (resource : string) (now : Timestamp) : list Task :=
  filter (fun t => tk_resource t = resource /\ is_claimable_at t now = true)
    (map_to_list (db_tasks d)).*2.
Definition same_answer (op : TxnOp) (d : InMemoryDb) (v1 v2 : OpVal) : Prop :=
  match op with
  | OpActivatableTasks resource now limit => exists l1 l2,
      l1 ≡ₚ claimable_tasks d resource now /\ l2 ≡ₚ claimable_tasks d resource now /\
      v1 = VTasks (take (Z.to_nat limit) l1) /\ v2 = VTasks (take (Z.to_nat limit) l2)
  | _ => v1 = v2
  end.
(** The answers to a sequence, from the tables [d]. *)
Fixpoint same_answers (ops : list TxnOp) (d : InMemoryDb) (vs1 vs2 : list OpVal) : Prop :=
  match ops, vs1, vs2 with
  | [], [], [] => True
  | op :: ops, v1 :: vs1, v2 :: vs2 =>
      same_answer op d v1 v2 /\
      same_answers ops (perform (H:=@InMemoryStorage name_order) op d).2 vs1 vs2
  | _, _, _ => False
  end.

Lemma perform_any_order (ho1 ho2 : HashOrder) (op : TxnOp) (d : InMemoryDb) :
  res_rel (same_answer op d) (perform (H:=@InMemoryStorage ho1) op d).1
    (perform (H:=@InMemoryStorage ho2) op d).1 /\
  (perform (H:=@InMemoryStorage ho1) op d).2 = (perform (H:=@InMemoryStorage ho2) op d).2.
Proof.
  destruct op; try (by split).
  - split; [|done]. eexists _, _. split; [|split; [|by split]]; unfold claimable_tasks;
      by rewrite map_iter_perm.
  - simpl. unfold answer, bind, flow_key. by destruct (as_plain _).
Qed.
Lemma perform_all_any_order (ho1 ho2 : HashOrder) ops : forall d : InMemoryDb,
  res_rel (same_answers ops d) (perform_all (H:=@InMemoryStorage ho1) ops d).1
    (perform_all (H:=@InMemoryStorage ho2) ops d).1 /\
  (perform_all (H:=@InMemoryStorage ho1) ops d).2 = (perform_all (H:=@InMemoryStorage ho2) ops d).2.
Proof.
  induction ops as [|op ops IH]; intros d; simpl; [by split|].
  destruct (perform_any_order ho1 ho2 op d) as [Ha Hd].
  destruct (perform_any_order ho1 name_order op d) as [_ Hn]. unfold bind.
  destruct (perform (H:=@InMemoryStorage ho1) op d) as [r1 d1],
    (perform (H:=@InMemoryStorage ho2) op d) as [r2 d2]. simpl in *. subst d1 d2.
  destruct r1 as [a1| |], r2 as [a2| |]; try done.
  destruct (IH (perform (H:=@InMemoryStorage name_order) op d).2) as [Hl Hd'].
  destruct (perform_all (H:=@InMemoryStorage ho1) ops _) as [q1 e1],
    (perform_all (H:=@InMemoryStorage ho2) ops _) as [q2 e2]. simpl in *. subst e2.
  by destruct q1, q2.
Qed.

(** ** The relation *)
Section Stores.
Context {B : Type} `{RowCodecs B} (kb : KeyBuilder) (uid_of : ObjectKind -> ObjectName -> Ulid).

(** A reference an edge may name: its name is valid, its uid the one of the object. *)
Definition coherent (r : RawObjectRef) : Prop :=
  name_wf (raw_name r) /\ raw_uid r = uid_of (raw_kind r) (raw_name r).
Definition ref_at (k : ObjectKind) (n : ObjectName) : RawObjectRef := mkRaw k n (uid_of k n).

Lemma coherent_ref_at r : coherent r -> r = ref_at (raw_kind r) (raw_name r).
Proof. destruct r as [k n u]. unfold coherent, ref_at. simpl. by intros [_ ->]. Qed.

Definition codes {A} `{RowCodec B A} (b : B) (a : A) : Prop :=
  to_vec a = Ok b /\ from_slice b = Ok a.
Definition decodes {A} `{RowCodec B A} (o : option B) (r : option A) : Prop :=
  match o, r with
  | None, None => True
  | Some b, Some a => codes b a
  | _, _ => False
  end.
Definition decodes_or {A} `{RowCodec B A} (dflt : A) (o : option B) (a : A) : Prop :=
  match o with None => a = dflt | Some b => codes b a end.

(** What the bytes at an address say of the tables. *)
Definition cell_rel (d : InMemoryDb) (a : address) (o : option B) : Prop :=
  match a with
  | ARow ExecutionKind n => decodes o (db_executions d !! n)
  | ARow ThreadKind n => decodes o (db_threads d !! n)
  | ARow ActivityKind n => decodes o (db_activities d !! n)
  | ARow TaskKind n => decodes o (db_tasks d !! n)
  | ARow FlowKind n => decodes o (as_plain n ≫= fun p => db_flows d !! p)
  | ARow FlowVersionKind n => decodes o (db_flow_versions d !! n)
  | AEdge pk pn ck cn =>
      decodes o (if decide ((ref_at pk pn, ref_at ck cn) ∈ db_edges d)
                 then Some (ref_at ck cn) else None)
  | AVariables n => decodes o (db_variables d !! n)
  | APosition => decodes_or 0 o (db_last_processed_position d)
  | ASeq => decodes_or 0 o (db_next_generated_seq d)
  end.

Definition names_wf {A} (m : gmap ObjectName A) : Prop := forall n x, m !! n = Some x -> name_wf n.
Record db_ok (d : InMemoryDb) : Prop := {
  ok_executions : names_wf (db_executions d);
  ok_threads : names_wf (db_threads d);
  ok_activities : names_wf (db_activities d);
  ok_tasks : names_wf (db_tasks d);
  ok_flows : forall p x, db_flows d !! p = Some x -> plain_wf p;
  ok_flow_versions : names_wf (db_flow_versions d);
  ok_edges : forall p c, (p, c) ∈ db_edges d -> coherent p /\ coherent c }.

(** The database [kv] holds exactly the tables of [d]. *)
Record stores (kv : gmap string B) (d : InMemoryDb) : Prop := {
  sto_cells a : address_wf a -> cell_rel d a (kv !! key_of kb a);
  sto_keys k b : kv !! k = Some b -> exists a, address_wf a /\ key_of kb a = k;
  sto_ok : db_ok d }.

Lemma stores_empty : stores ∅ db_default.
Proof.
  split.
  - intros a _. rewrite lookup_empty. destruct a as [[] n|? ? ? ?|?| |]; simpl; try done.
    by destruct (as_plain n).
  - done.
  - split; try done; intros ? ?; set_solver.
Qed.

Hypothesis Hkb : kb_wf kb.

(** Writing or deleting the cell of one address. *)
Lemma stores_update kv d d' a0 (o : option B) :
  stores kv d -> address_wf a0 -> cell_rel d' a0 o ->
  (forall a o', address_wf a -> a <> a0 -> cell_rel d a o' -> cell_rel d' a o') ->
  db_ok d' -> stores (partial_alter (fun _ => o) (key_of kb a0) kv) d'.
Proof.
  intros [Hc Hk Hok] Ha0 Ho Hfr Hok'. split; [|..|done].
  - intros a Ha. destruct (decide (key_of kb a = key_of kb a0)) as [E|Hne].
    + rewrite E, lookup_partial_alter_eq. apply key_of_inj in E as ->; done.
    + rewrite lookup_partial_alter_ne by done. apply Hfr; [done|by intros ->|by apply Hc].
  - intros k b. destruct (decide (k = key_of kb a0)) as [->|Hne]; [by eauto|].
    rewrite lookup_partial_alter_ne by done. apply Hk.
Qed.
End Stores.

(** ** Row operations over either handle

    [RowStore] is what [RocksStorage] and [RocksTxn] have in common: the three row
    operations, acting on an ordered map of bytes. *)
Class RowStore (B T : Type) (kb : KeyBuilder) `{RowCodecs B} (holds : T -> gmap string B -> Prop)
    (get_row : forall A, RowCodec B A -> (KeyBuilder -> string) -> M T StorageError (option A))
    (put_row : forall A, RowCodec B A -> (KeyBuilder -> string) -> A -> M T StorageError unit)
    (delete_row : (KeyBuilder -> string) -> M T StorageError unit) : Prop := {
  holds_get A (C : RowCodec B A) key t m :
    holds t m -> get_row A C key t = (decode_row (m !! key kb), t);
  holds_put A (C : RowCodec B A) key v b t m :
    holds t m -> to_vec v = Ok b ->
    exists t', put_row A C key v t = (Ok tt, t') /\ holds t' (<[key kb := b]> m);
  holds_delete key t m :
    holds t m -> exists t', delete_row key t = (Ok tt, t') /\ holds t' (delete (key kb) m) }.

Section RowSim.
Context {B T : Type} `{RowCodecs B, !RowLaws B} (kb : KeyBuilder) (Hkb : kb_wf kb).
Context (uid_of : ObjectKind -> ObjectName -> Ulid) (holds : T -> gmap string B -> Prop).
Context {get_row : forall A, RowCodec B A -> (KeyBuilder -> string) -> M T StorageError (option A)}
  {put_row : forall A, RowCodec B A -> (KeyBuilder -> string) -> A -> M T StorageError unit}
  {delete_row : (KeyBuilder -> string) -> M T StorageError unit}
  `{!RowStore B T kb holds get_row put_row delete_row}.

(** The handle and the tables it stands for. *)
Definition handle_rel (t : T) (d : InMemoryDb) : Prop :=
  exists m, holds t m /\ stores kb uid_of m d.

Lemma sim_get {A} `{C : RowCodec B A} key a0 (g : InMemoryDb -> option A) :
  key kb = key_of kb a0 -> address_wf a0 ->
  (forall d o, cell_rel uid_of d a0 o -> decodes o (g d)) ->
  sim handle_rel eq (get_row A C key) (reads g).
Proof.
  intros Hkey Ha Hg t d (m & Hh & Hs). rewrite (holds_get _ _ _ _ _ Hh), Hkey. unfold reads. simpl.
  split; [|by exists m]. specialize (Hg d _ (sto_cells _ _ _ _ Hs _ Ha)).
  unfold decodes, decode_row in *. destruct (m !! _), (g d); simpl in *; try done.
  destruct Hg as [_ Hg]. by rewrite Hg.
Qed.

Lemma sim_get_or {A} `{C : RowCodec B A} key a0 (dflt : A) (g : InMemoryDb -> A) :
  key kb = key_of kb a0 -> address_wf a0 ->
  (forall d o, cell_rel uid_of d a0 o -> decodes_or dflt o (g d)) ->
  sim handle_rel eq (let* x := get_row A C key in ret (default dflt x)) (reads g).
Proof.
  intros Hkey Ha Hg t d (m & Hh & Hs). unfold bind.
  rewrite (holds_get _ _ _ _ _ Hh), Hkey. unfold reads.
  specialize (Hg d _ (sto_cells _ _ _ _ Hs _ Ha)). unfold decodes_or, decode_row in *.
  destruct (m !! _); simpl in *; [destruct Hg as [_ Hg]; rewrite Hg|]; (split; [done|by exists m]).
Qed.

(** [f] rewrites the cell of [a0] to [o] and keeps the others. *)
Definition rewrites (a0 : address) (P : option B -> Prop) (f : InMemoryDb -> InMemoryDb) : Prop :=
  forall d, db_ok uid_of d ->
  (forall o, P o -> cell_rel uid_of (f d) a0 o) /\
  (forall a (o' : option B), address_wf a -> a <> a0 -> cell_rel uid_of d a o' ->
    cell_rel uid_of (f d) a o') /\
  db_ok uid_of (f d).

Lemma sim_put {A} `{C : RowCodec B A} {ok} `{!RowCodecLaws B A ok} key a0 (v : A) f :
  key kb = key_of kb a0 -> address_wf a0 -> ok v ->
  rewrites a0 (fun o => exists b, o = Some b /\ codes b v) f ->
  sim handle_rel eq (put_row A C key v) (writes f).
Proof.
  intros Hkey Ha Hv Hf t d (m & Hh & Hs). destruct (row_roundtrip v Hv) as (b & Hb & Hd).
  destruct (holds_put _ _ key v b t m Hh Hb) as (t' & Ht & Hh'). rewrite Ht. unfold writes. simpl.
  split; [done|]. destruct (Hf d (sto_ok _ _ _ _ Hs)) as (Hc & Hfr & Hok).
  exists (<[key kb := b]> m). split; [done|]. rewrite Hkey.
  apply (stores_update _ _ Hkb m d (f d) a0 (Some b)); unfold codes in *; eauto.
Qed.

Lemma sim_delete key a0 f :
  key kb = key_of kb a0 -> address_wf a0 -> rewrites a0 (fun o => o = None) f ->
  sim handle_rel eq (delete_row key) (writes f).
Proof.
  intros Hkey Ha Hf t d (m & Hh & Hs).
  destruct (holds_delete key t m Hh) as (t' & Ht & Hh'). rewrite Ht. unfold writes. simpl.
  split; [done|]. destruct (Hf d (sto_ok _ _ _ _ Hs)) as (Hc & Hfr & Hok).
  exists (delete (key kb) m). split; [done|]. rewrite Hkey.
  apply (stores_update _ _ Hkb m d (f d) a0 None); eauto.
Qed.
End RowSim.

(** ** The tables, one cell at a time *)
Section Rewrites.
Context {B : Type} `{RowCodecs B} (uid_of : ObjectKind -> ObjectName -> Ulid).
Notation rewrites := (rewrites (B:=B) uid_of).
Definition decoded {A} `{RowCodec B A} (v : A) (o : option B) : Prop :=
  exists b, o = Some b /\ codes b v.

(** One entry of one table changes. *)
Ltac table_cell :=
  intros Hn d Hok; split_and!;
  [ intros ? (b & -> & Hb); simpl; by rewrite lookup_insert_eq
  | intros [[] ?|? ? ? ?|?| |] o' Ha Hne; simpl; try done; by rewrite lookup_insert_ne by congruence
  | destruct Hok; split; simpl; try done;
    intros ? ? [[<- _]|[_ ?]]%lookup_insert_Some; eauto ].

Lemma rewrites_execution n v : name_wf n -> rewrites (ARow ExecutionKind n) (decoded v)
  (fun d => db_set_executions d (<[n := v]> (db_executions d))).
Proof. table_cell. Qed.
Lemma rewrites_thread n v : name_wf n -> rewrites (ARow ThreadKind n) (decoded v)
  (fun d => db_set_threads d (<[n := v]> (db_threads d))).
Proof. table_cell. Qed.
Lemma rewrites_activity n v : name_wf n -> rewrites (ARow ActivityKind n) (decoded v)
  (fun d => db_set_activities d (<[n := v]> (db_activities d))).
Proof. table_cell. Qed.
Lemma rewrites_task n v : name_wf n -> rewrites (ARow TaskKind n) (decoded v)
  (fun d => db_set_tasks d (<[n := v]> (db_tasks d))).
Proof. table_cell. Qed.
Lemma rewrites_flow_version n v : name_wf n -> rewrites (ARow FlowVersionKind n) (decoded v)
  (fun d => db_set_flow_versions d (<[n := v]> (db_flow_versions d))).
Proof. table_cell. Qed.
Lemma rewrites_variables n v : name_wf n -> rewrites (AVariables n) (decoded v)
  (fun d => db_set_variables d (<[n := v]> (db_variables d))).
Proof. table_cell. Qed.

Lemma rewrites_flow p v : plain_wf p -> rewrites (ARow FlowKind (Plain p)) (decoded v)
  (fun d => db_set_flows d (<[p := v]> (db_flows d))).
Proof.
  intros Hn d Hok; split_and!.
  - intros ? (b & -> & Hb); simpl; by rewrite lookup_insert_eq.
  - intros [[] [q|? ?]|? ? ? ?|?| |] o' Ha Hne; simpl; try done.
    by rewrite lookup_insert_ne by congruence.
  - destruct Hok; split; simpl; try done.
    intros ? ? [[<- _]|[_ ?]]%lookup_insert_Some; eauto.
Qed.

Lemma rewrites_seq s : rewrites ASeq (decoded s) (fun d => db_set_seq d s).
Proof.
  intros d Hok; split_and!.
  - by intros ? (b & -> & Hb).
  - by intros [[] ?|? ? ? ?|?| |] o' Ha Hne.
  - destruct Hok; by split.
Qed.
Lemma rewrites_position p : rewrites APosition (decoded p) (fun d => db_set_position d p).
Proof.
  intros d Hok; split_and!.
  - by intros ? (b & -> & Hb).
  - by intros [[] ?|? ? ? ?|?| |] o' Ha Hne.
  - destruct Hok; by split.
Qed.

(** The address of an edge between two coherent references. *)
Definition edge_address (p c : RawObjectRef) : address :=
  AEdge (raw_kind p) (raw_name p) (raw_kind c) (raw_name c).

(** Two edges between coherent references differ when their addresses do. *)
Lemma edge_address_ne p c pk pn ck cn :
  coherent uid_of p -> coherent uid_of c -> AEdge pk pn ck cn <> edge_address p c ->
  (ref_at uid_of pk pn, ref_at uid_of ck cn) <> (p, c).
Proof.
  intros Hp Hc Hne Heq. apply Hne. rewrite (coherent_ref_at _ _ Hp), (coherent_ref_at _ _ Hc) in Heq.
  unfold ref_at in Heq. by simplify_eq.
Qed.

Lemma edge_cell d (p c : RawObjectRef) (o : option B) :
  coherent uid_of p -> coherent uid_of c ->
  cell_rel uid_of d (edge_address p c) o <->
  decodes o (if decide ((p, c) ∈ db_edges d) then Some c else None).
Proof. intros Hp Hc. simpl. by rewrite <- (coherent_ref_at _ _ Hp), <- (coherent_ref_at _ _ Hc). Qed.

Lemma rewrites_add_child p c :
  coherent uid_of p -> coherent uid_of c ->
  rewrites (edge_address p c) (decoded c) (fun d => db_set_edges d (db_edges d ∪ {[(p, c)]})).
Proof.
  intros Hp Hc d Hok; split_and!.
  - intros ? (b & -> & Hb). rewrite edge_cell by done. simpl. by rewrite decide_True by set_solver.
  - intros [[] ?|pk pn ck cn|?| |] o' Ha Hne; simpl; try done.
    pose proof (edge_address_ne p c pk pn ck cn Hp Hc Hne).
    erewrite (decide_ext (_ ∈ _ ∪ _)); [done|set_solver].
  - destruct Hok; split; simpl; try done.
    intros ? ? [?|[= -> ->]%elem_of_singleton]%elem_of_union; eauto.
Qed.

Lemma rewrites_remove_child p c :
  coherent uid_of p -> coherent uid_of c ->
  rewrites (edge_address p c) (fun o => o = None)
    (fun d => db_set_edges d (db_edges d ∖ {[(p, c)]})).
Proof.
  intros Hp Hc d Hok; split_and!.
  - intros ? ->. rewrite edge_cell by done. simpl. by rewrite decide_False by set_solver.
  - intros [[] ?|pk pn ck cn|?| |] o' Ha Hne; simpl; try done.
    pose proof (edge_address_ne p c pk pn ck cn Hp Hc Hne).
    erewrite (decide_ext (_ ∈ _ ∖ _)); [done|set_solver].
  - destruct Hok; split; simpl; try done.
    intros ? ? [? _]%elem_of_difference; eauto.
Qed.
End Rewrites.

(** ** Range scans *)

Notation key_sorted := (StronglySorted (fun x y : string * _ => str_lt x.1 y.1)).
Notation row_sorted := (StronglySorted (fun x y : ObjectName * _ => str_lt (as_str x.1) (as_str y.1))).

Lemma sorted_app_l {A} (R : relation A) l1 l2 :
  StronglySorted R (l1 ++ l2) -> StronglySorted R l1.
Proof.
  induction l1 as [|x l1 IH]; simpl; [constructor|]. inversion_clear 1 as [|? ? Hs Hlt].
  apply Forall_app in Hlt as [Hlt _]. constructor; auto.
Qed.

(** From a prefix on, the keys that have it come first. *)
Lemma scan_split {B} (m : gmap string B) p l :
  scan_of m p l -> exists l1 l2, l = (l1 ++ l2)%list /\ key_sorted l1 /\
    (forall k b, (k, b) ∈ l1 <-> m !! k = Some b /\ starts_with p k = true) /\
    match l2 with [] => True | x :: _ => starts_with p x.1 = false end.
Proof.
  intros [Hs Hm].
  assert (Forall (fun x => str_le p x.1) l) as Hle.
  { apply Forall_forall. intros [k b] Hin. by apply Hm in Hin as []. }
  assert (exists l1 l2, l = (l1 ++ l2)%list /\ Forall (fun x => starts_with p x.1 = true) l1 /\
    Forall (fun x => starts_with p x.1 = false) l2) as (l1 & l2 & -> & H1 & H2).
  { clear Hm. induction Hs as [|[k b] l Hs IH Hlt]; [by exists [], []|].
    apply Forall_cons in Hle as [Hk Hle]. destruct (starts_with p k) eqn:E.
    - destruct (IH Hle) as (l1 & l2 & -> & H1 & H2). exists ((k, b) :: l1), l2. by rewrite Forall_cons.
    - exists [], ((k, b) :: l). split_and!; [done..|]. apply Forall_cons. split; [done|].
      apply Forall_forall. intros [k' b'] Hin. simpl. apply not_true_is_false. intros Hp.
      rewrite Forall_forall in Hlt. specialize (Hlt _ Hin). simpl in *.
      rewrite (prefix_convex p k k') in E; try done. apply str_le_lt_eq. auto. }
  exists l1, l2. split_and!; [done|by eapply sorted_app_l| |by destruct H2].
  intros k b. rewrite Forall_forall in H1, H2. split.
  - intros Hin. split; [apply Hm; set_solver|exact (H1 _ Hin)].
  - intros [Hk Hp]. assert ((k, b) ∈ (l1 ++ l2)%list) as [|Hin]%elem_of_app; [|done|].
    + apply Hm. split; [done|by apply prefix_le].
    + specialize (H2 _ Hin). simpl in H2. congruence.
Qed.

Lemma list_choice {A C} (f : C -> A) (P : C -> Prop) l :
  Forall (fun x => exists y, x = f y /\ P y) l -> exists ly, l = f <$> ly /\ Forall P ly.
Proof.
  induction 1 as [|x l (y & -> & Hy) _ (ly & -> & Hly)]; [by exists []|].
  exists (y :: ly). by rewrite Forall_cons.
Qed.

Lemma sorted_NoDup {A} (R : relation A) (l : list A) :
  (forall x, ~ R x x) -> StronglySorted R l -> NoDup l.
Proof.
  intros Hirr. induction 1 as [|x l Hs IH Hlt]; constructor; [|done].
  rewrite Forall_forall in Hlt. intros Hin. exact (Hirr x (Hlt x Hin)).
Qed.

(** Lists with the same names in the same places are sorted together. *)
Lemma row_sorted_transfer {A C} (l1 : list (ObjectName * A)) (l2 : list (ObjectName * C)) :
  Forall2 (fun x y => x.1 = y.1) l1 l2 -> row_sorted l1 -> row_sorted l2.
Proof.
  intros Hx Hs. revert l2 Hx. induction Hs as [|r l1 Hs IH Hlt]; intros l2 Hx.
  { apply Forall2_nil_inv_l in Hx as ->. constructor. }
  apply Forall2_cons_inv_l in Hx as (x & l2' & Hr & Hx & ->). constructor; [by apply IH|].
  rewrite Forall_forall in Hlt. apply Forall_forall. intros y [i Hi]%list_elem_of_lookup.
  destruct (Forall2_lookup_r _ _ _ _ _ Hx Hi) as (r2 & Hr2 & Hn2).
  rewrite <- Hr, <- Hn2. apply Hlt. by eapply list_elem_of_lookup_2.
Qed.

(** A strictly sorted list of the entries of a table is the table sorted by name. *)
Lemma sorted_table {A} (tb : gmap ObjectName A) l :
  names_wf tb -> row_sorted l -> (forall n x, (n, x) ∈ l <-> tb !! n = Some x) ->
  l = sort_by_name (map_to_list tb).
Proof.
  intros Hwf Hs Hl. apply (StronglySorted_unique_strong name_le).
  - intros [n1 x1] [n2 x2] H1 H2 Hle1 Hle2.
    apply Hl in H1. unfold sort_by_name in H2. rewrite merge_sort_Permutation in H2.
    apply elem_of_map_to_list in H2.
    assert (as_str n1 = as_str n2) as Heq by by apply (anti_symm str_le).
    apply as_str_inj in Heq as ->; [congruence|by eapply Hwf..].
  - clear -Hs. induction Hs as [|x l Hs IH Hlt]; constructor; [done|].
    eapply Forall_impl; [exact Hlt|]. intros y Hy. apply str_le_lt_eq. auto.
  - apply StronglySorted_merge_sort; apply _.
  - unfold sort_by_name. rewrite merge_sort_Permutation. apply NoDup_Permutation.
    + eapply sorted_NoDup; [|exact Hs]. intros x. apply str_lt_irrefl.
    + apply NoDup_map_to_list.
    + intros [n x]. by rewrite Hl, elem_of_map_to_list.
Qed.

Section Scans.
Context {B : Type} `{RowCodecs B} (kb : KeyBuilder) (Hkb : kb_wf kb).
Context (uid_of : ObjectKind -> ObjectName -> Ulid).

Lemma row_key_app k n :
  key_of kb (ARow k n) = kind_prefix kb (from_object k) +:+ as_str n.
Proof.
  unfold key_of, kind_prefix. rewrite !join_slashed.
  apply (slashed_last [tenant (kb_scope kb); namespace (kb_scope kb); segment (from_object k)]).
Qed.

(** The entries in the range of a kind are its rows in name order. *)
Lemma kind_rows (kv : gmap string B) d k l :
  stores kb uid_of kv d -> key_sorted l ->
  (forall key b, (key, b) ∈ l <->
    kv !! key = Some b /\ starts_with (kind_prefix kb (from_object k)) key = true) ->
  exists ln : list (ObjectName * B),
    l = (fun r => (key_of kb (ARow k r.1), r.2)) <$> ln /\ row_sorted ln /\
    (forall n b, (n, b) ∈ ln <-> name_wf n /\ kv !! key_of kb (ARow k n) = Some b).
Proof.
  intros Hst Hs Hl.
  destruct (list_choice (fun r : ObjectName * B => (key_of kb (ARow k r.1), r.2))
    (fun r => name_wf r.1) l) as (ln & -> & Hwf).
  { apply Forall_forall. intros [key b] [Hk Hp]%Hl.
    destruct (sto_keys _ _ _ _ Hst _ _ Hk) as (a & Ha & <-).
    apply kind_prefix_iff in Hp as [n ->]; [|done..]. by exists (n, b). }
  exists ln. split_and!; [done|..].
  - clear Hl Hst. induction ln as [|[n b] ln IH]; [constructor|]. simpl in Hs.
    apply Forall_cons in Hwf as [_ Hwf]. inversion_clear Hs as [|? ? Hs' Hlt]. constructor; [auto|].
    rewrite Forall_fmap in Hlt. eapply Forall_impl; [exact Hlt|]. intros [n' b']. simpl.
    unfold str_lt. by rewrite !row_key_app, str_app_cancel.
  - intros n b. split.
    + intros Hin. rewrite Forall_forall in Hwf. split; [exact (Hwf _ Hin)|].
      apply (Hl (key_of kb (ARow k n)) b), list_elem_of_fmap. by exists (n, b).
    + intros [Hn Hb].
      assert ((key_of kb (ARow k n), b) ∈
        ((fun r : ObjectName * B => (key_of kb (ARow k r.1), r.2)) <$> ln)) as Hin.
      { apply Hl. split; [done|]. rewrite row_key_app. apply starts_with_app. }
      apply list_elem_of_fmap in Hin as ([n' b'] & Heq & Hin).
      apply pair_equal_spec in Heq as [Heq ->]. rewrite Forall_forall in Hwf.
      apply key_of_inj in Heq as [= ->]; [done|done|done|exact (Hwf _ Hin)].
Qed.

(** The rows of a table, decoded, are the table sorted by name. *)
Lemma table_rows {A} `{RowCodec B A} (kv : gmap string B) k (tb : gmap ObjectName A) ln :
  names_wf tb -> row_sorted ln ->
  (forall n b, (n, b) ∈ ln <-> name_wf n /\ kv !! key_of kb (ARow k n) = Some b) ->
  (forall n, name_wf n -> decodes (kv !! key_of kb (ARow k n)) (tb !! n)) ->
  Forall2 (fun r x => r.1 = x.1 /\ codes r.2 x.2) ln (sort_by_name (map_to_list tb)).
Proof.
  intros Hwf Hs Hl Hd.
  assert (exists lx, Forall2 (fun (r : ObjectName * B) x => r.1 = x.1 /\ codes r.2 x.2) ln lx)
    as (lx & Hx).
  { assert (Forall (fun r => exists x : A, codes r.2 x) ln) as Hall.
    { apply Forall_forall. intros [n b] [Hn Hb]%Hl. specialize (Hd n Hn). rewrite Hb in Hd.
      simpl in *. destruct (tb !! n); [|done]. by eexists. }
    clear -Hall. induction Hall as [|[n b] ln [x Hx] _ [lx Hlx]]; [by exists []|].
    exists ((n, x) :: lx). by constructor. }
  rewrite <- (sorted_table tb lx); [done|done|..].
  - eapply row_sorted_transfer; [|exact Hs]. eapply Forall2_impl; [exact Hx|]. by intros r x [].
  - intros n x. split.
    + intros [i Hi]%list_elem_of_lookup.
      destruct (Forall2_lookup_r _ _ _ _ _ Hx Hi) as ([n' b] & Hb & [Hn Hdec]). simpl in *. subst n'.
      apply list_elem_of_lookup_2, Hl in Hb as [Hwn Hb]. specialize (Hd n Hwn). rewrite Hb in Hd.
      simpl in Hd. destruct (tb !! n); [|done].
      destruct Hdec as [_ Hdec], Hd as [_ Hd]. congruence.
    + intros Hx'. specialize (Hd n (Hwf _ _ Hx')). rewrite Hx' in Hd.
      destruct (kv !! _) as [b|] eqn:Hb; [|done]. simpl in Hd.
      assert ((n, b) ∈ ln) as [i Hi]%list_elem_of_lookup by (apply Hl; eauto).
      destruct (Forall2_lookup_l _ _ _ _ _ Hx Hi) as ([n' x'] & Hi' & [Hn Hdec]). simpl in *.
      assert (x' = x) as -> by (destruct Hdec as [_ Hdec], Hd as [_ Hd]; congruence). subst n'. by eapply list_elem_of_lookup_2.
Qed.
End Scans.

(** ** Sorted key lists *)

Lemma sorted_filter {A} (R : relation A) (P : A -> Prop) `{forall x, Decision (P x)} l :
  StronglySorted R l -> StronglySorted R (filter P l).
Proof.
  induction 1 as [|x l Hs IH Hlt]; [constructor|]. rewrite filter_cons. case_decide; [|done].
  constructor; [done|]. rewrite Forall_forall in Hlt. apply Forall_forall.
  intros y [_ Hy]%list_elem_of_filter. auto.
Qed.

(** Two strictly sorted lists with the same entries are equal. *)
Lemma key_sorted_unique {A} (l1 l2 : list (string * A)) :
  key_sorted l1 -> key_sorted l2 -> (forall x, x ∈ l1 <-> x ∈ l2) -> l1 = l2.
Proof.
  intros H1 H2 Heq. apply (StronglySorted_unique_strong (fun x y => str_lt x.1 y.1)); [|done..|].
  - intros x y _ _ Hxy Hyx. exfalso. exact (str_lt_irrefl _ (str_lt_trans _ _ _ Hxy Hyx)).
  - apply NoDup_Permutation; [..|done]; (eapply sorted_NoDup; [|done]); intros x; apply str_lt_irrefl.
Qed.
