(* ===== verification/RocksRefinement.v ===== *)
(** Every operation of the persistent store simulates the in-memory one: the row operations
    of both handles, the scans of a transaction, sequences of operations, and commit. *)
From S2P Require Import Prelude ByteStrings Names Timestamp Json Errors Meta Entities Tasks.
From S2P Require Import Commands Keys Storage StorageFacts Rows RocksStorage RocksFacts.
Local Open Scope Z_scope.

#[local] Existing Instance name_order.

(** ** The loops *)
Section Loops.
Context {B : Type} `{RowCodecs B}.
Implicit Types items rows : list (string * B).

Lemma claimable_iff resource now t :
  claimable resource now t = true <-> tk_resource t = resource /\ is_claimable_at t now = true.
Proof. unfold claimable. by rewrite andb_true_iff, bool_decide_eq_true. Qed.

Definition claims (resource : string) (now : Timestamp) (l : list Task) : list Task :=
  filter (fun t => tk_resource t = resource /\ is_claimable_at t now = true) l.

(** The cap of the scans: full, the next claimable row ends the scan. *)
Lemma take_full {A} (limit : Z) (out l : list A) :
  limit <= Z.of_nat (length out) -> (length out <= Z.to_nat limit)%nat ->
  take (Z.to_nat limit) (out ++ l) = out.
Proof. intros. rewrite take_app_le by lia. apply take_ge. lia. Qed.

Lemma rt_task_scan_rows prefix resource now limit rows rest ts out :
  Forall (fun x => starts_with prefix x.1 = true) rows ->
  Forall2 (fun x t => from_slice x.2 = Ok t) rows ts ->
  match rest with [] => True | x :: _ => starts_with prefix x.1 = false end ->
  (length out <= Z.to_nat limit)%nat ->
  rt_task_scan prefix resource now limit (Ok <$> (rows ++ rest)) out =
  Ok (take (Z.to_nat limit) (out ++ claims resource now ts)).
Proof.
  intros Hp Hd Hrest. revert out Hp.
  induction Hd as [|[k b] t rows ts Hb Hd IH]; intros out Hp Hlen; simpl in *.
  - rewrite app_nil_r, take_ge by lia. destruct rest as [|[k b] rest]; [done|].
    simpl in *. by rewrite Hrest.
  - apply Forall_cons in Hp as [Hk Hp]. simpl in Hk. rewrite Hk. simpl. rewrite Hb. simpl.
    unfold claims in *. destruct (claimable resource now t) eqn:Hc.
    + rewrite filter_cons_True by by apply claimable_iff.
      case_decide; [by rewrite take_full|].
      rewrite IH by (rewrite ?length_app; simpl; try done; lia). by rewrite <- app_assoc.
    + rewrite filter_cons_False by (rewrite <- claimable_iff; congruence). by apply IH.
Qed.

(** The scan of the committed store does not look at the key: after the rows of the range it
    goes on, unless a claimable row beyond the limit has stopped it. *)
Lemma rs_task_scan_rows resource now limit rows rest ts out :
  Forall2 (fun x t => from_slice x.2 = Ok t) rows ts ->
  Z.of_nat (length out) <= limit ->
  rs_task_scan resource now limit (Ok <$> (rows ++ rest)) out =
  if decide (limit < Z.of_nat (length (out ++ claims resource now ts)))
  then Ok (take (Z.to_nat limit) (out ++ claims resource now ts))
  else rs_task_scan resource now limit (Ok <$> rest) (out ++ claims resource now ts).
Proof.
  intros Hd. revert out. induction Hd as [|[k b] t rows ts Hb Hd IH]; intros out Hlen.
  { unfold claims. rewrite filter_nil, app_nil_r, decide_False by lia. done. }
  simpl. simpl in Hb. rewrite Hb. simpl. unfold claims in *.
  destruct (claimable resource now t) eqn:Hc.
  - rewrite filter_cons_True by by apply claimable_iff.
    destruct (decide (limit <= Z.of_nat (length out))).
    + rewrite decide_True by (rewrite length_app; simpl; lia). by rewrite take_full by lia.
    + rewrite (cons_middle t out (filter _ ts)), app_assoc.
      apply IH. rewrite length_app. simpl. lia.
  - rewrite filter_cons_False by (rewrite <- claimable_iff; congruence). by apply IH.
Qed.

Lemma rt_edge_scan_rows prefix rows rest cs out :
  Forall (fun x => starts_with prefix x.1 = true) rows ->
  Forall2 (fun x c => from_slice x.2 = Ok c) rows cs ->
  match rest with [] => True | x :: _ => starts_with prefix x.1 = false end ->
  rt_edge_scan prefix (Ok <$> (rows ++ rest)) out = Ok (list_to_set cs ∪ out) /\
  rs_edge_scan prefix (Ok <$> (rows ++ rest)) out = Ok (list_to_set cs ∪ out).
Proof.
  intros Hp Hd Hrest. revert out Hp.
  induction Hd as [|[k b] c rows cs Hb Hd IH]; intros out Hp; simpl in *.
  - rewrite (left_id_L ∅ (∪)). destruct rest as [|[k b] rest]; [done|].
    simpl in *. by rewrite Hrest.
  - apply Forall_cons in Hp as [Hk Hp]. simpl in Hk. rewrite Hk. simpl. rewrite Hb. simpl.
    destruct (IH ({[c]} ∪ out) Hp) as [H1 H2].
    replace ({[c]} ∪ list_to_set cs ∪ out) with (list_to_set cs ∪ ({[c]} ∪ out)) by set_solver.
    by split.
Qed.
End Loops.

(** ** The scans of a database *)
Section ScanValues.
Context {B : Type} `{RowCodecs B} (kb : KeyBuilder) (Hkb : kb_wf kb).
Context (uid_of : ObjectKind -> ObjectName -> Ulid).
Notation stores := (stores (B:=B) kb uid_of).

Lemma forall2_snd {A} `{RowCodec B A} k (ln : list (ObjectName * B)) (lx : list (ObjectName * A)) :
  Forall2 (fun r x => r.1 = x.1 /\ codes r.2 x.2) ln lx ->
  Forall2 (fun x t => from_slice x.2 = Ok t)
    ((fun r => (key_of kb (ARow k r.1), r.2)) <$> ln) lx.*2.
Proof. induction 1 as [|? ? ? ? [_ []]]; simpl; constructor; auto. Qed.

(** The tasks in the range of the kind, decoded, are the table in name order. *)
Lemma task_rows kv d l :
  stores kv d -> scan_of kv (task_prefix kb) l ->
  exists rows rest, l = (rows ++ rest)%list /\
    Forall (fun x => starts_with (task_prefix kb) x.1 = true) rows /\
    Forall2 (fun x t => from_slice x.2 = Ok t) rows (map_iter (db_tasks d)) /\
    match rest with [] => True | x :: _ => starts_with (task_prefix kb) x.1 = false end.
Proof.
  intros Hst Hsc. destruct (scan_split _ _ _ Hsc) as (rows & rest & -> & Hs & Hin & Hrest).
  exists rows, rest. split_and!; [done| | |done].
  { apply Forall_forall. intros [k b] [_ ?]%Hin. done. }
  destruct (kind_rows kb Hkb uid_of kv d TaskKind rows Hst Hs Hin) as (ln & -> & Hs' & Hl).
  apply forall2_snd. apply (table_rows kb kv TaskKind); [|done..|].
  - apply (ok_tasks _ _ (sto_ok _ _ _ _ Hst)).
  - intros n Hn. apply (sto_cells _ _ _ _ Hst (ARow TaskKind n) Hn).
Qed.

(** The edges in the range of a parent, decoded, are its children. *)
Lemma edge_rows kv d l id :
  stores kv d -> coherent uid_of id -> scan_of kv (child_edge_prefix kb id) l ->
  exists rows rest cs, l = (rows ++ rest)%list /\
    Forall (fun x => starts_with (child_edge_prefix kb id) x.1 = true) rows /\
    Forall2 (fun x c => from_slice x.2 = Ok c) rows cs /\
    match rest with [] => True | x :: _ => starts_with (child_edge_prefix kb id) x.1 = false end /\
    list_to_set cs = db_children d id.
Proof.
  intros Hst Hid Hsc. destruct (scan_split _ _ _ Hsc) as (rows & rest & -> & Hs & Hin & Hrest).
  assert (forall k b, (k, b) ∈ rows <-> exists c : RawObjectRef,
    from_slice b = Ok c /\ (id, c) ∈ db_edges d /\ k = child_edge kb id c /\ kv !! k = Some b) as Hrow.
  { intros k b. rewrite Hin. split.
    - intros [Hk Hp]. destruct (sto_keys _ _ _ _ Hst _ _ Hk) as (a & Ha & <-).
      apply child_edge_prefix_iff in Hp as (ck & cn & ->); [|done|by apply Hid|done].
      pose proof (sto_cells _ _ _ _ Hst _ Ha) as Hc. rewrite Hk in Hc. simpl in Hc.
      case_decide as He; simpl in Hc; [|done].
      rewrite <- (coherent_ref_at _ _ Hid) in He. destruct Hc. eauto.
    - intros (c & Hb & He & -> & Hk). split; [done|].
      apply (child_edge_prefix_iff kb id (edge_address id c)); [done|by apply Hid| |].
      + destruct (ok_edges _ _ (sto_ok _ _ _ _ Hst) _ _ He) as [[] []]. by split.
      + unfold edge_address. eauto. }
  destruct (list_choice (fun y : string * B * RawObjectRef => y.1)
    (fun y => from_slice y.1.2 = Ok y.2 /\ (id, y.2) ∈ db_edges d) rows) as (ly & Hrows & Hly).
  { apply Forall_forall. intros [k b] (c & Hb & He & _)%Hrow. by exists (k, b, c). }
  exists rows, rest, ly.*2. split_and!; [done| | |done|].
  - apply Forall_forall. intros [k b] [_ ?]%Hin. done.
  - rewrite Hrows. clear -Hly. induction Hly as [|y ly []]; simpl; constructor; auto.
  - apply set_eq. intros c. rewrite elem_of_list_to_set, elem_of_db_children, list_elem_of_fmap.
    rewrite Forall_forall in Hly. split.
    + intros (y & -> & Hy). by apply Hly.
    + intros He. destruct (ok_edges _ _ (sto_ok _ _ _ _ Hst) _ _ He) as [Hp Hc].
      pose proof (sto_cells _ _ _ _ Hst (edge_address id c)) as Hcell.
      rewrite edge_cell, decide_True in Hcell by done.
      destruct (kv !! key_of kb (edge_address id c)) as [b|] eqn:Hb.
      2: { simpl in Hcell. destruct Hcell. split; [apply Hp|apply Hc]. }
      assert (codes b c) as [_ Hd] by (apply Hcell; split; [apply Hp|apply Hc]).
      assert ((key_of kb (edge_address id c), b) ∈ rows) as Hr by (apply Hrow; eauto).
      rewrite Hrows in Hr. apply list_elem_of_fmap in Hr as ([[k b'] c'] & Heq & Hy).
      exists (k, b', c'). split; [|done]. destruct (Hly _ Hy) as [Hd' _]. simpl in *.
      apply pair_equal_spec in Heq as [_ <-]. congruence.
Qed.
End ScanValues.

(** ** The two handles *)
Section Handles.
Context {B D X : Type} `{HR : RocksDb B D X, HC : RowCodecs B}.
Context `{!RocksLaws B D X, !RowLaws B} (kb : KeyBuilder) (Hkb : kb_wf kb).
Context (uid_of : ObjectKind -> ObjectName -> Ulid).

Definition txn_holds (base : gmap string B) (t : RocksTxn X) (m : gmap string B) : Prop :=
  rt_keys t = kb /\ xbase (rt_txn t) = base /\ xview (rt_txn t) = m.
Definition db_holds (s : RocksStorage D) (m : gmap string B) : Prop :=
  rs_keys s = kb /\ dview (rs_db s) = m.

#[export] Instance txn_rows base : RowStore B (RocksTxn X) kb (txn_holds base)
  (fun A C => rt_get_row (D:=D) (A:=A)) (fun A C => rt_put_row (D:=D) (A:=A)) (rt_delete_row (D:=D)).
Proof.
  split.
  - intros A C key t m (Hk & _ & Hv). unfold rt_get_row. by rewrite law_txn_get, Hk, Hv.
  - intros A C key v b t m (Hk & Hb & Hv) Hvec. unfold rt_put_row, bind, lift_res, get_st, on_rocks_txn.
    rewrite Hvec. simpl. destruct (law_txn_put (key (rt_keys t)) b (rt_txn t)) as (x & -> & Hx & Hx').
    eexists. split; [done|]. unfold txn_holds. simpl. rewrite Hx, Hx', Hk, Hv. done.
  - intros key t m (Hk & Hb & Hv). unfold rt_delete_row, bind, get_st, on_rocks_txn.
    destruct (law_txn_delete (key (rt_keys t)) (rt_txn t)) as (x & -> & Hx & Hx').
    eexists. split; [done|]. unfold txn_holds. simpl. rewrite Hx, Hx', Hk, Hv. done.
Qed.

#[export] Instance db_rows : RowStore B (RocksStorage D) kb db_holds
  (fun A C => rs_get_row (X:=X) (A:=A)) (fun A C => rs_put_row (X:=X) (A:=A))
  (rs_delete_row (X:=X)).
Proof.
  split.
  - intros A C key t m (Hk & Hv). unfold rs_get_row. by rewrite law_get, Hk, Hv.
  - intros A C key v b t m (Hk & Hv) Hvec. unfold rs_put_row, bind, lift_res, get_st, on_db.
    rewrite Hvec. simpl. destruct (law_put (key (rs_keys t)) b (rs_db t)) as (x & -> & Hx).
    eexists. split; [done|]. unfold db_holds. simpl. rewrite Hx, Hk, Hv. done.
  - intros key t m (Hk & Hv). unfold rs_delete_row, bind, get_st, on_db.
    destruct (law_delete (key (rs_keys t)) (rs_db t)) as (x & -> & Hx).
    eexists. split; [done|]. unfold db_holds. simpl. rewrite Hx, Hk, Hv. done.
Qed.

(** A transaction, and a committed store, that stand for a database. *)
Definition txn_refines (base : gmap string B) : RocksTxn X -> InMemoryDb -> Prop :=
  handle_rel kb uid_of (txn_holds base).
Definition store_refines : RocksStorage D -> InMemoryDb -> Prop :=
  handle_rel kb uid_of db_holds.

(** The scans of a transaction. *)
Lemma sim_txn_children base id :
  coherent uid_of id ->
  sim (txn_refines base) eq (rt_get_children (D:=D) id) (reads (fun d => db_children d id)).
Proof.
  intros Hid t d (m & (Hk & Hb & Hv) & Hst). unfold rt_get_children, reads. simpl. rewrite Hk.
  destruct (law_txn_iterator (rt_txn t) (child_edge_prefix kb id)) as (l & Hl & Hsc).
  rewrite Hv in Hsc. destruct (edge_rows kb Hkb uid_of m d l id Hst Hid Hsc)
    as (rows & rest & cs & -> & Hp & Hd & Hr & <-).
  rewrite Hl. destruct (rt_edge_scan_rows _ rows rest cs ∅ Hp Hd Hr) as [-> _].
  split; [simpl; by rewrite (right_id_L ∅ (∪))|]. by exists m.
Qed.

Lemma sim_txn_tasks base res now limit :
  sim (txn_refines base) eq (rt_activatable_tasks (D:=D) res now limit)
    (reads (fun d => select_tasks (db_tasks d) res now limit)).
Proof.
  intros t d (m & (Hk & Hb & Hv) & Hst). unfold rt_activatable_tasks, reads. simpl. rewrite Hk.
  destruct (law_txn_iterator (rt_txn t) (task_prefix kb)) as (l & Hl & Hsc).
  rewrite Hv in Hsc. destruct (task_rows kb Hkb uid_of m d l Hst Hsc)
    as (rows & rest & -> & Hp & Hd & Hr).
  rewrite Hl, (rt_task_scan_rows _ _ _ _ rows rest _ [] Hp Hd Hr) by (simpl; lia).
  split; [done|]. by exists m.
Qed.

Lemma sim_store_children id :
  coherent uid_of id ->
  sim store_refines eq (rs_get_children (X:=X) id) (reads (fun d => db_children d id)).
Proof.
  intros Hid t d (m & (Hk & Hv) & Hst). unfold rs_get_children, reads. simpl. rewrite Hk.
  destruct (law_prefix_iterator (rs_db t) (child_edge_prefix kb id)) as (l & Hl & Hsc).
  rewrite Hv in Hsc. destruct (edge_rows kb Hkb uid_of m d l id Hst Hid Hsc)
    as (rows & rest & cs & -> & Hp & Hd & Hr & <-).
  rewrite Hl. destruct (rt_edge_scan_rows _ rows rest cs ∅ Hp Hd Hr) as [_ ->].
  split; [simpl; by rewrite (right_id_L ∅ (∪))|]. by exists m.
Qed.

(** ** Operations *)

(** The arguments the engine can build: valid names, rows the serializer takes, edges
    between references that agree on the uid of what they name. *)
Definition op_wf (op : TxnOp) : Prop :=
  match op with
  | OpGetExecution r => name_wf (ref_name r)
  | OpGetThread r | OpGetVariables r => name_wf (ref_name r)
  | OpGetActivity r => name_wf (ref_name r)
  | OpGetTask r => name_wf (ref_name r)
  | OpGetChildren id => coherent uid_of id
  | OpActivatableTasks _ _ _ | OpNextGeneratedSeq => True
  | OpGetFlowByName n => plain_wf n
  | OpGetFlowVersion r => name_wf (ref_name r)
  | OpFlowVersionOf n v => plain_wf n /\ 0 <= v <= u32_max
  | OpPutExecution e => name_wf (m_name (ex_meta e)) /\ ok_execution e
  | OpPutThread t => name_wf (m_name (th_meta t)) /\ ok_thread t
  | OpPutVariables r v => name_wf (ref_name r) /\ ok_variables v
  | OpPutActivity a => name_wf (m_name (ac_meta a)) /\ ok_activity a
  | OpPutTask t => name_wf (m_name (tk_meta t)) /\ ok_task t
  | OpRemoveChild p c => coherent uid_of p /\ coherent uid_of c
  | OpAddChild p c => coherent uid_of p /\ coherent uid_of c /\ ok_ref c
  | OpPutFlow f => name_wf (m_name (fl_meta f)) /\ ok_flow f
  | OpPutFlowVersion v => name_wf (m_name (fv_meta v)) /\ ok_flow_version v
  | OpPutNextGeneratedSeq s => ok_i64 s
  end.

Lemma coherent_edge_wf p c :
  coherent uid_of p -> coherent uid_of c -> address_wf (edge_address p c).
Proof. intros [] []. by split. Qed.

Lemma version_name_wf n v : plain_wf n -> 0 <= v <= u32_max -> name_wf (version_name n v).
Proof. intros Hn Hv. split; [done|]. unfold u32_max, u64_max in *. lia. Qed.

Lemma sim_answer {T1 T2 A} (R : T1 -> T2 -> Prop) (f : A -> OpVal) m1 m2 :
  sim R eq m1 m2 -> sim R eq (answer f m1) (answer f m2).
Proof. intros Hm. unfold answer. apply sim_bind_eq; [done|]. intros a. by apply sim_ret. Qed.

(** The row lemmas at each handle. *)
Definition txn_get base {A} {C : RowCodec B A} := sim_get (A:=A) (C:=C) kb uid_of (txn_holds base)
  (RowStore0 := txn_rows base).
Definition txn_get_or base {A} {C : RowCodec B A} :=
  sim_get_or (A:=A) (C:=C) kb uid_of (txn_holds base) (RowStore0 := txn_rows base).
Definition txn_put base {A} {C : RowCodec B A} {ok} `{L : !RowCodecLaws B A ok} :=
  sim_put (A:=A) (C:=C) (ok:=ok) kb Hkb uid_of (txn_holds base) (RowStore0 := txn_rows base).
Definition txn_delete base :=
  sim_delete kb Hkb uid_of (txn_holds base) (RowStore0 := txn_rows base).
Definition store_get {A} {C : RowCodec B A} := sim_get (A:=A) (C:=C) kb uid_of db_holds
  (RowStore0 := db_rows).
Definition store_get_or {A} {C : RowCodec B A} := sim_get_or (A:=A) (C:=C) kb uid_of db_holds
  (RowStore0 := db_rows).
Definition store_put {A} {C : RowCodec B A} {ok} `{L : !RowCodecLaws B A ok} :=
  sim_put (A:=A) (C:=C) (ok:=ok) kb Hkb uid_of db_holds (RowStore0 := db_rows).
Definition store_delete := sim_delete kb Hkb uid_of db_holds (RowStore0 := db_rows).

Lemma decodes_variables d n (o : option B) :
  cell_rel uid_of d (AVariables n) o -> decodes_or ∅ o (default ∅ (db_variables d !! n)).
Proof. simpl. unfold decodes, decodes_or. by destruct o, (db_variables d !! n). Qed.

(** [put_flow] at a generated name panics in both stores. *)
Lemma sim_flow_key {T1 T2} (R : T1 -> T2 -> Prop) f
    (k1 : PlainName -> M T1 StorageError unit) (k2 : PlainName -> M T2 StorageError unit) :
  (forall p, m_name (fl_meta f) = Plain p -> sim R eq (k1 p) (k2 p)) ->
  sim R eq (flow_key f k1) (flow_key f k2).
Proof.
  intros Hk. unfold flow_key. destruct (m_name (fl_meta f)) as [p|b k]; simpl; [auto|].
  apply sim_panic.
Qed.

(** Every operation of a transaction answers as the tables do, and keeps standing for them. *)
Lemma perform_sim base op :
  op_wf op -> sim (txn_refines base) eq (perform op) (perform op).
Proof.
  destruct op; intros Hop; apply sim_answer; simpl in Hop.
  - by apply (txn_get base _ (ARow ExecutionKind (ref_name r))).
  - by apply (txn_get base _ (ARow ThreadKind (ref_name r))).
  - apply (txn_get_or base _ (AVariables (ref_name r))); [done..|]. intros ? ?.
    apply decodes_variables.
  - by apply (txn_get base _ (ARow ActivityKind (ref_name r))).
  - by apply (txn_get base _ (ARow TaskKind (ref_name r))).
  - by apply sim_txn_children.
  - apply sim_txn_tasks.
  - by apply (txn_get base _ (ARow FlowKind (Plain n))).
  - by apply (txn_get base _ (ARow FlowVersionKind (ref_name r))).
  - apply (txn_get base _ (ARow FlowVersionKind (version_name n v))); [done| |done].
    destruct Hop. by apply version_name_wf.
  - destruct Hop. eapply (txn_put base _ (ARow ExecutionKind (m_name (ex_meta e)))); try done.
    by apply rewrites_execution.
  - destruct Hop. eapply (txn_put base _ (ARow ThreadKind (m_name (th_meta t)))); try done.
    by apply rewrites_thread.
  - destruct Hop. eapply (txn_put base _ (AVariables (ref_name r))); try done.
    by apply rewrites_variables.
  - destruct Hop. eapply (txn_put base _ (ARow ActivityKind (m_name (ac_meta a)))); try done.
    by apply rewrites_activity.
  - destruct Hop. eapply (txn_put base _ (ARow TaskKind (m_name (tk_meta t)))); try done.
    by apply rewrites_task.
  - destruct Hop. apply (txn_delete base _ (edge_address p c)); [done|by apply coherent_edge_wf|].
    by apply rewrites_remove_child.
  - destruct Hop as (? & ? & ?). eapply (txn_put base _ (edge_address p c)); try done.
    + by apply coherent_edge_wf.
    + by apply rewrites_add_child.
  - destruct Hop as [Hn Hf]. apply sim_flow_key. intros p Hp. rewrite Hp in Hn.
    eapply (txn_put base _ (ARow FlowKind (Plain p))); try done. by apply rewrites_flow.
  - destruct Hop. eapply (txn_put base _ (ARow FlowVersionKind (m_name (fv_meta v)))); try done.
    by apply rewrites_flow_version.
  - by apply (txn_get_or base _ ASeq).
  - eapply (txn_put base _ ASeq); try done. apply rewrites_seq.
Qed.

Lemma perform_all_sim base ops :
  Forall op_wf ops -> sim (txn_refines base) eq (perform_all ops) (perform_all ops).
Proof.
  induction 1 as [|op ops Hop _ IH]; simpl; [by apply sim_ret|].
  apply sim_bind_eq; [by apply perform_sim|]. intros v.
  apply sim_bind_eq; [done|]. intros vs. by apply sim_ret.
Qed.

(** Opening a transaction: it stands for what the store does. *)
Lemma begin_refines s d :
  store_refines s d ->
  exists t, rs_begin_txn s = (Ok t, s) /\ txn_refines (dview (rs_db s)) t d.
Proof.
  intros (m & (Hk & Hv) & Hst). eexists. split; [done|].
  exists m. split; [|done]. destruct (law_transaction (rs_db s)) as [Hx Hb].
  split_and!; simpl; [done|by rewrite Hb|by rewrite Hx].
Qed.

(** Committing it, over the store it was opened on. *)
Lemma commit_refines (s : RocksStorage D) (t : RocksTxn X) d (w : option Z) :
  rs_keys s = kb -> txn_refines (dview (rs_db s)) t d ->
  (forall p, w = Some p -> ok_i64 p) ->
  exists s', rt_commit t w s = (Ok tt, s') /\
    store_refines s' (match w with Some p => db_set_position d p | None => d end).
Proof.
  intros Hk Ht Hw. unfold rt_commit.
  assert (exists t', match w with
                     | Some p => rt_put_row (D:=D) key_last_processed_position p t
                     | None => (Ok tt, t)
                     end = (Ok tt, t') /\
    txn_refines (dview (rs_db s)) t'
      (match w with Some p => db_set_position d p | None => d end)) as (t' & -> & Ht').
  { destruct w as [p|]; [|by exists t].
    destruct (txn_put (dview (rs_db s)) key_last_processed_position APosition p
      (fun d => db_set_position d p) eq_refl I (Hw p eq_refl) (rewrites_position uid_of p) t d Ht)
      as [Hr Ht'].
    destruct (rt_put_row _ _ _) as [[[]| |] t'']; try done. by exists t''. }
  destruct Ht' as (m & (Hkt & Hbase & Hv) & Hst).
  destruct (law_commit (rt_txn t') (rs_db s)) as (db & Hc & Hd); [done|].
  unfold on_db. rewrite Hc. eexists. split; [done|]. exists m.
  unfold db_holds. simpl. rewrite Hd. done.
Qed.

(** ** The committed store *)

(** The operations of [RocksStorage] that a transaction has too; the scan for tasks is
    another loop there, and the counter is written in transactions only. *)
Definition store_op (op : TxnOp) : option (M (RocksStorage D) StorageError OpVal) :=
  match op with
  | OpGetExecution r => Some (answer VExecution (rs_get_execution (X:=X) r))
  | OpGetThread r => Some (answer VThread (rs_get_thread (X:=X) r))
  | OpGetVariables r => Some (answer VVariables (rs_get_variables (X:=X) r))
  | OpGetActivity r => Some (answer VActivity (rs_get_activity (X:=X) r))
  | OpGetTask r => Some (answer VTask (rs_get_task (X:=X) r))
  | OpGetChildren id => Some (answer VChildren (rs_get_children (X:=X) id))
  | OpActivatableTasks _ _ _ => None
  | OpGetFlowByName n => Some (answer VFlow (rs_get_flow_by_name (X:=X) n))
  | OpGetFlowVersion r => Some (answer VFlowVersion (rs_get_flow_version (X:=X) r))
  | OpFlowVersionOf n v => Some (answer VFlowVersion (rs_flow_version_of (X:=X) n v))
  | OpPutExecution e => Some (answer (fun _ => VUnit) (rs_put_execution (X:=X) e))
  | OpPutThread t => Some (answer (fun _ => VUnit) (rs_put_thread (X:=X) t))
  | OpPutVariables r v => Some (answer (fun _ => VUnit) (rs_put_variables (X:=X) r v))
  | OpPutActivity a => Some (answer (fun _ => VUnit) (rs_put_activity (X:=X) a))
  | OpPutTask t => Some (answer (fun _ => VUnit) (rs_put_task (X:=X) t))
  | OpRemoveChild p c => Some (answer (fun _ => VUnit) (rs_remove_child (X:=X) p c))
  | OpAddChild p c => Some (answer (fun _ => VUnit) (rs_add_child (X:=X) p c))
  | OpPutFlow f => Some (answer (fun _ => VUnit) (rs_put_flow (X:=X) f))
  | OpPutFlowVersion v => Some (answer (fun _ => VUnit) (rs_put_flow_version (X:=X) v))
  | OpNextGeneratedSeq => Some (answer VSeq (rs_next_generated_seq (X:=X)))
  | OpPutNextGeneratedSeq _ => None
  end.

Lemma store_op_sim op m :
  store_op op = Some m -> op_wf op -> sim store_refines eq m (perform op).
Proof.
  destruct op; intros [= <-] Hop; apply sim_answer; simpl in Hop.
  - by apply (store_get _ (ARow ExecutionKind (ref_name r))).
  - by apply (store_get _ (ARow ThreadKind (ref_name r))).
  - apply (store_get_or _ (AVariables (ref_name r))); [done..|]. intros ? ?.
    apply decodes_variables.
  - by apply (store_get _ (ARow ActivityKind (ref_name r))).
  - by apply (store_get _ (ARow TaskKind (ref_name r))).
  - by apply sim_store_children.
  - by apply (store_get _ (ARow FlowKind (Plain n))).
  - by apply (store_get _ (ARow FlowVersionKind (ref_name r))).
  - apply (store_get _ (ARow FlowVersionKind (version_name n v))); [done| |done].
    destruct Hop. by apply version_name_wf.
  - destruct Hop. eapply (store_put _ (ARow ExecutionKind (m_name (ex_meta e)))); try done.
    by apply rewrites_execution.
  - destruct Hop. eapply (store_put _ (ARow ThreadKind (m_name (th_meta t)))); try done.
    by apply rewrites_thread.
  - destruct Hop. eapply (store_put _ (AVariables (ref_name r))); try done.
    by apply rewrites_variables.
  - destruct Hop. eapply (store_put _ (ARow ActivityKind (m_name (ac_meta a)))); try done.
    by apply rewrites_activity.
  - destruct Hop. eapply (store_put _ (ARow TaskKind (m_name (tk_meta t)))); try done.
    by apply rewrites_task.
  - destruct Hop. apply (store_delete _ (edge_address p c)); [done|by apply coherent_edge_wf|].
    by apply rewrites_remove_child.
  - destruct Hop as (? & ? & ?). eapply (store_put _ (edge_address p c)); try done.
    + by apply coherent_edge_wf.
    + by apply rewrites_add_child.
  - destruct Hop as [Hn Hf]. apply sim_flow_key. intros p Hp. rewrite Hp in Hn.
    eapply (store_put _ (ARow FlowKind (Plain p))); try done. by apply rewrites_flow.
  - destruct Hop. eapply (store_put _ (ARow FlowVersionKind (m_name (fv_meta v)))); try done.
    by apply rewrites_flow_version.
  - by apply (store_get_or _ ASeq).
Qed.

Lemma store_position_sim p :
  ok_i64 p ->
  sim store_refines eq (rs_last_processed_position (X:=X)) (reads db_last_processed_position) /\
  sim store_refines eq (rs_put_last_processed_position (X:=X) p)
    (writes (fun d => db_set_position d p)).
Proof.
  intros Hp. split.
  - by apply (store_get_or _ APosition).
  - eapply (store_put _ APosition); try done. apply rewrites_position.
Qed.

(** A database that holds nothing stands for the empty tables. *)
Lemma empty_refines (s : RocksStorage D) :
  rs_keys s = kb -> dview (rs_db s) = ∅ -> store_refines s db_default.
Proof. intros Hk Hv. exists ∅. split; [done|apply stores_empty]. Qed.
End Handles.
