(* ===== verification/RocksScans.v ===== *)
(** The scans of the committed store, which run without a bound on the key: [list_kind]
    and [activatable_tasks] of [RocksStorage]. They serve the pages of the in-memory store
    as long as the scan ends inside the range of the kind, and go on into the rows of
    other kinds when it does not. *)
From S2P Require Import Prelude ByteStrings Names Timestamp Json Errors Meta Entities Tasks.
From S2P Require Import Commands Keys Storage StorageFacts Rows RocksStorage RocksFacts.
From S2P Require Import RocksRefinement.
Local Open Scope Z_scope.

#[local] Existing Instance name_order.

(** ** Names as keys *)

#[export] Instance Plain_inj : Inj (=) (=) Plain.
Proof. by intros ? ? [=]. Qed.

Lemma name_object_bytes n : name_wf n -> string_forallb object_byte (as_str n) = true.
Proof.
  intros Hwf. pose proof (name_roundtrip n Hwf) as H. unfold from_parsed in H.
  destruct (first_alphanumeric _ && string_forallb object_byte (as_str n)) eqn:E; [|done].
  by apply andb_true_iff in E as [_ E].
Qed.

Lemma object_byte_ascii c : object_byte c = true -> in_range 0 0x7F c = true.
Proof. destruct c as [[] [] [] [] [] [] [] []]; done. Qed.

Lemma from_utf8_ascii s : string_forallb (in_range 0 0x7F) s = true -> from_utf8 s = Ok s.
Proof.
  intros Hs. unfold from_utf8.
  assert (forall at_, from_utf8_from (String.length s) at_ s = Ok tt) as ->; [|done].
  induction s as [|c s IH]; intros at_; [done|]. simpl in Hs. apply andb_true_iff in Hs as [Hc Hs].
  simpl. unfold utf8_char. rewrite Hc. simpl. by apply IH.
Qed.

Lemma from_utf8_name n : name_wf n -> from_utf8 (as_str n) = Ok (as_str n).
Proof.
  intros Hn. apply from_utf8_ascii.
  eapply forallb_impl; [apply object_byte_ascii|by apply name_object_bytes].
Qed.

(** ** The listing loop *)
Section ListScan.
Context {B : Type} `{RowCodecs B} (kb : KeyBuilder).
Notation item k := (fun r : ObjectName * B => (key_of kb (ARow k r.1), r.2)).
Implicit Types (ln out : list (ObjectName * B)) (rest : list (string * B)).

Definition listed (after : option ObjectName) ln : list (ObjectName * B) :=
  filter (after_name after) ln.

(** Over the rows of the kind the loop collects the rows after the token, up to the limit;
    a page that is not full goes on with whatever follows. *)
Lemma rs_list_scan_rows k after limit ln rest out :
  Forall (fun r => name_wf r.1) ln -> 0 < limit -> Z.of_nat (length out) < limit ->
  rs_list_scan k (kind_prefix kb (from_object k)) (as_str <$> after) limit
    (Ok <$> ((item k <$> ln) ++ rest)) out =
  if decide (limit <= Z.of_nat (length (out ++ listed after ln)))
  then Ok (take (Z.to_nat limit) (out ++ listed after ln))
  else rs_list_scan k (kind_prefix kb (from_object k)) (as_str <$> after) limit
         (Ok <$> rest) (out ++ listed after ln).
Proof.
  intros Hwf Hlim. revert out. induction Hwf as [|[n b] ln Hn Hwf IH]; intros out Hout.
  { unfold listed. rewrite filter_nil, app_nil_r, decide_False by lia. done. }
  cbn [fmap list_fmap app rs_list_scan res_map_err res_bind fst snd].
  rewrite row_key_app, slice_from_app, from_utf8_name by done. cbn [res_map_err res_bind].
  unfold listed in *. rewrite filter_cons.
  destruct (decide (after_name after (n, b))) as [Ha|Ha].
  - replace (match as_str <$> after with
             | Some a => bool_decide (str_le (as_str n) a) | None => false end) with false.
    2: { destruct after as [a|]; [|done]. symmetry. apply bool_decide_eq_false.
         by apply str_lt_not_le. }
    rewrite name_roundtrip by done. cbn [res_map_err res_bind].
    rewrite (cons_middle (n, b) out (filter (after_name after) ln)), app_assoc.
    destruct (decide (limit <= Z.of_nat (length (out ++ [(n, b)])))) as [Hfull|Hfull].
    + rewrite length_app in Hfull. simpl in Hfull.
      rewrite decide_True by (rewrite !length_app; simpl; lia).
      rewrite take_app_le by (rewrite length_app; simpl; lia).
      rewrite take_ge; [done|]. rewrite length_app. simpl. lia.
    + apply IH. lia.
  - replace (match as_str <$> after with
             | Some a => bool_decide (str_le (as_str n) a) | None => false end) with true.
    2: { destruct after as [a|]; [|by destruct Ha]. symmetry. apply bool_decide_eq_true.
         simpl in *. rewrite str_lt_not_le in Ha. by apply dec_stable. }
    by apply IH.
Qed.
End ListScan.

(** ** The in-memory listing *)
Section MemoryRows.
Context {B : Type} `{RowCodecs B, RowOrder} (kb : KeyBuilder) (Hkb : kb_wf kb).
Context (uid_of : ObjectKind -> ObjectName -> Ulid).

Lemma collect_ok {E A} (l : list A) : collect (Ok <$> l) = Ok (E:=E) l.
Proof. induction l as [|x l IH]; [done|]. cbn. by rewrite IH. Qed.

Lemma sorted_trichotomy {A} (R : relation A) l x y :
  StronglySorted R l -> x ∈ l -> y ∈ l -> x = y \/ R x y \/ R y x.
Proof.
  induction 1 as [|z l Hs IH Hlt]; [by intros ?%not_elem_of_nil|].
  rewrite Forall_forall in Hlt. rewrite !elem_of_cons.
  intros [->|Hx] [->|Hy]; auto.
Qed.

(** Encoding the entries of a table in any order and sorting gives its sorted rows. *)
Lemma sorted_encoding {A} (f : A -> Res StorageError (ObjectName * B)) l ln :
  row_sorted ln -> Forall (fun r => name_wf r.1) ln -> (f <$> l) ≡ₚ (Ok <$> ln) ->
  res_map sort_by_name (collect (f <$> l)) = Ok ln.
Proof.
  intros Hs Hwf (rows & -> & Hp)%Permutation_map_inv. rewrite collect_ok. simpl. f_equal.
  apply (StronglySorted_unique_strong name_le).
  - intros [n1 b1] [n2 b2] H1 H2 Hle1 Hle2. unfold sort_by_name in H1.
    rewrite merge_sort_Permutation, <- Hp in H1. rewrite Forall_forall in Hwf.
    assert (as_str n1 = as_str n2) as Heq by by apply (anti_symm str_le).
    apply as_str_inj in Heq as ->; [|exact (Hwf _ H1)|exact (Hwf _ H2)].
    destruct (sorted_trichotomy _ _ _ _ Hs H1 H2) as [?|[Hlt|Hlt]]; [done|..];
      by apply str_lt_irrefl in Hlt.
  - apply StronglySorted_merge_sort; apply _.
  - clear -Hs. induction Hs as [|x l Hs IH Hlt]; constructor; [done|].
    eapply Forall_impl; [exact Hlt|]. intros y Hy. apply str_le_lt_eq. auto.
  - unfold sort_by_name. by rewrite merge_sort_Permutation, Hp.
Qed.

Lemma encode_fmap {V} `{RowCodec B V} (lx : list (ObjectName * V)) ln :
  Forall2 (fun r x => r.1 = x.1 /\ codes r.2 x.2) ln lx ->
  ((fun kv : ObjectName * V => match to_vec kv.2 with
    | Ok b => Ok (kv.1, b)
    | _ => Panic "storage rows are serializable" end) <$> lx) = Ok (E:=StorageError) <$> ln.
Proof.
  induction 1 as [|[n b] [n' x] ln lx [Hn [Hv _]] _ IH]; [done|]. cbn. simpl in *. subst.
  rewrite Hv. f_equal. exact IH.
Qed.

Lemma encode_rows_sorted {V} `{RowCodec B V} (tb : gmap ObjectName V) ln :
  row_sorted ln -> Forall (fun r => name_wf r.1) ln ->
  Forall2 (fun r x => r.1 = x.1 /\ codes r.2 x.2) ln (sort_by_name (map_to_list tb)) ->
  res_map sort_by_name (encode_rows tb) = Ok ln.
Proof.
  intros Hs Hwf Hc. apply sorted_encoding; [done..|]. rewrite <- (encode_fmap _ _ Hc).
  unfold sort_by_name. by rewrite merge_sort_Permutation, row_iter_perm.
Qed.

Lemma encode_flows_sorted (flows : gmap PlainName Flow) ln :
  (forall p x, flows !! p = Some x -> plain_wf p) ->
  row_sorted ln -> Forall (fun r => name_wf r.1) ln ->
  Forall2 (fun r x => r.1 = x.1 /\ codes r.2 x.2) ln
    (sort_by_name (map_to_list (kmap Plain flows : gmap ObjectName Flow))) ->
  res_map sort_by_name (encode_flows flows) = Ok ln.
Proof.
  intros Hp Hs Hwf Hc. apply sorted_encoding; [done..|]. rewrite <- (encode_fmap _ _ Hc).
  unfold sort_by_name. rewrite merge_sort_Permutation, row_iter_perm, map_to_list_kmap by apply _.
  rewrite <- list_fmap_compose. apply reflexive_eq, list_fmap_ext. intros i [p x] Hi. simpl.
  assert (plain_wf p) as Hwp.
  { eapply Hp, elem_of_map_to_list, list_elem_of_lookup_2, Hi. }
  assert ((Plain p, x) ∈ sort_by_name (map_to_list (kmap Plain flows : gmap ObjectName Flow)))
    as [j Hj]%list_elem_of_lookup.
  { unfold sort_by_name. rewrite merge_sort_Permutation, elem_of_map_to_list, lookup_kmap by apply _.
    eapply elem_of_map_to_list, list_elem_of_lookup_2, Hi. }
  destruct (Forall2_lookup_r _ _ _ _ _ Hc Hj) as ([n b] & _ & _ & [Hv _]). simpl in Hv.
  unfold ObjectName_plain. rewrite PlainName_new_wf by done. simpl. by rewrite Hv.
Qed.
End MemoryRows.

(** ** What follows the tasks *)
Lemma slashed_app a b : slashed (a ++ b) = (slashed a +:+ slashed b)%string.
Proof.
  induction a as [|x a IH]; [done|]. cbn [app slashed]. rewrite IH, (string_app_assoc x). done.
Qed.

Lemma task_prefix_split kb :
  task_prefix kb = (slashed [tenant (kb_scope kb); namespace (kb_scope kb)] +:+ "/task/")%string.
Proof. unfold task_prefix. rewrite join_slashed. apply (slashed_app [_; _] ["task"; ""]%string). Qed.

Lemma tasks_before_threads kb n : str_le (task_prefix kb) (key_of kb (ARow ThreadKind n)).
Proof.
  unfold key_of, key_segments. rewrite task_prefix_split, join_slashed, slashed_app.
  unfold str_le. rewrite str_app_cancel. by vm_compute.
Qed.

(** Only threads sort after the range of the tasks. *)
Lemma after_tasks kb a :
  str_le (task_prefix kb) (key_of kb a) -> starts_with (task_prefix kb) (key_of kb a) = false ->
  exists n, a = ARow ThreadKind n.
Proof.
  unfold key_of, key_segments. rewrite task_prefix_split, join_slashed, slashed_app.
  unfold str_le. rewrite str_app_cancel. intros Hle Hp.
  destruct a as [[] n|? ? ? ?|?| |]; try (exfalso; apply Hle; vm_compute; reflexivity); [by eauto|].
  apply not_true_iff_false in Hp. exfalso. apply Hp, starts_with_split. exists (as_str n).
  rewrite <- string_app_assoc. f_equal. cbn [slashed]. by rewrite string_app_nil_r.
Qed.

Section Committed.
Context {B D X : Type} `{HR : RocksDb B D X, HC : RowCodecs B, HO : RowOrder}.
Context `{!RocksLaws B D X} (kb : KeyBuilder) (Hkb : kb_wf kb).
Context (uid_of : ObjectKind -> ObjectName -> Ulid).
Notation store_refines := (store_refines (D:=D) (X:=X) kb uid_of).

(** The in-memory listing is a page of the rows the database holds in the kind's range. *)
Lemma memory_list_rows (kv : gmap string B) d k after limit ln :
  stores kb uid_of kv d -> row_sorted ln ->
  (forall n b, (n, b) ∈ ln <-> name_wf n /\ kv !! key_of kb (ARow k n) = Some b) ->
  memory_list_kind k after limit d = (Ok (page after limit ln), d).
Proof.
  intros Hst Hs Hl.
  assert (Forall (fun r => name_wf r.1) ln) as Hwf.
  { apply Forall_forall. intros [n b] Hin. by apply Hl in Hin as []. }
  pose proof (sto_ok _ _ _ _ Hst) as Hok.
  assert (forall n, name_wf n -> cell_rel uid_of d (ARow k n) (kv !! key_of kb (ARow k n))) as Hcell.
  { intros n Hn. exact (sto_cells _ _ _ _ Hst (ARow k n) Hn). }
  unfold memory_list_kind.
  assert (forall r, res_map sort_by_name r = Ok ln ->
    res_map (fun rows : list (ObjectName * B) => page after limit (sort_by_name rows)) r
    = Ok (E:=StorageError) (page after limit ln)) as Hpage.
  { intros [rows| |]; simpl; try done. by intros [= ->]. }
  rewrite Hpage; [done|].
  destruct Hok. destruct k;
    try (apply encode_rows_sorted; [done..|]; by eapply (table_rows kb kv)).
  apply encode_flows_sorted; [done..|].
  apply (table_rows kb kv FlowKind); [|done..|].
  - intros n x (p & -> & Hx)%lookup_kmap_Some; [|apply _]. simpl. eauto.
  - intros n Hn. specialize (Hcell n Hn). simpl in Hcell. destruct n as [p|b' s]; simpl in *.
    + rewrite lookup_kmap by apply _. done.
    + assert ((kmap Plain (db_flows d) : gmap ObjectName Flow) !! Generated b' s = None) as ->; [|done].
      apply lookup_kmap_None; [apply _|]. by intros p [=].
Qed.

(** The scan of a kind: its rows, then the rows that sort after its range. *)
Lemma store_kind_scan s d k :
  store_refines s d ->
  exists ln rest,
    rdb_prefix_iterator (rs_db s) (kind_prefix kb (from_object k)) =
      Ok <$> (((fun r : ObjectName * B => (key_of kb (ARow k r.1), r.2)) <$> ln) ++ rest) /\
    row_sorted ln /\
    (forall n b, (n, b) ∈ ln <-> name_wf n /\ dview (rs_db s) !! key_of kb (ARow k n) = Some b) /\
    scan_of (dview (rs_db s)) (kind_prefix kb (from_object k))
      (((fun r : ObjectName * B => (key_of kb (ARow k r.1), r.2)) <$> ln) ++ rest) /\
    match rest with
    | [] => True | x :: _ => starts_with (kind_prefix kb (from_object k)) x.1 = false
    end.
Proof.
  intros (m & (Hk & Hv) & Hst).
  destruct (law_prefix_iterator (rs_db s) (kind_prefix kb (from_object k))) as (l & Hl & Hsc).
  rewrite Hv in Hsc |- *. destruct (scan_split _ _ _ Hsc) as (rows & rest & -> & Hs & Hin & Hrest).
  destruct (kind_rows kb Hkb uid_of m d k rows Hst Hs Hin) as (ln & -> & Hs' & Hl').
  exists ln, rest. by rewrite Hl.
Qed.

(** No row of another kind sorts after the range of [k]. *)
Definition last_range (s : RocksStorage D) (k : ObjectKind) : Prop :=
  forall key, is_Some (dview (rs_db s) !! key) ->
    str_le (kind_prefix kb (from_object k)) key ->
    starts_with (kind_prefix kb (from_object k)) key = true.

(** A page that fills inside the range, or whose range is the last, is the in-memory page. *)
Lemma rs_list_kind_page s d k after limit page' :
  store_refines s d -> 0 < limit ->
  (memory_list_kind k after limit d).1 = Ok page' ->
  Z.of_nat (length page') = limit \/ last_range s k ->
  rs_list_kind (X:=X) k after limit s = (Ok page', s).
Proof.
  intros Hs Hlim Hmem Hin. pose proof Hs as (m & (Hk & Hv) & Hst).
  destruct (store_kind_scan s d k Hs) as (ln & rest & Hit & Hso & Hl & Hsc & Hrest).
  rewrite Hv in Hl. rewrite (memory_list_rows m d k after limit ln Hst Hso Hl) in Hmem.
  simpl in Hmem. injection Hmem as <-.
  unfold rs_list_kind. rewrite Hk, Hit, rs_list_scan_rows; [|..|done|done].
  2: { apply Forall_forall. intros [n b] Hn. by apply Hl in Hn as []. }
  simpl. unfold page, listed in *. case_decide as Hfull; [done|].
  assert (rest = []) as ->.
  { destruct Hin as [Hlen|Hlast]; [rewrite length_take in Hlen; lia|].
    destruct rest as [|[key b] rest]; [done|]. exfalso.
    assert (dview (rs_db s) !! key = Some b /\ str_le (kind_prefix kb (from_object k)) key)
      as [Hkey Hle] by (apply Hsc; set_solver).
    simpl in Hrest. rewrite Hlast in Hrest by eauto. done. }
  simpl. rewrite take_ge by lia. done.
Qed.

(** The key the scan of [k] meets when it leaves the range of [k]. *)
Definition next_after (s : RocksStorage D) (k : ObjectKind) (key : string) : Prop :=
  let prefix := kind_prefix kb (from_object k) in
  is_Some (dview (rs_db s) !! key) /\ str_le prefix key /\ starts_with prefix key = false /\
  forall key', is_Some (dview (rs_db s) !! key') -> str_le prefix key' ->
    starts_with prefix key' = false -> str_le key key'.

Lemma next_after_head s k (rows rest : list (string * B)) key :
  scan_of (dview (rs_db s)) (kind_prefix kb (from_object k)) (rows ++ rest) ->
  Forall (fun x => starts_with (kind_prefix kb (from_object k)) x.1 = true) rows ->
  match rest with
  | [] => True | x :: _ => starts_with (kind_prefix kb (from_object k)) x.1 = false
  end ->
  next_after s k key -> exists b rest', rest = (key, b) :: rest'.
Proof.
  intros [Hso Hsc] Hrows Hrest ([b Hb] & Hle & Hp & Hmin).
  assert ((key, b) ∈ rows ++ rest) as [Hin|Hin]%elem_of_app by (by apply Hsc).
  { rewrite Forall_forall in Hrows. specialize (Hrows _ Hin). simpl in Hrows. congruence. }
  destruct rest as [|[key' b'] rest]; [by apply not_elem_of_nil in Hin|].
  assert (dview (rs_db s) !! key' = Some b' /\ str_le (kind_prefix kb (from_object k)) key')
    as [Hb' Hle'] by (apply Hsc; set_solver).
  exists b', rest. f_equal. f_equal. simpl in Hrest.
  apply (anti_symm str_le); [|by apply Hmin].
  apply elem_of_cons in Hin as [Heq|Hin]; [by simplify_eq|].
  assert (key_sorted ((key', b') :: rest)) as Hs2.
  { clear -Hso. induction rows as [|x rows IH]; [done|]. inversion_clear Hso. auto. }
  inversion_clear Hs2 as [|? ? _ Hlt]. rewrite Forall_forall in Hlt. specialize (Hlt _ Hin).
  apply str_le_lt_eq. auto.
Qed.

(** A page that does not fill takes the next key as a name of the kind: a shorter key than
    the prefix makes the slice panic. *)
Lemma rs_list_kind_overrun s d k after limit page' key :
  store_refines s d -> 0 < limit ->
  (memory_list_kind k after limit d).1 = Ok page' -> Z.of_nat (length page') < limit ->
  next_after s k key ->
  (String.length key < String.length (kind_prefix kb (from_object k)))%nat ->
  (rs_list_kind (X:=X) k after limit s).1 =
  Panic (slice_panic (String.length (kind_prefix kb (from_object k))) (String.length key)).
Proof.
  intros Hs Hlim Hmem Hshort Hnext Hlen. pose proof Hs as (m & (Hk & Hv) & Hst).
  destruct (store_kind_scan s d k Hs) as (ln & rest & Hit & Hso & Hl & Hsc & Hrest).
  rewrite Hv in Hl. rewrite (memory_list_rows m d k after limit ln Hst Hso Hl) in Hmem.
  simpl in Hmem. injection Hmem as <-.
  destruct (next_after_head s k _ rest key Hsc) as (b & rest' & ->); [|done..|].
  { apply Forall_fmap, Forall_forall. intros [n b] _. cbn [fst compose]. rewrite row_key_app.
    apply starts_with_app. }
  unfold rs_list_kind. rewrite Hk, Hit, rs_list_scan_rows; [|..|done|done].
  2: { apply Forall_forall. intros [n b'] Hn. by apply Hl in Hn as []. }
  unfold page in Hshort. unfold listed. rewrite length_take in Hshort.
  rewrite decide_False by (simpl; lia).
  cbn [app fst rs_list_scan fmap list_fmap res_map_err res_bind].
  assert (slice_from (String.length (kind_prefix kb (from_object k))) key = None) as ->; [|done].
  clear -Hlen. revert key Hlen. generalize (kind_prefix kb (from_object k)) as p.
  induction p as [|c p IH]; intros key Hlen; simpl in *; [lia|].
  destruct key; [done|]. simpl in *. apply IH. lia.
Qed.

(** The scan of the committed store for claimable tasks: the table in name order when more
    are claimable than asked for or nothing follows the tasks; otherwise the row of a thread
    is decoded as a task. *)
Lemma rs_tasks_scan s d resource now limit :
  store_refines s d -> 0 <= limit ->
  (limit < Z.of_nat (length (claims resource now (map_iter (db_tasks d)))) \/
   db_threads d = ∅ ->
   rs_activatable_tasks (X:=X) resource now limit s =
   (Ok (select_tasks (db_tasks d) resource now limit), s)) /\
  (Z.of_nat (length (claims resource now (map_iter (db_tasks d)))) <= limit ->
   db_threads d <> ∅ ->
   (forall (th : Thread) (b : B), to_vec th = Ok b -> exists e, from_slice (A:=Task) b = Err e) ->
   exists e, (rs_activatable_tasks (X:=X) resource now limit s).1 =
             Err (codec "rocksdb task decode" e)).
Proof.
  intros (m & (Hk & Hv) & Hst) Hlim. unfold rs_activatable_tasks. rewrite Hk.
  destruct (law_prefix_iterator (rs_db s) (task_prefix kb)) as (l & -> & Hsc). rewrite Hv in Hsc.
  destruct (task_rows kb Hkb uid_of m d l Hst Hsc) as (rows & rest & -> & Hp & Hd & Hrest).
  rewrite (rs_task_scan_rows _ _ _ rows rest _ [] Hd) by (simpl; lia). rewrite app_nil_l.
  assert (forall key b rest', rest = (key, b) :: rest' ->
    exists n th, db_threads d !! n = Some th /\ codes b th) as Hthread.
  { intros key b rest' ->. destruct Hsc as [_ Hsc].
    assert (m !! key = Some b /\ str_le (task_prefix kb) key) as [Hkey Hle] by (apply Hsc; set_solver).
    destruct (sto_keys _ _ _ _ Hst _ _ Hkey) as (a & Ha & <-).
    destruct (after_tasks kb a Hle Hrest) as [n ->].
    pose proof (sto_cells _ _ _ _ Hst _ Ha) as Hc. rewrite Hkey in Hc. simpl in Hc.
    exists n. destruct (db_threads d !! n); [eauto|done]. }
  split.
  - intros Hfull. case_decide as Hlt; [done|]. destruct Hfull as [|Hno]; [done|].
    destruct rest as [|[key b] rest].
    + simpl. unfold select_tasks. by rewrite take_ge by (unfold claims in *; lia).
    + destruct (Hthread key b rest eq_refl) as (n & th & Hth & _). by rewrite Hno in Hth.
  - intros Hle Hne Hthr. rewrite decide_False by lia. destruct rest as [|[key b] rest].
    + exfalso. apply Hne, map_empty. intros n. destruct (db_threads d !! n) as [th|] eqn:Hn; [|done].
      pose proof (ok_threads _ _ (sto_ok _ _ _ _ Hst) _ _ Hn) as Hwf.
      pose proof (sto_cells _ _ _ _ Hst (ARow ThreadKind n) Hwf) as Hc.
      simpl in Hc. rewrite Hn in Hc.
      destruct (m !! key_of kb (ARow ThreadKind n)) as [b|] eqn:Hb; [|done].
      destruct Hsc as [_ Hsc]. rewrite app_nil_r in Hsc.
      assert ((key_of kb (ARow ThreadKind n), b) ∈ rows) as Hin.
      { apply Hsc. split; [done|apply tasks_before_threads]. }
      rewrite Forall_forall in Hp. specialize (Hp _ Hin). cbn [fst] in Hp.
      apply (kind_prefix_iff kb TaskKind) in Hp as [? [=]]; done.
    + destruct (Hthread key b rest eq_refl) as (n & th & _ & [Hvec _]).
      destruct (Hthr th b Hvec) as [e He]. exists e.
      cbn [fst fmap list_fmap rs_task_scan res_map_err res_bind]. by rewrite He.
Qed.
End Committed.
