(* ===== verification/Applier.v ===== *)
(** The event appliers ([crates/engine/src/applier.rs] and [applier/appliers/]): the
    projection of one log event onto storage, shared by the leader's working
    transaction, recovery and followers. *)
From S2P Require Import Prelude Names Timestamp Json Errors Meta Entities Tasks Commands Storage.
Local Open Scope string_scope.
Local Open Scope Z_scope.

Section Applier.
Context `{Profile} {T : Type} `{StorageTxn T}.

(** A storage call and the conversion its [?] applies. *)
Definition db {A} (m : M T StorageError A) : M T ExecutionError A := map_err from_storage m.

(** [bump_generated_seq]. *)
Definition bump_generated_seq (name : ObjectName) : M T ExecutionError unit :=
  match suffix name with
  | None => ret tt
  | Some sfx =>
      let* current := db next_generated_seq in
      let* k := lift_res (i64_add (as_i64 sfx) 1) in
      db (put_next_generated_seq (Z.max current k))
  end.

(** [act.retry_state.get_or_insert_default().attempts = n] and the other row updates. *)
Definition act_set_retry_attempts (a : Activity) (n : Z) (at_ : Timestamp) : Activity :=
  let rs := default RetryState_default (ac_retry_state a) in
  mkActivity (with_update_at at_ (ac_meta a)) (ac_execution a) (ac_state_path a) (ac_status a)
    (ac_raw_input a) (ac_input a) (ac_raw_output a) (ac_activity_state a)
    (Some (mkRetryState n (rs_retrier_attempts rs) (rs_next_available_at rs))) (ac_output a).
Definition act_set_raw_output (a : Activity) (v : Value) (at_ : Timestamp) : Activity :=
  act_advance a (ac_status a) (Some v) (ac_output a) at_.
Definition act_set_progress (a : Activity) (p : ActivityState) (at_ : Timestamp) : Activity :=
  mkActivity (with_update_at at_ (ac_meta a)) (ac_execution a) (ac_state_path a) (ac_status a)
    (ac_raw_input a) (ac_input a) (ac_raw_output a) (Some p) (ac_retry_state a) (ac_output a).

(** Executions. *)
Definition ExecutionCreatedApplier (e : Execution) : M T ExecutionError unit :=
  db (put_execution e).
Definition update_execution (e : Execution) (f : Execution -> Execution)
    : M T ExecutionError unit :=
  let* row := db (get_execution (object_ref (ex_meta e))) in
  match row with Some exec => db (put_execution (f exec)) | None => ret tt end.
Definition ExecutionCompletingApplier (e : Execution) : M T ExecutionError unit :=
  update_execution e (fun exec =>
    exec_advance exec Completing (ex_output e) (m_updated_at (ex_meta e))).
Definition ExecutionCompletedApplier (e : Execution) : M T ExecutionError unit :=
  update_execution e (fun exec =>
    exec_advance exec Completed (ex_output e) (m_updated_at (ex_meta e))).
Definition ExecutionTerminatingApplier (e : Execution) : M T ExecutionError unit :=
  update_execution e (fun exec =>
    exec_advance exec (ex_status e) (ex_output exec) (m_updated_at (ex_meta e))).
Definition ExecutionTerminatedApplier (e : Execution) : M T ExecutionError unit :=
  update_execution e (fun exec =>
    exec_advance exec (ex_status e) (ex_output exec) (m_updated_at (ex_meta e))).

(** Flows. *)
Definition FlowCreatedApplier (flow : Flow) : M T ExecutionError unit := db (put_flow flow).
Definition FlowVersionCreatedApplier (timestamp : Timestamp) (v : FlowVersion)
    : M T ExecutionError unit :=
  db (put_flow_version v) ;;;
  let owner := flow_owner v in
  let* name := lift_res (flow_name v) in
  let* existing := db (get_flow_by_name name) in
  let flow :=
    match existing with
    | Some f => f
    | None =>
        mkFlow (build_meta (ref_uid owner) (ref_name owner) (m_created_at (fv_meta v))
                  (tt : OwnedBy FlowKind)) FlowActive (fv_version v)
    end in
  db (put_flow (mkFlow (with_update_at timestamp (fl_meta flow)) (fl_status flow)
                  (fv_version v))).

(** Threads. *)
Definition record_spawn (progress : option ActivityState) (t : Thread) : option ActivityState :=
  let r := object_ref (th_meta t) in
  match progress with
  | Some (ASMap p) =>
      Some (ASMap (mkMapActivity (ma_items p) (ma_total p) (ma_max_concurrency p)
                     (<[th_index t := r]> (ma_children p))))
  | Some (ASParallel p) =>
      Some (ASParallel (mkParallelActivity (<[th_index t := r]> (pa_branches p))))
  | Some (ASWait _) => None
  | None => Some (ASParallel (mkParallelActivity {[th_index t := r]}))
  end.
Definition ThreadCreatedApplier (timestamp : Timestamp) (t : Thread) : M T ExecutionError unit :=
  db (put_thread t) ;;;
  (match m_owner (th_meta t) with
   | OwnerActivity owner =>
       let* found := attempt (get_activity owner) in
       match found with
       | inr (Some act) =>
           let* scope := db (get_variables (m_owner (ac_meta act))) in
           db (put_variables (object_ref (th_meta t)) scope)
       | _ => ret tt
       end
   | OwnerExecution _ => ret tt
   end) ;;;
  bump_generated_seq (m_name (th_meta t)) ;;;
  db (add_child (thread_owner_raw (m_owner (th_meta t))) (raw_object_ref (th_meta t))) ;;;
  match m_owner (th_meta t) with
  | OwnerExecution _ => ret tt
  | OwnerActivity owner =>
      let* row := db (get_activity owner) in
      match row with
      | None => ret tt
      | Some act =>
          match record_spawn (ac_activity_state act) t with
          | None => ret tt
          | Some p => db (put_activity (act_set_progress act p timestamp))
          end
      end
  end.
Definition ThreadCompletingApplier (t : Thread) : M T ExecutionError unit :=
  let* row := db (get_thread (object_ref (th_meta t))) in
  match row with
  | None => ret tt
  | Some row =>
      db (put_thread (thread_advance row Completing (th_output t) (m_updated_at (th_meta t))))
  end.
Definition ThreadCompletedApplier (t : Thread) : M T ExecutionError unit :=
  let* row := db (get_thread (object_ref (th_meta t))) in
  match row with
  | None => ret tt
  | Some row =>
      db (put_thread (thread_advance row Completed (th_output t) (m_updated_at (th_meta t)))) ;;;
      db (remove_child (thread_owner_raw (m_owner (th_meta row))) (raw_object_ref (th_meta t)))
  end.
Definition ThreadTerminatingApplier (t : Thread) : M T ExecutionError unit :=
  let* row := db (get_thread (object_ref (th_meta t))) in
  match row with
  | None => ret tt
  | Some row =>
      db (put_thread (thread_advance row (th_status t) (th_output row) (m_updated_at (th_meta t))))
  end.
Definition ThreadTerminatedApplier (t : Thread) : M T ExecutionError unit :=
  let* row := db (get_thread (object_ref (th_meta t))) in
  match row with
  | None => ret tt
  | Some row =>
      db (put_thread
            (thread_advance row (th_status t) (th_output row) (m_updated_at (th_meta t)))) ;;;
      db (remove_child (thread_owner_raw (m_owner (th_meta row))) (raw_object_ref (th_meta t)))
  end.

(** Activities. *)
Definition StateActivatingApplier (a : Activity) : M T ExecutionError unit :=
  db (put_activity a) ;;;
  bump_generated_seq (m_name (ac_meta a)) ;;;
  db (add_child (as_raw (m_owner (ac_meta a) : ObjectRef ThreadKind))
        (raw_object_ref (ac_meta a))).
Definition replace_existing (a : Activity) : M T ExecutionError unit :=
  let* row := db (get_activity (object_ref (ac_meta a))) in
  match row with Some _ => db (put_activity a) | None => ret tt end.
Definition StateActivatedApplier (a : Activity) : M T ExecutionError unit := replace_existing a.
Definition StateCompletingApplier (a : Activity) : M T ExecutionError unit := replace_existing a.
Definition StateTerminatingApplier (a : Activity) : M T ExecutionError unit := replace_existing a.
Definition close_existing (a : Activity) : M T ExecutionError unit :=
  let* row := db (get_activity (object_ref (ac_meta a))) in
  match row with
  | None => ret tt
  | Some act =>
      db (put_activity a) ;;;
      db (remove_child (as_raw (m_owner (ac_meta act) : ObjectRef ThreadKind))
            (raw_object_ref (ac_meta a)))
  end.
Definition StateCompletedApplier (a : Activity) : M T ExecutionError unit := close_existing a.
Definition StateTerminatedApplier (a : Activity) : M T ExecutionError unit := close_existing a.
Definition StateTransitionedApplier : M T ExecutionError unit := ret tt.
Definition VariablesAssignedApplier (scope : ObjectRef ThreadKind) (v : Variables)
    : M T ExecutionError unit := db (put_variables scope v).

(** Tasks. *)
Definition TaskActivatedApplier (t : Task) : M T ExecutionError unit :=
  db (put_task t) ;;;
  bump_generated_seq (m_name (tk_meta t)) ;;;
  db (add_child (as_raw (m_owner (tk_meta t) : ObjectRef ActivityKind))
        (raw_object_ref (tk_meta t))).
Definition TasksClaimedApplier (timestamp : Timestamp) (tasks : list Task)
    : M T ExecutionError unit :=
  forM_ tasks (fun task =>
    let* row := db (get_task (object_ref (tk_meta task))) in
    match row with
    | Some t =>
        if is_claimable_at t timestamp then
          db (put_task (task_update t TRunning (tk_worker_id task) (tk_lease_expires_at task)
                (with_next_available (tk_retry_state t)
                   (rs_next_available_at (tk_retry_state task)))
                (m_updated_at (tk_meta task))))
        else ret tt
    | None => ret tt
    end).
Definition task_set_status (t : Task) (s : TaskStatus) (at_ : Timestamp) : Task :=
  task_update t s (tk_worker_id t) (tk_lease_expires_at t) (tk_retry_state t) at_.
Definition TaskCompletedApplier (timestamp : Timestamp) (task : Task) (output : Value)
    : M T ExecutionError unit :=
  let* row := db (get_task (object_ref (tk_meta task))) in
  match row with
  | None => ret tt
  | Some t =>
      let parent : ObjectRef ActivityKind := m_owner (tk_meta t) in
      db (put_task (task_set_status t TCompleted (m_updated_at (tk_meta task)))) ;;;
      let* owner := db (get_activity parent) in
      (match owner with
       | Some act => db (put_activity (act_set_raw_output act output timestamp))
       | None => ret tt
       end) ;;;
      db (remove_child (as_raw parent) (raw_object_ref (tk_meta task)))
  end.
Definition TaskFailedApplier (timestamp : Timestamp) (task : Task) : M T ExecutionError unit :=
  let retryable := task_is_pending (tk_status task) in
  let* row := db (get_task (object_ref (tk_meta task))) in
  match row with
  | None => ret tt
  | Some t =>
      let parent : ObjectRef ActivityKind := m_owner (tk_meta t) in
      db (put_task task) ;;;
      if retryable then
        let* owner := db (get_activity parent) in
        match owner with
        | Some act =>
            db (put_activity
                  (act_set_retry_attempts act (rs_attempts (tk_retry_state task)) timestamp))
        | None => ret tt
        end
      else db (remove_child (as_raw parent) (raw_object_ref (tk_meta task)))
  end.
Definition TaskCancelledApplier (task : Task) : M T ExecutionError unit :=
  let* row := db (get_task (object_ref (tk_meta task))) in
  match row with
  | None => ret tt
  | Some t =>
      let parent : ObjectRef ActivityKind := m_owner (tk_meta t) in
      db (put_task (task_set_status t TCancelled (m_updated_at (tk_meta task)))) ;;;
      db (remove_child (as_raw parent) (raw_object_ref (tk_meta task)))
  end.

(** [dispatch_event]. *)
Definition dispatch_event (timestamp : Timestamp) (event : Event) : M T ExecutionError unit :=
  match event with
  | ExecutionCreated _ e => ExecutionCreatedApplier e
  | ExecutionCompleting e => ExecutionCompletingApplier e
  | ExecutionCompleted e => ExecutionCompletedApplier e
  | ExecutionTerminating e => ExecutionTerminatingApplier e
  | ExecutionTerminated e => ExecutionTerminatedApplier e
  | FlowCreated _ f => FlowCreatedApplier f
  | FlowVersionCreated _ v => FlowVersionCreatedApplier timestamp v
  | StateActivating a => StateActivatingApplier a
  | StateActivated a => StateActivatedApplier a
  | StateCompleting a => StateCompletingApplier a
  | StateCompleted a => StateCompletedApplier a
  | StateTerminating a => StateTerminatingApplier a
  | StateTerminated a => StateTerminatedApplier a
  | VariablesAssigned s v => VariablesAssignedApplier s v
  | StateTransitioned _ _ => StateTransitionedApplier
  | TaskActivated t => TaskActivatedApplier t
  | TasksClaimed _ ts => TasksClaimedApplier timestamp ts
  | TaskCompleted _ t o => TaskCompletedApplier timestamp t o
  | TaskFailed t _ => TaskFailedApplier timestamp t
  | TaskCancelled t => TaskCancelledApplier t
  | ThreadCreated t => ThreadCreatedApplier timestamp t
  | ThreadCompleting t => ThreadCompletingApplier t
  | ThreadCompleted t => ThreadCompletedApplier t
  | ThreadTerminating t => ThreadTerminatingApplier t
  | ThreadTerminated t => ThreadTerminatedApplier t
  end.
End Applier.
