(* ===== verification/ApplierFacts.v ===== *)
(** Facts about the event projection: it respects any agreement of storage
    implementations (so folding events through a transaction and committing is folding
    them directly), keeps rows under their own names, and never lowers the
    generated-name counter. *)
From S2P Require Import Prelude Names Timestamp Json Errors Meta Entities Tasks Commands Storage.
From S2P Require Import StorageFacts Applier.
Local Open Scope Z_scope.

(** ** Simulation *)

(** Unfold an applier to its storage calls. *)
Ltac unfold_appliers :=
  unfold
    ExecutionCreatedApplier, ExecutionCompletingApplier, ExecutionCompletedApplier,
    ExecutionTerminatingApplier, ExecutionTerminatedApplier, update_execution,
    FlowCreatedApplier, FlowVersionCreatedApplier, ThreadCreatedApplier,
    ThreadCompletingApplier, ThreadCompletedApplier, ThreadTerminatingApplier,
    ThreadTerminatedApplier, StateActivatingApplier, StateActivatedApplier,
    StateCompletingApplier, StateTerminatingApplier, StateCompletedApplier,
    StateTerminatedApplier, replace_existing, close_existing, VariablesAssignedApplier,
    StateTransitionedApplier, TaskActivatedApplier, TasksClaimedApplier,
    TaskCompletedApplier, TaskFailedApplier, TaskCancelledApplier, db.

(** Decompose a simulation goal over a composed computation. *)
Ltac sim_tac :=
  repeat first
    [ progress intros
    | apply sim_ret; done
    | solve [eauto with spica]
    | apply sim_bind_eq
    | apply sim_map_err
    | apply sim_attempt
    | apply sim_forM
    | case_match; simplify_eq ].

Section AppSim.
Context `{Profile} {T1 T2 : Type} `{StorageTxn T1, StorageTxn T2} (R : T1 -> T2 -> Prop)
  `{!TxnSim R}.

Lemma sim_bump_generated_seq name :
  sim R eq (bump_generated_seq (T:=T1) name) (bump_generated_seq (T:=T2) name).
Proof.
  unfold bump_generated_seq. destruct (suffix name) as [sfx|]; [|by apply sim_ret].
  destruct (i64_add (as_i64 sfx) 1) as [k|e|m] eqn:Hk.
  - pose proof (sim_map_err R eq from_storage _ _ (sim_bump k)) as Hb.
    intros s1 s2 Hs. specialize (Hb s1 s2 Hs). revert Hb.
    unfold db, bump_to, map_err, bind, lift_res.
    destruct (next_generated_seq s1) as [[]], (next_generated_seq s2) as [[]]; simpl; try done.
  - unfold i64_add in Hk. repeat case_match; done.
  - eapply sim_bind; [apply sim_map_err, sim_next|]. by intros a b _ s1 s2.
Qed.
#[local] Hint Resolve sim_bump_generated_seq : spica.

(** Projecting an event commutes with the agreement relation. *)
Lemma dispatch_event_sim ts e :
  sim R eq (dispatch_event (T:=T1) ts e) (dispatch_event (T:=T2) ts e).
Proof.
  destruct e; simpl; unfold_appliers; sim_tac.
Qed.
End AppSim.

(** ** The projection reports no error of its own *)

(** [total m]: [m] returns a value or panics, never an error. *)
Definition total {S E A} (m : M S E A) : Prop :=
  forall s, match (m s).1 with Err _ => False | _ => True end.

Lemma total_ret {S E A} (a : A) : total (S:=S) (E:=E) (ret a).
Proof. by intros s. Qed.
Lemma total_bind {S E A B} (m : M S E A) (k : A -> M S E B) :
  total m -> (forall a, total (k a)) -> total (bind m k).
Proof.
  intros Hm Hk s. unfold bind. specialize (Hm s). destruct (m s) as [[] s']; simpl in *; try done.
  apply Hk.
Qed.
Lemma total_map_err {S E F A} (f : E -> F) (m : M S E A) : total m -> total (map_err f m).
Proof. intros Hm s. specialize (Hm s). unfold map_err. by destruct (m s) as [[] s']. Qed.
Lemma total_attempt {S E F A} (m : M S E A) : total (E:=F) (attempt m).
Proof. intros s. unfold attempt. by destruct (m s) as [[] s']. Qed.
Lemma total_forM {S E A} (l : list A) (f : A -> M S E unit) :
  (forall x, total (f x)) -> total (forM_ l f).
Proof.
  intros Hf. induction l as [|x l IH]; simpl; [apply total_ret|].
  by apply total_bind; [apply Hf|intros _].
Qed.
Lemma total_flow_name {S} v : total (S:=S) (lift_res (flow_name v)).
Proof. intros s. unfold lift_res, flow_name. by destruct (as_plain _). Qed.
Lemma total_i64_add {S E} `{Profile} a b : total (S:=S) (E:=E) (lift_res (i64_add a b)).
Proof. intros s. unfold lift_res, i64_add. simpl. by repeat case_match. Qed.
#[export] Hint Resolve total_ret total_map_err total_attempt total_flow_name total_i64_add : spica.

(** A store whose operations report no error. *)
Class TotalTxn (T : Type) `{StorageTxn T} : Prop := {
  total_get_execution r : total (get_execution r);
  total_get_thread r : total (get_thread r);
  total_get_variables r : total (get_variables r);
  total_get_activity r : total (get_activity r);
  total_get_task r : total (get_task r);
  total_get_children r : total (get_children r);
  total_activatable_tasks res now n : total (activatable_tasks res now n);
  total_get_flow_by_name n : total (get_flow_by_name n);
  total_get_flow_version r : total (get_flow_version r);
  total_flow_version_of n v : total (flow_version_of n v);
  total_put_execution e : total (put_execution e);
  total_put_thread t : total (put_thread t);
  total_put_variables r v : total (put_variables r v);
  total_put_activity a : total (put_activity a);
  total_put_task t : total (put_task t);
  total_remove_child p c : total (remove_child p c);
  total_add_child p c : total (add_child p c);
  total_put_flow f : total (put_flow f);
  total_put_flow_version v : total (put_flow_version v);
  total_next : total next_generated_seq;
  total_put_next s : total (put_next_generated_seq s) }.
#[export] Hint Resolve total_get_execution total_get_thread total_get_variables
  total_get_activity total_get_task total_get_children total_activatable_tasks
  total_get_flow_by_name total_get_flow_version total_flow_version_of total_put_execution
  total_put_thread total_put_variables total_put_activity total_put_task total_remove_child
  total_add_child total_put_flow total_put_flow_version total_next total_put_next : spica.

(** Close a [total] goal over a composed computation. *)
Ltac total_tac :=
  repeat first
    [ progress intros
    | solve [eauto with spica typeclass_instances]
    | apply total_bind
    | apply total_map_err
    | apply total_forM
    | case_match ].

Section Total.
Context `{Profile} {T : Type} `{TotalTxn T}.

Lemma total_bump_generated_seq name : total (bump_generated_seq (T:=T) name).
Proof. unfold bump_generated_seq, db. total_tac. Qed.
#[local] Hint Resolve total_bump_generated_seq : spica.

(** Over such a store the projection of an event succeeds or panics. *)
Lemma dispatch_event_total ts e : total (dispatch_event (T:=T) ts e).
Proof. destruct e; simpl; unfold_appliers; total_tac. Qed.
End Total.

#[export] Instance InMemoryDb_total `{HashOrder} : TotalTxn InMemoryDb.
Proof. split; intros; intros d; simpl; unfold flow_key;
  first [done|by destruct (as_plain _)]. Qed.
#[export] Instance InMemoryTxn_total `{HashOrder} : TotalTxn InMemoryTxn.
Proof. split; intros; intros d; simpl; unfold flow_key;
  first [done|by destruct (as_plain _)]. Qed.

(** ** Folding a batch of events *)

(** Projecting a sequence of timestamped events. *)
Definition apply_events `{Profile} {T} `{StorageTxn T} (l : list (Timestamp * Event))
    : M T ExecutionError unit :=
  forM_ l (fun te => dispatch_event te.1 te.2).

Section Fold.
Context `{Profile, HashOrder}.

Lemma apply_events_sim {T1 T2} `{StorageTxn T1, StorageTxn T2} (R : T1 -> T2 -> Prop)
    `{!TxnSim R} l :
  sim R eq (apply_events (T:=T1) l) (apply_events (T:=T2) l).
Proof. apply sim_forM. intros te. by apply dispatch_event_sim. Qed.

(** What [commit] with a watermark adds to what it does without one. *)
Lemma commit_watermark t d w :
  commit t None = Ok d -> commit t (Some w) = Ok (db_set_position d w).
Proof. unfold commit. by intros [= <-]. Qed.

(** Folding events through a fresh transaction has the outcome of folding them directly,
    and committing it leaves exactly the directly folded database, with the watermark. *)
Lemma fold_commit d l w :
  let '(r, t) := apply_events (T:=InMemoryTxn) l (begin_txn d) in
  let '(r', d') := apply_events (T:=InMemoryDb) l d in
  r = r' /\ commit t (Some w) = Ok (db_set_position d' w).
Proof.
  pose proof (apply_events_sim flushes l _ _ (flushes_begin d)) as [Hr [_ Hc]].
  destruct (apply_events l (begin_txn d)) as [r t], (apply_events l d) as [r' d']; simpl in *.
  split; [|by apply commit_watermark].
  destruct r, r'; simpl in Hr; by subst.
Qed.
End Fold.

(** ** Invariants of the projection, by [steps] over the direct store *)

(** Close a [steps] goal over a composed computation. *)
Ltac steps_tac :=
  repeat first
    [ progress intros
    | solve [eauto with spica typeclass_instances]
    | apply steps_bind; [try apply _|..]
    | apply steps_map_err
    | apply steps_attempt
    | apply steps_forM; [try apply _|..]
    | case_match; simplify_eq ].

(** The events that write an execution's row. *)
Definition execution_event (ev : Event) : bool :=
  match ev with
  | ExecutionCreated _ _ | ExecutionCompleting _ | ExecutionCompleted _
  | ExecutionTerminating _ | ExecutionTerminated _ => true
  | _ => false
  end.

(** [dispatch_event] moves storage only through the interface's writes: a preorder that
    every one of them respects — for the events of other kinds, every one but the write of an
    execution — relates the store before and after. *)
Class PlainSteps {T : Type} `{StorageTxn T} (R : relation T) : Prop := {
  txn_preorder :: PreOrder R;
  st_get_execution r : steps R (get_execution r);
  st_get_thread r : steps R (get_thread r);
  st_get_variables r : steps R (get_variables r);
  st_get_activity r : steps R (get_activity r);
  st_get_task r : steps R (get_task r);
  st_get_children r : steps R (get_children r);
  st_activatable_tasks res now n : steps R (activatable_tasks res now n);
  st_get_flow_by_name n : steps R (get_flow_by_name n);
  st_get_flow_version r : steps R (get_flow_version r);
  st_flow_version_of n v : steps R (flow_version_of n v);
  st_put_thread t : steps R (put_thread t);
  st_put_variables r v : steps R (put_variables r v);
  st_put_activity a : steps R (put_activity a);
  st_put_task t : steps R (put_task t);
  st_remove_child p c : steps R (remove_child p c);
  st_add_child p c : steps R (add_child p c);
  st_put_flow f : steps R (put_flow f);
  st_put_flow_version v : steps R (put_flow_version v);
  st_next : steps R next_generated_seq;
  st_bump k : steps R (bump_to k) }.
Class TxnSteps {T : Type} `{StorageTxn T} (R : relation T) : Prop := {
  txn_plain :: PlainSteps R;
  st_put_execution e : steps R (put_execution e) }.
#[export] Hint Resolve st_get_execution st_get_thread st_get_variables st_get_activity
  st_get_task st_get_children st_activatable_tasks st_get_flow_by_name st_get_flow_version
  st_flow_version_of st_put_execution st_put_thread st_put_variables st_put_activity
  st_put_task st_remove_child st_add_child st_put_flow st_put_flow_version st_next st_bump
  : spica.

Section Steps.
Context `{Profile} {T : Type} `{StorageTxn T} (R : relation T).

Section Plain.
Context `{!PlainSteps R}.

Lemma steps_bump_generated_seq name : steps R (bump_generated_seq (T:=T) name).
Proof.
  unfold bump_generated_seq. destruct (suffix name) as [sfx|]; [|apply steps_ret; apply _].
  destruct (i64_add (as_i64 sfx) 1) as [k|e|m].
  - intros s. pose proof (st_bump k s) as Hb. revert Hb.
    unfold db, bump_to, map_err, bind, lift_res.
    destruct (next_generated_seq s) as [[] s']; simpl; try done.
    by destruct (put_next_generated_seq _ s') as [[]].
  - apply steps_bind; [apply _|unfold db; eauto with spica|]. intros a. apply steps_lift_res, _.
  - apply steps_bind; [apply _|unfold db; eauto with spica|]. intros a. apply steps_lift_res, _.
Qed.
#[local] Hint Resolve steps_bump_generated_seq : spica.

Lemma plain_event_steps ts e :
  execution_event e = false -> steps R (dispatch_event (T:=T) ts e).
Proof. destruct e; simpl; intros; simplify_eq; unfold_appliers; steps_tac. Qed.
End Plain.

Context `{!TxnSteps R}.
Lemma dispatch_event_steps ts e : steps R (dispatch_event (T:=T) ts e).
Proof.
  destruct (execution_event e) eqn:He; [|by apply plain_event_steps].
  destruct e; simpl in *; simplify_eq; unfold_appliers; steps_tac.
Qed.

Lemma apply_events_steps l : steps R (apply_events (T:=T) l).
Proof. apply steps_forM; [apply _|]. intros te _. apply dispatch_event_steps. Qed.
End Steps.

(** ** Two relations every write respects *)

(** The counter never decreases and the resume position is left alone. *)
Definition counter_grows (d d' : InMemoryDb) : Prop :=
  db_next_generated_seq d <= db_next_generated_seq d' /\
  db_last_processed_position d' = db_last_processed_position d.

(** Every row is stored under its own name. *)
Record keyed (d : InMemoryDb) : Prop := {
  keyed_executions : map_Forall (fun n e => m_name (ex_meta e) = n) (db_executions d);
  keyed_threads : map_Forall (fun n t => m_name (th_meta t) = n) (db_threads d);
  keyed_activities : map_Forall (fun n a => m_name (ac_meta a) = n) (db_activities d);
  keyed_tasks : map_Forall (fun n t => m_name (tk_meta t) = n) (db_tasks d);
  keyed_flows : map_Forall (fun n f => m_name (fl_meta f) = Plain n) (db_flows d);
  keyed_versions : map_Forall (fun n v => m_name (fv_meta v) = n) (db_flow_versions d) }.
Definition keeps_keyed (d d' : InMemoryDb) : Prop := keyed d -> keyed d'.

#[export] Instance counter_grows_preorder : PreOrder counter_grows.
Proof. unfold counter_grows. split; [intros d; lia|]. intros a b c [] []. split; [lia|congruence]. Qed.
#[export] Instance keeps_keyed_preorder : PreOrder keeps_keyed.
Proof. unfold keeps_keyed. split; [by intros d|]. intros a b c; auto. Qed.

(** Close a [steps] goal for a concrete operation of the database. *)
Ltac db_op :=
  intros; intros d Hnp; revert Hnp; simpl; unfold reads, writes, flow_key; simpl;
  try case_match; simpl; try done; intros _; try reflexivity.

Section DbSteps.
Context `{HashOrder}.

#[export] Instance counter_grows_steps : TxnSteps counter_grows.
Proof.
  split; [split; [apply _|..]|]; db_op; unfold counter_grows; simpl; lia.
Qed.

#[export] Instance keeps_keyed_steps : TxnSteps keeps_keyed.
Proof.
  split; [split; [apply _|..]|]; db_op; intros []; split; simpl in *; try done;
    try (by apply map_Forall_insert_2).
  apply map_Forall_insert_2; [|done]. destruct (m_name (fl_meta _)); simplify_eq/=; done.
Qed.
End DbSteps.
