(* ===== verification/Eval.v ===== *)
(** JSONata evaluation ([crates/engine/src/eval_env.rs]) over the [$states] object of
    [crates/engine-types/src/types/context.rs].  The JSONata parser and evaluator are
    third-party code, a parameter here; the wrapper recognition, the AST cache and the
    recursive evaluation of JSON templates are modelled. *)
From S2P Require Import Prelude Names Timestamp Json Errors Commands.
Local Open Scope string_scope.

(** [jsonata_core]: parse an expression, evaluate it on the input document with
    [$states] and the variables bound.  The left component is the error's text. *)
Class JsonataLib : Type := {
  AstNode : Type;
  jsonata_parse : string -> string + AstNode;
  jsonata_evaluate : AstNode -> Value -> Value -> Variables -> string + Value }.

(** ** [$states] *)

(** [struct States]. *)
Record States := mkStates {
  st_input : Value;
  st_result : option Value;
  st_state_name : string;
  st_assign_ctx : option Value;
  st_retry_count : Z;
  st_error_output : option Value;
  st_map_item : option (Z * Value) }.

(** [States::new] and the [with_*] setters. *)
Definition States_new (input : Value) (state_name : string) (retry_count : Z) : States :=
  mkStates input None state_name None retry_count None None.
Definition with_result (s : States) (r : option Value) : States :=
  mkStates (st_input s) r (st_state_name s) (st_assign_ctx s) (st_retry_count s)
    (st_error_output s) (st_map_item s).
Definition with_assign_ctx (s : States) (c : option Value) : States :=
  mkStates (st_input s) (st_result s) (st_state_name s) c (st_retry_count s)
    (st_error_output s) (st_map_item s).
Definition with_error_output (s : States) (e : option Value) : States :=
  mkStates (st_input s) (st_result s) (st_state_name s) (st_assign_ctx s) (st_retry_count s)
    e (st_map_item s).
Definition with_map_item (s : States) (m : option (Z * Value)) : States :=
  mkStates (st_input s) (st_result s) (st_state_name s) (st_assign_ctx s) (st_retry_count s)
    (st_error_output s) m.

(** [States::build]. *)
Definition states_build (s : States) : Value :=
  let input := default (st_input s) (st_assign_ctx s) in
  let error_output := default VNull (st_error_output s) in
  let exec_ctx :=
    if is_null error_output then []
    else [("Error", default VNull (value_get error_output "Error"));
          ("Cause", default VNull (value_get error_output "Cause"))] in
  let map_ctx :=
    match st_map_item s with
    | Some (index, value) =>
        VObject [("Item", VObject [("Index", VNumber (PosInt index)); ("Value", value)])]
    | None => VObject []
    end in
  VObject
    [("input", input);
     ("result", default VNull (st_result s));
     ("errorOutput", error_output);
     ("context", VObject
        [("Execution", VObject exec_ctx);
         ("State", VObject [("Name", VString (st_state_name s));
                            ("RetryCount", VNumber (PosInt (st_retry_count s)))]);
         ("StateMachine", VObject []);
         ("Map", map_ctx)])].

(** ** Expressions *)

(** [extract_jsonata]: the slice [2..len-2] of the trimmed text panics when it is
    reversed. *)
Definition extract_jsonata {E} (s : string) : Res E (option string) :=
  let trimmed := trim s in
  if starts_with "{%" trimmed && ends_with "%}" trimmed then
    if (2 <=? String.length trimmed - 2)%nat then
      Ok (Some (trim (string_take (String.length trimmed - 4) (string_drop 2 trimmed))))
    else Panic "slice index starts at 2 but ends at 1"
  else Ok None.

Section EvalEnv.
Context `{JsonataLib}.

(** [struct EvalEnv { ast_cache }]. *)
Definition EvalEnv : Type := gmap string AstNode.
Definition EvalEnv_new : EvalEnv := ∅.

Definition jsonata_error (field message : string) : ExecutionError :=
  Runtime (Jsonata field message).

(** [EvalEnv::ast_for]. *)
Definition ast_for (expr : string) : M EvalEnv ExecutionError AstNode :=
  fun env =>
    match env !! expr with
    | Some ast => (Ok ast, env)
    | None =>
        match jsonata_parse expr with
        | inl e => (Err (jsonata_error expr e), env)
        | inr ast => (Ok ast, <[expr := ast]> env)
        end
    end.

(** [EvalEnv::eval_expr]. *)
Definition eval_expr (expr : string) (states : Value) (variables : Variables)
    : M EvalEnv ExecutionError Value :=
  let* ast := ast_for expr in
  let data := default VNull (value_get states "input") in
  match jsonata_evaluate ast data states variables with
  | inl e => throw (jsonata_error expr e)
  | inr v => ret v
  end.

(** [EvalEnv::eval_json]. *)
Fixpoint eval_json (value : Value) (states : Value) (variables : Variables)
    : M EvalEnv ExecutionError Value :=
  match value with
  | VString s =>
      let* inner := lift_res (extract_jsonata s) in
      match inner with
      | Some inner => eval_expr inner states variables
      | None => ret value
      end
  | VObject map =>
      let* out :=
        (fix go (m out : list (string * Value)) : M EvalEnv ExecutionError _ :=
           match m with
           | [] => ret out
           | (key, val) :: m' =>
               let* v := eval_json val states variables in go m' (obj_insert out key v)
           end) map [] in
      ret (VObject out)
  | VArray arr =>
      let* out :=
        (fix go (l out : list Value) : M EvalEnv ExecutionError _ :=
           match l with
           | [] => ret out
           | val :: l' =>
               let* v := eval_json val states variables in go l' (out ++ [v])%list
           end) arr [] in
      ret (VArray out)
  | _ => ret value
  end.

(** ** Reference semantics without the cache *)

Definition eval_expr_ref (expr : string) (states : Value) (variables : Variables)
    : Res ExecutionError Value :=
  match jsonata_parse expr with
  | inl e => Err (jsonata_error expr e)
  | inr ast =>
      match jsonata_evaluate ast (default VNull (value_get states "input")) states variables with
      | inl e => Err (jsonata_error expr e)
      | inr v => Ok v
      end
  end.
Fixpoint eval_ref (value : Value) (states : Value) (variables : Variables)
    : Res ExecutionError Value :=
  match value with
  | VString s =>
      res_bind (extract_jsonata s) (fun inner =>
      match inner with Some inner => eval_expr_ref inner states variables | None => Ok value end)
  | VObject map =>
      res_map VObject
        ((fix go (m out : list (string * Value)) : Res ExecutionError _ :=
            match m with
            | [] => Ok out
            | (key, val) :: m' =>
                res_bind (eval_ref val states variables) (fun v => go m' (obj_insert out key v))
            end) map [])
  | VArray arr =>
      res_map VArray
        ((fix go (l out : list Value) : Res ExecutionError _ :=
            match l with
            | [] => Ok out
            | val :: l' =>
                res_bind (eval_ref val states variables) (fun v => go l' (out ++ [v])%list)
            end) arr [])
  | _ => Ok value
  end.

(** A cache that only holds what the parser returns. *)
Definition cache_ok (env : EvalEnv) : Prop :=
  map_Forall (fun expr ast => jsonata_parse expr = inr ast) env.

(** [m] computes [r] from every sound cache, and leaves a sound cache. *)
Definition computes {A} (m : M EvalEnv ExecutionError A) (r : Res ExecutionError A) : Prop :=
  forall env, cache_ok env -> (m env).1 = r /\ cache_ok (m env).2.

Lemma computes_bind {A B} (m : M EvalEnv ExecutionError A) r (k : A -> M EvalEnv ExecutionError B) kr :
  computes m r -> (forall a, computes (k a) (kr a)) -> computes (bind m k) (res_bind r kr).
Proof.
  intros Hm Hk env Henv. specialize (Hm env Henv). unfold bind.
  destruct (m env) as [o env'], Hm as [Ho Henv']; simpl in *; subst.
  destruct r; simpl; [by apply Hk|done..].
Qed.

Lemma computes_ret {A} (a : A) : computes (ret a) (Ok a).
Proof. by intros env. Qed.

Lemma computes_lift_res {A} (r : Res ExecutionError A) : computes (lift_res r) r.
Proof. by intros env. Qed.

Lemma computes_map {A B} (m : M EvalEnv ExecutionError A) r (f : A -> B) :
  computes m r -> computes (let* x := m in ret (f x)) (res_map f r).
Proof.
  intros Hm. replace (res_map f r) with (res_bind r (fun x => Ok (f x))) by by destruct r.
  apply computes_bind; [done|]. intros a. apply computes_ret.
Qed.

Lemma eval_expr_computes expr states vars :
  computes (eval_expr expr states vars) (eval_expr_ref expr states vars).
Proof.
  intros env Henv. unfold eval_expr, eval_expr_ref, bind, ast_for.
  destruct (env !! expr) as [ast|] eqn:He.
  - rewrite (Henv _ _ He). by destruct (jsonata_evaluate _ _ _ _).
  - destruct (jsonata_parse expr) as [e|ast] eqn:Hp; [done|].
    assert (cache_ok (<[expr:=ast]> env)) by by apply map_Forall_insert_2.
    by destruct (jsonata_evaluate _ _ _ _).
Qed.

(** Evaluation through the cache is the reference evaluation, from every sound cache. *)
Lemma eval_json_computes value states vars :
  computes (eval_json value states vars) (eval_ref value states vars).
Proof.
  induction value as [| | |s|l IH|m IH] using Value_ind'; simpl;
    try apply computes_ret.
  - apply computes_bind; [apply computes_lift_res|]. intros [inner|].
    + apply eval_expr_computes.
    + apply computes_ret.
  - apply computes_map.
    match goal with |- computes (?f l []) (?g l []) =>
      enough (forall out, computes (f l out) (g l out)) by auto end.
    induction IH as [|x l Hx _ IHl]; intros out; [apply computes_ret|].
    apply computes_bind; [done|]. intros v. apply IHl.
  - apply computes_map.
    match goal with |- computes (?f m []) (?g m []) =>
      enough (forall out, computes (f m out) (g m out)) by auto end.
    induction IH as [|[k x] m Hx _ IHm]; intros out; [apply computes_ret|].
    apply computes_bind; [done|]. intros v. apply IHm.
Qed.

(** ** Literals *)

(** A value with no expression string and no repeated object key. *)
Fixpoint literal (v : Value) : Prop :=
  match v with
  | VString s => is_jsonata_expr s = false
  | VArray l => (fix go l := match l with [] => True | x :: l' => literal x /\ go l' end) l
  | VObject m =>
      NoDup m.*1 /\
      (fix go (m : list (string * Value)) :=
         match m with [] => True | (_, x) :: m' => literal x /\ go m' end) m
  | _ => True
  end.

Lemma extract_literal {E} s : is_jsonata_expr s = false -> extract_jsonata (E:=E) s = Ok None.
Proof. unfold is_jsonata_expr, extract_jsonata. by intros ->. Qed.

(** A literal template evaluates to itself. *)
Lemma eval_literal v states vars : literal v -> eval_ref v states vars = Ok v.
Proof.
  induction v as [| | |s|l IH|m IH] using Value_ind'; simpl; try done.
  - intros Hs. by rewrite extract_literal.
  - intros Hl.
    match goal with |- res_map _ (?g l []) = _ =>
      enough (forall out, g l out = Ok (out ++ l)%list) as -> by done end.
    induction IH as [|x l Hx _ IHl]; intros out; simpl; [by rewrite app_nil_r|].
    destruct Hl as [Hx' Hl]. rewrite (Hx Hx'). cbn [res_bind]. rewrite (IHl Hl).
    by rewrite <- app_assoc.
  - intros [Hnd Hm].
    match goal with |- res_map _ (?g m []) = _ =>
      enough (forall out, NoDup (out ++ m)%list.*1 -> g m out = Ok (out ++ m)%list) as -> by done end.
    clear Hnd. induction IH as [|[k x] m Hx _ IHm]; intros out Hnd; simpl;
      [by rewrite app_nil_r|].
    destruct Hm as [Hx' Hm]. simpl in Hx. rewrite (Hx Hx'). cbn [res_bind].
    rewrite obj_insert_new.
    + rewrite (IHm Hm); by rewrite <- app_assoc.
    + rewrite fmap_app, fmap_cons in Hnd. apply NoDup_app in Hnd as (_ & Hd & _).
      intros Hin. apply (Hd _ Hin). simpl. set_solver.
Qed.
End EvalEnv.
