(* ===== verification/LogStream.v ===== *)
(** The write-ahead log ([crates/logstream/src]: [entry.rs], [id.rs], [error.rs],
    [logstream.rs], [memory.rs]): entries, the append that stamps positions, point reads
    and the tailing read. *)
From S2P Require Import Prelude Timestamp Commands.
Local Open Scope Z_scope.

(** [StreamId(i64)], [EntryId(i64)]; [nil] is [-1]. *)
Definition StreamId : Type := Z.
Definition EntryId : Type := Z.
Definition id_nil : Z := -1.

(** [enum LogError]. *)
Inductive LogError :=
  | LOpen (m : string) | LRead (m : string) | LWrite (m : string)
  | LSerialize (m : string) | LDeserialize (m : string) | LCorrupt (m : string).

(** [LogError]'s [Display]. *)
Definition log_error_str (e : LogError) : string :=
  (match e with
   | LOpen m => "log open: " +:+ m
   | LRead m => "log read: " +:+ m
   | LWrite m => "log write: " +:+ m
   | LSerialize m => "log serialize: " +:+ m
   | LDeserialize m => "log deserialize: " +:+ m
   | LCorrupt m => "log corrupt: " +:+ m
   end)%string.

(** [struct Entry<P>] at [P = EntryPayload]. *)
Record Entry := mkEntry {
  en_stream_id : StreamId;
  en_entry_id : EntryId;
  en_cause_id : option EntryId;
  en_timestamp : Timestamp;
  en_payload : EntryPayload }.

Definition stamp (sid : StreamId) (id : EntryId) (e : Entry) : Entry :=
  mkEntry sid id (en_cause_id e) (en_timestamp e) (en_payload e).

(** [struct InMemoryLogStream]: the [Inner] under its mutex, with its stream id. *)
Record LogState := mkLog {
  lg_entries : list Entry; lg_next_entry_id : Z; lg_stream_id : StreamId }.
Definition log_new : LogState := mkLog [] 1 1.

(** The stamping loop of [append]. *)
Fixpoint stamp_all (sid : StreamId) (id : Z) (l : list Entry) : list Entry * Z :=
  match l with
  | [] => ([], id)
  | e :: l' => let '(l'', id') := stamp_all sid (id + 1) l' in (stamp sid id e :: l'', id')
  end.

(** [InMemoryLogStream::append]: the last stamped id, and the log. *)
Definition log_append (g : LogState) (entries : list Entry) : Res LogError EntryId * LogState :=
  let '(stamped, id) := stamp_all (lg_stream_id g) (lg_next_entry_id g) entries in
  (Ok (id - 1), mkLog (lg_entries g ++ stamped) id (lg_stream_id g)).

(** The lookup shared by [read] and [stream_read]: [checked_sub(1)], then the index. *)
Definition entry_at (g : LogState) (id : EntryId) : option Entry :=
  if decide (1 <= id) then lg_entries g !! Z.to_nat (id - 1) else None.

(** [InMemoryLogStream::read]. *)
Definition log_read (g : LogState) (id : EntryId) : Res LogError (option Entry) :=
  Ok (entry_at g id).

(** [InMemoryLogStream::stream_read]: what the inner loop yields before it waits for the
    next append; [fuel] bounds the loop. *)
Fixpoint drain_from (fuel : nat) (g : LogState) (next : EntryId) : list Entry :=
  match fuel with
  | O => []
  | S fuel' =>
      match entry_at g next with
      | Some e => e :: drain_from fuel' g (next + 1)
      | None => []
      end
  end.
Definition stream_read (g : LogState) (from : EntryId) : list Entry :=
  drain_from (S (length (lg_entries g))) g (if decide (from = id_nil) then 1 else from).

(** ** Well-formed logs *)

(** Positions are contiguous from one, every entry carries the stream's id. *)
Definition stamped_at (sid : StreamId) (first : Z) (l : list Entry) : Prop :=
  forall i e, l !! i = Some e -> en_entry_id e = first + Z.of_nat i /\ en_stream_id e = sid.
Definition log_wf (g : LogState) : Prop :=
  stamped_at (lg_stream_id g) 1 (lg_entries g) /\
  lg_next_entry_id g = Z.of_nat (length (lg_entries g)) + 1.

Lemma log_new_wf : log_wf log_new.
Proof. split; [by intros []|done]. Qed.

Lemma stamp_all_spec sid id l :
  let '(l', id') := stamp_all sid id l in
  length l' = length l /\ id' = id + Z.of_nat (length l) /\ stamped_at sid id l' /\
  map en_payload l' = map en_payload l /\ map en_timestamp l' = map en_timestamp l /\
  map en_cause_id l' = map en_cause_id l.
Proof.
  revert id. induction l as [|e l IH]; intros id; simpl.
  { repeat split; try lia; by destruct i. }
  specialize (IH (id + 1)). destruct (stamp_all sid (id + 1) l) as [l' id'].
  destruct IH as (Hl & Hid & Hs & Hp & Ht & Hc); simpl. repeat split; try congruence; try lia.
  - destruct i as [|i]; simplify_eq/=; [lia|]. apply Hs in H as [-> _]. lia.
  - destruct i as [|i]; simplify_eq/=; [done|]. by apply Hs in H as [_ ->].
Qed.

(** Appending stamps the next contiguous positions, keeps every earlier entry, and returns
    the last position. *)
Lemma log_append_spec g l :
  log_wf g ->
  let '(r, g') := log_append g l in
  exists stamped,
    r = Ok (Z.of_nat (length (lg_entries g) + length l)) /\
    lg_entries g' = lg_entries g ++ stamped /\
    length stamped = length l /\ map en_payload stamped = map en_payload l /\
    map en_timestamp stamped = map en_timestamp l /\
    map en_cause_id stamped = map en_cause_id l /\
    stamped_at (lg_stream_id g) (Z.of_nat (length (lg_entries g)) + 1) stamped /\
    lg_stream_id g' = lg_stream_id g /\ log_wf g'.
Proof.
  intros [Hs Hn]. unfold log_append.
  pose proof (stamp_all_spec (lg_stream_id g) (lg_next_entry_id g) l) as Hsp.
  destruct (stamp_all _ _ l) as [l' id'].
  destruct Hsp as (Hl & -> & Hst & Hp & Ht & Hc). exists l'. rewrite Hn in Hst |- *.
  split_and!; simpl; try done; try lia.
  - f_equal. lia.
  - split; simpl; [|rewrite length_app; lia].
    intros i e Hi. apply lookup_app_Some in Hi as [Hi|[Hi He]].
    + by apply Hs.
    + apply Hst in He as [-> ->]. split; [lia|done].
Qed.

Lemma entry_at_lookup g i e :
  entry_at g i = Some e <-> 1 <= i /\ lg_entries g !! Z.to_nat (i - 1) = Some e.
Proof. unfold entry_at. case_decide; naive_solver. Qed.

(** A tailing read from a position yields exactly the suffix of the log from there. *)
Lemma drain_from_drop fuel g n :
  (length (lg_entries g) - n < fuel)%nat ->
  drain_from fuel g (Z.of_nat n + 1) = drop n (lg_entries g).
Proof.
  revert n. induction fuel as [|fuel IH]; intros n Hf; [lia|]. simpl.
  unfold entry_at. rewrite decide_True by lia.
  replace (Z.to_nat (Z.of_nat n + 1 - 1)) with n by lia.
  destruct (lg_entries g !! n) as [e|] eqn:He.
  - rewrite (drop_S _ _ _ He). f_equal.
    replace (Z.of_nat n + 1 + 1) with (Z.of_nat (S n) + 1) by lia. apply IH.
    apply lookup_lt_Some in He. lia.
  - apply lookup_ge_None in He. by rewrite drop_ge.
Qed.

Lemma stream_read_drop g n :
  stream_read g (Z.of_nat n + 1) = drop n (lg_entries g).
Proof.
  unfold stream_read, id_nil. rewrite decide_False by lia. apply drain_from_drop. lia.
Qed.

Lemma stream_read_nil g : stream_read g id_nil = lg_entries g.
Proof.
  unfold stream_read. rewrite decide_True by done.
  change 1 with (Z.of_nat 0 + 1) at 1. rewrite drain_from_drop by lia. apply drop_0.
Qed.
