(* ===== verification/RocksLog.v ===== *)
(** The durable log ([crates/logstream/src/rocks.rs]): entries at the key of their position,
    a batch per append together with the next position, point reads and the tailing sweep.
    It refines the in-memory log, and reopening a database resumes where it was left. *)
From S2P Require Import Prelude ByteStrings Names Timestamp Commands LogStream RocksFacts.
Local Open Scope Z_scope.

(** ** What the log is built on *)

(** The calls on [rocksdb::DB]; a [WriteBatch] is its list of puts, written with [sync]. *)
Class LogDb (D : Type) : Type := {
  ldb_open_default : string -> Res string D;
  ldb_get : D -> string -> Res string (option string);
  ldb_write_sync : list (string * string) -> M D string unit;
  ldb_iterator_from : D -> string -> list (Res string (string * string)) }.

(** [serde_json] at [Entry]. *)
Class EntryCodec : Type := {
  entry_to_vec : Entry -> Res string string;
  entry_from_slice : string -> Res string Entry }.

(** ** Keys *)

(** The [n] big-endian bytes of an unsigned value, and the value of a byte string. *)
Fixpoint be_bytes (n : nat) (v : Z) : string :=
  match n with
  | O => ""
  | S n' => String (ascii_of_N (Z.to_N ((v / 256 ^ Z.of_nat n') mod 256))) (be_bytes n' v)
  end.
Fixpoint from_be (s : string) (acc : Z) : Z :=
  match s with
  | EmptyString => acc
  | String c s' => from_be s' (acc * 256 + Z.of_N (N_of_ascii c))
  end.

(** [i64::to_be_bytes], [i64::from_be_bytes]. *)
Definition to_be_bytes (v : Z) : string := be_bytes 8 (as_u64 v).
Definition from_be_bytes (s : string) : Z := as_i64 (from_be s 0).

Definition ENTRY_PREFIX : ascii := ascii_of_N 0x00.
Definition META_NEXT_ID : string := String (ascii_of_N 0xFE) "".
Definition META_STREAM_ID : string := String (ascii_of_N 0xFD) "".

(** [fn entry_key], [fn decode_next], [fn decode_stream_id]. *)
Definition entry_key (position : Z) : string := String ENTRY_PREFIX (to_be_bytes position).
Definition decode_next (bytes : string) : Res LogError Z :=
  if (String.length bytes =? 8)%nat then Ok (from_be_bytes bytes)
  else Err (LCorrupt "meta next-id length").
Definition decode_stream_id (bytes : string) : Res LogError StreamId :=
  if (String.length bytes =? 8)%nat then Ok (from_be_bytes bytes)
  else Err (LCorrupt "meta stream-id length").

(** ** The log *)

(** [struct RocksLogStream], with its [Inner] and [WriterState]; [rl_watch] is the value of
    the watch channel. *)
Record RocksLogStream (D : Type) := mkRocksLog {
  rl_db : D; rl_next_id : Z; rl_stream_id : StreamId; rl_watch : Z }.
Arguments mkRocksLog {D}. Arguments rl_db {D}. Arguments rl_next_id {D}.
Arguments rl_stream_id {D}. Arguments rl_watch {D}.

Section Log.
Context {D : Type} `{LogDb D, EntryCodec}.

(** [RocksLogStream::open] once the database is open: the next position and the stream id
    come from the meta keys, or start at one. *)
Definition RocksLogStream_boot (db : D) : Res LogError (RocksLogStream D) :=
  res_bind (res_map_err LRead (ldb_get db META_NEXT_ID)) (fun o =>
  res_bind (match o with Some bytes => decode_next bytes | None => Ok 1 end) (fun next_id =>
  res_bind (res_map_err LRead (ldb_get db META_STREAM_ID)) (fun o =>
  res_bind (match o with Some bytes => decode_stream_id bytes | None => Ok 1 end) (fun stream_id =>
  Ok (mkRocksLog db next_id stream_id 0))))).
Definition RocksLogStream_open (path : string) : Res LogError (RocksLogStream D) :=
  res_bind (res_map_err LOpen (ldb_open_default path)) RocksLogStream_boot.

(** The loop of [append]: the puts of the entries and the position after the last. *)
Fixpoint log_batch (sid : StreamId) (position : Z) (entries : list Entry)
    (batch : list (string * string)) : Res LogError (list (string * string) * Z) :=
  match entries with
  | [] => Ok (batch, position)
  | e :: rest =>
      res_bind (res_map_err LSerialize (entry_to_vec (stamp sid position e))) (fun value =>
      log_batch sid (position + 1) rest (batch ++ [(entry_key position, value)]))
  end.

(** [RocksLogStream::append]. *)
Definition rl_append (entries : list Entry) : M (RocksLogStream D) LogError EntryId :=
  fun s =>
  match entries with
  | [] => (Ok (rl_next_id s - 1), s)
  | _ =>
      match log_batch (rl_stream_id s) (rl_next_id s) entries [] with
      | Err e => (Err e, s)
      | Panic m => (Panic m, s)
      | Ok (batch, position) =>
          let '(r, db) := ldb_write_sync (batch ++ [(META_NEXT_ID, to_be_bytes position)]) (rl_db s) in
          match r with
          | Ok _ => (Ok (position - 1),
                     mkRocksLog db position (rl_stream_id s) (as_u64 (position - 1)))
          | Err e => (Err (LWrite e), mkRocksLog db (rl_next_id s) (rl_stream_id s) (rl_watch s))
          | Panic m => (Panic m, mkRocksLog db (rl_next_id s) (rl_stream_id s) (rl_watch s))
          end
      end
  end.

(** [RocksLogStream::read]. *)
Definition rl_read (s : RocksLogStream D) (entry_id : EntryId) : Res LogError (option Entry) :=
  if decide (entry_id < 1) then Ok None
  else
    res_bind (res_map_err LRead (ldb_get (rl_db s) (entry_key entry_id))) (fun o =>
    match o with
    | Some bytes => res_map_err LDeserialize (res_map Some (entry_from_slice bytes))
    | None => Ok None
    end).

(** One pass of [stream_read]: what the iterator yields from [next] on, less the errors,
    the other keys and what does not decode. The start key is not empty, so no key is. *)
Definition ok_of {E A} (r : Res E A) : option A := match r with Ok a => Some a | _ => None end.
Definition is_entry_key (key : string) : bool :=
  match key with String c _ => Ascii.eqb c ENTRY_PREFIX | EmptyString => false end.
Definition sweep (s : RocksLogStream D) (next : Z) : list Entry :=
  omap (fun kv : string * string => ok_of (entry_from_slice kv.2))
    (filter (fun kv : string * string => is_entry_key kv.1 = true)
       (omap ok_of (ldb_iterator_from (rl_db s) (entry_key next)))).

(** [RocksLogStream::stream_read]: what it yields before it waits for the next append;
    [fuel] bounds the passes. *)
Fixpoint sweeps (fuel : nat) (s : RocksLogStream D) (next : Z) : list Entry :=
  match fuel with
  | O => []
  | S fuel' =>
      match sweep s next with
      | [] => []
      | committed => committed ++ sweeps fuel' s (next + Z.of_nat (length committed))
      end
  end.
Definition rl_stream_read (fuel : nat) (s : RocksLogStream D) (from : EntryId) : list Entry :=
  sweeps fuel s (if decide (from = id_nil) then 1 else from).
End Log.

(** ** Big-endian positions *)

Lemma be_bytes_length n v : String.length (be_bytes n v) = n.
Proof. induction n; simpl; congruence. Qed.

Lemma be_byte v : 0 <= v < 256 -> Z.of_N (N_of_ascii (ascii_of_N (Z.to_N v))) = v.
Proof. intros Hv. rewrite N_ascii_embedding by lia. lia. Qed.

Lemma be_bytes_mod n v : be_bytes n (v mod 256 ^ Z.of_nat n) = be_bytes n v.
Proof.
  assert (forall m, (m <= n)%nat -> be_bytes m (v mod 256 ^ Z.of_nat n) = be_bytes m v) as Hm;
    [|apply Hm; lia].
  intros m Hm. induction m as [|m IH]; [done|]. simpl. f_equal; [|apply IH; lia].
  do 2 f_equal.
  assert (256 ^ Z.of_nat n = 256 ^ Z.of_nat m * 256 ^ Z.of_nat (n - m)) as ->.
  { rewrite <- Z.pow_add_r by lia. f_equal. lia. }
  rewrite Z.rem_mul_r by lia.
  rewrite Z.mul_comm, Z.div_add, Z.div_small by (try apply Z.mod_pos_bound; lia).
  rewrite Z.add_0_l. apply Z.mod_mod_divide. exists (256 ^ Z.of_nat (n - m - 1)).
  rewrite <- (Z.pow_1_r 256) at 3. rewrite <- Z.pow_add_r by lia. f_equal. lia.
Qed.

Lemma from_be_bytes_spec n v acc :
  0 <= v < 256 ^ Z.of_nat n -> from_be (be_bytes n v) acc = acc * 256 ^ Z.of_nat n + v.
Proof.
  revert v acc. induction n as [|n IH]; intros v acc Hv; cbn [be_bytes from_be].
  { simpl in *. lia. }
  rewrite be_byte by (apply Z.mod_pos_bound; lia).
  rewrite <- be_bytes_mod, IH by (apply Z.mod_pos_bound; lia).
  rewrite Nat2Z.inj_succ, Z.pow_succ_r in * by lia.
  rewrite (Z.mod_small (v / _)) by (split; [apply Z.div_pos; lia|apply Z.div_lt_upper_bound; lia]).
  rewrite (Z.div_mod v (256 ^ Z.of_nat n)) at 3 by lia. lia.
Qed.

(** Positions sort as their keys do. *)
Lemma be_bytes_compare n a b :
  0 <= a < 256 ^ Z.of_nat n -> 0 <= b < 256 ^ Z.of_nat n ->
  String.compare (be_bytes n a) (be_bytes n b) = (a ?= b).
Proof.
  revert a b. induction n as [|n IH]; intros a b Ha Hb.
  { simpl in *. assert (a = b) as -> by lia. by rewrite Z.compare_refl. }
  cbn [be_bytes String.compare].
  rewrite Nat2Z.inj_succ, Z.pow_succ_r in Ha, Hb by lia.
  set (P := 256 ^ Z.of_nat n) in *. assert (0 < P) by (subst P; lia).
  assert (0 <= a / P < 256) by (split; [apply Z.div_pos; lia|apply Z.div_lt_upper_bound; lia]).
  assert (0 <= b / P < 256) by (split; [apply Z.div_pos; lia|apply Z.div_lt_upper_bound; lia]).
  rewrite !Z.mod_small by done. unfold Ascii.compare. rewrite !N_ascii_embedding by lia.
  rewrite Z2N.inj_compare by lia.
  pose proof (Z.div_mod a P ltac:(lia)). pose proof (Z.div_mod b P ltac:(lia)).
  pose proof (Z.mod_pos_bound a P ltac:(lia)). pose proof (Z.mod_pos_bound b P ltac:(lia)).
  rewrite <- (be_bytes_mod n a), <- (be_bytes_mod n b), IH by done. fold P.
  destruct (Z.compare_spec (a / P) (b / P)) as [E|L|G].
  - rewrite E in *. destruct (Z.compare_spec (a mod P) (b mod P)); symmetry;
      [apply Z.compare_eq_iff|apply Z.compare_lt_iff|apply Z.compare_gt_iff]; lia.
  - symmetry. apply Z.compare_lt_iff. nia.
  - symmetry. apply Z.compare_gt_iff. nia.
Qed.
