(* ===== verification/RocksLogFacts.v ===== *)
(** The durable log holds the in-memory one: appends, point reads, the tailing read and a
    reopened database. What is assumed of the database is its documented behaviour: a batch
    is applied whole, reads see what was written, iterators go in key order. *)
From S2P Require Import Prelude ByteStrings Names Timestamp Commands LogStream RocksFacts RocksLog.
Local Open Scope Z_scope.

Definition put_all (m : gmap string string) (puts : list (string * string)) : gmap string string :=
  foldl (fun m kv => <[kv.1 := kv.2]> m) m puts.

Class LogDbLaws (D : Type) `{LogDb D} : Type := {
  lview : D -> gmap string string;
  law_lget d k : ldb_get d k = Ok (lview d !! k);
  law_lwrite puts d :
    exists d', ldb_write_sync puts d = (Ok tt, d') /\ lview d' = put_all (lview d) puts;
  law_literator d k : exists l, ldb_iterator_from d k = Ok <$> l /\ scan_of (lview d) k l }.

(** The entries the serializer round-trips. *)
Class EntryLaws `{EntryCodec} (ok_entry : Entry -> Prop) : Prop :=
  entry_roundtrip e : ok_entry e -> exists v, entry_to_vec e = Ok v /\ entry_from_slice v = Ok e.

Lemma lookup_put_all puts m k v :
  NoDup puts.*1 ->
  put_all m puts !! k = Some v <-> (k, v) ∈ puts \/ ((k ∉ puts.*1) /\ m !! k = Some v).
Proof.
  unfold put_all. revert m. induction puts as [|[k' v'] puts IH]; intros m Hnd; simpl in *.
  { set_solver. }
  apply NoDup_cons in Hnd as [Hnin Hnd]. rewrite IH by done.
  destruct (decide (k = k')) as [->|Hne].
  - rewrite lookup_insert_eq. assert (forall w, (k', w) ∉ puts) as Hno.
    { intros w Hw. apply Hnin, list_elem_of_fmap. by exists (k', w). }
    split.
    + intros [H|[_ [= <-]]]; [by apply Hno in H|left; left].
    + intros [[[= ->]|H]%elem_of_cons|[H _]]; [auto|by apply Hno in H|set_solver].
  - rewrite lookup_insert_ne by done. rewrite elem_of_cons, not_elem_of_cons.
    split; intros [H|[H1 H2]]; try naive_solver.
Qed.

(** ** Positions and keys *)

Definition position_ok (p : Z) : Prop := 0 <= p <= i64_max.

Lemma as_u64_position p : position_ok p -> as_u64 p = p.
Proof. unfold position_ok, i64_max, as_u64. intros. apply Z.mod_small. lia. Qed.

Lemma entry_key_compare a b :
  position_ok a -> position_ok b -> String.compare (entry_key a) (entry_key b) = (a ?= b).
Proof.
  intros Ha Hb. unfold entry_key, to_be_bytes. rewrite !as_u64_position by done.
  cbn [String.compare]. rewrite ascii_compare_refl.
  apply be_bytes_compare; unfold position_ok, i64_max in *; simpl; lia.
Qed.
Lemma entry_key_inj a b : position_ok a -> position_ok b -> entry_key a = entry_key b -> a = b.
Proof.
  intros Ha Hb Heq. apply Z.compare_eq_iff. rewrite <- entry_key_compare by done.
  by rewrite Heq, str_compare_refl.
Qed.
Lemma entry_key_le a b : position_ok a -> position_ok b -> str_le (entry_key a) (entry_key b) <-> a <= b.
Proof. intros Ha Hb. unfold str_le. by rewrite entry_key_compare by done. Qed.
Lemma entry_key_meta p : entry_key p <> META_NEXT_ID /\ entry_key p <> META_STREAM_ID.
Proof. done. Qed.
Lemma entry_key_le_meta p : str_le (entry_key p) META_NEXT_ID.
Proof. by vm_compute. Qed.

Lemma decode_next_position p : position_ok p -> decode_next (to_be_bytes p) = Ok p.
Proof.
  intros Hp. unfold decode_next, to_be_bytes, from_be_bytes. rewrite be_bytes_length, Nat.eqb_refl.
  rewrite as_u64_position, from_be_bytes_spec by (unfold position_ok, i64_max in *; simpl; try done; lia).
  unfold position_ok, i64_max, as_i64 in *. f_equal.
  rewrite Z.mod_small by lia. lia.
Qed.

(** The puts of a run of values from a position on. *)
Definition puts_from (position : Z) (vs : list string) : list (string * string) :=
  imap (fun i v => (entry_key (position + Z.of_nat i), v)) vs.

Lemma elem_of_puts p vs k v :
  (k, v) ∈ puts_from p vs <-> exists i, vs !! i = Some v /\ k = entry_key (p + Z.of_nat i).
Proof.
  unfold puts_from. rewrite list_elem_of_lookup. setoid_rewrite list_lookup_imap.
  split.
  - intros [i Hi]. destruct (vs !! i) as [w|] eqn:E; [|done]. simpl in Hi. simplify_eq. eauto.
  - intros (i & Hi & ->). exists i. by rewrite Hi.
Qed.

(** The entry keys from a position on, in order. *)
Lemma puts_sorted p vs :
  position_ok p -> p + Z.of_nat (length vs) <= i64_max + 1 ->
  StronglySorted (fun x y => str_lt x.1 y.1) (puts_from p vs).
Proof.
  unfold puts_from. revert p. induction vs as [|v vs IH]; intros p Hp Hlen; [constructor|].
  rewrite imap_cons. simpl in Hlen. constructor.
  - unfold compose. destruct vs as [|v' vs]; [constructor|].
    specialize (IH (p + 1)). simpl in Hlen.
    erewrite imap_ext; [apply IH|]; unfold position_ok in *; simpl; [lia..|].
    intros i x _. do 2 f_equal. lia.
  - apply Forall_forall. intros [k x] Hin. apply list_elem_of_lookup in Hin as [i Hi].
    rewrite list_lookup_imap in Hi. destruct (vs !! i) eqn:E; [|done]. simplify_eq/=.
    apply lookup_lt_Some in E. unfold str_lt. rewrite entry_key_compare.
    + apply Z.compare_lt_iff. lia.
    + unfold position_ok in *. lia.
    + unfold position_ok in *. lia.
Qed.

(** ** The relation *)
Section LogRel.
Context {D : Type} `{LogDb D, EntryCodec, !LogDbLaws D}.
Context (ok_entry : Entry -> Prop) `{!EntryLaws ok_entry}.

(** The database holds the entries of [g] at their positions and its next position, and
    nothing else. *)
Definition log_view (m : gmap string string) (g : LogState) (vs : list string) : Prop :=
  Forall2 (fun v e => entry_from_slice v = Ok e) vs (lg_entries g) /\
  forall k v, m !! k = Some v <->
    (exists i, vs !! i = Some v /\ k = entry_key (1 + Z.of_nat i)) \/
    (k = META_NEXT_ID /\ v = to_be_bytes (lg_next_entry_id g) /\ vs <> []).
Record log_rel (s : RocksLogStream D) (g : LogState) : Prop := {
  lr_wf : log_wf g;
  lr_next : rl_next_id s = lg_next_entry_id g;
  lr_stream : rl_stream_id s = lg_stream_id g;
  lr_bound : lg_next_entry_id g <= i64_max;
  lr_view : exists vs, log_view (lview (rl_db s)) g vs }.

Lemma log_rel_empty (db : D) :
  lview db = ∅ -> log_rel (mkRocksLog db 1 1 0) log_new.
Proof.
  intros Hv. split; [apply log_new_wf|done|done|done|]. exists []. split; [constructor|].
  intros k v. simpl. rewrite Hv, lookup_empty. split; [done|].
  intros [(i & Hi & _)|(_ & _ & Hne)]; [done|by destruct Hne].
Qed.

(** The values of a batch decode to the stamped entries. *)
Lemma log_batch_spec sid position l acc :
  Forall ok_entry (stamp_all sid position l).1 ->
  exists vs, Forall2 (fun v e => entry_from_slice v = Ok e) vs (stamp_all sid position l).1 /\
    log_batch sid position l acc =
    Ok (acc ++ puts_from position vs, position + Z.of_nat (length l)).
Proof.
  revert position acc. induction l as [|e l IH]; intros position acc Hok; simpl in *.
  { exists []. split; [constructor|]. unfold puts_from. simpl. do 2 f_equal; [by rewrite app_nil_r|lia]. }
  specialize (IH (position + 1)).
  destruct (stamp_all sid (position + 1) l) as [l' id'] eqn:E. simpl in *.
  apply Forall_cons in Hok as [He Hok]. destruct (entry_roundtrip _ He) as (v & Hv & Hd).
  rewrite Hv. simpl. destruct (IH (acc ++ [(entry_key position, v)]) Hok) as (vs & Hvs & ->).
  exists (v :: vs). split; [by constructor|]. unfold puts_from. rewrite imap_cons.
  f_equal. f_equal; [|lia]. rewrite <- app_assoc. simpl. do 2 f_equal.
  - by rewrite Z.add_0_r.
  - apply imap_ext. intros i x _. unfold compose. do 2 f_equal. lia.
Qed.

Lemma puts_keys p vs k : k ∈ (puts_from p vs).*1 <->
  exists i, (i < length vs)%nat /\ k = entry_key (p + Z.of_nat i).
Proof.
  rewrite list_elem_of_fmap. split.
  - intros ([k' v] & -> & (i & Hi & ->)%elem_of_puts). exists i. split; [|done].
    by apply lookup_lt_Some in Hi.
  - intros (i & [v Hv]%lookup_lt_is_Some & ->). exists (entry_key (p + Z.of_nat i), v).
    split; [done|]. apply elem_of_puts. eauto.
Qed.

Lemma batch_keys_nodup p vs next :
  position_ok p -> p + Z.of_nat (length vs) <= i64_max + 1 ->
  NoDup (puts_from p vs ++ [(META_NEXT_ID, to_be_bytes next)]).*1.
Proof.
  intros Hp Hlen. rewrite fmap_app. apply NoDup_app. split_and!.
  - pose proof (puts_sorted p vs Hp Hlen) as Hs.
    induction Hs as [|x l Hs IH Hlt]; simpl; constructor; [|done].
    intros (y & Hxy & Hy)%list_elem_of_fmap. rewrite Forall_forall in Hlt.
    specialize (Hlt y Hy). simpl in Hlt. rewrite Hxy in Hlt. by apply str_lt_irrefl in Hlt.
  - intros k (i & _ & ->)%puts_keys. simpl. rewrite list_elem_of_singleton.
    apply entry_key_meta.
  - apply NoDup_singleton.
Qed.

(** Appending a batch to the database is appending it to the log. *)
Lemma log_view_append m g vs l vs' :
  log_wf g -> log_view m g vs -> l <> [] ->
  Forall2 (fun v e => entry_from_slice v = Ok e) vs'
    (stamp_all (lg_stream_id g) (lg_next_entry_id g) l).1 ->
  lg_next_entry_id g + Z.of_nat (length l) <= i64_max ->
  log_view (put_all m (puts_from (lg_next_entry_id g) vs' ++
      [(META_NEXT_ID, to_be_bytes (lg_next_entry_id g + Z.of_nat (length l)))]))
    (log_append g l).2 (vs ++ vs').
Proof.
  intros [Hst Hn] [Hvs Hm] Hne Hvs' Hb. unfold log_append.
  pose proof (stamp_all_spec (lg_stream_id g) (lg_next_entry_id g) l) as Hsp.
  destruct (stamp_all _ _ l) as [l' id']. simpl in *. destruct Hsp as (Hl & -> & _).
  pose proof (Forall2_length _ _ _ Hvs) as Hlen. pose proof (Forall2_length _ _ _ Hvs') as Hlen'.
  assert (vs' <> []) as Hne' by (destruct l; [done|]; by destruct vs'; [simpl in *; lia|]).
  split; [by apply Forall2_app|]. intros k v. cbn [lg_next_entry_id].
  rewrite lookup_put_all, elem_of_app, elem_of_puts, list_elem_of_singleton.
  2: { apply batch_keys_nodup; unfold position_ok; lia. }
  rewrite fmap_app, not_elem_of_app, puts_keys, Hm. simpl. rewrite list_elem_of_singleton. split.
  - intros [[(i & Hi & ->)|[= -> ->]]|[[_ Hno] [(i & Hi & ->)|(-> & _)]]].
    + left. exists (length vs + i)%nat. split.
      * rewrite lookup_app_r by lia. rewrite <- Hi. f_equal. lia.
      * f_equal. lia.
    + right. split_and!; [done..|]. by destruct vs, vs'.
    + left. exists i. split; [by apply lookup_app_l_Some|done].
    + by destruct Hno.
  - intros [(i & Hi & ->)|(-> & -> & _)].
    + apply lookup_app_Some in Hi as [Hi|[Hge Hi]].
      * right. split; [|left; eauto]. apply lookup_lt_Some in Hi. split; [|apply entry_key_meta].
        intros (j & Hj & Heq%entry_key_inj); unfold position_ok in *; lia.
      * left. left. exists (i - length vs)%nat. split; [done|]. f_equal.
        apply lookup_lt_Some in Hi. lia.
    + left. by right.
Qed.

(** ** The operations *)

Lemma rl_append_refines s g l :
  log_rel s g -> Forall ok_entry (stamp_all (lg_stream_id g) (lg_next_entry_id g) l).1 ->
  lg_next_entry_id g + Z.of_nat (length l) <= i64_max ->
  exists s', rl_append l s = ((log_append g l).1, s') /\ log_rel s' (log_append g l).2.
Proof.
  intros Hs Hok Hb. destruct Hs as [Hwf Hn Hsid Hb' [vs Hv]].
  pose proof (log_append_spec g l Hwf) as Hsp. unfold rl_append.
  destruct l as [|e l].
  { exists s. unfold log_append in *. simpl in *. rewrite app_nil_r.
    split; [by rewrite Hn|]. destruct g. split; simpl in *; try done. by exists vs. }
  remember (e :: l) as l0 eqn:El. assert (l0 <> []) as Hne by by subst.
  rewrite Hn, Hsid. destruct (log_batch_spec _ _ _ [] Hok) as (vs' & Hvs' & Hbatch).
  pose proof (log_view_append _ g vs l0 vs' Hwf Hv Hne Hvs' Hb) as Hview.
  destruct (law_lwrite (puts_from (lg_next_entry_id g) vs' ++
    [(META_NEXT_ID, to_be_bytes (lg_next_entry_id g + Z.of_nat (length l0)))]) (rl_db s))
    as (db & Hw & Hdb).
  destruct l0 as [|e0 l0]; [done|]. rewrite Hbatch, app_nil_l, Hw.
  destruct (log_append g (e0 :: l0)) as [r g'] eqn:Eg.
  destruct Hsp as (st & -> & Hen & Hlen & _ & _ & _ & _ & Hsid' & Hwf').
  assert (lg_next_entry_id g' = lg_next_entry_id g + Z.of_nat (length (e0 :: l0))) as Hnext.
  { destruct Hwf as [_ ->], Hwf' as [_ ->]. rewrite Hen, length_app, Hlen. lia. }
  eexists. split.
  - f_equal. destruct Hwf as [_ Hng]. rewrite Hng. cbn [fst]. f_equal. lia.
  - cbn [snd] in *. split; cbn [rl_next_id rl_stream_id rl_db]; [done|by rewrite Hnext|done|lia|].
    exists (vs ++ vs'). rewrite Hdb. exact Hview.
Qed.

Lemma log_view_entry m g vs i :
  log_wf g -> lg_next_entry_id g <= i64_max -> log_view m g vs -> 1 <= i <= i64_max ->
  m !! entry_key i = vs !! Z.to_nat (i - 1).
Proof.
  intros [_ Hn] Hb [Hvs Hm] Hi. pose proof (Forall2_length _ _ _ Hvs) as Hlen.
  destruct (vs !! Z.to_nat (i - 1)) as [v|] eqn:E.
  - apply Hm. left. exists (Z.to_nat (i - 1)). split; [done|]. f_equal. lia.
  - destruct (m !! entry_key i) as [v|] eqn:Ek; [|done]. exfalso.
    apply Hm in Ek as [(j & Hj & Heq)|(Heq & _)]; [|by apply entry_key_meta in Heq].
    apply lookup_lt_Some in Hj as Hlt. apply lookup_ge_None in E.
    apply entry_key_inj in Heq; unfold position_ok; lia.
Qed.

Lemma rl_read_refines s g i :
  log_rel s g -> i <= i64_max -> rl_read s i = log_read g i.
Proof.
  intros [Hwf Hn Hsid Hb [vs Hv]] Hi. unfold rl_read, log_read, entry_at.
  case_decide; [by rewrite decide_False by lia|]. rewrite decide_True by lia.
  rewrite law_lget, (log_view_entry _ g vs) by (done || lia). simpl.
  destruct Hv as [Hvs _]. destruct (vs !! Z.to_nat (i - 1)) as [v|] eqn:E; simpl.
  - destruct (Forall2_lookup_l _ _ _ _ _ Hvs E) as (e & He & Hd). by rewrite Hd, He.
  - apply lookup_ge_None in E. rewrite (Forall2_length _ _ _ Hvs) in E.
    by rewrite lookup_ge_None_2.
Qed.

Lemma omap_ok {E A} (l : list A) : omap ok_of (Ok (E:=E) <$> l) = l.
Proof. induction l as [|x l IH]; [done|]. cbn. by rewrite IH. Qed.

(** One sweep yields the log from its start on. *)
Lemma sweep_refines s g n :
  log_rel s g -> Z.of_nat n + 1 <= i64_max ->
  sweep s (Z.of_nat n + 1) = drop n (lg_entries g).
Proof.
  intros [Hwf Hn Hsid Hb [vs [Hvs Hm]]] Hb'. unfold sweep.
  destruct (law_literator (rl_db s) (entry_key (Z.of_nat n + 1))) as (l & -> & [Hs Hl]).
  rewrite omap_ok. pose proof (Forall2_length _ _ _ Hvs) as Hlen.
  destruct Hwf as [_ Hnext].
  assert (filter (fun kv : string * string => is_entry_key kv.1 = true) l
          = puts_from (Z.of_nat n + 1) (drop n vs)) as ->.
  { apply key_sorted_unique.
    - by apply sorted_filter.
    - destruct (decide (n < length vs)%nat).
      + apply puts_sorted; [unfold position_ok; lia|]. rewrite length_drop. lia.
      + rewrite drop_ge by lia. constructor.
    - intros [k v]. rewrite list_elem_of_filter, Hl, elem_of_puts, Hm. simpl. split.
      + intros (Hk & [(i & Hi & ->)|(-> & _)] & Hle); [|done].
        apply lookup_lt_Some in Hi as Hlt.
        rewrite entry_key_le in Hle by (unfold position_ok; lia).
        exists (i - n)%nat. rewrite lookup_drop. split; [rewrite <- Hi|]; f_equal; lia.
      + intros (i & Hi & ->). rewrite lookup_drop in Hi. apply lookup_lt_Some in Hi as Hlt.
        split; [done|]. split; [left; exists (n + i)%nat; split; [done|f_equal; lia]|].
        rewrite entry_key_le by (unfold position_ok; lia). lia. }
  pose proof (Forall2_drop _ _ _ n Hvs) as Hd. revert Hd. unfold puts_from.
  generalize (drop n vs) as ws, (drop n (lg_entries g)) as es. clear.
  intros ws es Hd. generalize (Z.of_nat n + 1) as p.
  induction Hd as [|v e ws es Hv _ IH]; intros p; [done|]. rewrite imap_cons. cbn.
  rewrite Hv. cbn. f_equal. rewrite <- (IH (p + 1)). f_equal. apply imap_ext.
  intros i x _. unfold compose. do 2 f_equal. lia.
Qed.

(** The tailing read yields what the in-memory log does. *)
Lemma rl_stream_read_refines s g n fuel :
  log_rel s g -> Z.of_nat n + 1 <= i64_max -> (2 <= fuel)%nat ->
  rl_stream_read fuel s (Z.of_nat n + 1) = stream_read g (Z.of_nat n + 1).
Proof.
  intros Hs Hb Hf. rewrite stream_read_drop. unfold rl_stream_read, id_nil.
  rewrite decide_False by lia. destruct fuel as [|[|fuel]]; [lia..|].
  cbn [sweeps]. rewrite (sweep_refines s g n) by done.
  destruct (drop n (lg_entries g)) as [|e es] eqn:E; [done|]. rewrite <- E.
  assert (n < length (lg_entries g))%nat as Hlt.
  { apply dec_stable. intros Hge. rewrite drop_ge in E by lia. done. }
  pose proof (lr_bound _ _ Hs) as Hbound. destruct (lr_wf _ _ Hs) as [_ Hnext].
  replace (Z.of_nat n + 1 + Z.of_nat (length (drop n (lg_entries g))))
    with (Z.of_nat (length (lg_entries g)) + 1) by (rewrite length_drop; lia).
  rewrite (sweep_refines s g (length (lg_entries g))) by (done || lia).
  rewrite (drop_ge (lg_entries g) (length (lg_entries g))) by lia. by rewrite app_nil_r.
Qed.

Lemma rl_stream_read_nil s g fuel :
  log_rel s g -> (2 <= fuel)%nat -> rl_stream_read fuel s id_nil = stream_read g id_nil.
Proof.
  intros Hs Hf. pose proof (rl_stream_read_refines s g 0 fuel Hs ltac:(done) Hf) as H1.
  rewrite stream_read_nil. rewrite stream_read_drop, drop_0 in H1. rewrite <- H1.
  unfold rl_stream_read. by rewrite decide_True, decide_False by done.
Qed.

(** A database left by a log opens as that log: positions continue where they ended. *)
Lemma boot_refines s g (db : D) :
  log_rel s g -> lg_stream_id g = 1 -> lview db = lview (rl_db s) ->
  exists s', RocksLogStream_boot db = Ok s' /\ log_rel s' g.
Proof.
  intros [Hwf Hn Hsid Hb [vs Hv]] H1 Hdb. unfold RocksLogStream_boot.
  rewrite !law_lget, Hdb. simpl. pose proof Hv as [Hvs Hm]. destruct Hwf as [Hst Hnext].
  assert (match lview (rl_db s) !! META_NEXT_ID with
          | Some bytes => decode_next bytes
          | None => Ok 1
          end = Ok (lg_next_entry_id g)) as ->.
  { destruct (lview (rl_db s) !! META_NEXT_ID) as [v|] eqn:E.
    - apply Hm in E as [(i & _ & Heq)|(_ & -> & _)]; [by symmetry in Heq; apply entry_key_meta in Heq|].
      apply decode_next_position. unfold position_ok. lia.
    - destruct vs as [|v vs].
      + apply Forall2_nil_inv_l in Hvs. by rewrite Hnext, Hvs.
      + assert (lview (rl_db s) !! META_NEXT_ID = Some (to_be_bytes (lg_next_entry_id g)))
          by (apply Hm; by right). congruence. }
  assert (lview (rl_db s) !! META_STREAM_ID = None) as ->.
  { destruct (lview (rl_db s) !! META_STREAM_ID) as [v|] eqn:E; [|done].
    apply Hm in E as [(i & _ & Heq)|(Heq & _)]; [by symmetry in Heq; apply entry_key_meta in Heq|done]. }
  simpl. eexists. split; [done|]. split; simpl; try done. exists vs. by rewrite Hdb.
Qed.
End LogRel.
