(* ===== verification/Handler.v ===== *)
(** The handlers' working context ([crates/engine/src/handler.rs], [working.rs],
    [engine-types/src/storage/thread.rs]): the collector of log entries, the working
    transaction every event is projected onto as it is emitted, the injected clock and
    id generator, the definition cache, and the processing errors. *)
From S2P Require Import Prelude Names Timestamp Json Asl Errors Meta Entities Tasks Commands.
From S2P Require Import LogStream Storage StorageFacts Applier ApplierFacts Eval.
Local Open Scope string_scope.
Local Open Scope Z_scope.

(** ** Everything the engine is given *)

(** The build profile and the external code the engine calls: [powf], the CRC, hash
    iteration order, JSONata, the clock's readings and the id generator's values in call
    order, [serde_json::from_str::<StateMachine>], the [Debug] text of a path and of a
    status, the text of a ULID, and the RFC 3339 parser (seconds and milliseconds of the instant). *)
Class Engine : Type := {
  engine_profile :: Profile;
  engine_libm :: Libm;
  engine_crc :: Crc;
  engine_hash :: HashOrder;
  engine_jsonata :: JsonataLib;
  clock_at : Clock;
  ulid_at : IdGenerator;
  parse_machine : string -> string + StateMachine;
  debug_state_path : StatePath -> string;
  debug_status : Lifecycle -> string;
  ulid_str : Ulid -> string;
  rfc3339_parts : string -> option (Z * Z) }.

(** [Timestamp::from_rfc3339]. *)
Definition from_rfc3339 `{Engine} (s : string) : option Timestamp :=
  match rfc3339_parts s with Some (unix, ms) => from_unix_parts unix ms | None => None end.

(** [enum ProcessingError]. *)
Inductive ProcessingError :=
  | Unexpected (e : ExecutionError)
  | PRejected (t : RejectionType) (reason : string).
Definition is_unexpected (e : ProcessingError) : bool :=
  match e with Unexpected _ => true | PRejected _ _ => false end.
Definition rejection_reason (e : ProcessingError) : string :=
  match e with Unexpected e => execution_error_str e | PRejected _ reason => reason end.

(** ** Handler state *)

(** The transaction, the collected entries, the counts of clock and id calls, the two
    caches, and the position of the command being processed. *)
Record HSt `{JsonataLib} (T : Type) := mkHSt {
  h_txn : T;
  h_entries : list Entry;
  h_clock : nat;
  h_ids : nat;
  h_env : EvalEnv;
  h_definitions : gmap (ObjectRef FlowVersionKind) StateMachine;
  h_cause_id : EntryId }.
Arguments mkHSt {_ T}. Arguments h_txn {_ T}. Arguments h_entries {_ T}.
Arguments h_clock {_ T}. Arguments h_ids {_ T}. Arguments h_env {_ T}.
Arguments h_definitions {_ T}. Arguments h_cause_id {_ T}.

Section Handler.
Context `{Engine} {T : Type} `{StorageTxn T}.

Definition HM (E A : Type) : Type := M (HSt T) E A.

Definition set_txn (s : HSt T) (t : T) : HSt T :=
  mkHSt t (h_entries s) (h_clock s) (h_ids s) (h_env s) (h_definitions s) (h_cause_id s).
Definition push_entry (s : HSt T) (e : Entry) : HSt T :=
  mkHSt (h_txn s) (h_entries s ++ [e])%list (h_clock s) (h_ids s) (h_env s) (h_definitions s)
    (h_cause_id s).

(** A call on the working transaction. *)
Definition on_txn {E A} (m : M T E A) : HM E A :=
  fun s => let '(r, t') := m (h_txn s) in (r, set_txn s t').
(** A storage call with the conversion of [?]: to [ExecutionError], to [ProcessingError]. *)
Definition sto {A} (m : M T StorageError A) : HM ExecutionError A :=
  map_err from_storage (on_txn m).
Definition rd {A} (m : M T StorageError A) : HM ProcessingError A :=
  map_err (fun e => Unexpected (from_storage e)) (on_txn m).

(** [self.clock.now()], [self.ids.next_ulid()]. *)
Definition now {E} : HM E Timestamp :=
  fun s => (Ok (clock_at (h_clock s)),
            mkHSt (h_txn s) (h_entries s) (S (h_clock s)) (h_ids s) (h_env s)
              (h_definitions s) (h_cause_id s)).
Definition mint {E} : HM E Ulid :=
  fun s => (Ok (ulid_at (h_ids s)),
            mkHSt (h_txn s) (h_entries s) (h_clock s) (S (h_ids s)) (h_env s)
              (h_definitions s) (h_cause_id s)).

(** A computation on the expression environment. *)
Definition on_env {E A} (m : M EvalEnv E A) : HM E A :=
  fun s => let '(r, env') := m (h_env s) in
           (r, mkHSt (h_txn s) (h_entries s) (h_clock s) (h_ids s) env' (h_definitions s)
                 (h_cause_id s)).

(** [Collector::build]: the clock is read here. *)
Definition build {E} (payload : EntryPayload) : HM E Entry :=
  let* ts := now in
  fun s => (Ok (mkEntry id_nil id_nil (Some (h_cause_id s)) ts payload), s).
Definition push {E} (payload : EntryPayload) : HM E unit :=
  let* e := build payload in
  fun s => (Ok tt, push_entry s e).

(** [Collector::append_event]: the eager projection's error is logged and dropped. *)
Definition append_event {E} (event : Event) : HM E unit :=
  let* entry := build (PEvent event) in
  let* _ := attempt (on_txn (dispatch_event (en_timestamp entry) event)) in
  fun s => (Ok tt, push_entry s entry).

(** [Collector::append_command], [Collector::reject]. *)
Definition append_command {E} (c : Command) : HM E unit := push (PCommand c).
Definition reject {E} (id : RequestId) (t : RejectionType) (reason : string) : HM E unit :=
  push (PReject (mkReject id t reason)).

(** [WorkingState::mint_generated_seq], [Collector::next_generated_seq]. *)
Definition mint_generated_seq {E} : HM E Z :=
  let* read := attempt (on_txn next_generated_seq) in
  let n := match read with inr n => n | inl _ => 0 end in
  let* next := lift_res (i64_add n 1) in
  let* _ := attempt (on_txn (put_next_generated_seq next)) in
  ret (as_u64 n).

(** [err.into()] where an [ExecutionError] meets a [ProcessingError] return. *)
Definition unexpected {A} (m : HM ExecutionError A) : HM ProcessingError A := map_err Unexpected m.

Definition rejected {A} (t : RejectionType) (reason : string) : HM ProcessingError A :=
  throw (PRejected t reason).

(** [debug_assert!(x.mark_*(.., out.now()).is_ok())]: the update is an operand of the
    assertion, so it and its clock reading happen only where assertions are compiled in. *)
Definition debug_assert_mark {E X} (x : X) (mark : Timestamp -> Res string X) : HM E X :=
  if debug_assertions then
    let* t := now in
    match mark t with
    | Ok x' => ret x'
    | Err _ => panic "assertion failed"
    | Panic m => panic m
    end
  else ret x.

(** [self.definitions.insert(flow_version, machine)]. *)
Definition cache_definition {E} (flow_version : ObjectRef FlowVersionKind) (m : StateMachine)
    : HM E unit :=
  fun s => (Ok tt, mkHSt (h_txn s) (h_entries s) (h_clock s) (h_ids s) (h_env s)
                     (<[flow_version := m]> (h_definitions s)) (h_cause_id s)).

(** [HandlerContext::machine]. *)
Definition machine (flow_version : ObjectRef FlowVersionKind) : HM ExecutionError StateMachine :=
  let* s := get_st in
  match h_definitions s !! flow_version with
  | Some m => ret m
  | None =>
      let* row := sto (get_flow_version flow_version) in
      match row with
      | None =>
          throw (Runtime (InvalidDefinition
            ("flow version " +:+ ref_str flow_version +:+ " not found in storage")))
      | Some ver =>
          match parse_machine (fv_definition ver) with
          | inl e =>
              throw (Runtime (InvalidDefinition
                ("stored flow definition for " +:+ ref_str flow_version +:+
                 " is not parseable: " +:+ e)))
          | inr m => cache_definition flow_version m ;;; ret m
          end
      end
  end.

(** [resolve_thread_flow_version], [HandlerContext::machine_for_thread]. *)
Definition resolve_thread_flow_version (t : Thread) : HM ExecutionError (ObjectRef FlowVersionKind) :=
  let* row := sto (get_execution (th_execution t)) in
  match row with
  | Some exec => ret (ex_flow_version exec)
  | None =>
      throw (Runtime (InvalidDefinition
        ("thread " +:+ raw_str (raw_object_ref (th_meta t)) +:+
         " lost its owning execution " +:+ ref_str (th_execution t))))
  end.
Definition machine_for_thread (t : Thread) : HM ExecutionError StateMachine :=
  let* v := resolve_thread_flow_version t in machine v.
End Handler.
