(* ===== verification/Containers.v ===== *)
(** The container interface of [crates/engine/src/elements/mod.rs] and its thread and
    execution implementations ([elements/thread.rs], [elements/execution.rs]): how an
    owner reacts when a child of it settles. *)
From S2P Require Import Prelude Names Timestamp Json Asl Errors Meta Entities Tasks Commands.
From S2P Require Import Storage Applier Handler.
Local Open Scope string_scope.
Local Open Scope Z_scope.

Section Containers.
Context `{Engine} {T : Type} `{StorageTxn T}.
Notation HP := (M (HSt T) ProcessingError).

(** A fallible read used as [.await.ok().flatten()] or [if let Ok(..)]. *)
Definition read_ok {E A} (m : M T StorageError A) : M (HSt T) E (option A) :=
  let* r := attempt (on_txn m) in
  ret (match r with inr a => Some a | inl _ => None end).
Definition read_flat {E A} (m : M T StorageError (option A)) : M (HSt T) E (option A) :=
  let* r := read_ok m in
  ret (match r with Some (Some a) => Some a | _ => None end).

(** ** [impl Container for ThreadElementBehavior] *)

Definition thread_open (owner : ObjectRef ThreadKind) : HP (ObjectRef ThreadKind) :=
  let* row := rd (get_thread owner) in
  match row with
  | None =>
      rejected RNotFound ("thread_element: thread " +:+ ref_str owner +:+ " is gone")
  | Some _ => ret owner
  end.

Definition thread_gone {A} (thread : ObjectRef ThreadKind) : HP A :=
  rejected InvalidState
    ("thread_element: thread " +:+ ref_str thread +:+ " is gone from under its settled child").

Definition thread_after_child_completed (thread : ObjectRef ThreadKind) (child : RawObjectRef)
    : HP unit :=
  let* row := rd (get_thread thread) in
  match row with
  | None => thread_gone thread
  | Some t =>
      match th_status t with
      | Running =>
          let* c := lift_res (typed ActivityKind child) in
          let* act := rd (get_activity c) in
          let output := match act with Some a => default VNull (ac_output a) | None => VNull end in
          append_command (CCompleteThread (mkCompleteThread thread output))
      | Completing => append_command (CContinueComplete (as_raw thread))
      | Terminating _ => append_command (CContinueTerminate (as_raw thread))
      | (Completed | Terminated _) as status =>
          rejected InvalidState
            ("thread_element: thread " +:+ ref_str thread +:+ " settled a completed child " +:+
             raw_str child +:+ " while " +:+ debug_status status)
      end
  end.

Definition thread_after_child_terminated (thread : ObjectRef ThreadKind) (child : RawObjectRef)
    : HP unit :=
  let* row := rd (get_thread thread) in
  match row with
  | None => thread_gone thread
  | Some t =>
      match th_status t with
      | Running =>
          let* c := lift_res (typed ActivityKind child) in
          let* act := rd (get_activity c) in
          match act with
          | Some a =>
              match ac_status a with
              | Terminated reason =>
                  append_command (CTerminateThread (mkTerminateThread thread reason))
              | _ => ret tt
              end
          | None => ret tt
          end
      | Completing => append_command (CContinueComplete (as_raw thread))
      | Terminating _ => append_command (CContinueTerminate (as_raw thread))
      | (Completed | Terminated _) as status =>
          rejected InvalidState
            ("thread_element: thread " +:+ ref_str thread +:+ " settled a terminated child " +:+
             raw_str child +:+ " while " +:+ debug_status status)
      end
  end.

(** ** [impl Container for ExecutionElementBehavior] *)

Definition execution_open (owner : ObjectRef ExecutionKind) : HP (ObjectRef ExecutionKind) :=
  let* row := rd (get_execution owner) in
  match row with
  | None =>
      rejected RNotFound ("execution_element: execution " +:+ ref_str owner +:+ " is gone")
  | Some _ => ret owner
  end.

Definition execution_gone {A} (execution : ObjectRef ExecutionKind) (what : string) : HP A :=
  rejected InvalidState
    ("execution_element: execution " +:+ ref_str execution +:+ " is gone from under its " +:+ what).

Definition execution_child_refused {A} (execution : ObjectRef ExecutionKind)
    (child : RawObjectRef) (status : Lifecycle) : HP A :=
  rejected InvalidState
    ("execution_element: execution " +:+ ref_str execution +:+ " settled a " +:+
     kind_str (raw_kind child) +:+ " child " +:+ raw_str child +:+ " while " +:+
     debug_status status).
Definition execution_completing_refused {A} (execution : ObjectRef ExecutionKind)
    (child : RawObjectRef) : HP A :=
  rejected InvalidState
    ("execution_element: execution " +:+ ref_str execution +:+
     " is completing with a settling root thread " +:+ raw_str child).

Definition execution_after_child_completed (execution : ObjectRef ExecutionKind)
    (child : RawObjectRef) : HP unit :=
  let* row := rd (get_execution execution) in
  match row with
  | None => execution_gone execution "settled child"
  | Some exec =>
      match raw_kind child, ex_status exec with
      | ThreadKind, Running =>
          let* c := lift_res (typed ThreadKind child) in
          let* thread := read_flat (get_thread c) in
          let output := match thread with Some t => default VNull (th_output t) | None => VNull end in
          append_command (CCompleteExecution (mkCompleteExecution execution output))
      | ThreadKind, Terminating _ => append_command (CContinueTerminate (as_raw execution))
      | ThreadKind, Completing => execution_completing_refused execution child
      | _, status => execution_child_refused execution child status
      end
  end.

Definition execution_after_child_terminated (execution : ObjectRef ExecutionKind)
    (child : RawObjectRef) : HP unit :=
  let* row := rd (get_execution execution) in
  match row with
  | None => execution_gone execution "settled child"
  | Some exec =>
      match raw_kind child, ex_status exec with
      | ThreadKind, Running =>
          let* c := lift_res (typed ThreadKind child) in
          let* thread := read_flat (get_thread c) in
          match match thread with Some t => termination_reason (th_status t) | None => None end with
          | None => ret tt
          | Some reason =>
              append_command (CTerminateExecution
                (mkTerminateExecution (ref_name execution) (Some (ref_uid execution)) reason))
          end
      | ThreadKind, Terminating _ => append_command (CContinueTerminate (as_raw execution))
      | ThreadKind, Completing => execution_completing_refused execution child
      | _, status => execution_child_refused execution child status
      end
  end.
End Containers.
