(* ===== verification/StateHandler.v ===== *)
(** The state-handler protocol ([crates/engine/src/elements/state_handler.rs]): the hooks
    of a state type and the shared activate / complete / terminate flows over them, with
    the settle steps the concrete states share ([elements/states/]). *)
From S2P Require Import Prelude Names Timestamp Json Asl Errors Meta Entities Tasks Commands.
From S2P Require Import Storage Applier Eval Handler Containers.
Local Open Scope string_scope.
Local Open Scope Z_scope.

(** [enum FailureRouting]. *)
Inductive FailureRouting := Caught | Uncaught.

Section StateHandler.
Context `{Engine} {T : Type} `{StorageTxn T}.
Notation HP := (M (HSt T) ProcessingError).
Notation HX := (M (HSt T) ExecutionError).

(** [trait StateHandler]: the hooks a state type provides. *)
Record StateHandler := mkStateHandler {
  initialize : Activity -> Activity;
  process_input : Activity -> Variables -> Value -> Timestamp ->
                  M EvalEnv ExecutionError (Value * Activity);
  after_activated : Activity -> Variables -> Value -> HX unit;
  complete_directly : bool;
  child_completed : ObjectRef ActivityKind -> Activity -> Variables -> RawObjectRef -> HP unit;
  after_completing : Activity -> Variables -> HP unit;
  after_terminating : Activity -> Variables -> HP unit;
  on_failed : Activity -> ExecutionError -> HP FailureRouting }.

(** The trait's default hooks. *)
Definition default_initialize (a : Activity) : Activity := a.
Definition default_process_input (a : Activity) (_ : Variables) (_ : Value) (_ : Timestamp)
    : M EvalEnv ExecutionError (Value * Activity) := ret (ac_raw_input a, a).
Definition default_after_activated (_ : Activity) (_ : Variables) (_ : Value) : HX unit := ret tt.
Definition default_child_completed (_ : ObjectRef ActivityKind) (_ : Activity) (_ : Variables)
    (_ : RawObjectRef) : HP unit := ret tt.
Definition default_on_failed (_ : Activity) (_ : ExecutionError) : HP FailureRouting :=
  ret Uncaught.

Definition owner_of (a : Activity) : ObjectRef ThreadKind := m_owner (ac_meta a).
Definition self_of (a : Activity) : ObjectRef ActivityKind := object_ref (ac_meta a).
Definition terminate_with {E} (a : ObjectRef ActivityKind) (error : ExecutionError)
    : M (HSt T) E unit :=
  append_command (CTerminateState (mkTerminateState a (Failed error))).

(** [eval_string_or_expr]. *)
Definition eval_string_or_expr (s : string) (states : Value) (vars : Variables)
    : M EvalEnv ExecutionError Value :=
  let* inner := lift_res (extract_jsonata s) in
  match inner with
  | Some inner => eval_expr inner states vars
  | None => ret (VString s)
  end.

(** [apply_assign]: returns the scope it updated. *)
Definition extend_scope (scope : Variables) (m : list (string * Value)) : Variables :=
  fold_left (fun s kv => <[kv.1 := kv.2]> s) m scope.
Definition apply_assign (owner : ObjectRef ThreadKind) (assign : option AssignObject)
    (states : Value) (scope : Variables) : HX Variables :=
  match assign with
  | None => ret scope
  | Some assign =>
      let* evaluated := on_env (eval_json (VObject assign) states scope) in
      match evaluated with
      | VObject [] => ret scope
      | VObject map =>
          let scope := extend_scope scope map in
          append_event (VariablesAssigned owner scope) ;;; ret scope
      | _ => throw (Runtime (InvalidDefinition "Assign must evaluate to a JSON object"))
      end
  end.

(** [project_output]. *)
Definition project_output (output : option Value) (states : Value) (scope : Variables)
    (fallback : Value) : HX Value :=
  match output with
  | Some output => on_env (eval_json output states scope)
  | None => ret fallback
  end.

(** ** The flows of the trait *)

(** [StateHandler::activate]. *)
Definition handler_activate (h : StateHandler) (cmd : ActivateState) (thread : Thread)
    : HP unit :=
  let* uid := mint in
  let* seq := mint_generated_seq in
  let* t0 := now in
  let name := generated_from_key (base (ref_name (as_execution cmd))) seq in
  let activity_value :=
    mkActivity (build_meta uid name t0 (as_owner cmd : OwnedBy ActivityKind)) (as_execution cmd)
      (as_state_path cmd) Running (as_input cmd) None None None None None in
  let activity : ObjectRef ActivityKind := mkRef name uid in
  let* variables := rd (get_variables (object_ref (th_meta thread))) in
  let sname := state_name (ac_state_path activity_value) in
  let activity_value := initialize h activity_value in
  append_event (StateActivating activity_value) ;;;
  let states :=
    states_build (States_new (ac_raw_input activity_value) sname (retry_count activity_value)) in
  let* t1 := now in
  let* processed :=
    attempt (on_env (process_input h activity_value variables states t1)) in
  match processed with
  | inl e => terminate_with activity e
  | inr (input, a) =>
      let* t2 := now in
      let a := mkActivity (with_update_at t2 (ac_meta a)) (ac_execution a) (ac_state_path a)
                 (ac_status a) (ac_raw_input a) (Some input) (ac_raw_output a)
                 (ac_activity_state a) (ac_retry_state a) (ac_output a) in
      append_event (StateActivated a) ;;;
      let* after := attempt (after_activated h a variables states) in
      match after with
      | inl e => terminate_with activity e
      | inr _ =>
          if complete_directly h
          then append_command (CCompleteState (mkCompleteState activity input))
          else ret tt
      end
  end.

(** [StateHandler::complete]. *)
Definition handler_complete (h : StateHandler) (cmd : CompleteState) (act : Activity)
    (thread : Thread) : HP unit :=
  let* t := now in
  match act_mark_completing act (cst_output cmd) t with
  | Err reason =>
      rejected InvalidState
        ("complete_state: activity " +:+ ref_str (self_of act) +:+
         " cannot begin completing: " +:+ reason)
  | Panic m => panic m
  | Ok activity_value =>
      append_event (StateCompleting activity_value) ;;;
      let* variables := rd (get_variables (object_ref (th_meta thread))) in
      after_completing h activity_value variables
  end.

(** [StateHandler::terminate]. *)
Definition handler_terminate (h : StateHandler) (cmd : TerminateState) (act : Activity)
    (thread : Thread) : HP unit :=
  let* routed :=
    match tst_reason cmd with
    | Failed error => on_failed h act error
    | _ => ret Uncaught
    end in
  match routed with
  | Caught => ret tt
  | Uncaught =>
      let* t := now in
      match act_mark_terminating act (tst_reason cmd) t with
      | Err e =>
          rejected InvalidState
            ("terminate_state: activity " +:+ ref_str (self_of act) +:+
             " cannot begin terminating: " +:+ e)
      | Panic m => panic m
      | Ok activity_value =>
          append_event (StateTerminating activity_value) ;;;
          let* variables := rd (get_variables (object_ref (th_meta thread))) in
          after_terminating h activity_value variables
      end
  end.

(** ** Settle steps the concrete states share *)

(** Close the activity as completed and hand over to the next state. *)
Definition settle_next (a : Activity) (next : StatePath) (output : Value) : HP unit :=
  let* completed := debug_assert_mark a (act_mark_completed a output) in
  append_event (StateCompleted completed) ;;;
  append_event (StateTransitioned (self_of a) next) ;;;
  append_command (CActivateState (mkActivateState (ac_execution a) (owner_of a) next output)).

(** Close the activity as completed and complete the owning thread. *)
Definition settle_end (a : Activity) (output : Value) : HP unit :=
  let* completed := debug_assert_mark a (act_mark_completed a output) in
  append_event (StateCompleted completed) ;;;
  append_command (CCompleteThread (mkCompleteThread (owner_of a) output)).

(** Fail a completing activity: terminate it and tell the owning thread. *)
Definition settle_failed (a : Activity) (reason : TerminationReason) : HP unit :=
  let* container := thread_open (owner_of a) in
  let* terminating := debug_assert_mark a (act_mark_terminating a reason) in
  append_event (StateTerminating terminating) ;;;
  let* terminated := debug_assert_mark terminating (act_mark_terminated terminating) in
  append_event (StateTerminated terminated) ;;;
  thread_after_child_terminated container (as_raw (self_of terminated)).

(** The [after_terminating] of a state with no live child. *)
Definition settle_terminated (a : Activity) : HP unit :=
  let* container := thread_open (owner_of a) in
  let* terminated := debug_assert_mark a (act_mark_terminated a) in
  append_event (StateTerminated terminated) ;;;
  thread_after_child_terminated container (as_raw (self_of terminated)).

(** [enum PassFinish], [WaitFinish], [TaskFinish]: the same three outcomes. *)
Inductive Finish :=
  | FNext (next : StatePath) (output : Value)
  | FEnd (output : Value)
  | FNoTerminal.

(** The choice between [End], [Next] and neither. *)
Definition finish_of (a : Activity) (end_ : option bool) (next : option string) (output : Value)
    : Finish :=
  match end_ with
  | Some true => FEnd output
  | _ =>
      match next with
      | Some next => FNext (sp_sibling (ac_state_path a) next) output
      | None => FNoTerminal
      end
  end.

(** The [after_completing] body of [Pass], [Wait] and [Task]. *)
Definition finish_completing (a : Activity) (process : HX Finish) : HP unit :=
  let* finish := attempt process in
  match finish with
  | inl error => terminate_with (self_of a) error
  | inr (FNext next output) => settle_next a next output
  | inr (FEnd output) => settle_end a output
  | inr FNoTerminal => settle_failed a (Failed (Runtime NoTerminal))
  end.

(** [process_pass], [process_wait], [process_task]. *)
Definition process_finish (a : Activity) (variables : Variables) (assign : option AssignObject)
    (output : option Value) (end_ : option bool) (next : option string) : HX Finish :=
  let result := default (ac_raw_input a) (ac_raw_output a) in
  let states :=
    states_build
      (with_assign_ctx
         (with_result
            (States_new (ac_raw_input a) (state_name (ac_state_path a)) (retry_count a))
            (Some result))
         (Some (ac_raw_input a))) in
  let* local_scope := apply_assign (owner_of a) assign states variables in
  let* output := project_output output states local_scope result in
  ret (finish_of a end_ next output).
End StateHandler.
