(* ===== verification/States.v ===== *)
(** The leaf states ([crates/engine/src/elements/states/]: [pass.rs], [succeed.rs],
    [fail.rs], [choice.rs], [wait.rs]) and [Task] ([task.rs]) as instances of the
    state-handler protocol. *)
From S2P Require Import Prelude Names Timestamp Float64 Json Asl Errors Meta Entities Tasks.
From S2P Require Import Commands Storage Applier Eval Handler Containers StateHandler.
Local Open Scope string_scope.
Local Open Scope Z_scope.

Section States.
Context `{Engine} {T : Type} `{StorageTxn T}.
Notation HP := (M (HSt T) ProcessingError).
Notation HX := (M (HSt T) ExecutionError).
Notation EV := (M EvalEnv ExecutionError).

Definition invalid {S A} (msg : string) : M S ExecutionError A :=
  throw (Runtime (InvalidDefinition msg)).

(** The context a settling state evaluates in: the raw input, and maybe a result. *)
Definition settle_states (a : Activity) (result error_output : option Value) : Value :=
  states_build
    (with_error_output
       (with_assign_ctx
          (with_result
             (States_new (ac_raw_input a) (state_name (ac_state_path a)) (retry_count a)) result)
          (Some (ac_raw_input a)))
       error_output).

(** ** Pass *)

(** [process_pass]. *)
Definition process_pass (st : PassState) (a : Activity) (vars : Variables) : HX Finish :=
  process_finish a vars (ps_assign st) (ps_output st) (ps_end st) (ps_next st).
Definition pass_handler (st : PassState) : StateHandler := {|
  initialize := default_initialize;
  process_input := default_process_input;
  after_activated := default_after_activated;
  complete_directly := true;
  child_completed := default_child_completed;
  after_completing a vars :=
    finish_completing a (process_pass st a vars);
  after_terminating a _ := settle_terminated a;
  on_failed := default_on_failed |}.

(** ** Succeed *)
Definition process_succeed (st : SucceedState) (a : Activity) (vars : Variables) : HX Value :=
  let result := default (ac_raw_input a) (ac_raw_output a) in
  project_output (ss_output st) (settle_states a (Some result) None) vars result.
Definition succeed_handler (st : SucceedState) : StateHandler := {|
  initialize := default_initialize;
  process_input := default_process_input;
  after_activated := default_after_activated;
  complete_directly := true;
  child_completed := default_child_completed;
  after_completing a vars :=
    let* r := attempt (process_succeed st a vars) in
    match r with
    | inl error => terminate_with (self_of a) error
    | inr output =>
        let* container := thread_open (owner_of a) in
        let* completed := debug_assert_mark a (act_mark_completed a output) in
        append_event (StateCompleted completed) ;;;
        thread_after_child_completed container (as_raw (self_of completed))
    end;
  after_terminating a _ := settle_terminated a;
  on_failed := default_on_failed |}.

(** ** Fail *)
Definition fail_reason (st : FailState) (a : Activity) (states : Value) (vars : Variables)
    : EV TerminationReason :=
  let* with_error :=
    match fs_error st with
    | Some error =>
        let* value := eval_string_or_expr error states vars in
        ret (match value with VString s => s | _ => "States.Fail" end, [("Error", value)])
    | None => ret ("States.Fail", [])
    end in
  let* err_out :=
    match fs_cause st with
    | Some cause =>
        let* value := eval_string_or_expr cause states vars in
        ret (obj_insert with_error.2 "Cause" value)
    | None => ret with_error.2
    end in
  ret (Failed (Runtime (StateFailed (state_name (ac_state_path a)) with_error.1
                          (VObject err_out)))).
Definition process_fail (st : FailState) (a : Activity) (vars : Variables) : EV TerminationReason :=
  fail_reason st a (settle_states a None None) vars.
Definition fail_handler (st : FailState) : StateHandler := {|
  initialize := default_initialize;
  process_input := default_process_input;
  after_activated := default_after_activated;
  complete_directly := true;
  child_completed := default_child_completed;
  after_completing a vars :=
    let* r := attempt (on_env (process_fail st a vars)) in
    match r with
    | inl error => terminate_with (self_of a) error
    | inr reason => settle_failed a reason
    end;
  after_terminating a _ := settle_terminated a;
  on_failed := default_on_failed |}.

(** ** Choice *)
Definition condition_holds (c : option ChoiceCondition) (states : Value) (vars : Variables)
    : EV bool :=
  match c with
  | Some (CBool b) => ret b
  | Some (CExpr expr) =>
      let* inner := lift_res (extract_jsonata (jx_str expr)) in
      match inner with
      | None => invalid "Choice Condition must be a {% %} JSONata expression"
      | Some inner =>
          let* value := eval_expr inner states vars in
          match value with
          | VBool b => ret b
          | _ => throw (Runtime (Jsonata (jx_str expr) "Condition must evaluate to a boolean"))
          end
      end
  | None => ret false
  end.
Fixpoint first_match (rules : list ChoiceRule) (states : Value) (vars : Variables)
    : EV (option ChoiceRule) :=
  match rules with
  | [] => ret None
  | rule :: rules' =>
      let* is_match := condition_holds (cr_condition rule) states vars in
      if (is_match : bool) then ret (Some rule) else first_match rules' states vars
  end.
Definition resolve_choice (st : ChoiceState) (states : Value) (vars : Variables)
    (sname : string) : EV (option AssignObject * option Value * string) :=
  let* matched := first_match (cs_choices st) states vars in
  match matched with
  | Some rule => ret (cr_assign rule, cr_output rule, cr_next rule)
  | None =>
      match cs_default st with
      | Some d => ret (None, None, d)
      | None => throw (Runtime (NoChoiceMatched sname))
      end
  end.
Definition process_choice (st : ChoiceState) (a : Activity) (vars : Variables)
    : HX (StatePath * Value) :=
  let states := settle_states a None None in
  let* picked := on_env (resolve_choice st states vars (state_name (ac_state_path a))) in
  let '(rule_assign, rule_output, rule_next) := picked in
  let assign := match rule_assign with Some x => Some x | None => cs_assign st end in
  let output_src := match rule_output with Some x => Some x | None => cs_output st end in
  let* local_scope := apply_assign (owner_of a) assign states vars in
  let* output := project_output output_src states local_scope (ac_raw_input a) in
  ret (sp_sibling (ac_state_path a) rule_next, output).
Definition choice_handler (st : ChoiceState) : StateHandler := {|
  initialize := default_initialize;
  process_input := default_process_input;
  after_activated := default_after_activated;
  complete_directly := true;
  child_completed := default_child_completed;
  after_completing a vars :=
    let* r := attempt (process_choice st a vars) in
    match r with
    | inl error => terminate_with (self_of a) error
    | inr (next, output) => settle_next a next output
    end;
  after_terminating a _ := settle_terminated a;
  on_failed := default_on_failed |}.

(** ** Wait *)
Definition MAX_WAIT_SECONDS : Z := 99999999.
Definition integral_i64 (v : Value) : option Z :=
  match v with
  | VNumber num =>
      match as_f64_num num with
      | Some f => if f64_fract_is_zero f && f64_is_finite f then Some (f64_as_i64 f) else None
      | None => None
      end
  | _ => None
  end.
Definition deadline_in (now_ : Timestamp) (secs : Z) (overflow : string) : EV Timestamp :=
  lift_res (ok_or (Runtime (InvalidDefinition overflow)) (checked_add now_ (from_secs secs))).
Definition resolve_wait_deadline (st : WaitState) (vars : Variables) (states : Value)
    (now_ : Timestamp) : EV Timestamp :=
  match ws_seconds st, ws_timestamp st with
  | Some (IInt n), None =>
      if decide (0 <= n <= MAX_WAIT_SECONDS)
      then deadline_in now_ (as_u64 n) "Wait Seconds overflows the absolute deadline"
      else invalid "Wait Seconds must be an integer in the range 0..99999999"
  | Some (IExpr expr), None =>
      let* value := eval_string_or_expr (jx_str expr) states vars in
      match integral_i64 value with
      | None => invalid "Wait Seconds expression must evaluate to an integer"
      | Some n =>
          if decide (0 <= n <= MAX_WAIT_SECONDS)
          then deadline_in now_ (as_u64 n) "Wait Seconds overflows the absolute deadline"
          else invalid "Wait Seconds expression must evaluate to an integer in the range 0..99999999"
      end
  | None, Some (WLiteral s) =>
      lift_res (ok_or (Runtime (InvalidDefinition
        ("Wait Timestamp is not a valid RFC3339 timestamp: " +:+ s))) (from_rfc3339 s))
  | None, Some (WExpr expr) =>
      let* value := eval_string_or_expr (jx_str expr) states vars in
      match value with
      | VString s =>
          lift_res (ok_or (Runtime (InvalidDefinition
            ("Wait Timestamp expression must evaluate to a valid RFC3339 timestamp: " +:+ s)))
            (from_rfc3339 s))
      | _ => invalid "Wait Timestamp expression must evaluate to a string"
      end
  | _, _ => panic "Wait state must specify exactly one of Seconds or Timestamp"
  end.
Definition act_with_state (a : Activity) (s : ActivityState) : Activity :=
  mkActivity (ac_meta a) (ac_execution a) (ac_state_path a) (ac_status a) (ac_raw_input a)
    (ac_input a) (ac_raw_output a) (Some s) (ac_retry_state a) (ac_output a).
(** [process_wait]. *)
Definition process_wait (st : WaitState) (a : Activity) (vars : Variables) : HX Finish :=
  process_finish a vars (ws_assign st) (ws_output st) (ws_end st) (ws_next st).
Definition wait_handler (st : WaitState) : StateHandler := {|
  initialize := default_initialize;
  process_input a vars states now_ :=
    let* resume_at := resolve_wait_deadline st vars states now_ in
    ret (ac_raw_input a, act_with_state a (ASWait (mkWaitActivity resume_at)));
  after_activated := default_after_activated;
  complete_directly := false;
  child_completed := default_child_completed;
  after_completing a vars :=
    finish_completing a (process_wait st a vars);
  after_terminating a _ := settle_terminated a;
  on_failed := default_on_failed |}.
End States.
