(* ===== verification/TaskState.v ===== *)
(** The [Task] state ([crates/engine/src/elements/states/task.rs]): it issues a task
    invocation with its resolved retry plan and deadline, completes on the invocation's
    settlement, and routes failures through [Catch]. *)
From S2P Require Import Prelude Names Timestamp Float64 Json Asl Errors Meta Entities Tasks.
From S2P Require Import Commands Storage Applier Eval Handler Containers StateHandler States.
Local Open Scope string_scope.
Local Open Scope Z_scope.

Section TaskState.
Context `{Engine} {T : Type} `{StorageTxn T}.
Notation HP := (M (HSt T) ProcessingError).
Notation HX := (M (HSt T) ExecutionError).
Notation EV := (M EvalEnv ExecutionError).

(** The non-negative unit-fraction test of [TimeoutSeconds] and [MaxConcurrency]. *)
Definition nonneg_integral (v : Value) : option f64 :=
  match v with
  | VNumber num =>
      match as_f64_num num with
      | Some f =>
          if f64_fract_is_zero f && f64_is_finite f && f64_le f64_zero f then Some f else None
      | None => None
      end
  | _ => None
  end.

(** [resolve_task_deadline]. *)
Definition resolve_task_deadline (vars : Variables) (states : Value)
    (timeout : option IntOrExpr) (now_ : Timestamp) : EV (option Timestamp) :=
  match timeout with
  | None => ret None
  | Some timeout =>
      let* seconds :=
        match timeout with
        | IInt n => ret (if decide (0 < n) then Some n else None)
        | IExpr expr =>
            let* value := eval_string_or_expr (jx_str expr) states vars in
            ret (option_map f64_as_i64 (nonneg_integral value))
        end in
      match seconds with
      | Some s =>
          if decide (0 < s) then
            let* d := deadline_in now_ (as_u64 s)
                        "Task TimeoutSeconds overflows the absolute deadline" in
            ret (Some d)
          else invalid "Task TimeoutSeconds must be a positive integer"
      | None => invalid "Task TimeoutSeconds must be a positive integer"
      end
  end.

(** [after_activated]: the invocation is issued even when its deadline is invalid. *)
Definition task_after_activated (st : TaskState) (a : Activity) (vars : Variables)
    (states : Value) : HX unit :=
  let retry_plan := map resolve (default [] (ts_retry st)) in
  let* t := now in
  let* resolved := attempt (on_env (resolve_task_deadline vars states (ts_timeout_seconds st) t)) in
  let deadline := match resolved with inr d => d | inl _ => None end in
  let* task_uid := mint in
  let* seq := mint_generated_seq in
  let task_name := generated_from_key (base (ref_name (ac_execution a))) seq in
  append_command (CActivateTask (mkActivateTask (ac_execution a) (self_of a)
    (mkRef task_name task_uid) (ts_resource st) (default VNull (ac_input a)) retry_plan deadline)) ;;;
  match resolved with inl e => throw e | inr _ => ret tt end.

(** [child_completed]. *)
Definition task_child_completed (activity : ObjectRef ActivityKind) (a : Activity)
    (_ : Variables) (child : RawObjectRef) : HP unit :=
  if decide (raw_kind child = TaskKind) then
    append_command (CCompleteState (mkCompleteState activity (default VNull (ac_raw_output a))))
  else ret tt.

(** The loop that cancels the task children among [children]. *)
Definition cancel_tasks (children : list RawObjectRef) : HP unit :=
  forM_ children (fun child =>
    if decide (raw_kind child = TaskKind) then
      let* t := lift_res (typed TaskKind child) in append_command (CCancelTask t)
    else ret tt).
Definition task_children (children : gset RawObjectRef) : list RawObjectRef :=
  filter (fun c => raw_kind c = TaskKind) (set_iter children).

(** [after_terminating]. *)
Definition task_after_terminating (a : Activity) (_ : Variables) : HP unit :=
  let* children := read_ok (get_children (as_raw (self_of a))) in
  let children := match children with Some c => c | None => ∅ end in
  cancel_tasks (set_iter children) ;;;
  match task_children children with
  | [] => settle_terminated a
  | _ => ret tt
  end.

(** The row [on_failed] closes the activity with. *)
Definition caught_row (a : Activity) (output : Value) (at_ : Timestamp) : Activity :=
  act_advance a Completed
    (match ac_raw_output a with Some v => Some v | None => Some (ac_raw_input a) end)
    (Some output) at_.

(** The evaluation of a catcher's [Assign]: the new scope, or the error to fail with. *)
Definition catch_assign (catcher : Catcher) (owner : ObjectRef ThreadKind) (states : Value)
    (scope : Variables) : HX Variables := apply_assign owner (ca_assign catcher) states scope.

(** [on_failed]. *)
Definition task_on_failed (st : TaskState) (a : Activity) (error : ExecutionError)
    : HP FailureRouting :=
  match List.find (fun c => matches_error_names error (ca_error_equals c)) (default [] (ts_catch st)) with
  | None => ret Uncaught
  | Some catcher =>
      let owner := owner_of a in
      let* thread := read_flat (get_thread owner) in
      match thread with
      | None => ret Uncaught
      | Some _ =>
          let activity := self_of a in
          let error_output := default VNull (error_output error) in
          let raw_result := default (ac_raw_input a) (ac_raw_output a) in
          let states := settle_states a (Some raw_result) (Some error_output) in
          let* scope := read_ok (get_variables owner) in
          let local_scope := default ∅ scope in
          let* assigned := attempt (catch_assign catcher owner states local_scope) in
          match assigned with
          | inl e => terminate_with activity e ;;; ret Caught
          | inr local_scope =>
              let* projected :=
                attempt (match ca_output catcher with
                         | Some o => on_env (eval_json o states local_scope)
                         | None => ret raw_result
                         end) in
              match projected with
              | inl e => terminate_with activity e ;;; ret Caught
              | inr output_value =>
                  let* children := read_ok (get_children (as_raw activity)) in
                  cancel_tasks (set_iter (default ∅ children)) ;;;
                  let* t := now in
                  append_event (StateCompleted (caught_row a output_value t)) ;;;
                  let next_path := sp_sibling (ac_state_path a) (ca_next catcher) in
                  append_event (StateTransitioned activity next_path) ;;;
                  append_command (CActivateState
                    (mkActivateState (ac_execution a) owner next_path output_value)) ;;;
                  ret Caught
              end
          end
      end
  end.

(** [process_task], [after_completing]. *)
Definition process_task (st : TaskState) (a : Activity) (vars : Variables) : HX Finish :=
  process_finish a vars (ts_assign st) (ts_output st) (ts_end st) (ts_next st).
Definition task_after_completing (st : TaskState) (a : Activity) (vars : Variables) : HP unit :=
  finish_completing a (process_task st a vars).
Definition task_handler (st : TaskState) : StateHandler := {|
  initialize := default_initialize;
  process_input a vars states _ :=
    match ts_arguments st with
    | Some arguments => let* v := eval_json arguments states vars in ret (v, a)
    | None => ret (ac_raw_input a, a)
    end;
  after_activated := task_after_activated st;
  complete_directly := false;
  child_completed := task_child_completed;
  after_completing := task_after_completing st;
  after_terminating := task_after_terminating;
  on_failed := task_on_failed st |}.
End TaskState.
