(* ===== verification/FanOut.v ===== *)
(** The container states ([crates/engine/src/elements/states/]: [parallel.rs], [map.rs]):
    fan-out of branches and items as threads, convergence of their outputs in index order,
    and [Map]'s concurrency-limited replenishing. *)
From S2P Require Import Prelude Names Timestamp Float64 Json Asl Errors Meta Entities Tasks.
From S2P Require Import Commands Storage Applier Eval Handler Containers StateHandler States.
From S2P Require Import TaskState.
Local Open Scope string_scope.
Local Open Scope Z_scope.

(** [entries.sort_by_key(|(i, _)| *i)]. *)
Definition index_le (a b : Z * ObjectRef ThreadKind) : Prop := a.1 <= b.1.
#[export] Instance index_le_dec a b : Decision (index_le a b).
Proof. unfold index_le. apply _. Defined.
Definition sort_by_index (l : list (Z * ObjectRef ThreadKind)) : list (Z * ObjectRef ThreadKind) :=
  merge_sort index_le l.

Section FanOut.
Context `{Engine} {T : Type} `{StorageTxn T}.
Notation HP := (M (HSt T) ProcessingError).
Notation HX := (M (HSt T) ExecutionError).
Notation EV := (M EvalEnv ExecutionError).

(** ** Shared by both containers *)

(** [after_completing]; [who] names the state in the messages. *)
Definition container_after_completing (who : string) (assign : option AssignObject)
    (output : option Value) (end_ : option bool) (next : option string)
    (a : Activity) (vars : Variables) : HP unit :=
  let activity := self_of a in
  let* row := rd (get_activity activity) in
  match row with
  | None => rejected RNotFound (who +:+ "_state: activity " +:+ ref_str activity +:+ " not found")
  | Some _ =>
      let* children := rd (get_children (as_raw activity)) in
      if decide (children = ∅) then
        let aggregated := default (VArray []) (ac_raw_output a) in
        let states := settle_states a (Some aggregated) None in
        let* assigned := attempt (apply_assign (owner_of a) assign states vars) in
        match assigned with
        | inl e => terminate_with activity e
        | inr local_scope =>
            let* projected := attempt (project_output output states local_scope aggregated) in
            match projected with
            | inl e => terminate_with activity e
            | inr output_value =>
                let* completed := debug_assert_mark a (act_mark_completed a output_value) in
                append_event (StateCompleted completed) ;;;
                match end_, next with
                | Some true, _ =>
                    append_command (CCompleteThread (mkCompleteThread (owner_of a) output_value))
                | _, Some next =>
                    let next_path := sp_sibling (ac_state_path a) next in
                    append_event (StateTransitioned activity next_path) ;;;
                    append_command (CActivateState
                      (mkActivateState (ac_execution a) (owner_of a) next_path output_value))
                | _, None => panic (who +:+ " state declares neither Next nor End")
                end
            end
        end
      else
        rejected InvalidState
          (who +:+ "_state: activity " +:+ ref_str activity +:+ " is completing with " +:+
           u64_to_string (Z.of_nat (size children)) +:+ " live children")
  end.

(** [after_terminating]: settle when no child is left, else cancel the threads. *)
Definition container_after_terminating (who : string) (a : Activity) (_ : Variables) : HP unit :=
  let activity := self_of a in
  let* row := rd (get_activity activity) in
  match row with
  | None => rejected RNotFound (who +:+ "_state: activity " +:+ ref_str activity +:+ " not found")
  | Some _ =>
      let* children := rd (get_children (as_raw activity)) in
      if decide (children = ∅) then settle_terminated a
      else
        forM_ (set_iter children) (fun child =>
          if decide (raw_kind child = ThreadKind) then
            let* t := lift_res (typed ThreadKind child) in
            append_command (CTerminateThread (mkTerminateThread t Cancelled))
          else ret tt)
  end.

(** [fail_parallel]; [fail_map] is the same. *)
Definition fail_container (a : Activity) (reason : TerminationReason) : HP unit :=
  append_command (CTerminateState (mkTerminateState (self_of a) reason)).

(** ** Parallel *)

(** The fan-out loop over the branches. *)
Fixpoint spawn_branches (a : Activity) (branches : list Branch) (index : Z) : HX unit :=
  match branches with
  | [] => ret tt
  | b :: branches' =>
      append_command (CSpawnThread (mkSpawnThread (self_of a) (ac_execution a)
        (Some (sp_branch (ac_state_path a) index)) index (br_start_at b)
        (default VNull (ac_input a)))) ;;;
      spawn_branches a branches' (index + 1)
  end.
Definition parallel_after_activated (st : ParallelState) (a : Activity) (_ : Variables)
    (_ : Value) : HX unit :=
  match pl_branches st with
  | [] => append_command (CCompleteState (mkCompleteState (self_of a) (VArray [])))
  | branches => spawn_branches a branches 0
  end.

(** The scan of the branches in index order: [inl] is the reason to fail with. *)
Fixpoint collect_branches (entries : list (Z * ObjectRef ThreadKind))
    : HP (TerminationReason + list Thread) :=
  match entries with
  | [] => ret (inr [])
  | (_, r) :: entries' =>
      let* row := read_flat (get_thread r) in
      match row with
      | None => ret (inl (Failed (Runtime (StateNotFound ("branch " +:+ ref_str r)))))
      | Some child =>
          match termination_reason (th_status child) with
          | Some reason => ret (inl reason)
          | None =>
              let* rest := collect_branches entries' in
              ret (match rest with inl r => inl r | inr l => inr (child :: l) end)
          end
      end
  end.
(** The outputs of branches that all settled; [None] when one has not. *)
Fixpoint branch_outputs (branches : list Thread) : option (list Value) :=
  match branches with
  | [] => Some []
  | child :: branches' =>
      if is_terminal (th_status child) then
        match branch_outputs branches' with
        | Some l => Some (default VNull (th_output child) :: l)
        | None => None
        end
      else None
  end.

Definition parallel_child_completed (activity : ObjectRef ActivityKind) (a : Activity)
    (_ : Variables) (_ : RawObjectRef) : HP unit :=
  let* row := read_flat (get_activity activity) in
  match row with
  | None => ret tt
  | Some act =>
      match ac_activity_state act with
      | Some (ASParallel progress) =>
          let entries := sort_by_index (index_iter (pa_branches progress)) in
          let* collected := collect_branches entries in
          match collected with
          | inl reason => fail_container a reason
          | inr branches =>
              let* children := read_ok (get_children (as_raw (self_of a))) in
              match children with
              | None => ret tt
              | Some children =>
                  if decide (children = ∅) then
                    match branch_outputs branches with
                    | Some outputs =>
                        append_command (CCompleteState (mkCompleteState activity (VArray outputs)))
                    | None => fail_container a Cancelled
                    end
                  else ret tt
              end
          end
      | _ => ret tt
      end
  end.

Definition parallel_handler (st : ParallelState) : StateHandler := {|
  initialize a := act_with_state a (ASParallel (mkParallelActivity ∅));
  process_input a vars states _ :=
    match pl_arguments st with
    | Some arguments => let* v := eval_json arguments states vars in ret (v, a)
    | None => ret (ac_raw_input a, a)
    end;
  after_activated := parallel_after_activated st;
  complete_directly := false;
  child_completed := parallel_child_completed;
  after_completing :=
    container_after_completing "parallel" (pl_assign st) (pl_output st) (pl_end st) (pl_next st);
  after_terminating := container_after_terminating "parallel";
  on_failed := default_on_failed |}.

(** ** Map *)

(** [resolve_map_items], [resolve_max_concurrency]. *)
Definition resolve_map_items (st : MapState) (a : Activity) (vars : Variables) (states : Value)
    : EV (list Value) :=
  let sname := state_name (ac_state_path a) in
  match ms_items st with
  | Some (MArray arr) => ret arr
  | Some (MExpr expr) =>
      let* evaluated := eval_string_or_expr (jx_str expr) states vars in
      match evaluated with
      | VArray arr => ret arr
      | _ => invalid ("Map '" +:+ sname +:+ "' Items expression did not evaluate to an array")
      end
  | None =>
      match ac_raw_input a with
      | VArray arr => ret arr
      | _ => invalid ("Map '" +:+ sname +:+ "' has no Items and its input is not an array")
      end
  end.
Definition resolve_max_concurrency (st : MapState) (vars : Variables) (states : Value) : EV Z :=
  match max_concurrency st with
  | IInt n =>
      if decide (0 <= n) then ret (as_u64 n)
      else invalid "Map MaxConcurrency must be a non-negative integer"
  | IExpr expr =>
      let* evaluated := eval_string_or_expr (jx_str expr) states vars in
      match nonneg_integral evaluated with
      | Some f => ret (f64_as_usize f)
      | None => invalid "Map MaxConcurrency expression must evaluate to a non-negative integer"
      end
  end.

(** [for k in 0..n] of [SpawnThread] commands from [first] on. *)
Definition item_start_at (st : MapState) : string :=
  match ms_item_processor st with Some p => ip_start_at p | None => "" end.
Fixpoint spawn_items {E} (st : MapState) (owner : ObjectRef ActivityKind) (a : Activity)
    (items : list Value) (first : Z) (n : nat) : M (HSt T) E unit :=
  match n with
  | O => ret tt
  | S n' =>
      append_command (CSpawnThread (mkSpawnThread owner (ac_execution a)
        (Some (sp_item_processor (ac_state_path a))) first (item_start_at st)
        (default VNull (vec_get items first)))) ;;;
      spawn_items st owner a items (first + 1) n'
  end.

(** The size of the first batch, and of the capacity later. *)
Definition initial_batch (p : MapActivityState) : Z :=
  if decide (ma_max_concurrency p = 0) then ma_total p
  else Z.min (ma_max_concurrency p) (ma_total p).
Definition capacity (p : MapActivityState) : Z :=
  if decide (ma_max_concurrency p = 0) then ma_total p else ma_max_concurrency p.

Definition map_after_activated (st : MapState) (a : Activity) (_ : Variables) (_ : Value)
    : HX unit :=
  match ac_activity_state a with
  | Some (ASMap progress) =>
      spawn_items st (self_of a) a (ma_items progress) 0 (Z.to_nat (initial_batch progress)) ;;;
      if decide (ma_total progress = 0)
      then append_command (CCompleteState (mkCompleteState (self_of a) (VArray [])))
      else ret tt
  | _ => ret tt
  end.

(** [c.is_terminal() && c.status.termination_reason().is_none()]. *)
Definition item_succeeded (t : option Thread) : bool :=
  match t with
  | Some c =>
      is_terminal (th_status c) &&
      match termination_reason (th_status c) with None => true | Some _ => false end
  | None => false
  end.
(** The count of settled items, and their outputs in the given order. *)
Fixpoint count_done (entries : list (Z * ObjectRef ThreadKind)) : HP Z :=
  match entries with
  | [] => ret 0
  | (_, r) :: entries' =>
      let* row := read_flat (get_thread r) in
      let* n := count_done entries' in
      ret (if item_succeeded row then n + 1 else n)
  end.
Fixpoint item_outputs (entries : list (Z * ObjectRef ThreadKind)) : HP (list Value) :=
  match entries with
  | [] => ret []
  | (_, r) :: entries' =>
      let* row := read_flat (get_thread r) in
      let* rest := item_outputs entries' in
      ret (match row with Some c => default VNull (th_output c) | None => VNull end :: rest)
  end.

(** [child_completed]: fail, converge, or replenish the free slots. *)
Definition map_child_completed (st : MapState) (activity : ObjectRef ActivityKind)
    (a : Activity) (_ : Variables) (child : RawObjectRef) : HP unit :=
  let* row := read_flat (get_activity activity) in
  match row with
  | None => ret tt
  | Some act =>
      match ac_activity_state act with
      | Some (ASMap progress) =>
          let entries := index_iter (ma_children progress) in
          match List.find (fun e => bool_decide (as_raw e.2 = child)) entries with
          | None => ret tt
          | Some (_, child_exec) =>
              let* settled := read_flat (get_thread child_exec) in
              if item_succeeded settled then
                let spawn_count := Z.of_nat (size (ma_children progress)) in
                let* completed_now := count_done entries in
                if decide (completed_now = ma_total progress) then
                  let* outputs := item_outputs (sort_by_index entries) in
                  append_command (CCompleteState (mkCompleteState activity (VArray outputs)))
                else
                  let in_flight := spawn_count - completed_now in
                  let free_slots := u64_saturating_sub (capacity progress) in_flight in
                  let to_spawn := Z.min free_slots (ma_total progress - spawn_count) in
                  spawn_items st activity a (ma_items progress) spawn_count (Z.to_nat to_spawn)
              else
                fail_container a
                  (Failed (Runtime (StateFailed (state_name (ac_state_path a))
                                      "Map item failed" VNull)))
          end
      | _ => ret tt
      end
  end.

(** [after_completing], [after_terminating]. *)
Definition map_after_completing (st : MapState) : Activity -> Variables -> HP unit :=
  container_after_completing "map" (ms_assign st) (ms_output st) (ms_end st) (ms_next st).
Definition map_after_terminating : Activity -> Variables -> HP unit :=
  container_after_terminating "map".
Definition map_handler (st : MapState) : StateHandler := {|
  initialize a := act_with_state a (ASMap (mkMapActivity [] 0 0 ∅));
  process_input a vars states _ :=
    let* items := resolve_map_items st a vars states in
    let* max_concurrency := resolve_max_concurrency st vars states in
    ret (ac_raw_input a,
         act_with_state a (ASMap (mkMapActivity items (Z.of_nat (length items)) max_concurrency ∅)));
  after_activated := map_after_activated st;
  complete_directly := false;
  child_completed := map_child_completed st;
  after_completing := map_after_completing st;
  after_terminating := map_after_terminating;
  on_failed := default_on_failed |}.

(** ** The registry *)

(** [build_state_handlers] and [StateHandlerRegistry::create]: one handler per variant. *)
Definition create (st : State) : StateHandler :=
  match st with
  | Pass s => pass_handler s
  | Choice s => choice_handler s
  | Succeed s => succeed_handler s
  | Fail_ s => fail_handler s
  | Wait s => wait_handler s
  | Task_ s => task_handler s
  | Parallel s => parallel_handler s
  | Map_ s => map_handler s
  end.
End FanOut.
