(* ===== verification/ActivityElement.v ===== *)
(** The activity element ([crates/engine/src/elements/activity.rs]) and the state commands
    of [crates/engine/src/handlers/] ([activate_state.rs], [complete_state.rs],
    [terminate_state.rs]): resolving an activity's state and driving its handler. *)
From S2P Require Import Prelude Names Timestamp Json Asl Errors Meta Entities Tasks Commands.
From S2P Require Import Storage Applier Eval Handler Containers StateHandler States TaskState.
From S2P Require Import FanOut.
Local Open Scope string_scope.
Local Open Scope Z_scope.

Section ActivityElement.
Context `{Engine} {T : Type} `{StorageTxn T}.
Notation HP := (M (HSt T) ProcessingError).

(** [match ctx.machine_for_thread(..)]: an infrastructure error is unexpected, any other
    is a rejection whose text starts with [what]. *)
Definition machine_or_reject (what : string) (thread : Thread) : HP StateMachine :=
  let* r := attempt (machine_for_thread thread) in
  match r with
  | inr sm => ret sm
  | inl (Infra e) => throw (Unexpected (Infra e))
  | inl e => rejected RNotFound (what +:+ execution_error_str e)
  end.
Definition state_path_error_str (e : StatePathError) : string :=
  match e with Malformed m | NotFound m => m end.
Definition state_or_reject (what : string) (sm : StateMachine) (path : StatePath) : HP State :=
  match state_at sm path with
  | Ok st => ret st
  | Err e => rejected RNotFound (what +:+ state_path_error_str e)
  | Panic m => panic m
  end.

(** [ActivityElementBehavior::open]. *)
Definition activity_open (owner : ObjectRef ActivityKind) : HP (ObjectRef ActivityKind) :=
  let* row := rd (get_activity owner) in
  match row with
  | None => rejected RNotFound ("activity_element: activity " +:+ ref_str owner +:+ " is gone")
  | Some _ => ret owner
  end.

(** [ActivityElementBehavior::state_of]. *)
Definition state_of (self : ObjectRef ActivityKind) (act : Activity) : HP (Thread * State) :=
  let owner := owner_of act in
  let* row := rd (get_thread owner) in
  match row with
  | None =>
      rejected RNotFound ("activity_element: owning thread " +:+ ref_str owner +:+
        " of activity " +:+ ref_str self +:+ " does not exist")
  | Some thread =>
      let* machine := machine_or_reject
        ("activity_element: thread " +:+ ref_str owner +:+ " cannot resolve its machine: ") thread in
      let* st := state_or_reject
        ("activity_element: state " +:+ debug_state_path (ac_state_path act) +:+
         " is not defined by the machine that thread " +:+ ref_str owner +:+ " binds to: ")
        machine (ac_state_path act) in
      ret (thread, st)
  end.

(** [ActivityElementBehavior::hand_to_state]. *)
Definition hand_to_state (self : ObjectRef ActivityKind) (act : Activity) (thread : Thread)
    (state_def : State) (child : RawObjectRef) : HP unit :=
  let* variables := rd (get_variables (object_ref (th_meta thread))) in
  child_completed (create state_def) self act variables child.

(** [ActivityElementBehavior::settle_child]. *)
Definition settle_child (self : ObjectRef ActivityKind) (act : Activity) (thread : Thread)
    (state_def : State) (child : RawObjectRef) : HP unit :=
  match match state_def with
        | Task_ _ => Some TaskKind
        | Parallel _ | Map_ _ => Some ThreadKind
        | _ => None
        end with
  | None => panic "settle_child is reached only for states that own children"
  | Some expected =>
      if decide (raw_kind child = expected) then
        match ac_status act with
        | Running => hand_to_state self act thread state_def child
        | Completing => append_command (CContinueComplete (as_raw self))
        | Terminating _ => append_command (CContinueTerminate (as_raw self))
        | Completed | Terminated _ => ret tt
        end
      else
        rejected InvalidState
          ("activity_element: activity " +:+ ref_str self +:+ " settled a " +:+
           kind_str (raw_kind child) +:+ " child " +:+ raw_str child +:+ " while " +:+
           phase (ac_status act) +:+ "; a state is settled only by the children it owns")
  end.

(** [after_child_completed]; [after_child_terminated] is the same. *)
Definition activity_after_child_completed (self : ObjectRef ActivityKind) (child : RawObjectRef)
    : HP unit :=
  let* row := rd (get_activity self) in
  match row with
  | None =>
      rejected InvalidState ("activity_element: activity " +:+ ref_str self +:+
        " is gone from under its settled child")
  | Some act =>
      let* resolved := state_of self act in
      let '(thread, state_def) := resolved in
      match state_def with
      | Task_ _ | Parallel _ | Map_ _ => settle_child self act thread state_def child
      | _ =>
          rejected InvalidState
            ("activity_element: activity " +:+ ref_str self +:+ " settled a child " +:+
             raw_str child +:+ ", but state " +:+ debug_state_path (ac_state_path act) +:+
             " owns no children")
      end
  end.
Definition activity_after_child_terminated (self : ObjectRef ActivityKind)
    (child : RawObjectRef) : HP unit := activity_after_child_completed self child.

(** [ActivityElementBehavior::on_deadline_fired]. *)
Definition activity_on_deadline_fired (self : ObjectRef ActivityKind) (deadline : Timestamp)
    : HP unit :=
  let* row := rd (get_activity self) in
  match row with
  | None =>
      rejected InvalidState ("activity_element: activity " +:+ ref_str self +:+
        " is gone from under its deadline")
  | Some act =>
      match ac_status act with
      | Running =>
          let* resolved := state_of self act in
          match resolved.2 with
          | Wait _ =>
              append_command (CCompleteState (mkCompleteState self (default VNull (ac_input act))))
          | Task_ _ =>
              match ac_raw_output act with
              | Some _ =>
                  rejected InvalidState
                    ("activity_element: activity " +:+ ref_str self +:+ " fired a deadline at " +:+
                     u64_to_string (as_millis deadline) +:+ " after its task settled")
              | None =>
                  append_command (CTerminateState (mkTerminateState self
                    (Failed (Runtime (TimedOutError
                       ("task ran past its TimeoutSeconds deadline (" +:+
                        u64_to_string (as_millis deadline) +:+ ")"))))))
              end
          | _ =>
              rejected InvalidState
                ("activity_element: activity " +:+ ref_str self +:+
                 " fired a deadline, but its state owns none")
          end
      | Completing => append_command (CContinueComplete (as_raw self))
      | Terminating _ => append_command (CContinueTerminate (as_raw self))
      | Completed | Terminated _ =>
          rejected InvalidState
            ("activity_element: activity " +:+ ref_str self +:+ " fired a deadline at " +:+
             u64_to_string (as_millis deadline) +:+ " while " +:+ phase (ac_status act))
      end
  end.

(** The re-issued teardown of an activity's live children. *)
Definition sweep_activity_children (who : string) (node : ObjectRef ActivityKind)
    (children : gset RawObjectRef) : HP unit :=
  forM_ (set_iter children) (fun child =>
    match raw_kind child with
    | ThreadKind =>
        let* t := lift_res (typed ThreadKind child) in
        append_command (CTerminateThread (mkTerminateThread t Cancelled))
    | TaskKind => let* t := lift_res (typed TaskKind child) in append_command (CCancelTask t)
    | kind =>
        panic (who +:+ ": activity " +:+ ref_str node +:+ " owns a live " +:+ kind_str kind +:+
               " child " +:+ raw_str child)
    end).

(** The part [continue_terminate] and [continue_complete] share once no child is left:
    the owning thread, its machine, the state definition. *)
Definition resolve_for_continue (who : string) (node : ObjectRef ActivityKind) (act : Activity)
    : HP (Thread * State) :=
  let owner := owner_of act in
  let* row := rd (get_thread owner) in
  match row with
  | None =>
      rejected RNotFound (who +:+ ": owning thread " +:+ ref_str owner +:+ " of activity " +:+
        ref_str node +:+ " does not exist")
  | Some thread =>
      let* machine := machine_or_reject
        (who +:+ ": thread " +:+ ref_str owner +:+ " cannot resolve its machine: ") thread in
      let* st := state_or_reject
        (who +:+ ": state " +:+ debug_state_path (ac_state_path act) +:+
         " is not defined by the machine that thread " +:+ ref_str owner +:+ " binds to: ")
        machine (ac_state_path act) in
      ret (thread, st)
  end.

(** [ActivityElementBehavior::continue_terminate]. *)
Definition activity_continue_terminate (node : ObjectRef ActivityKind) : HP unit :=
  let* row := rd (get_activity node) in
  match row with
  | None =>
      rejected RNotFound ("continue_terminate: activity " +:+ ref_str node +:+ " not found")
  | Some act =>
      if negb (is_terminating (ac_status act)) then
        rejected InvalidState ("continue_terminate: activity " +:+ ref_str node +:+
          " is not terminating (status " +:+ debug_status (ac_status act) +:+ ")")
      else
        let* children := rd (get_children (as_raw (self_of act))) in
        if decide (children = ∅) then
          let* resolved := resolve_for_continue "continue_terminate" node act in
          let '(thread, state_def) := resolved in
          match state_def with
          | Task_ _ | Wait _ | Parallel _ | Map_ _ =>
              let* variables := rd (get_variables (object_ref (th_meta thread))) in
              after_terminating (create state_def) act variables
          | _ => panic "continue_terminate: deferred on a state which owns no children"
          end
        else sweep_activity_children "continue_terminate" node children
  end.

(** [ActivityElementBehavior::continue_complete]. *)
Definition activity_continue_complete (node : ObjectRef ActivityKind) : HP unit :=
  let* row := rd (get_activity node) in
  match row with
  | None => rejected RNotFound ("continue_complete: activity " +:+ ref_str node +:+ " not found")
  | Some act =>
      if negb (is_completing (ac_status act)) then
        rejected InvalidState ("continue_complete: activity " +:+ ref_str node +:+
          " is not completing (status " +:+ debug_status (ac_status act) +:+ ")")
      else
        let* children := rd (get_children (as_raw (self_of act))) in
        if decide (children = ∅) then
          let* resolved := resolve_for_continue "continue_complete" node act in
          let '(thread, state_def) := resolved in
          match state_def with
          | Parallel _ | Map_ _ | Task_ _ =>
              let* variables := rd (get_variables (object_ref (th_meta thread))) in
              after_completing (create state_def) act variables
          | _ => panic "continue_complete: deferred on a state which owns no children"
          end
        else sweep_activity_children "continue_complete" node children
  end.

(** ** The state commands *)

(** [ActivateStateHandler::handle]. *)
Definition ActivateStateHandler (p : ActivateState) : HP unit :=
  let owner := as_owner p in
  let* row := rd (get_thread owner) in
  match row with
  | None =>
      rejected RNotFound ("activate_state: owning thread " +:+ ref_str owner +:+
        " of execution " +:+ ref_str (as_execution p) +:+ " does not exist")
  | Some thread =>
      if negb (is_running (th_status thread)) then
        rejected InvalidState ("activate_state: thread " +:+ ref_str owner +:+ " is already " +:+
          phase (th_status thread) +:+ "; activation refused")
      else
        let* sm := machine_or_reject
          ("activate_state: thread " +:+ ref_str owner +:+ " cannot resolve its machine: ") thread in
        let* state_def := state_or_reject
          ("activate_state: state " +:+ debug_state_path (as_state_path p) +:+
           " is not defined by the machine that thread " +:+ ref_str owner +:+ " binds to: ")
          sm (as_state_path p) in
        handler_activate (create state_def) p thread
  end.

(** [CompleteStateHandler::handle]. *)
Definition CompleteStateHandler (p : CompleteState) : HP unit :=
  let activity := cst_activity p in
  let* row := rd (get_activity activity) in
  match row with
  | None =>
      rejected RNotFound ("complete_state: activity " +:+ ref_str activity +:+ " not found")
  | Some act =>
      let owner := owner_of act in
      let* trow := rd (get_thread owner) in
      match trow with
      | None =>
          rejected RNotFound ("complete_state: owning thread " +:+ ref_str owner +:+
            " of activity " +:+ ref_str activity +:+ " not found")
      | Some thread =>
          let* sm := machine_or_reject
            ("complete_state: activity " +:+ ref_str activity +:+ " cannot resolve its machine: ")
            thread in
          let* state_def := state_or_reject
            ("complete_state: activity " +:+ ref_str activity +:+ " names state " +:+
             debug_state_path (ac_state_path act) +:+ " which its machine does not define: ")
            sm (ac_state_path act) in
          if negb (is_running (ac_status act)) then
            rejected InvalidState ("activity " +:+ ref_str activity +:+ " is " +:+
              phase (ac_status act) +:+ ", not Running; cannot complete")
          else if negb (is_running (th_status thread)) then
            rejected InvalidState ("complete_state: thread " +:+ ref_str owner +:+
              " is already " +:+ phase (th_status thread) +:+ "; completion refused")
          else handler_complete (create state_def) p act thread
      end
  end.

(** [TerminateStateHandler::resolve_and_terminate] and [handle]. *)
Definition resolve_and_terminate (p : TerminateState) (act : Activity) : HP unit :=
  let owner := owner_of act in
  let* row := rd (get_thread owner) in
  match row with
  | None =>
      rejected RNotFound ("terminate_state: owning thread " +:+ ref_str owner +:+
        " of activity " +:+ ref_str (self_of act) +:+ " not found")
  | Some thread =>
      let* sm := machine_or_reject
        ("terminate_state: activity " +:+ ref_str (self_of act) +:+
         " cannot resolve its machine: ") thread in
      let* state_def := state_or_reject
        ("terminate_state: activity " +:+ ref_str (self_of act) +:+ " names state " +:+
         debug_state_path (ac_state_path act) +:+ " which its machine does not define: ")
        sm (ac_state_path act) in
      handler_terminate (create state_def) p act thread
  end.
Definition TerminateStateHandler (p : TerminateState) : HP unit :=
  let activity := tst_activity p in
  let* row := rd (get_activity activity) in
  match row with
  | None =>
      rejected RNotFound ("terminate_state: activity " +:+ ref_str activity +:+
        " does not exist; termination refused")
  | Some act =>
      let refused (phase : string) :=
        rejected InvalidState ("terminate_state: activity " +:+ ref_str (self_of act) +:+
          " is " +:+ phase +:+ "; termination refused — the drain owns its terminal") in
      match ac_status act with
      | Running | Completing => resolve_and_terminate p act
      | Terminating _ => refused "terminating"
      | Terminated _ => refused "terminated"
      | Completed => refused "completed"
      end
  end.
End ActivityElement.
