(* ===== verification/Elements.v ===== *)
(** The execution, thread, task and flow elements ([crates/engine/src/elements/]:
    [execution.rs], [thread.rs], [task.rs], [flow.rs]): the handlers of their commands. *)
From S2P Require Import Prelude Names Timestamp Json Asl Errors Meta Entities Tasks Commands.
From S2P Require Import Storage Applier Eval Handler Containers StateHandler States TaskState.
From S2P Require Import FanOut ActivityElement.
Local Open Scope string_scope.
Local Open Scope Z_scope.

Section Elements.
Context `{Engine} {T : Type} `{StorageTxn T}.
Notation HP := (M (HSt T) ProcessingError).

(** A sweep of a container's children of one kind; any other kind is a regression. *)
Definition sweep_threads (who : string) (children : gset RawObjectRef) : HP unit :=
  forM_ (set_iter children) (fun child =>
    match raw_kind child with
    | ThreadKind =>
        let* t := lift_res (typed ThreadKind child) in
        append_command (CTerminateThread (mkTerminateThread t Cancelled))
    | kind => panic (who +:+ " owns a live " +:+ kind_str kind +:+ " child")
    end).
Definition sweep_activities (who : string) (children : gset RawObjectRef) : HP unit :=
  forM_ (set_iter children) (fun child =>
    match raw_kind child with
    | ActivityKind =>
        let* a := lift_res (typed ActivityKind child) in
        append_command (CTerminateState (mkTerminateState a Cancelled))
    | kind => panic (who +:+ " owns a live " +:+ kind_str kind +:+ " child")
    end).

(** ** Executions *)

(** [ExecutionElementBehavior::on_deadline_fired]. *)
Definition execution_on_deadline_fired (execution : ObjectRef ExecutionKind)
    (deadline : Timestamp) : HP unit :=
  let* row := rd (get_execution execution) in
  match row with
  | None => execution_gone execution "deadline"
  | Some exec =>
      match ex_status exec with
      | Running =>
          append_command (CTerminateExecution (mkTerminateExecution (ref_name execution)
            (Some (ref_uid execution))
            (Failed (Runtime (TimedOutError
               ("execution ran past its TimeoutSeconds deadline (" +:+
                u64_to_string (as_millis deadline) +:+ ")"))))))
      | Completing => append_command (CContinueComplete (as_raw execution))
      | Terminating _ => append_command (CContinueTerminate (as_raw execution))
      | (Completed | Terminated _) as status =>
          rejected InvalidState ("execution_element: execution " +:+ ref_str execution +:+
            " fired a deadline while " +:+ phase status)
      end
  end.

(** [ExecutionElementBehavior::terminate]. *)
Definition execution_terminate (p : TerminateExecution) : HP unit :=
  let name := te_name p in
  let probe : ObjectRef ExecutionKind := mkRef name (default ulid_nil (te_uid p)) in
  let* row := rd (get_execution probe) in
  match row with
  | None =>
      rejected RNotFound ("terminate_execution: execution " +:+ as_str name +:+ " not found")
  | Some exec =>
      let uid := m_uid (ex_meta exec) in
      if match te_uid p with Some want => negb (bool_decide (want = uid)) | None => false end then
        rejected InvalidState ("terminate_execution: execution " +:+ as_str name +:+
          " is incarnation " +:+ ulid_str uid +:+ ", not " +:+
          ulid_str (default ulid_nil (te_uid p)))
      else
        let* t := now in
        match exec_mark_terminating exec (te_reason p) t with
        | Err reason =>
            rejected InvalidState ("terminate_execution: execution " +:+ as_str name +:+
              " cannot be terminated: " +:+ reason)
        | Panic m => panic m
        | Ok terminating =>
            append_event (ExecutionTerminating terminating) ;;;
            let* children := rd (get_children (as_raw (object_ref (ex_meta exec)))) in
            if decide (children = ∅) then
              let* t := now in
              match exec_mark_terminated terminating t with
              | Ok terminated => append_event (ExecutionTerminated terminated)
              | _ => panic "engine regression: the run was just set Terminating, so its terminal lands"
              end
            else sweep_threads "engine regression: an Execution" children
        end
  end.

(** [ExecutionElementBehavior::complete]. *)
Definition execution_complete (p : CompleteExecution) : HP unit :=
  let execution := cx_execution p in
  let* row := rd (get_execution execution) in
  match row with
  | None =>
      rejected RNotFound ("complete_execution: execution " +:+ ref_str execution +:+ " not found")
  | Some exec =>
      let* t := now in
      match exec_mark_completing exec (cx_output p) t with
      | Err reason =>
          rejected InvalidState ("complete_execution: execution " +:+ ref_str execution +:+
            " cannot be completed: " +:+ reason)
      | Panic m => panic m
      | Ok completing =>
          append_event (ExecutionCompleting completing) ;;;
          let* children := rd (get_children (as_raw (object_ref (ex_meta exec)))) in
          match set_iter children with
          | [] =>
              let* completed := debug_assert_mark completing (exec_mark_completed completing) in
              append_event (ExecutionCompleted completed)
          | child :: _ =>
              rejected InvalidState ("complete_execution: execution " +:+ ref_str execution +:+
                " still owns a live " +:+ kind_str (raw_kind child) +:+ " child " +:+
                raw_str child +:+ "; completion refused")
          end
      end
  end.

(** [ExecutionElementBehavior::continue_terminate]. *)
Definition execution_continue_terminate (node : ObjectRef ExecutionKind) : HP unit :=
  let* row := rd (get_execution node) in
  match row with
  | None =>
      rejected RNotFound ("continue_terminate: execution " +:+ ref_str node +:+ " not found")
  | Some exec =>
      if negb (is_terminating (ex_status exec)) then
        rejected InvalidState ("continue_terminate: execution " +:+ ref_str node +:+
          " is not terminating (status " +:+ debug_status (ex_status exec) +:+ ")")
      else
        let* children := rd (get_children (as_raw (object_ref (ex_meta exec)))) in
        if decide (children = ∅) then
          let* t := now in
          match exec_mark_terminated exec t with
          | Err reason =>
              rejected InvalidState ("continue_terminate: execution " +:+ ref_str node +:+
                " cannot be terminated: " +:+ reason)
          | Panic m => panic m
          | Ok terminated => append_event (ExecutionTerminated terminated)
          end
        else sweep_threads ("continue_terminate: execution " +:+ ref_str node) children
  end.

(** [ExecutionElementBehavior::continue_complete]. *)
Definition execution_continue_complete (node : ObjectRef ExecutionKind) : HP unit :=
  let* row := rd (get_execution node) in
  match row with
  | None =>
      rejected RNotFound ("continue_complete: execution " +:+ ref_str node +:+ " not found")
  | Some exec =>
      if negb (is_completing (ex_status exec)) then
        rejected InvalidState ("continue_complete: execution " +:+ ref_str node +:+
          " is not completing (status " +:+ debug_status (ex_status exec) +:+ ")")
      else
        let* children := rd (get_children (as_raw (object_ref (ex_meta exec)))) in
        match set_iter children with
        | child :: _ =>
            panic ("continue_complete: execution " +:+ ref_str node +:+ " owns a live " +:+
                   kind_str (raw_kind child) +:+ " child")
        | [] =>
            let* t := now in
            match exec_mark_completed exec t with
            | Err reason =>
                rejected InvalidState ("continue_complete: execution " +:+ ref_str node +:+
                  " cannot be completed: " +:+ reason)
            | Panic m => panic m
            | Ok completed => append_event (ExecutionCompleted completed)
            end
        end
  end.

(** The deadline of a new execution: [timeout.filter(> 0).and_then(now.checked_add)]. *)
Definition execution_deadline (sm : StateMachine) : HP (option Z * option Timestamp) :=
  match sm_timeout_seconds sm with
  | Some secs =>
      if decide (0 < secs) then
        let* t := now in ret (Some secs, checked_add t (from_secs (as_u64 secs)))
      else ret (None, None)
  | None => ret (None, None)
  end.

(** [ExecutionElementBehavior::create]. *)
Definition execution_create (p : CreateExecution) : HP unit :=
  let name := ce_name p in
  let probe : ObjectRef ExecutionKind := mkRef name ulid_nil in
  let* existing := read_flat (get_execution probe) in
  match existing with
  | Some _ =>
      rejected AlreadyExists ("create_execution: execution " +:+ as_str name +:+ " already exists")
  | None =>
      let* uid := mint in
      let id : ObjectRef ExecutionKind := mkRef name uid in
      let* sm := map_err (fun e => PRejected InvalidArgument
        ("create_execution: flow version " +:+ ref_str (ce_flow_version p) +:+
         " cannot be resolved for execution " +:+ as_str name +:+ ": " +:+ execution_error_str e))
        (machine (ce_flow_version p)) in
      let* resolved := execution_deadline sm in
      match resolved with
      | (Some _, None) =>
          rejected InvalidArgument ("create_execution: execution " +:+ as_str name +:+
            " cannot start: TimeoutSeconds overflows the absolute deadline")
      | (_, deadline) =>
          let* t := now in
          append_event (ExecutionCreated (ce_request_id p)
            (mkExecution (build_meta uid name t (tt : OwnedBy ExecutionKind)) (ce_flow_version p)
               Running deadline (ce_input p) None)) ;;;
          let* root_uid := mint in
          let* seq := mint_generated_seq in
          let root_name := generated_from_key (base name) seq in
          let* t := now in
          append_event (ThreadCreated
            (mkThread (build_meta root_uid root_name t (OwnerExecution id : OwnedBy ThreadKind))
               id sp_root (sm_start_at sm) 0 Running (ce_input p) None)) ;;;
          append_command (CActivateState (mkActivateState id (mkRef root_name root_uid)
            (sp_state sp_root (sm_start_at sm)) (ce_input p)))
      end
  end.

(** ** Threads *)

(** The settlement of a thread reported to its owner, once its terminal event is out. *)
Definition owner_after_child_terminated (owner : ThreadOwner) (child : RawObjectRef) : HP unit :=
  match owner with
  | OwnerExecution e => execution_after_child_terminated e child
  | OwnerActivity a => activity_after_child_terminated a child
  end.
Definition owner_after_child_completed (owner : ThreadOwner) (child : RawObjectRef) : HP unit :=
  match owner with
  | OwnerExecution e => execution_after_child_completed e child
  | OwnerActivity a => activity_after_child_completed a child
  end.
Definition owner_open (owner : ThreadOwner) : HP unit :=
  match owner with
  | OwnerExecution e => execution_open e ;;; ret tt
  | OwnerActivity a => activity_open a ;;; ret tt
  end.
(** [match X::open(..) { Ok(c) => c.after_..(..)?, Err(Rejected(..)) => {}, Err(e) => .. }]. *)
Definition if_open (owner : ThreadOwner) (k : HP unit) : HP unit :=
  let* opened := attempt (owner_open owner) in
  match opened with
  | inr _ => k
  | inl (PRejected _ _) => ret tt
  | inl (Unexpected e) => throw (Unexpected e)
  end.

(** [ThreadElementBehavior::terminate]. *)
Definition thread_terminate (p : TerminateThread) : HP unit :=
  let* row := rd (get_thread (tt_thread p)) in
  match row with
  | None =>
      rejected RNotFound ("terminate_thread: thread " +:+ ref_str (tt_thread p) +:+
        " does not exist; termination refused")
  | Some thread_row =>
      let thread_ref := raw_object_ref (th_meta thread_row) in
      let* t := now in
      match thread_mark_terminating thread_row (tt_reason p) t with
      | Err why =>
          rejected InvalidState ("terminate_thread: thread " +:+ raw_str thread_ref +:+
            " cannot be terminated: " +:+ why)
      | Panic m => panic m
      | Ok terminating =>
          append_event (ThreadTerminating terminating) ;;;
          let* children := rd (get_children (as_raw (object_ref (th_meta thread_row)))) in
          if decide (children = ∅) then
            let* t := now in
            let terminated :=
              thread_advance thread_row (Terminated (tt_reason p)) (th_output thread_row) t in
            let owner := m_owner (th_meta thread_row) in
            owner_open owner ;;;
            append_event (ThreadTerminated terminated) ;;;
            owner_after_child_terminated owner thread_ref
          else sweep_activities "engine regression: a Thread" children
      end
  end.

(** [ThreadElementBehavior::complete]. *)
Definition thread_complete (p : CompleteThread) : HP unit :=
  let* row := rd (get_thread (ct_thread p)) in
  match row with
  | None =>
      rejected RNotFound ("complete_thread: thread " +:+ ref_str (ct_thread p) +:+
        " does not exist; completion refused")
  | Some thread_row =>
      let thread_ref := raw_object_ref (th_meta thread_row) in
      if negb (is_running (th_status thread_row)) then
        rejected InvalidState ("complete_thread: thread " +:+ raw_str thread_ref +:+
          " is already " +:+ phase (th_status thread_row) +:+ "; completion refused")
      else
        let* t := now in
        append_event (ThreadCompleting
          (thread_advance thread_row Completing (Some (ct_output p)) t)) ;;;
        let* children := rd (get_children (as_raw (object_ref (th_meta thread_row)))) in
        if decide (children = ∅) then
          let* t := now in
          let completed := thread_advance thread_row Completed (Some (ct_output p)) t in
          let owner := m_owner (th_meta thread_row) in
          owner_open owner ;;;
          append_event (ThreadCompleted completed) ;;;
          owner_after_child_completed owner thread_ref
        else
          rejected InvalidState ("complete_thread: thread " +:+ raw_str thread_ref +:+
            " still owns " +:+ u64_to_string (Z.of_nat (size children)) +:+
            " live child(ren); completion refused")
  end.

(** [ThreadElementBehavior::continue_terminate]. *)
Definition thread_continue_terminate (node : ObjectRef ThreadKind) : HP unit :=
  let* row := rd (get_thread node) in
  match row with
  | None => rejected RNotFound ("continue_terminate: thread " +:+ ref_str node +:+ " not found")
  | Some thread =>
      match th_status thread with
      | Terminating reason =>
          let* children := rd (get_children (as_raw (object_ref (th_meta thread)))) in
          if decide (children = ∅) then
            let* t := now in
            append_event (ThreadTerminated
              (thread_advance thread (Terminated reason) (th_output thread) t)) ;;;
            let owner := m_owner (th_meta thread) in
            if_open owner (owner_after_child_terminated owner (as_raw node))
          else sweep_activities ("continue_terminate: thread " +:+ ref_str node) children
      | status =>
          rejected InvalidState ("continue_terminate: thread " +:+ ref_str node +:+
            " is not terminating (status " +:+ debug_status status +:+ ")")
      end
  end.

(** [ThreadElementBehavior::continue_complete]. *)
Definition thread_continue_complete (node : ObjectRef ThreadKind) : HP unit :=
  let* row := rd (get_thread node) in
  match row with
  | None => rejected RNotFound ("continue_complete: thread " +:+ ref_str node +:+ " not found")
  | Some thread =>
      match th_status thread with
      | Completing =>
          let* children := rd (get_children (as_raw (object_ref (th_meta thread)))) in
          if decide (children = ∅) then
            let* t := now in
            append_event (ThreadCompleted
              (thread_advance thread Completed (Some (default VNull (th_output thread))) t)) ;;;
            let owner := m_owner (th_meta thread) in
            if_open owner (owner_after_child_completed owner (as_raw node))
          else sweep_activities ("continue_complete: thread " +:+ ref_str node) children
      | status =>
          rejected InvalidState ("continue_complete: thread " +:+ ref_str node +:+
            " is not completing (status " +:+ debug_status status +:+ ")")
      end
  end.

(** [ThreadElementBehavior::spawn]. *)
Definition thread_spawn (p : SpawnThread) : HP unit :=
  let owner := sp_owner p in
  let* row := rd (get_activity owner) in
  match row with
  | None => rejected RNotFound ("spawn_thread: owner activity " +:+ ref_str owner +:+ " not found")
  | Some owner_activity =>
      if negb (is_running (ac_status owner_activity)) then
        rejected InvalidState ("spawn_thread: owner activity " +:+ ref_str owner +:+ " is " +:+
          phase (ac_status owner_activity) +:+ ", not Running; fan-out refused")
      else
        let scope_ref := owner_of owner_activity in
        let* trow := rd (get_thread scope_ref) in
        match trow with
        | None =>
            rejected RNotFound ("spawn_thread: owner activity " +:+ ref_str owner +:+
              " names thread " +:+ ref_str scope_ref +:+
              ", which does not exist; fan-out refused")
        | Some owner_thread =>
            let root_execution := th_execution owner_thread in
            let* uid := mint in
            let* seq := mint_generated_seq in
            let thread_name := generated_from_key (base (ref_name (sp_execution p))) seq in
            match sp_state_path p with
            | None =>
                panic "a spawned thread always receives its state_path from the container"
            | Some branch_states =>
                let* t := now in
                append_event (ThreadCreated
                  (mkThread (build_meta uid thread_name t (OwnerActivity owner : OwnedBy ThreadKind))
                     (sp_execution p) branch_states (sp_start_at p) (sp_index p) Running
                     (sp_input p) None)) ;;;
                append_command (CActivateState (mkActivateState root_execution
                  (mkRef thread_name uid) (sp_state branch_states (sp_start_at p)) (sp_input p)))
            end
        end
  end.

(** ** Tasks *)

(** [TaskElementBehavior::activate]. *)
Definition task_activate (p : ActivateTask) : HP unit :=
  let* t := now in
  append_event (TaskActivated
    (mkTask (build_meta (ref_uid (at_task p)) (ref_name (at_task p)) t
               (at_owner p : OwnedBy TaskKind))
       (at_execution p) (at_resource p) (at_arguments p) TPending (at_deadline p) None None
       (at_retry_plan p) RetryState_default)).

(** [TaskElementBehavior::complete]. *)
Definition task_complete (p : CompleteTask) : HP unit :=
  let task := ctk_task p in
  let* row := rd (get_task task) in
  match row with
  | None => rejected RNotFound ("task " +:+ ref_str task +:+ " not found or not activated")
  | Some act =>
      let* t := now in
      match task_mark_completed act (ctk_worker_id p) t with
      | Err reason =>
          rejected InvalidState ("task " +:+ ref_str task +:+ " cannot be completed: " +:+ reason)
      | Panic m => panic m
      | Ok task_value =>
          let* container := activity_open (m_owner (tk_meta act) : ObjectRef ActivityKind) in
          append_event (TaskCompleted (ctk_request_id p) task_value (ctk_output p)) ;;;
          activity_after_child_completed container (as_raw task)
      end
  end.

(** [TaskElementBehavior::fail]. *)
Definition task_fail (p : FailTask) : HP unit :=
  let task := ftk_task p in
  let* row := rd (get_task task) in
  match row with
  | None =>
      rejected RNotFound ("fail_task: task " +:+ ref_str task +:+
        " does not exist; failure refused")
  | Some act =>
      let* t := now in
      match handle_failure act (ftk_worker_id p) (ftk_error p) t with
      | Err why =>
          rejected InvalidState ("fail_task: task " +:+ raw_str (raw_object_ref (tk_meta act)) +:+
            " cannot take the failure reported by " +:+ ftk_worker_id p +:+ ": " +:+ why)
      | Panic m => panic m
      | Ok (task_value, outcome) =>
          append_event (TaskFailed task_value (ftk_error p)) ;;;
          match outcome with
          | Terminal => terminate_with (m_owner (tk_meta act) : ObjectRef ActivityKind) (ftk_error p)
          | Retried => ret tt
          end
      end
  end.

(** [TaskElementBehavior::cancel]. *)
Definition task_cancel (task : ObjectRef TaskKind) : HP unit :=
  let* row := rd (get_task task) in
  match row with
  | None => rejected RNotFound ("task " +:+ ref_str task +:+ " not found; cancel dropped")
  | Some task_value =>
      let* t := now in
      match task_mark_cancelled task_value t with
      | Err reason =>
          rejected InvalidState ("task " +:+ ref_str task +:+ " cannot be cancelled: " +:+ reason)
      | Panic m => panic m
      | Ok task_value =>
          let* container := activity_open (m_owner (tk_meta task_value) : ObjectRef ActivityKind) in
          append_event (TaskCancelled task_value) ;;;
          activity_after_child_terminated container (as_raw task)
      end
  end.

(** [TaskElementBehavior::claim]. *)
Definition task_claim (p : ClaimTasks) : HP unit :=
  let* t := now in
  match checked_add t (from_secs (cl_lease_seconds p)) with
  | None =>
      rejected InvalidArgument ("worker " +:+ cl_worker_id p +:+ " asked for a " +:+
        u64_to_string (cl_lease_seconds p) +:+ "s lease on " +:+ cl_resource p +:+
        ", which overflows the clock; claim refused")
  | Some lease_expires_at =>
      let* tasks := rd (activatable_tasks (cl_resource p) t (cl_max_tasks p)) in
      append_event (TasksClaimed (cl_request_id p)
        (map (fun x => claim x (cl_worker_id p) lease_expires_at t) tasks))
  end.

(** ** Flows *)

(** [FlowElementBehavior::create]. *)
Definition flow_create (p : CreateFlow) : HP unit :=
  let name := cf_name p in
  match parse_machine (cf_definition p) with
  | inl _ =>
      rejected InvalidArgument ("create_flow: malformed definition for flow " +:+ pn_str name)
  | inr _ =>
      let* existing := read_flat (get_flow_by_name name) in
      match existing with
      | Some _ =>
          reject (cf_request_id p) AlreadyExists
            ("create_flow: flow " +:+ pn_str name +:+ " already exists")
      | None =>
          let* flow_uid := mint in
          let* flow_version_uid := mint in
          let* created_at := now in
          match ObjectName_plain (pn_str name) with
          | Ok plain =>
              let flow_ref : ObjectRef FlowKind := mkRef plain flow_uid in
              let* flow := lift_res (res_map_err Unexpected (Flow_new flow_uid name created_at)) in
              append_event (FlowCreated (cf_request_id p) flow) ;;;
              let* version := lift_res (res_map_err Unexpected
                (FlowVersion_new flow_version_uid flow_ref 1 (cf_definition p) created_at)) in
              append_event (FlowVersionCreated (cf_request_id p) version)
          | _ => panic "a valid FlowName is a valid user object name"
          end
      end
  end.
End Elements.
