(* ===== verification/Dispatch.v ===== *)
(** Command dispatch ([crates/engine/src/handlers/]: [dispatch.rs], [continue_complete.rs],
    [continue_terminate.rs]). *)
From S2P Require Import Prelude Names Timestamp Json Asl Errors Meta Entities Tasks Commands.
From S2P Require Import Storage Applier Eval Handler Containers StateHandler States TaskState.
From S2P Require Import FanOut ActivityElement Elements.
Local Open Scope string_scope.

Section Dispatch.
Context `{Engine} {T : Type} `{StorageTxn T}.
Notation HP := (M (HSt T) ProcessingError).

(** [ContinueCompleteHandler::handle], [ContinueTerminateHandler::handle]. *)
Definition ContinueCompleteHandler (owner : RawObjectRef) : HP unit :=
  match raw_kind owner with
  | ActivityKind => let* r := lift_res (typed ActivityKind owner) in activity_continue_complete r
  | ThreadKind => let* r := lift_res (typed ThreadKind owner) in thread_continue_complete r
  | ExecutionKind =>
      let* r := lift_res (typed ExecutionKind owner) in execution_continue_complete r
  | kind => panic ("continue_complete: " +:+ kind_str kind +:+ " is never a Continue owner")
  end.
Definition ContinueTerminateHandler (owner : RawObjectRef) : HP unit :=
  match raw_kind owner with
  | ActivityKind => let* r := lift_res (typed ActivityKind owner) in activity_continue_terminate r
  | ThreadKind => let* r := lift_res (typed ThreadKind owner) in thread_continue_terminate r
  | ExecutionKind =>
      let* r := lift_res (typed ExecutionKind owner) in execution_continue_terminate r
  | kind => panic ("continue_terminate: " +:+ kind_str kind +:+ " is never a Continue owner")
  end.

(** [fire_deadline]. *)
Definition fire_deadline (target : DeadlineTarget) (deadline : Timestamp) : HP unit :=
  match target with
  | DExecution execution =>
      let* container := execution_open execution in
      execution_on_deadline_fired container deadline
  | DActivity activity =>
      let* container := map_err (fun err =>
          match err with
          | PRejected _ _ => PRejected RNotFound ("trigger_deadline: activity " +:+
              ref_str activity +:+ " does not exist; fire refused")
          | Unexpected e => Unexpected e
          end) (activity_open activity) in
      activity_on_deadline_fired container deadline
  end.

(** [dispatch_command]. *)
Definition dispatch_command (command : Command) : HP unit :=
  match command with
  | CCreateFlow p => flow_create p
  | CCreateExecution p => execution_create p
  | CSpawnThread p => thread_spawn p
  | CCompleteExecution p => execution_complete p
  | CCompleteThread p => thread_complete p
  | CTerminateExecution p => execution_terminate p
  | CTerminateThread p => thread_terminate p
  | CActivateState p => ActivateStateHandler p
  | CCompleteState p => CompleteStateHandler p
  | CTerminateState p => TerminateStateHandler p
  | CActivateTask p => task_activate p
  | CClaimTasks p => task_claim p
  | CCompleteTask p => task_complete p
  | CFailTask p => task_fail p
  | CTriggerDeadline target deadline => fire_deadline target deadline
  | CCancelTask task => task_cancel task
  | CContinueComplete owner => ContinueCompleteHandler owner
  | CContinueTerminate owner => ContinueTerminateHandler owner
  end.
End Dispatch.
