(* ===== verification/HandlerFacts.v ===== *)
(** What every command handler preserves. A handler touches its state only through the
    primitives of [Handler]; [dispatch_steps] lifts any preorder the primitives respect to
    [dispatch_command]. *)
From S2P Require Import Prelude Names Timestamp Json Asl Errors Meta Entities Tasks Commands.
From S2P Require Import LogStream Storage StorageFacts Applier ApplierFacts Eval Handler.
From S2P Require Import Containers StateHandler States TaskState FanOut ActivityElement Elements.
From S2P Require Import Dispatch.

(** The read operations of the storage interface. *)
Inductive ReadOp {T} `{StorageTxn T} : forall A, M T StorageError A -> Prop :=
  | read_execution r : ReadOp _ (get_execution r)
  | read_thread r : ReadOp _ (get_thread r)
  | read_variables r : ReadOp _ (get_variables r)
  | read_activity r : ReadOp _ (get_activity r)
  | read_task r : ReadOp _ (get_task r)
  | read_children r : ReadOp _ (get_children r)
  | read_activatable res now n : ReadOp _ (activatable_tasks res now n)
  | read_flow n : ReadOp _ (get_flow_by_name n)
  | read_flow_version r : ReadOp _ (get_flow_version r)
  | read_version_of n v : ReadOp _ (flow_version_of n v).
#[export] Hint Constructors ReadOp : spica.

(** The evaluations a handler runs keep the cache of expressions sound. *)
Definition keeps_cache `{JsonataLib} : relation EvalEnv := fun e e' => cache_ok e -> cache_ok e'.
#[export] Instance keeps_cache_preorder `{JsonataLib} : PreOrder keeps_cache.
Proof. unfold keeps_cache. split; [by intros e|]. intros a b c; auto. Qed.

(** A preorder on handler states that the reads respect; that every primitive does but the
    events of executions; that every primitive does. *)
Class ReadSteps `{Engine} {T} `{StorageTxn T} (R : relation (HSt T)) : Prop := {
  ps_preorder :: PreOrder R;
  ps_read {A} (m : M T StorageError A) : ReadOp A m -> steps R (on_txn m);
  ps_cache {E} v sm : steps (E:=E) R (cache_definition v sm) }.
Class BaseSteps `{Engine} {T} `{StorageTxn T} (R : relation (HSt T)) : Prop := {
  ps_reads :: ReadSteps R;
  ps_now {E} : steps (E:=E) R now;
  ps_mint {E} : steps (E:=E) R mint;
  ps_seq {E} : steps (E:=E) R mint_generated_seq;
  ps_env {E A} (m : M EvalEnv E A) : steps keeps_cache m -> steps R (on_env m);
  ps_plain {E} ev : execution_event ev = false -> steps (E:=E) R (append_event ev);
  ps_command {E} c : steps (E:=E) R (append_command c);
  ps_reject {E} i t r : steps (E:=E) R (reject i t r) }.
Class PrimSteps `{Engine} {T} `{StorageTxn T} (R : relation (HSt T)) : Prop := {
  ps_base :: BaseSteps R;
  ps_event {E} ev : steps (E:=E) R (append_event ev) }.
#[export] Hint Resolve ps_read ps_now ps_mint ps_seq ps_env ps_cache ps_plain ps_event
  ps_command ps_reject : spica.
#[export] Hint Extern 1 (execution_event _ = false) => reflexivity : spica.

Lemma prim_steps `{Engine} {T} `{StorageTxn T} (R : relation (HSt T)) :
  ReadSteps R -> (forall E, steps (E:=E) R now) -> (forall E, steps (E:=E) R mint) ->
  (forall E, steps (E:=E) R mint_generated_seq) ->
  (forall E A (m : M EvalEnv E A), steps keeps_cache m -> steps R (on_env m)) ->
  (forall E ev, steps (E:=E) R (append_event ev)) ->
  (forall E c, steps (E:=E) R (append_command c)) ->
  (forall E i t r, steps (E:=E) R (reject i t r)) -> PrimSteps R.
Proof. intros. split; [split|]; auto. Qed.

(** Close a [steps] goal over a handler's body. *)
Ltac hsteps :=
  repeat first
    [ progress intros
    | solve [eauto with spica typeclass_instances]
    | apply steps_bind; [apply _| |intros ?]
    | apply steps_map_err
    | apply steps_attempt
    | apply steps_forM; [apply _|]
    | case_match ].

Section Evaluations.
Context `{Engine}.

Lemma cache_computes {A} (m : M EvalEnv ExecutionError A) r :
  computes m r -> steps keeps_cache m.
Proof. intros Hm env _ He. by apply Hm. Qed.
Lemma cache_eval_json v states vars : steps keeps_cache (eval_json v states vars).
Proof. eapply cache_computes, eval_json_computes. Qed.
Lemma cache_eval_expr e states vars : steps keeps_cache (eval_expr e states vars).
Proof. eapply cache_computes, eval_expr_computes. Qed.
#[local] Hint Resolve cache_eval_json cache_eval_expr : spica.
Lemma cache_eval_string s states vars : steps keeps_cache (eval_string_or_expr s states vars).
Proof. unfold eval_string_or_expr. hsteps. Qed.
Lemma cache_invalid {A} msg : steps keeps_cache (invalid (A:=A) msg).
Proof. unfold invalid. hsteps. Qed.
Lemma cache_condition c states vars : steps keeps_cache (condition_holds c states vars).
Proof. unfold condition_holds, invalid. hsteps. Qed.
#[local] Hint Resolve cache_eval_string cache_invalid cache_condition : spica.
Lemma cache_first_match rules states vars : steps keeps_cache (first_match rules states vars).
Proof. induction rules; simpl; hsteps. Qed.
#[local] Hint Resolve cache_first_match : spica.
Lemma cache_resolve_choice st states vars n : steps keeps_cache (resolve_choice st states vars n).
Proof. unfold resolve_choice. hsteps. Qed.
Lemma cache_fail st a vars : steps keeps_cache (process_fail st a vars).
Proof. unfold process_fail, fail_reason. hsteps. Qed.
Lemma cache_wait st vars states t : steps keeps_cache (resolve_wait_deadline st vars states t).
Proof. unfold resolve_wait_deadline, deadline_in. hsteps. Qed.
Lemma cache_timeout vars states i t : steps keeps_cache (resolve_task_deadline vars states i t).
Proof. unfold resolve_task_deadline, deadline_in. hsteps. Qed.
Lemma cache_items st a vars states : steps keeps_cache (resolve_map_items st a vars states).
Proof. unfold resolve_map_items. hsteps. Qed.
Lemma cache_concurrency st vars states : steps keeps_cache (resolve_max_concurrency st vars states).
Proof. unfold resolve_max_concurrency. hsteps. Qed.
#[local] Hint Resolve cache_wait cache_items cache_concurrency : spica.
(** The input hook of every state. *)
Lemma cache_input {T} `{StorageTxn T} st a vars states t :
  steps keeps_cache (process_input (create st) a vars states t).
Proof. destruct st; simpl; unfold default_process_input; hsteps. Qed.
End Evaluations.
#[export] Hint Resolve cache_eval_json cache_eval_string cache_resolve_choice cache_fail
  cache_wait cache_timeout cache_items cache_concurrency cache_input : spica.

Section Reads.
Context `{Engine} {T : Type} `{StorageTxn T} (R : relation (HSt T)) `{!ReadSteps R}.

Lemma steps_rd {A} (m : M T StorageError A) : ReadOp A m -> steps R (rd m).
Proof. unfold rd. hsteps. Qed.
Lemma steps_sto {A} (m : M T StorageError A) : ReadOp A m -> steps R (sto m).
Proof. unfold sto. hsteps. Qed.
Lemma steps_read_ok {E A} (m : M T StorageError A) : ReadOp A m -> steps (E:=E) R (read_ok m).
Proof. unfold read_ok. hsteps. Qed.
Lemma steps_rejected {A} t r : steps R (rejected (A:=A) t r).
Proof. apply steps_throw, _. Qed.
#[local] Hint Resolve steps_rd steps_sto steps_read_ok steps_rejected : spica.
Lemma steps_read_flat {E A} (m : M T StorageError (option A)) :
  ReadOp _ m -> steps (E:=E) R (read_flat m).
Proof. unfold read_flat. hsteps. Qed.
#[local] Hint Resolve steps_read_flat : spica.

Lemma steps_machine v : steps R (machine v).
Proof. unfold machine. hsteps. Qed.
#[local] Hint Resolve steps_machine : spica.
Lemma steps_machine_for_thread t : steps R (machine_for_thread t).
Proof. unfold machine_for_thread, resolve_thread_flow_version. hsteps. Qed.
#[local] Hint Resolve steps_machine_for_thread : spica.

Lemma steps_machine_or_reject w t : steps R (machine_or_reject w t).
Proof. unfold machine_or_reject. hsteps. Qed.
Lemma steps_state_or_reject w sm p : steps R (state_or_reject w sm p).
Proof. unfold state_or_reject. hsteps. Qed.
Lemma steps_activity_open r : steps R (activity_open r).
Proof. unfold activity_open. hsteps. Qed.
#[local] Hint Resolve steps_machine_or_reject steps_state_or_reject steps_activity_open : spica.
Lemma steps_state_of r a : steps R (state_of r a).
Proof. unfold state_of. hsteps. Qed.
Lemma steps_resolve_for_continue w r a : steps R (resolve_for_continue w r a).
Proof. unfold resolve_for_continue. hsteps. Qed.
End Reads.
#[export] Hint Resolve steps_rd steps_sto steps_read_ok steps_rejected steps_read_flat
  steps_machine steps_machine_for_thread steps_machine_or_reject steps_state_or_reject
  steps_activity_open steps_state_of steps_resolve_for_continue : spica.

Section Steps.
Context `{Engine} {T : Type} `{StorageTxn T} (R : relation (HSt T)) `{!BaseSteps R}.

Lemma steps_mark {E X} (x : X) f : steps (E:=E) R (debug_assert_mark x f).
Proof. unfold debug_assert_mark. hsteps. Qed.
#[local] Hint Resolve steps_mark : spica.

Lemma steps_thread_open r : steps R (thread_open r).
Proof. unfold thread_open. hsteps. Qed.
Lemma steps_thread_completed r c : steps R (thread_after_child_completed r c).
Proof. unfold thread_after_child_completed, thread_gone. hsteps. Qed.
Lemma steps_thread_terminated r c : steps R (thread_after_child_terminated r c).
Proof. unfold thread_after_child_terminated, thread_gone. hsteps. Qed.
Lemma steps_execution_open r : steps R (execution_open r).
Proof. unfold execution_open. hsteps. Qed.
Lemma steps_execution_completed r c : steps R (execution_after_child_completed r c).
Proof.
  unfold execution_after_child_completed, execution_gone, execution_completing_refused,
    execution_child_refused. hsteps.
Qed.
Lemma steps_execution_terminated r c : steps R (execution_after_child_terminated r c).
Proof.
  unfold execution_after_child_terminated, execution_gone, execution_completing_refused,
    execution_child_refused. hsteps.
Qed.
#[local] Hint Resolve steps_thread_open steps_thread_completed steps_thread_terminated
  steps_execution_open steps_execution_completed steps_execution_terminated : spica.

Lemma steps_apply_assign o a st sc : steps R (apply_assign o a st sc).
Proof. unfold apply_assign. hsteps. Qed.
Lemma steps_project_output o st sc f : steps R (project_output o st sc f).
Proof. unfold project_output. hsteps. Qed.
Lemma steps_terminate_with {E} a e : steps (E:=E) R (terminate_with a e).
Proof. unfold terminate_with. hsteps. Qed.
#[local] Hint Resolve steps_apply_assign steps_project_output steps_terminate_with : spica.
Lemma steps_settle_next a n o : steps R (settle_next a n o).
Proof. unfold settle_next. hsteps. Qed.
Lemma steps_settle_end a o : steps R (settle_end a o).
Proof. unfold settle_end. hsteps. Qed.
Lemma steps_settle_failed a r : steps R (settle_failed a r).
Proof. unfold settle_failed. hsteps. Qed.
Lemma steps_settle_terminated a : steps R (settle_terminated a).
Proof. unfold settle_terminated. hsteps. Qed.
Lemma steps_process_finish a v asg o e n : steps R (process_finish a v asg o e n).
Proof. unfold process_finish. hsteps. Qed.
#[local] Hint Resolve steps_settle_next steps_settle_end steps_settle_failed
  steps_settle_terminated steps_process_finish : spica.
Lemma steps_finish_completing a p : steps R p -> steps R (finish_completing a p).
Proof. unfold finish_completing. hsteps. Qed.
#[local] Hint Resolve steps_finish_completing : spica.

Lemma steps_cancel_tasks l : steps R (cancel_tasks l).
Proof. unfold cancel_tasks. hsteps. Qed.
#[local] Hint Resolve steps_cancel_tasks : spica.
Lemma steps_spawn_branches a bs i : steps R (spawn_branches a bs i).
Proof. revert i. induction bs; intros i; simpl; hsteps. Qed.
Lemma steps_collect_branches l : steps R (collect_branches l).
Proof. induction l as [|[]]; simpl; hsteps. Qed.
Lemma steps_spawn_items {E} st o a items i n : steps (E:=E) R (spawn_items st o a items i n).
Proof. revert i. induction n; intros i; simpl; hsteps. Qed.
Lemma steps_count_done l : steps R (count_done l).
Proof. induction l as [|[]]; simpl; hsteps. Qed.
Lemma steps_item_outputs l : steps R (item_outputs l).
Proof. induction l as [|[]]; simpl; hsteps. Qed.
Lemma steps_fail_container a r : steps R (fail_container a r).
Proof. unfold fail_container. hsteps. Qed.
#[local] Hint Resolve steps_spawn_branches steps_collect_branches steps_spawn_items
  steps_count_done steps_item_outputs steps_fail_container : spica.

(** The hooks of every state respect [R]. *)
Record handler_steps (h : StateHandler) : Prop := {
  hs_input a v s t : steps keeps_cache (process_input h a v s t);
  hs_after_activated a v s : steps R (after_activated h a v s);
  hs_child_completed r a v c : steps R (child_completed h r a v c);
  hs_after_completing a v : steps R (after_completing h a v);
  hs_after_terminating a v : steps R (after_terminating h a v);
  hs_on_failed a e : steps R (on_failed h a e) }.
#[local] Hint Resolve hs_input hs_after_activated hs_child_completed hs_after_completing
  hs_after_terminating hs_on_failed : spica.

Lemma steps_task_hooks st : handler_steps (task_handler st).
Proof.
  split; intros; simpl; unfold task_after_activated, task_child_completed,
    task_after_terminating, task_on_failed, catch_assign; hsteps.
Qed.
Lemma steps_parallel_hooks st : handler_steps (parallel_handler st).
Proof.
  split; intros; simpl; unfold parallel_after_activated, parallel_child_completed,
    container_after_completing, container_after_terminating, default_on_failed; hsteps.
Qed.
Lemma steps_map_hooks st : handler_steps (map_handler st).
Proof.
  split; intros; simpl; unfold map_after_activated, map_child_completed,
    container_after_completing, container_after_terminating, default_on_failed; hsteps.
Qed.
Lemma steps_create st : handler_steps (create st).
Proof.
  destruct st; try (by apply steps_task_hooks || by apply steps_parallel_hooks ||
    by apply steps_map_hooks); split; intros; simpl;
    unfold default_after_activated, default_child_completed, default_on_failed,
      process_succeed, process_choice; hsteps.
Qed.

Lemma steps_handler_activate h c t : handler_steps h -> steps R (handler_activate h c t).
Proof. intros Hh. unfold handler_activate. hsteps. Qed.
Lemma steps_handler_complete h c a t : handler_steps h -> steps R (handler_complete h c a t).
Proof. intros Hh. unfold handler_complete. hsteps. Qed.
Lemma steps_handler_terminate h c a t : handler_steps h -> steps R (handler_terminate h c a t).
Proof. intros Hh. unfold handler_terminate. hsteps. Qed.
#[local] Hint Resolve steps_create steps_handler_activate steps_handler_complete
  steps_handler_terminate : spica.

Lemma steps_settle_child r a t st c : steps R (settle_child r a t st c).
Proof.
  unfold settle_child, hand_to_state. pose proof (steps_create st). hsteps.
Qed.
#[local] Hint Resolve steps_settle_child : spica.
Lemma steps_activity_completed r c : steps R (activity_after_child_completed r c).
Proof. unfold activity_after_child_completed. hsteps. Qed.
Lemma steps_activity_terminated r c : steps R (activity_after_child_terminated r c).
Proof. apply steps_activity_completed. Qed.
Lemma steps_activity_deadline r d : steps R (activity_on_deadline_fired r d).
Proof. unfold activity_on_deadline_fired. hsteps. Qed.
Lemma steps_sweep_children w r c : steps R (sweep_activity_children w r c).
Proof. unfold sweep_activity_children. hsteps. Qed.
Lemma steps_sweep_threads w c : steps R (sweep_threads w c).
Proof. unfold sweep_threads. hsteps. Qed.
Lemma steps_sweep_activities w c : steps R (sweep_activities w c).
Proof. unfold sweep_activities. hsteps. Qed.
#[local] Hint Resolve steps_activity_completed steps_activity_terminated steps_activity_deadline
  steps_sweep_children steps_sweep_threads steps_sweep_activities : spica.
Lemma steps_activity_continue_terminate r : steps R (activity_continue_terminate r).
Proof. unfold activity_continue_terminate. hsteps. Qed.
Lemma steps_activity_continue_complete r : steps R (activity_continue_complete r).
Proof. unfold activity_continue_complete. hsteps. Qed.
Lemma steps_resolve_and_terminate p a : steps R (resolve_and_terminate p a).
Proof. unfold resolve_and_terminate. hsteps. Qed.
#[local] Hint Resolve steps_activity_continue_terminate steps_activity_continue_complete
  steps_resolve_and_terminate : spica.

Lemma steps_owner_completed o c : steps R (owner_after_child_completed o c).
Proof. destruct o; simpl; hsteps. Qed.
Lemma steps_owner_terminated o c : steps R (owner_after_child_terminated o c).
Proof. destruct o; simpl; hsteps. Qed.
Lemma steps_owner_open o : steps R (owner_open o).
Proof. destruct o; simpl; hsteps. Qed.
#[local] Hint Resolve steps_owner_completed steps_owner_terminated steps_owner_open : spica.
Lemma steps_if_open o k : steps R k -> steps R (if_open o k).
Proof. unfold if_open. hsteps. Qed.
Lemma steps_execution_deadline sm : steps R (execution_deadline sm).
Proof. unfold execution_deadline. hsteps. Qed.
#[local] Hint Resolve steps_if_open steps_execution_deadline : spica.

Lemma steps_threads :
  (forall p, steps R (thread_spawn p)) /\ (forall p, steps R (thread_complete p)) /\
  (forall p, steps R (thread_terminate p)) /\
  (forall r, steps R (thread_continue_complete r)) /\
  (forall r, steps R (thread_continue_terminate r)).
Proof.
  unfold thread_spawn, thread_complete, thread_terminate, thread_continue_complete,
    thread_continue_terminate.
  repeat split; hsteps.
Qed.
Lemma steps_tasks :
  (forall p, steps R (task_activate p)) /\ (forall p, steps R (task_claim p)) /\
  (forall p, steps R (task_complete p)) /\ (forall p, steps R (task_fail p)) /\
  (forall r, steps R (task_cancel r)).
Proof.
  unfold task_activate, task_claim, task_complete, task_fail, task_cancel.
  repeat split; hsteps.
Qed.

(** What the handlers of execution commands are to respect. *)
Definition executions_step : Prop :=
  (forall p, steps R (execution_create p)) /\ (forall p, steps R (execution_complete p)) /\
  (forall p, steps R (execution_terminate p)) /\
  (forall e t, steps R (execution_on_deadline_fired e t)) /\
  (forall e, steps R (execution_continue_complete e)) /\
  (forall e, steps R (execution_continue_terminate e)).
(** The handlers of every other command do. *)
Lemma dispatch_steps_but_executions c : executions_step -> steps R (dispatch_command c).
Proof.
  intros (? & ? & ? & ? & ? & ?).
  destruct steps_threads as (? & ? & ? & ? & ?), steps_tasks as (? & ? & ? & ? & ?).
  destruct c; simpl; unfold ActivateStateHandler, CompleteStateHandler, TerminateStateHandler,
    ContinueCompleteHandler, ContinueTerminateHandler, fire_deadline, flow_create; hsteps.
Qed.
End Steps.

#[export] Hint Resolve
  steps_mark steps_thread_open steps_thread_completed
  steps_thread_terminated steps_execution_open steps_execution_completed
  steps_execution_terminated steps_apply_assign steps_project_output steps_terminate_with
  steps_settle_next steps_settle_end steps_settle_failed steps_settle_terminated
  steps_process_finish steps_finish_completing steps_cancel_tasks steps_spawn_branches
  steps_collect_branches steps_spawn_items steps_count_done steps_item_outputs
  steps_fail_container steps_task_hooks steps_parallel_hooks steps_map_hooks steps_create
  steps_handler_activate steps_handler_complete steps_handler_terminate
  steps_settle_child steps_activity_completed
  steps_activity_terminated steps_activity_deadline steps_sweep_children steps_sweep_threads
  steps_sweep_activities steps_activity_continue_terminate steps_activity_continue_complete
  steps_resolve_and_terminate steps_owner_completed steps_owner_terminated steps_owner_open
  steps_if_open steps_execution_deadline : spica.
#[export] Hint Resolve hs_input hs_after_activated hs_child_completed hs_after_completing
  hs_after_terminating hs_on_failed : spica.

(** Dispatching any command respects a preorder every primitive respects. *)
Lemma dispatch_steps `{Engine} {T} `{StorageTxn T} (R : relation (HSt T)) `{!PrimSteps R} c :
  steps R (dispatch_command c).
Proof.
  apply dispatch_steps_but_executions; [apply _|]. unfold executions_step, execution_create,
    execution_complete, execution_terminate, execution_on_deadline_fired, execution_gone,
    execution_continue_complete, execution_continue_terminate.
  repeat split; hsteps.
Qed.
