(* ===== verification/Emission.v ===== *)
(** Every successful dispatch emits something: the fact behind the assertion of
    [Leader::dispatch_once] that a command's batch is never empty. *)
From S2P Require Import Prelude Names Timestamp Json Asl Errors Meta Entities Tasks Commands.
From S2P Require Import LogStream Storage StorageFacts Applier ApplierFacts Eval Handler.
From S2P Require Import Containers StateHandler States TaskState FanOut ActivityElement Elements.
From S2P Require Import Dispatch HandlerFacts.

Section Emission.
Context `{Engine}.
Notation St := (HSt InMemoryTxn).

(** Entries are only ever added. *)
Definition grows (s s' : St) : Prop := (length (h_entries s) <= length (h_entries s'))%nat.
#[export] Instance grows_preorder : PreOrder grows.
Proof. split; [intros s|intros a b c]; unfold grows; lia. Qed.

#[export] Instance grows_prim : PrimSteps grows.
Proof.
  apply prim_steps; [split; [apply _|..]|..]; unfold grows.
  - intros A m Hm s _. by destruct Hm.
  - by intros E v sm s.
  - by intros E s.
  - by intros E s.
  - intros E s. unfold mint_generated_seq, attempt, on_txn, bind, lift_res. simpl.
    by destruct (i64_add _ 1).
  - intros E A m _ s. unfold on_env. by destruct (m (h_env s)).
  - intros E ev s. unfold append_event, build, now, bind, attempt, on_txn. simpl.
    destruct (dispatch_event _ ev _) as [[] t']; simpl; rewrite ?length_app; simpl; lia.
  - intros E c s _. simpl. rewrite length_app. lia.
  - intros E i t r s _. simpl. rewrite length_app. lia.
Qed.

(** From [s], a successful [m] adds an entry. *)
Definition emits_at {E A} (s : St) (m : M St E A) : Prop :=
  match m s with
  | (Ok _, s') => (length (h_entries s) < length (h_entries s'))%nat
  | _ => True
  end.
Definition emits {E A} (m : M St E A) : Prop := forall s, emits_at s m.

Lemma emits_throw {E A} (e : E) : emits (A:=A) (throw e).
Proof. by intros s. Qed.
Lemma emits_panic {E A} msg : emits (E:=E) (A:=A) (panic msg).
Proof. by intros s. Qed.
Lemma emits_event {E} ev : emits (E:=E) (append_event ev).
Proof.
  intros s. unfold emits_at, append_event, build, now, bind, attempt, on_txn. simpl.
  destruct (dispatch_event _ ev _) as [[] t']; simpl; rewrite ?length_app; simpl; try lia.
Qed.
Lemma emits_command {E} c : emits (E:=E) (append_command c).
Proof. intros s. unfold emits_at. simpl. rewrite length_app. simpl. lia. Qed.
Lemma emits_reject {E} i t r : emits (E:=E) (reject i t r).
Proof. intros s. unfold emits_at. simpl. rewrite length_app. simpl. lia. Qed.
Lemma emits_rejected {A} t r : emits (rejected (A:=A) t r).
Proof. by intros s. Qed.
Lemma emits_left {E A B} (m : M St E A) (k : A -> M St E B) :
  emits m -> (forall a, steps grows (k a)) -> emits (bind m k).
Proof.
  intros Hm Hk s. specialize (Hm s). unfold emits_at, bind in *.
  destruct (m s) as [[a| |] s1]; try done. specialize (Hk a s1). unfold grows in Hk.
  destruct (k a s1) as [[] s2]; try done. simpl in *. specialize (Hk I). lia.
Qed.
Lemma emits_at_right {E A B} (m : M St E A) (k : A -> M St E B) s :
  steps grows m ->
  (forall a s1, m s = (Ok a, s1) -> emits_at s1 (k a)) -> emits_at s (bind m k).
Proof.
  intros Hm Hk. unfold emits_at, bind. specialize (Hm s). unfold grows in Hm.
  destruct (m s) as [[a| |] s1]; try done. specialize (Hk a s1 eq_refl). unfold emits_at in Hk.
  destruct (k a s1) as [[] s2]; try done. simpl in *. specialize (Hm I). lia.
Qed.
Lemma emits_right {E A B} (m : M St E A) (k : A -> M St E B) :
  steps grows m -> (forall a, emits (k a)) -> emits (bind m k).
Proof. intros Hm Hk s. apply emits_at_right; [done|]. intros a s1 _. apply Hk. Qed.
Lemma emits_map_err {E F A} (f : E -> F) (m : M St E A) : emits m -> emits (map_err f m).
Proof.
  intros Hm s. specialize (Hm s). unfold emits_at, map_err in *. by destruct (m s) as [[] s'].
Qed.
End Emission.
#[export] Hint Resolve emits_throw emits_panic emits_event emits_command emits_reject
  emits_rejected : spica.

(** Close an [emits] goal over a handler's body. *)
Ltac emits_tac :=
  repeat first
    [ progress intros
    | solve [eauto with spica typeclass_instances]
    | apply emits_left; [solve [eauto with spica typeclass_instances]|hsteps]
    | apply emits_right; [solve [hsteps]|]
    | case_match ].

Section Handlers.
Context `{Engine}.
Notation St := (HSt InMemoryTxn).

(** A sweep over a non-empty set emits: each child is answered with a command, or the
    sweep panics. *)
Lemma emits_sweep {E} (X : gset RawObjectRef) (f : RawObjectRef -> M St E unit) :
  X <> ∅ -> (forall c, emits (f c)) -> (forall c, steps grows (f c)) ->
  emits (forM_ (set_iter X) f).
Proof.
  intros HX Hf Hs. pose proof (set_iter_perm X) as Hp.
  destruct (set_iter X) as [|c l].
  - apply Permutation_nil_l, symmetry, elements_empty_inv in Hp. by apply leibniz_equiv in Hp.
  - simpl. apply emits_left; [apply Hf|]. intros _. apply steps_forM; [apply _|auto].
Qed.
Lemma emits_sweep_children w r X : X <> ∅ -> emits (sweep_activity_children w r X).
Proof. intros HX. unfold sweep_activity_children. apply emits_sweep; [done|emits_tac|hsteps]. Qed.
Lemma emits_sweep_threads w X : X <> ∅ -> emits (sweep_threads w X).
Proof. intros HX. unfold sweep_threads. apply emits_sweep; [done|emits_tac|hsteps]. Qed.
Lemma emits_sweep_activities w X : X <> ∅ -> emits (sweep_activities w X).
Proof. intros HX. unfold sweep_activities. apply emits_sweep; [done|emits_tac|hsteps]. Qed.
#[local] Hint Resolve emits_sweep_children emits_sweep_threads emits_sweep_activities : spica.

Lemma emits_terminate_with {E} a e : emits (E:=E) (terminate_with a e).
Proof. unfold terminate_with. emits_tac. Qed.
#[local] Hint Resolve emits_terminate_with : spica.
Lemma emits_settle_next a n o : emits (settle_next a n o).
Proof. unfold settle_next. emits_tac. Qed.
Lemma emits_settle_end a o : emits (settle_end a o).
Proof. unfold settle_end. emits_tac. Qed.
Lemma emits_settle_failed a r : emits (settle_failed a r).
Proof. unfold settle_failed. emits_tac. Qed.
Lemma emits_settle_terminated a : emits (settle_terminated a).
Proof. unfold settle_terminated. emits_tac. Qed.
#[local] Hint Resolve emits_settle_next emits_settle_end emits_settle_failed
  emits_settle_terminated : spica.
Lemma emits_finish_completing a p : steps grows p -> emits (finish_completing a p).
Proof. intros Hp. unfold finish_completing. emits_tac. Qed.
#[local] Hint Resolve emits_finish_completing : spica.

(** Completing a state answers the completion. *)
Lemma emits_after_completing st a v : emits (after_completing (create st) a v).
Proof.
  destruct st; simpl; unfold container_after_completing, process_succeed, process_choice; emits_tac.
Qed.
(** A caught failure is answered by the catcher's transition or its own failure. *)
Lemma emits_handler_activate h c t : handler_steps grows h -> emits (handler_activate h c t).
Proof. intros Hh. unfold handler_activate. emits_tac. Qed.
Lemma emits_handler_complete h c a t : handler_steps grows h -> emits (handler_complete h c a t).
Proof. intros Hh. unfold handler_complete. emits_tac. Qed.
#[local] Hint Resolve emits_after_completing emits_handler_activate emits_handler_complete : spica.

(** Whenever the result satisfies [Q], an entry was added. *)
Definition answers {E A} (Q : A -> Prop) (m : M St E A) : Prop :=
  forall s, match m s with
            | (Ok a, s') => Q a -> (length (h_entries s) < length (h_entries s'))%nat
            | _ => True
            end.
Lemma answers_emits {E A} (Q : A -> Prop) (m : M St E A) : emits m -> answers Q m.
Proof. intros Hm s. specialize (Hm s). unfold emits_at in Hm.
  destruct (m s) as [[] ?]; [by intros _|done..].
Qed.
Lemma answers_ret {E A} (Q : A -> Prop) a : ~ Q a -> answers (E:=E) Q (ret a).
Proof. intros Ha s. simpl. intros HQ. by destruct Ha. Qed.
Lemma answers_right {E A B} (Q : B -> Prop) (m : M St E A) (k : A -> M St E B) :
  steps grows m -> (forall a, answers Q (k a)) -> answers Q (bind m k).
Proof.
  intros Hm Hk s. unfold bind. specialize (Hm s). unfold grows in Hm.
  destruct (m s) as [[a| |] s1]; try done. specialize (Hk a s1).
  destruct (k a s1) as [[] s2]; try done. simpl in *. intros Hq. specialize (Hm I).
  specialize (Hk Hq). lia.
Qed.
Lemma emits_answers {E A B} (Q : A -> Prop) (m : M St E A) (k : A -> M St E B) :
  answers Q m -> steps grows m -> (forall a, steps grows (k a)) ->
  (forall a, Q a \/ emits (k a)) -> emits (bind m k).
Proof.
  intros Hm Hg Hk Hor s. specialize (Hm s). specialize (Hg s). unfold emits_at, bind, grows in *.
  destruct (m s) as [[a| |] s1]; try done. simpl in *. specialize (Hg I). specialize (Hk a s1).
  destruct (Hor a) as [Hq|He]; [|specialize (He s1); unfold emits_at in He];
    destruct (k a s1) as [[] s2]; try done; simpl in *; [specialize (Hm Hq); specialize (Hk I)|]; lia.
Qed.

(** A failure is routed to a catcher only with an answer. *)
Lemma on_failed_answers st a e :
  answers (fun r => r = Caught) (on_failed (create st) a e).
Proof.
  destruct st; simpl; try (apply answers_ret; discriminate). unfold task_on_failed, catch_assign.
  repeat first
    [ progress intros
    | apply answers_ret; discriminate
    | solve [apply answers_emits; emits_tac]
    | apply answers_right; [solve [hsteps]|]
    | case_match ].
Qed.
Lemma emits_handler_terminate st c a t : emits (handler_terminate (create st) c a t).
Proof.
  pose proof (steps_create grows st) as Hst. unfold handler_terminate.
  apply emits_answers with (Q := fun r => r = Caught).
  - destruct (tst_reason c); [apply on_failed_answers|apply answers_ret; discriminate..].
  - hsteps.
  - hsteps.
  - intros []; [by left|right]. emits_tac.
Qed.
#[local] Hint Resolve emits_handler_terminate : spica.

(** Reads leave the transaction as it is. *)
Definition same_txn (s s' : St) : Prop := h_txn s' = h_txn s.
#[local] Instance same_txn_reads : ReadSteps same_txn.
Proof.
  split; [split; unfold same_txn; congruence|..].
  - intros A m Hm s _. by destruct Hm.
  - by intros E v sm s.
Qed.

(** Over a transaction with no child edge left for the activity, finishing its
    termination answers. *)
Definition childless (a : Activity) (s : St) : Prop :=
  (get_children (as_raw (self_of a)) (h_txn s)).1 = Ok ∅.
Lemma emits_container_terminating who a v s :
  childless a s -> emits_at s (container_after_terminating who a v).
Proof.
  intros [= Hc]. unfold container_after_terminating. apply emits_at_right; [hsteps|].
  intros [r|] s1 Hs1; [|done]. apply emits_at_right; [hsteps|]. intros c s2 Hs2.
  unfold rd, map_err, on_txn in *. simplify_eq/=. rewrite Hc. apply emits_settle_terminated.
Qed.
Lemma emits_task_terminating a v s : childless a s -> emits_at s (task_after_terminating a v).
Proof.
  intros [= Hc]. unfold task_after_terminating, read_ok, attempt, on_txn, bind, emits_at. simpl.
  rewrite Hc. unfold task_children. pose proof (set_iter_perm ∅) as Hp.
  rewrite elements_empty in Hp. apply Permutation_nil_r in Hp. rewrite Hp. simpl.
  apply (emits_settle_terminated a (set_txn s (h_txn s))).
Qed.
Lemma emits_after_terminating st a v s :
  childless a s -> emits_at s (after_terminating (create st) a v).
Proof.
  intros Hc. destruct st; simpl; try apply emits_settle_terminated;
    [by apply emits_task_terminating|by apply emits_container_terminating..].
Qed.

(** The continuation of a deferred termination answers: either children are left, and the
    sweep answers, or none is and the activity settles. *)
Lemma emits_activity_continue_terminate r : emits (activity_continue_terminate r).
Proof.
  unfold activity_continue_terminate. apply emits_right; [hsteps|]. intros [act|]; [|emits_tac].
  destruct (negb _); [emits_tac|]. intros s. apply emits_at_right; [hsteps|].
  intros X s1 Hs1. unfold rd, map_err, on_txn in Hs1. simplify_eq/=.
  case_decide as HX; [|by apply emits_sweep_children].
  apply emits_at_right; [hsteps|]. intros [t st] s2 Hs2.
  assert (h_txn s2 = h_txn s) as Ht2.
  { pose proof (steps_resolve_for_continue same_txn "continue_terminate" r act
      (set_txn s (h_txn s))) as Hq. rewrite Hs2 in Hq. by apply Hq. }
  assert (emits_at s2 (let* v := rd (get_variables (object_ref (th_meta t))) in
            after_terminating (create st) act v)) as Hst.
  { apply emits_at_right; [hsteps|]. intros vars s3 Hs3.
    unfold rd, map_err, on_txn in Hs3. simplify_eq/=. apply emits_after_terminating.
    unfold childless; simpl. by rewrite Ht2, HX. }
  destruct st; first [exact Hst|exact I].
Qed.
Lemma emits_activity_continue_complete r : emits (activity_continue_complete r).
Proof. unfold activity_continue_complete. emits_tac. Qed.
Lemma emits_activity_deadline r d : emits (activity_on_deadline_fired r d).
Proof. unfold activity_on_deadline_fired. emits_tac. Qed.
Lemma emits_resolve_and_terminate p a : emits (resolve_and_terminate p a).
Proof. unfold resolve_and_terminate. emits_tac. Qed.
#[local] Hint Resolve emits_activity_continue_terminate emits_activity_continue_complete
  emits_activity_deadline emits_resolve_and_terminate : spica.

Lemma emits_executions :
  (forall p, emits (execution_create p)) /\ (forall p, emits (execution_complete p)) /\
  (forall p, emits (execution_terminate p)) /\
  (forall e t, emits (execution_on_deadline_fired e t)) /\
  (forall e, emits (execution_continue_complete e)) /\
  (forall e, emits (execution_continue_terminate e)).
Proof.
  unfold execution_create, execution_complete, execution_terminate,
    execution_on_deadline_fired, execution_gone, execution_continue_complete,
    execution_continue_terminate.
  repeat split; emits_tac.
Qed.
Lemma emits_threads :
  (forall p, emits (thread_spawn p)) /\ (forall p, emits (thread_complete p)) /\
  (forall p, emits (thread_terminate p)) /\
  (forall r, emits (thread_continue_complete r)) /\
  (forall r, emits (thread_continue_terminate r)).
Proof.
  unfold thread_spawn, thread_complete, thread_terminate, thread_continue_complete,
    thread_continue_terminate.
  repeat split; emits_tac.
Qed.
Lemma emits_tasks :
  (forall p, emits (task_activate p)) /\ (forall p, emits (task_claim p)) /\
  (forall p, emits (task_complete p)) /\ (forall p, emits (task_fail p)) /\
  (forall r, emits (task_cancel r)).
Proof.
  unfold task_activate, task_claim, task_complete, task_fail, task_cancel.
  repeat split; emits_tac.
Qed.

(** Dispatching any command answers with at least one entry. *)
Lemma dispatch_emits c : emits (dispatch_command c).
Proof.
  destruct emits_executions as (? & ? & ? & ? & ? & ?), emits_threads as (? & ? & ? & ? & ?),
    emits_tasks as (? & ? & ? & ? & ?).
  destruct c; simpl; unfold ActivateStateHandler, CompleteStateHandler, TerminateStateHandler,
    ContinueCompleteHandler, ContinueTerminateHandler, fire_deadline, flow_create; emits_tac.
Qed.
End Handlers.
