(* ===== verification/HandlerSim.v ===== *)
(** Handlers over two stores. When each operation of a transaction has on one store the
    outcome it has on another, short of a panic on the first, so has every command: the
    handlers reach a store only through the operations of [StorageTxn]. *)
From S2P Require Import Prelude Names Timestamp Json Asl Errors Meta Entities Tasks Commands.
From S2P Require Import LogStream Storage StorageFacts Applier ApplierFacts Eval Handler.
From S2P Require Import Containers StateHandler States TaskState FanOut ActivityElement Elements.
From S2P Require Import Dispatch HandlerFacts RocksFacts.

(** From related states, unless [m1] panics, [m2] has the outcome of [m1] and the states
    reached are related. *)
Definition psim {S1 S2 E A} (R : S1 -> S2 -> Prop) (m1 : M S1 E A) (m2 : M S2 E A) : Prop :=
  forall s1 s2, R s1 s2 -> not_panic (m1 s1).1 ->
    (m2 s2).1 = (m1 s1).1 /\ R (m1 s1).2 (m2 s2).2.

Section Psim.
Context {S1 S2 E : Type} (R : S1 -> S2 -> Prop).
Lemma psim_ret {A} (a : A) : psim (E:=E) R (ret a) (ret a).
Proof. by intros s1 s2. Qed.
Lemma psim_throw {A} (e : E) : psim (A:=A) R (throw e) (throw e).
Proof. by intros s1 s2. Qed.
Lemma psim_panic {A} msg (m : M S2 E A) : psim R (panic msg) m.
Proof. by intros s1 s2 _ []. Qed.
Lemma psim_lift_res {A} (r : Res E A) : psim R (lift_res r) (lift_res r).
Proof. by intros s1 s2. Qed.
Lemma psim_bind {A B} (m1 : M S1 E A) (m2 : M S2 E A) (k1 : A -> M S1 E B) k2 :
  psim R m1 m2 -> (forall a, psim R (k1 a) (k2 a)) -> psim R (bind m1 k1) (bind m2 k2).
Proof.
  intros Hm Hk s1 s2 Hs. specialize (Hm s1 s2 Hs). unfold bind.
  destruct (m1 s1) as [[a|e|m] t1], (m2 s2) as [r2 t2]; simpl in *; intros Hp; [|by destruct Hm as [-> ?]..].
  destruct Hm as [-> Ht]; [done|]. by apply Hk.
Qed.
Lemma psim_map_err {F A} (f : E -> F) (m1 : M S1 E A) m2 :
  psim R m1 m2 -> psim R (map_err f m1) (map_err f m2).
Proof.
  intros Hm s1 s2 Hs. specialize (Hm s1 s2 Hs). unfold map_err.
  destruct (m1 s1) as [[a|e|m] t1], (m2 s2) as [r2 t2]; simpl in *; intros Hp;
    by destruct Hm as [-> ?].
Qed.
Lemma psim_attempt {F A} (m1 : M S1 E A) m2 :
  psim R m1 m2 -> psim (E:=F) R (attempt m1) (attempt m2).
Proof.
  intros Hm s1 s2 Hs. specialize (Hm s1 s2 Hs). unfold attempt.
  destruct (m1 s1) as [[a|e|m] t1], (m2 s2) as [r2 t2]; simpl in *; intros Hp;
    by destruct Hm as [-> ?].
Qed.
Lemma psim_forM {A} (l : list A) (f1 : A -> M S1 E unit) f2 :
  (forall x, psim R (f1 x) (f2 x)) -> psim R (forM_ l f1) (forM_ l f2).
Proof.
  intros Hf. induction l as [|x l IH]; simpl; [apply psim_ret|]. by apply psim_bind.
Qed.
Lemma psim_trans {S3 A} (R' : S2 -> S3 -> Prop) (m1 : M S1 E A) m2 m3 :
  psim R m1 m2 -> psim R' m2 m3 -> psim (fun s1 s3 => exists s2, R s1 s2 /\ R' s2 s3) m1 m3.
Proof.
  intros H1 H2 s1 s3 (s2 & Hs1 & Hs2) Hp. destruct (H1 _ _ Hs1 Hp) as [Hr Ht].
  rewrite <- Hr in Hp. destruct (H2 _ _ Hs2 Hp) as [Hr' Ht']. split; [congruence|eauto].
Qed.
(** A simulation is one short of panics. *)
Lemma sim_psim {A} (m1 : M S1 E A) m2 : sim R eq m1 m2 -> psim R m1 m2.
Proof.
  intros Hm s1 s2 Hs Hp. destruct (Hm s1 s2 Hs) as [Hr Ht]. split; [|done].
  destruct (m1 s1) as [[]], (m2 s2) as [[]]; simpl in *; by subst.
Qed.
End Psim.
#[export] Hint Resolve psim_ret psim_throw psim_panic psim_lift_res : spica.

(** Close a [psim] goal over a composed computation. *)
Ltac psim_tac :=
  repeat first
    [ progress intros
    | solve [eauto with spica typeclass_instances]
    | apply psim_bind
    | apply psim_map_err
    | apply psim_attempt
    | apply psim_forM
    | case_match; simplify_eq ].

(** ** The operations *)

(** Each operation has on [T2] the outcome it has on [T1]. *)
Class OpSim `{StorageTxn T1, StorageTxn T2} (R : T1 -> T2 -> Prop) : Prop :=
  op_sim op : psim R (perform (T:=T1) op) (perform (T:=T2) op).

Lemma psim_answer {T1 T2 A} (R : T1 -> T2 -> Prop) (f : A -> OpVal) m1 m2 :
  (forall a b, f a = f b -> a = b) -> psim R (answer f m1) (answer f m2) -> psim R m1 m2.
Proof.
  intros Hf Hm s1 s2 Hs Hp. specialize (Hm s1 s2 Hs). revert Hm. unfold answer, bind.
  destruct (m1 s1) as [[a|e|m] t1], (m2 s2) as [[b|e2|m2'] t2]; simpl in *; try done;
    intros Hm; destruct Hm as [Hr Ht]; try done.
  - injection Hr as Hr. by apply Hf in Hr as ->.
  - by simplify_eq.
Qed.

(** The same operation on two stores. *)
Inductive SameOp `{StorageTxn T1, StorageTxn T2} :
    forall A, M T1 StorageError A -> M T2 StorageError A -> Prop :=
  | same_execution r : SameOp _ (get_execution r) (get_execution r)
  | same_thread r : SameOp _ (get_thread r) (get_thread r)
  | same_variables r : SameOp _ (get_variables r) (get_variables r)
  | same_activity r : SameOp _ (get_activity r) (get_activity r)
  | same_task r : SameOp _ (get_task r) (get_task r)
  | same_children r : SameOp _ (get_children r) (get_children r)
  | same_activatable res now n : SameOp _ (activatable_tasks res now n) (activatable_tasks res now n)
  | same_flow n : SameOp _ (get_flow_by_name n) (get_flow_by_name n)
  | same_flow_version r : SameOp _ (get_flow_version r) (get_flow_version r)
  | same_version_of n v : SameOp _ (flow_version_of n v) (flow_version_of n v)
  | same_put_execution e : SameOp _ (put_execution e) (put_execution e)
  | same_put_thread t : SameOp _ (put_thread t) (put_thread t)
  | same_put_variables r v : SameOp _ (put_variables r v) (put_variables r v)
  | same_put_activity a : SameOp _ (put_activity a) (put_activity a)
  | same_put_task t : SameOp _ (put_task t) (put_task t)
  | same_remove_child p c : SameOp _ (remove_child p c) (remove_child p c)
  | same_add_child p c : SameOp _ (add_child p c) (add_child p c)
  | same_put_flow f : SameOp _ (put_flow f) (put_flow f)
  | same_put_flow_version v : SameOp _ (put_flow_version v) (put_flow_version v)
  | same_next_seq : SameOp _ (next_generated_seq) (next_generated_seq)
  | same_put_seq z : SameOp _ (put_next_generated_seq z) (put_next_generated_seq z).
#[export] Hint Constructors SameOp : spica.

Lemma same_op_sim `{StorageTxn T1, StorageTxn T2} (R : T1 -> T2 -> Prop) `{!OpSim R} A
    (m1 : M T1 StorageError A) m2 : SameOp A m1 m2 -> psim R m1 m2.
Proof.
  intros Hop. pose proof (op_sim (R:=R)) as Ho. destruct Hop as [r|r|r|r|r|r|res now n|n|r|n v|e|t|r v|a|t|p c|p c|f|v| |z].
  - apply (psim_answer R VExecution); [congruence|apply (Ho (OpGetExecution r))].
  - apply (psim_answer R VThread); [congruence|apply (Ho (OpGetThread r))].
  - apply (psim_answer R VVariables); [congruence|apply (Ho (OpGetVariables r))].
  - apply (psim_answer R VActivity); [congruence|apply (Ho (OpGetActivity r))].
  - apply (psim_answer R VTask); [congruence|apply (Ho (OpGetTask r))].
  - apply (psim_answer R VChildren); [congruence|apply (Ho (OpGetChildren r))].
  - apply (psim_answer R VTasks); [congruence|apply (Ho (OpActivatableTasks res now n))].
  - apply (psim_answer R VFlow); [congruence|apply (Ho (OpGetFlowByName n))].
  - apply (psim_answer R VFlowVersion); [congruence|apply (Ho (OpGetFlowVersion r))].
  - apply (psim_answer R VFlowVersion); [congruence|apply (Ho (OpFlowVersionOf n v))].
  - apply (psim_answer R (fun _ : unit => VUnit)); [by intros [] []|apply (Ho (OpPutExecution e))].
  - apply (psim_answer R (fun _ : unit => VUnit)); [by intros [] []|apply (Ho (OpPutThread t))].
  - apply (psim_answer R (fun _ : unit => VUnit)); [by intros [] []|apply (Ho (OpPutVariables r v))].
  - apply (psim_answer R (fun _ : unit => VUnit)); [by intros [] []|apply (Ho (OpPutActivity a))].
  - apply (psim_answer R (fun _ : unit => VUnit)); [by intros [] []|apply (Ho (OpPutTask t))].
  - apply (psim_answer R (fun _ : unit => VUnit)); [by intros [] []|apply (Ho (OpRemoveChild p c))].
  - apply (psim_answer R (fun _ : unit => VUnit)); [by intros [] []|apply (Ho (OpAddChild p c))].
  - apply (psim_answer R (fun _ : unit => VUnit)); [by intros [] []|apply (Ho (OpPutFlow f))].
  - apply (psim_answer R (fun _ : unit => VUnit)); [by intros [] []|apply (Ho (OpPutFlowVersion v))].
  - apply (psim_answer R VSeq); [congruence|apply (Ho (OpNextGeneratedSeq))].
  - apply (psim_answer R (fun _ : unit => VUnit)); [by intros [] []|apply (Ho (OpPutNextGeneratedSeq z))].
Qed.

(** ** The projection of events, and the primitives of a handler *)

(** Handler states over related transactions, equal otherwise. *)
Record hrel {T1 T2} `{JsonataLib} (R : T1 -> T2 -> Prop) (h1 : HSt T1) (h2 : HSt T2) : Prop := {
  hr_txn : R (h_txn h1) (h_txn h2);
  hr_entries : h_entries h1 = h_entries h2;
  hr_clock : h_clock h1 = h_clock h2;
  hr_ids : h_ids h1 = h_ids h2;
  hr_env : h_env h1 = h_env h2;
  hr_definitions : h_definitions h1 = h_definitions h2;
  hr_cause_id : h_cause_id h1 = h_cause_id h2 }.

Section Primitives.
Context `{Engine} {T1 T2 : Type} `{StorageTxn T1, StorageTxn T2} (R : T1 -> T2 -> Prop) `{!OpSim R}.
#[local] Hint Resolve same_op_sim : spica.
Notation HR := (hrel R).

Lemma psim_bump name :
  psim R (bump_generated_seq (T:=T1) name) (bump_generated_seq (T:=T2) name).
Proof. unfold bump_generated_seq, db. psim_tac. Qed.
#[local] Hint Resolve psim_bump : spica.
Lemma psim_dispatch_event ts e :
  psim R (dispatch_event (T:=T1) ts e) (dispatch_event (T:=T2) ts e).
Proof. destruct e; simpl; unfold_appliers; psim_tac. Qed.

Lemma psim_on_txn {E A} (m1 : M T1 E A) m2 : psim R m1 m2 -> psim HR (on_txn m1) (on_txn m2).
Proof.
  intros Hm s1 s2 [Hr ? ? ? ? ? ?]. specialize (Hm _ _ Hr). unfold on_txn.
  destruct (m1 (h_txn s1)) as [r1 t1], (m2 (h_txn s2)) as [r2 t2]. simpl. intros Hp.
  destruct (Hm Hp). by split.
Qed.
Lemma psim_now {E} : psim (E:=E) HR now now.
Proof. intros s1 s2 [] _. unfold now. simpl. split; [congruence|]. split; simpl; congruence. Qed.
Lemma psim_mint {E} : psim (E:=E) HR mint mint.
Proof. intros s1 s2 [] _. unfold mint. simpl. split; [congruence|]. split; simpl; congruence. Qed.
Lemma psim_on_env {E A} (m : M EvalEnv E A) : psim HR (on_env m) (on_env m).
Proof.
  intros s1 s2 [] _. unfold on_env. rewrite hr_env0. destruct (m (h_env s2)). by split.
Qed.
Lemma psim_cache {E} v sm : psim (E:=E) HR (cache_definition v sm) (cache_definition v sm).
Proof. intros s1 s2 [] _. split; [done|]. split; simpl; congruence. Qed.
Lemma psim_push {E} p : psim (E:=E) HR (push p) (push p).
Proof.
  intros s1 s2 [] _. unfold push, build, now, bind. simpl. split; [done|].
  split; simpl; congruence.
Qed.
Lemma psim_event {E} ev : psim (E:=E) HR (append_event ev) (append_event ev).
Proof.
  unfold append_event. intros s1 s2 Hs. pose proof Hs as [Ht He Hc Hi Hn Hd Hca].
  unfold build, now, bind, attempt, on_txn. simpl. rewrite Hc.
  pose proof (psim_dispatch_event (clock_at (h_clock s2)) ev _ _ Ht) as Hdis.
  destruct (dispatch_event _ ev (h_txn s1)) as [[]], (dispatch_event _ ev (h_txn s2)) as [[]];
    simpl in *; intros Hp; try done; destruct Hdis as [Hr Ht']; try done;
    (split; [done|]; split; simpl; congruence).
Qed.
Lemma psim_seq {E} : psim (E:=E) HR mint_generated_seq mint_generated_seq.
Proof.
  unfold mint_generated_seq. psim_tac; apply psim_on_txn; eauto with spica.
Qed.

#[local] Hint Resolve psim_on_txn psim_now psim_mint psim_on_env psim_cache psim_push psim_event
  psim_seq : spica.
Lemma psim_definitions {E A} k1 k2 :
  (forall d, psim HR (k1 d) (k2 d)) ->
  psim (E:=E) (A:=A) HR (bind get_st (fun s => k1 (h_definitions s)))
    (bind get_st (fun s => k2 (h_definitions s))).
Proof. intros Hk s1 s2 Hs. unfold bind, get_st. rewrite (hr_definitions _ _ _ Hs). by apply Hk. Qed.
Lemma psim_machine v : psim HR (machine v) (machine v).
Proof.
  refine (psim_definitions (fun d => match d !! v with Some m => ret m | None => _ end)
    (fun d => match d !! v with Some m => ret m | None => _ end) _).
  unfold sto. psim_tac.
Qed.
End Primitives.
#[export] Hint Resolve same_op_sim psim_dispatch_event psim_on_txn psim_now psim_mint psim_on_env
  psim_cache psim_push psim_event psim_seq psim_machine : spica.

(** ** The handlers *)
Section Handlers.
Context `{Engine} {T1 T2 : Type} `{StorageTxn T1, StorageTxn T2} (R : T1 -> T2 -> Prop) `{!OpSim R}.
Notation HR := (hrel R).

(** The same computation over the two stores. *)
Notation alike m := (psim HR m m) (only parsing).

Lemma psim_command {E} c : alike (append_command (E:=E) c).
Proof. apply psim_push. Qed.
Lemma psim_reject {E} i t r : alike (reject (E:=E) i t r).
Proof. apply psim_push. Qed.
Lemma psim_rejected {A} t r : alike (rejected (A:=A) t r).
Proof. apply psim_throw. Qed.
Lemma psim_rd {A} (m1 : M T1 StorageError A) m2 : SameOp _ m1 m2 -> psim HR (rd m1) (rd m2).
Proof. intros. unfold rd. psim_tac. Qed.
Lemma psim_sto {A} (m1 : M T1 StorageError A) m2 : SameOp _ m1 m2 -> psim HR (sto m1) (sto m2).
Proof. intros. unfold sto. psim_tac. Qed.
Lemma psim_read_ok {E A} (m1 : M T1 StorageError A) m2 :
  SameOp _ m1 m2 -> psim HR (read_ok (E:=E) m1) (read_ok m2).
Proof. intros. unfold read_ok. psim_tac. Qed.
#[local] Hint Resolve psim_command psim_reject psim_rejected psim_rd psim_sto psim_read_ok : spica.
Lemma psim_read_flat {E A} (m1 : M T1 StorageError (option A)) m2 :
  SameOp _ m1 m2 -> psim HR (read_flat (E:=E) m1) (read_flat m2).
Proof. intros. unfold read_flat. psim_tac. Qed.
Lemma psim_mark {E X} (x : X) f : alike (debug_assert_mark (E:=E) x f).
Proof. unfold debug_assert_mark. psim_tac. Qed.
#[local] Hint Resolve psim_read_flat psim_mark : spica.
Lemma psim_machine_for_thread t : alike (machine_for_thread t).
Proof. unfold machine_for_thread, resolve_thread_flow_version. psim_tac. Qed.
#[local] Hint Resolve psim_machine_for_thread : spica.
Lemma psim_machine_or_reject w t : alike (machine_or_reject w t).
Proof. unfold machine_or_reject. psim_tac. Qed.
Lemma psim_state_or_reject w sm p : alike (state_or_reject w sm p).
Proof. unfold state_or_reject. psim_tac. Qed.
Lemma psim_activity_open r : alike (activity_open r).
Proof. unfold activity_open. psim_tac. Qed.
#[local] Hint Resolve psim_machine_or_reject psim_state_or_reject psim_activity_open : spica.
Lemma psim_state_of r a : alike (state_of r a).
Proof. unfold state_of. psim_tac. Qed.
Lemma psim_resolve_for_continue w r a : alike (resolve_for_continue w r a).
Proof. unfold resolve_for_continue. psim_tac. Qed.
#[local] Hint Resolve psim_state_of psim_resolve_for_continue : spica.

Lemma psim_thread_open r : alike (thread_open r).
Proof. unfold thread_open. psim_tac. Qed.
Lemma psim_thread_completed r c : alike (thread_after_child_completed r c).
Proof. unfold thread_after_child_completed, thread_gone. psim_tac. Qed.
Lemma psim_thread_terminated r c : alike (thread_after_child_terminated r c).
Proof. unfold thread_after_child_terminated, thread_gone. psim_tac. Qed.
Lemma psim_execution_open r : alike (execution_open r).
Proof. unfold execution_open. psim_tac. Qed.
Lemma psim_execution_completed r c : alike (execution_after_child_completed r c).
Proof.
  unfold execution_after_child_completed, execution_gone, execution_completing_refused,
    execution_child_refused. psim_tac.
Qed.
Lemma psim_execution_terminated r c : alike (execution_after_child_terminated r c).
Proof.
  unfold execution_after_child_terminated, execution_gone, execution_completing_refused,
    execution_child_refused. psim_tac.
Qed.
#[local] Hint Resolve psim_thread_open psim_thread_completed psim_thread_terminated
  psim_execution_open psim_execution_completed psim_execution_terminated : spica.

Lemma psim_apply_assign o a st sc : alike (apply_assign o a st sc).
Proof. unfold apply_assign. psim_tac. Qed.
Lemma psim_project_output o st sc f : alike (project_output o st sc f).
Proof. unfold project_output. psim_tac. Qed.
Lemma psim_terminate_with {E} a e : alike (terminate_with (E:=E) a e).
Proof. unfold terminate_with. psim_tac. Qed.
#[local] Hint Resolve psim_apply_assign psim_project_output psim_terminate_with : spica.
Lemma psim_settle_next a n o : alike (settle_next a n o).
Proof. unfold settle_next. psim_tac. Qed.
Lemma psim_settle_end a o : alike (settle_end a o).
Proof. unfold settle_end. psim_tac. Qed.
Lemma psim_settle_failed a r : alike (settle_failed a r).
Proof. unfold settle_failed. psim_tac. Qed.
Lemma psim_settle_terminated a : alike (settle_terminated a).
Proof. unfold settle_terminated. psim_tac. Qed.
Lemma psim_process_finish a v asg o e n : alike (process_finish a v asg o e n).
Proof. unfold process_finish. psim_tac. Qed.
#[local] Hint Resolve psim_settle_next psim_settle_end psim_settle_failed
  psim_settle_terminated psim_process_finish : spica.
Lemma psim_finish_completing a p1 p2 :
  psim HR p1 p2 -> psim HR (finish_completing (T:=T1) a p1) (finish_completing (T:=T2) a p2).
Proof. intros. unfold finish_completing. psim_tac. Qed.
#[local] Hint Resolve psim_finish_completing : spica.

Lemma psim_cancel_tasks l : alike (cancel_tasks l).
Proof. unfold cancel_tasks. psim_tac. Qed.
#[local] Hint Resolve psim_cancel_tasks : spica.
Lemma psim_spawn_branches a bs i : alike (spawn_branches a bs i).
Proof. revert i. induction bs; intros i; simpl; psim_tac. Qed.
Lemma psim_collect_branches l : alike (collect_branches l).
Proof. induction l as [|[]]; simpl; psim_tac. Qed.
Lemma psim_spawn_items {E} st o a items i n : alike (spawn_items (E:=E) st o a items i n).
Proof. revert i. induction n; intros i; simpl; psim_tac. Qed.
Lemma psim_count_done l : alike (count_done l).
Proof. induction l as [|[]]; simpl; psim_tac. Qed.
Lemma psim_item_outputs l : alike (item_outputs l).
Proof. induction l as [|[]]; simpl; psim_tac. Qed.
Lemma psim_fail_container a r : alike (fail_container a r).
Proof. unfold fail_container. psim_tac. Qed.
#[local] Hint Resolve psim_spawn_branches psim_collect_branches psim_spawn_items
  psim_count_done psim_item_outputs psim_fail_container : spica.

(** Hooks of one state over the two stores. *)
Record handler_sim (h1 : StateHandler (T:=T1)) (h2 : StateHandler (T:=T2)) : Prop := {
  hm_initialize : initialize h1 = initialize h2;
  hm_process_input : process_input h1 = process_input h2;
  hm_complete_directly : complete_directly h1 = complete_directly h2;
  hm_after_activated a v s : psim HR (after_activated h1 a v s) (after_activated h2 a v s);
  hm_child_completed r a v c : psim HR (child_completed h1 r a v c) (child_completed h2 r a v c);
  hm_after_completing a v : psim HR (after_completing h1 a v) (after_completing h2 a v);
  hm_after_terminating a v : psim HR (after_terminating h1 a v) (after_terminating h2 a v);
  hm_on_failed a e : psim HR (on_failed h1 a e) (on_failed h2 a e) }.
#[local] Hint Resolve hm_after_activated hm_child_completed hm_after_completing
  hm_after_terminating hm_on_failed : spica.

Lemma psim_task_hooks st : handler_sim (task_handler st) (task_handler st).
Proof.
  split; intros; simpl; unfold task_after_activated, task_child_completed,
    task_after_terminating, task_on_failed, catch_assign; psim_tac.
Qed.
Lemma psim_parallel_hooks st : handler_sim (parallel_handler st) (parallel_handler st).
Proof.
  split; intros; simpl; unfold parallel_after_activated, parallel_child_completed,
    container_after_completing, container_after_terminating, default_on_failed; psim_tac.
Qed.
Lemma psim_map_hooks st : handler_sim (map_handler st) (map_handler st).
Proof.
  split; intros; simpl; unfold map_after_activated, map_child_completed,
    container_after_completing, container_after_terminating, default_on_failed; psim_tac.
Qed.
Lemma psim_create st : handler_sim (create st) (create st).
Proof.
  destruct st; try (by apply psim_task_hooks || by apply psim_parallel_hooks ||
    by apply psim_map_hooks); split; intros; simpl;
    unfold default_after_activated, default_child_completed, default_on_failed,
      process_succeed, process_choice; psim_tac.
Qed.

Lemma psim_handler_activate h1 h2 c t :
  handler_sim h1 h2 -> psim HR (handler_activate h1 c t) (handler_activate h2 c t).
Proof.
  intros Hh. unfold handler_activate.
  rewrite (hm_initialize _ _ Hh), (hm_process_input _ _ Hh), (hm_complete_directly _ _ Hh).
  psim_tac.
Qed.
Lemma psim_handler_complete h1 h2 c a t :
  handler_sim h1 h2 -> psim HR (handler_complete h1 c a t) (handler_complete h2 c a t).
Proof. intros Hh. unfold handler_complete. psim_tac. Qed.
Lemma psim_handler_terminate h1 h2 c a t :
  handler_sim h1 h2 -> psim HR (handler_terminate h1 c a t) (handler_terminate h2 c a t).
Proof. intros Hh. unfold handler_terminate. psim_tac. Qed.
#[local] Hint Resolve psim_create psim_handler_activate psim_handler_complete
  psim_handler_terminate : spica.

Lemma psim_settle_child r a t st c : alike (settle_child r a t st c).
Proof.
  unfold settle_child, hand_to_state. pose proof (psim_create st). psim_tac.
Qed.
#[local] Hint Resolve psim_settle_child : spica.
Lemma psim_activity_completed r c : alike (activity_after_child_completed r c).
Proof. unfold activity_after_child_completed. psim_tac. Qed.
Lemma psim_activity_terminated r c : alike (activity_after_child_terminated r c).
Proof. apply psim_activity_completed. Qed.
Lemma psim_activity_deadline r d : alike (activity_on_deadline_fired r d).
Proof. unfold activity_on_deadline_fired. psim_tac. Qed.
Lemma psim_sweep_children w r c : alike (sweep_activity_children w r c).
Proof. unfold sweep_activity_children. psim_tac. Qed.
Lemma psim_sweep_threads w c : alike (sweep_threads w c).
Proof. unfold sweep_threads. psim_tac. Qed.
Lemma psim_sweep_activities w c : alike (sweep_activities w c).
Proof. unfold sweep_activities. psim_tac. Qed.
#[local] Hint Resolve psim_activity_completed psim_activity_terminated psim_activity_deadline
  psim_sweep_children psim_sweep_threads psim_sweep_activities : spica.
Lemma psim_activity_continue_terminate r : alike (activity_continue_terminate r).
Proof. unfold activity_continue_terminate. psim_tac. Qed.
Lemma psim_activity_continue_complete r : alike (activity_continue_complete r).
Proof. unfold activity_continue_complete. psim_tac. Qed.
Lemma psim_resolve_and_terminate p a : alike (resolve_and_terminate p a).
Proof. unfold resolve_and_terminate. psim_tac. Qed.
#[local] Hint Resolve psim_activity_continue_terminate psim_activity_continue_complete
  psim_resolve_and_terminate : spica.

Lemma psim_owner_completed o c : alike (owner_after_child_completed o c).
Proof. destruct o; simpl; psim_tac. Qed.
Lemma psim_owner_terminated o c : alike (owner_after_child_terminated o c).
Proof. destruct o; simpl; psim_tac. Qed.
Lemma psim_owner_open o : alike (owner_open o).
Proof. destruct o; simpl; psim_tac. Qed.
#[local] Hint Resolve psim_owner_completed psim_owner_terminated psim_owner_open : spica.
Lemma psim_if_open o k1 k2 :
  psim HR k1 k2 -> psim HR (if_open (T:=T1) o k1) (if_open (T:=T2) o k2).
Proof. intros. unfold if_open. psim_tac. Qed.
Lemma psim_execution_deadline sm : alike (execution_deadline sm).
Proof. unfold execution_deadline. psim_tac. Qed.
#[local] Hint Resolve psim_if_open psim_execution_deadline : spica.

Lemma psim_threads :
  (forall p, alike (thread_spawn p)) /\ (forall p, alike (thread_complete p)) /\
  (forall p, alike (thread_terminate p)) /\
  (forall r, alike (thread_continue_complete r)) /\
  (forall r, alike (thread_continue_terminate r)).
Proof.
  unfold thread_spawn, thread_complete, thread_terminate, thread_continue_complete,
    thread_continue_terminate.
  split; [|split; [|split; [|split]]]; psim_tac.
Qed.
Lemma psim_tasks :
  (forall p, alike (task_activate p)) /\ (forall p, alike (task_claim p)) /\
  (forall p, alike (task_complete p)) /\ (forall p, alike (task_fail p)) /\
  (forall r, alike (task_cancel r)).
Proof.
  unfold task_activate, task_claim, task_complete, task_fail, task_cancel.
  split; [|split; [|split; [|split]]]; psim_tac.
Qed.


Lemma psim_executions :
  (forall p, alike (execution_create p)) /\ (forall p, alike (execution_complete p)) /\
  (forall p, alike (execution_terminate p)) /\
  (forall e t, alike (execution_on_deadline_fired e t)) /\
  (forall e, alike (execution_continue_complete e)) /\
  (forall e, alike (execution_continue_terminate e)).
Proof.
  unfold execution_create, execution_complete, execution_terminate, execution_on_deadline_fired,
    execution_gone, execution_continue_complete, execution_continue_terminate.
  split; [|split; [|split; [|split; [|split]]]]; psim_tac.
Qed.

(** Every command has over [T2] the outcome it has over [T1]. *)
Lemma dispatch_sim c : alike (dispatch_command c).
Proof.
  destruct psim_executions as (? & ? & ? & ? & ? & ?), psim_threads as (? & ? & ? & ? & ?),
    psim_tasks as (? & ? & ? & ? & ?).
  destruct c; simpl; unfold ActivateStateHandler, CompleteStateHandler, TerminateStateHandler,
    ContinueCompleteHandler, ContinueTerminateHandler, fire_deadline, flow_create; psim_tac.
Qed.
End Handlers.
