(* ===== verification/Leader.v ===== *)
(** The leader role ([crates/engine/src/leader.rs], [working.rs]): one command is
    dispatched against its own working transaction; an error of the engine's side is
    retried on a fresh one; what cannot be processed is answered with one [Reject]. *)
From S2P Require Import Prelude Names Timestamp Json Asl Errors Meta Entities Tasks Commands.
From S2P Require Import LogStream Storage Applier Eval Handler Containers StateHandler States.
From S2P Require Import TaskState FanOut ActivityElement Elements Dispatch.
Local Open Scope string_scope.
Local Open Scope Z_scope.

(** [trait Storage]: the store that opens and takes back transactions. *)
Class Storage (S T : Type) : Type := {
  storage_txn :: StorageTxn T;
  open_txn : M S StorageError T;
  commit_txn : T -> option Z -> M S StorageError unit;
  last_processed_position : M S StorageError Z }.

(** [impl Storage for InMemoryStorage]. *)
#[export] Instance memory_storage `{HashOrder} : Storage InMemoryDb InMemoryTxn := {
  open_txn d := (Ok (begin_txn d), d);
  commit_txn t w d :=
    match commit (mkTxn d (tx_batch t)) w with
    | Ok d' => (Ok tt, d')
    | Err e => (Err e, d)
    | Panic m => (Panic m, d)
    end;
  last_processed_position d := (Ok (db_last_processed_position d), d) }.

(** [MAX_COMMAND_ATTEMPTS], [COMMAND_RETRY_BACKOFF_MS], [command_retry_backoff]. *)
Definition MAX_COMMAND_ATTEMPTS : nat := 3.
Definition COMMAND_RETRY_BACKOFF_MS : Z := 50.
Definition command_retry_backoff (attempt : nat) : Z :=
  Z.shiftl COMMAND_RETRY_BACKOFF_MS (Z.of_nat attempt - 1).

(** A call of the injected [Hook]. *)
Inductive HookCall :=
  | on_event_applied (e : Event)
  | on_command_rejected (id : RequestId) (r : Reject).

(** The leader ([struct Leader]), the handles it works through, and what is observable of
    it: the hook calls made and the backoffs slept. *)
Record Node `{JsonataLib} (S : Type) := mkNode {
  nd_storage : S;
  nd_log : LogState;
  nd_definitions : gmap (ObjectRef FlowVersionKind) StateMachine;
  nd_env : EvalEnv;
  nd_watermark : Z;
  nd_last_applied : list Event;
  nd_clock : nat;
  nd_ids : nat;
  nd_hooks : list HookCall;
  nd_slept : list Z }.
Arguments mkNode {_ S}. Arguments nd_storage {_ S}. Arguments nd_log {_ S}.
Arguments nd_definitions {_ S}. Arguments nd_env {_ S}. Arguments nd_watermark {_ S}.
Arguments nd_last_applied {_ S}. Arguments nd_clock {_ S}. Arguments nd_ids {_ S}.
Arguments nd_hooks {_ S}. Arguments nd_slept {_ S}.

Definition events_of (l : list Entry) : list Event :=
  omap (fun e => match en_payload e with PEvent ev => Some ev | _ => None end) l.
Definition rejects_of (l : list Entry) : list Reject :=
  omap (fun e => match en_payload e with PReject r => Some r | _ => None end) l.
Definition commands_of (l : list Entry) : list Command :=
  omap (fun e => match en_payload e with PCommand c => Some c | _ => None end) l.

Section Leader.
Context `{Engine} {S T : Type} `{Storage S T}.
Notation NM := (M (Node S)).

Definition set_storage (n : Node S) (s : S) : Node S :=
  mkNode s (nd_log n) (nd_definitions n) (nd_env n) (nd_watermark n) (nd_last_applied n)
    (nd_clock n) (nd_ids n) (nd_hooks n) (nd_slept n).
Definition set_log (n : Node S) (g : LogState) : Node S :=
  mkNode (nd_storage n) g (nd_definitions n) (nd_env n) (nd_watermark n) (nd_last_applied n)
    (nd_clock n) (nd_ids n) (nd_hooks n) (nd_slept n).
Definition set_watermark (n : Node S) (w : Z) : Node S :=
  mkNode (nd_storage n) (nd_log n) (nd_definitions n) (nd_env n) w (nd_last_applied n)
    (nd_clock n) (nd_ids n) (nd_hooks n) (nd_slept n).
Definition set_last_applied (n : Node S) (l : list Event) : Node S :=
  mkNode (nd_storage n) (nd_log n) (nd_definitions n) (nd_env n) (nd_watermark n) l
    (nd_clock n) (nd_ids n) (nd_hooks n) (nd_slept n).
Definition add_hooks (n : Node S) (l : list HookCall) : Node S :=
  mkNode (nd_storage n) (nd_log n) (nd_definitions n) (nd_env n) (nd_watermark n)
    (nd_last_applied n) (nd_clock n) (nd_ids n) (nd_hooks n ++ l)%list (nd_slept n).
Definition add_sleep (n : Node S) (ms : Z) : Node S :=
  mkNode (nd_storage n) (nd_log n) (nd_definitions n) (nd_env n) (nd_watermark n)
    (nd_last_applied n) (nd_clock n) (nd_ids n) (nd_hooks n) (nd_slept n ++ [ms])%list.

(** A call on the store, and the conversion of its error. *)
Definition on_storage {E A} (m : M S E A) : NM E A :=
  fun n => let '(r, s') := m (nd_storage n) in (r, set_storage n s').
Definition node_now {E} : NM E Timestamp :=
  fun n => (Ok (clock_at (nd_clock n)),
            mkNode (nd_storage n) (nd_log n) (nd_definitions n) (nd_env n) (nd_watermark n)
              (nd_last_applied n) (1 + nd_clock n)%nat (nd_ids n) (nd_hooks n) (nd_slept n)).
Definition modify {E} (f : Node S -> Node S) : NM E unit := fun n => (Ok tt, f n).

(** The context one dispatch runs in, and what of it outlives the dispatch. *)
Definition open_context (n : Node S) (work : T) (entry_id : EntryId) : HSt T :=
  mkHSt work [] (nd_clock n) (nd_ids n) (nd_env n) (nd_definitions n) entry_id.
Definition close_context (n : Node S) (h : HSt T) : Node S :=
  mkNode (nd_storage n) (nd_log n) (h_definitions h) (h_env h) (nd_watermark n)
    (nd_last_applied n) (h_clock h) (h_ids h) (nd_hooks n) (nd_slept n).

(** [struct CommandProcessed]. *)
Record CommandProcessed := mkProcessed { cp_entries : list Entry; cp_work : T }.

(** [Leader::dispatch_once]. *)
Definition dispatch_once (entry_id : EntryId) (command : Command)
    : NM ProcessingError CommandProcessed :=
  let* work := map_err (fun e => Unexpected (from_storage e)) (on_storage open_txn) in
  fun n =>
    let '(r, h) := dispatch_command command (open_context n work entry_id) in
    let n' := close_context n h in
    match r with
    | Err e => (Err e, n')
    | Panic m => (Panic m, n')
    | Ok _ =>
        match h_entries h with
        | [] => (Panic "dispatch produced no entry; every command answers with an event, a follow-up command or a reject", n')
        | entries =>
            (Ok (mkProcessed entries (h_txn h)), set_last_applied n' (events_of entries))
        end
    end.

(** [Leader::reject_command]. *)
Definition rejection_of (err : ProcessingError) : RejectionType * string :=
  match err with
  | PRejected t reason => (t, reason)
  | Unexpected _ =>
      (Errors.ProcessingError,
       "dispatch failed on all " +:+ u64_to_string (Z.of_nat MAX_COMMAND_ATTEMPTS) +:+
       " attempts: " +:+ rejection_reason err)
  end.
Definition reject_command (entry_id : EntryId) (command : Command) (err : ProcessingError)
    : NM ExecutionError CommandProcessed :=
  let '(rejection_type, reason) := rejection_of err in
  let* work := map_err from_storage (on_storage open_txn) in
  let* t := node_now in
  ret (mkProcessed
         [mkEntry id_nil id_nil (Some entry_id) t
            (PReject (mkReject (default RequestId_nil (command_request_id command))
                        rejection_type reason))] work).

(** [Leader::process_command]: the loop, with [left] attempts after the current one. *)
Fixpoint process_loop (left : nat) (entry_id : EntryId) (command : Command)
    : NM ExecutionError CommandProcessed :=
  let* r := attempt (dispatch_once entry_id command) in
  match r with
  | inr produced => ret produced
  | inl err =>
      match is_unexpected err, left with
      | true, Datatypes.S left' =>
          modify (fun n => add_sleep n (command_retry_backoff (MAX_COMMAND_ATTEMPTS - left))) ;;;
          process_loop left' entry_id command
      | _, _ => reject_command entry_id command err
      end
  end.
Definition process_command : EntryId -> Command -> NM ExecutionError CommandProcessed :=
  process_loop (MAX_COMMAND_ATTEMPTS - 1).

(** [Leader::apply_event]: the projection, then the watermark moves up to the cause. *)
Definition leader_apply_event (txn : T) (timestamp : Timestamp) (cause_id : option EntryId)
    (event : Event) : NM ExecutionError (option Z * T) :=
  fun n =>
    let '(r, txn') := dispatch_event timestamp event txn in
    match r with
    | Err e => (Err e, n)
    | Panic m => (Panic m, n)
    | Ok _ =>
        let '(advanced, n') :=
          match cause_id with
          | Some cause =>
              if decide (nd_watermark n < cause) then (Some cause, set_watermark n cause)
              else (None, n)
          | None => (None, n)
          end in
        (Ok (advanced, txn'), set_last_applied n' [event])
    end.

(** [Leader::is_already_applied], [Leader::after_commit]. *)
Definition is_already_applied (n : Node S) (entry_id : EntryId) : bool :=
  bool_decide (entry_id <= nd_watermark n).
Definition after_commit {E} : NM E unit :=
  modify (fun n => set_last_applied (add_hooks n (map on_event_applied (nd_last_applied n))) []).

(** [Leader::dispatch], the dispatch of one command without a log. *)
Definition leader_dispatch (command : Command) (cause_id : EntryId)
    : NM ExecutionError (list Entry) :=
  let* work := map_err from_storage (on_storage open_txn) in
  fun n =>
    let '(r, h) := dispatch_command command (open_context n work cause_id) in
    match r with
    | Ok _ => (Ok (h_entries h), close_context n h)
    | Err (Unexpected e) => (Err e, close_context n h)
    | Err (PRejected t reason) =>
        let '(_, h') :=
          reject (E:=ExecutionError) (default RequestId_nil (command_request_id command)) t reason h in
        (Ok (h_entries h'), close_context n h')
    | Panic m => (Panic m, close_context n h)
    end.
End Leader.
