(* ===== verification/StreamProcessor.v ===== *)
(** The stream processor ([crates/engine/src/stream_processor.rs], [log.rs],
    [follower.rs], [engine.rs]): the loop that turns logged commands into batches, the
    startup recovery, the follower's fold, and the engine's command submission. *)
From S2P Require Import Prelude Names Timestamp Json Asl Errors Meta Entities Tasks Commands.
From S2P Require Import LogStream Storage Applier Eval Handler Dispatch Leader.
Local Open Scope string_scope.
Local Open Scope Z_scope.

(** [impl From<LogError> for ExecutionError]. *)
Definition from_log (e : LogError) : ExecutionError := Infra (Log (log_error_str e)).

(** [noop]: the mark that closes a batch. *)
Definition noop_entry (cause : option EntryId) (t : Timestamp) : Entry :=
  mkEntry id_nil id_nil cause t PNoop.

Definition is_noop (e : Entry) : bool :=
  match en_payload e with PNoop => true | _ => false end.

Section StreamProcessor.
Context `{Engine} {S T : Type} `{Storage S T}.
Notation NM := (M (Node S)).

(** [NoopTerminatedLogStream::append]. *)
Definition closed_append (entries : list Entry) : NM ExecutionError EntryId :=
  let* closed :=
    match last entries with
    | Some e =>
        if is_noop e then ret entries
        else let* t := node_now in ret (entries ++ [noop_entry None t])%list
    | None => let* t := node_now in ret [noop_entry None t]
    end in
  fun n =>
    let '(r, g) := log_append (nd_log n) closed in (res_map_err from_log r, set_log n g).

(** [EngineInner::append_command]. *)
Definition submit_command (command : Command) : NM ExecutionError unit :=
  let* t := node_now in
  closed_append [mkEntry id_nil id_nil None t (PCommand command)] ;;; ret tt.

(** ** The leader's loop *)

(** The produced entries and the closing mark, appended as one batch. *)
Definition append_batch (entry_id : EntryId) (entries : list Entry) : NM ExecutionError EntryId :=
  let* t := node_now in
  closed_append (entries ++ [noop_entry (Some entry_id) t])%list.

(** One iteration of [run_leader] on an entry. *)
Definition lead_entry (e : Entry) : NM ExecutionError unit :=
  match en_payload e with
  | PCommand command =>
      let* p := process_command (en_entry_id e) command in
      (match cp_entries p with
       | [] => ret tt
       | entries =>
           let* last := append_batch (en_entry_id e) entries in
           map_err from_storage (on_storage (commit_txn (cp_work p) (Some last))) ;;;
           modify (fun n => set_watermark n last) ;;;
           after_commit
       end) ;;;
      modify (fun n => add_hooks n
        (map (fun r => on_command_rejected (rj_request_id r) r) (rejects_of (cp_entries p))))
  | PEvent _ =>
      let* n := get_st in
      if debug_assertions && negb (is_already_applied n (en_entry_id e))
      then panic "leader read back an unapplied Event after recovery; not folding"
      else ret tt
  | PNoop | PReject _ => ret tt
  end.

(** [run_leader] from a position until the log has nothing more to read or [fuel] entries
    are processed; the position reached is returned. *)
Fixpoint run_leader (fuel : nat) (cursor : EntryId) : NM ExecutionError EntryId :=
  match fuel with
  | O => ret cursor
  | Datatypes.S fuel' =>
      let* n := get_st in
      match entry_at (nd_log n) cursor with
      | None => ret cursor
      | Some e => lead_entry e ;;; run_leader fuel' (cursor + 1)
      end
  end.

(** ** Recovery *)

(** One entry of the residual log, with the transaction of the open batch. *)
Definition recover_entry (inflight : option T) (e : Entry) : NM ExecutionError (option T) :=
  match en_payload e with
  | PCommand _ | PReject _ => ret inflight
  | PEvent event =>
      let* txn :=
        match inflight with
        | Some txn => ret txn
        | None => map_err from_storage (on_storage open_txn)
        end in
      let* applied := leader_apply_event txn (en_timestamp e) (en_cause_id e) event in
      ret (Some applied.2)
  | PNoop =>
      match inflight with
      | None => ret None
      | Some txn =>
          map_err from_storage (on_storage (commit_txn txn (Some (en_entry_id e)))) ;;; ret None
      end
  end.
Fixpoint recover_loop (fuel : nat) (pos : EntryId) (inflight : option T)
    : NM ExecutionError unit :=
  match fuel with
  | O => panic "recovery ran past the durable tail"
  | Datatypes.S fuel' =>
      let* n := get_st in
      let* entry := lift_res (res_map_err from_log (log_read (nd_log n) pos)) in
      match entry with
      | None => ret tt
      | Some e =>
          let* inflight := recover_entry inflight e in
          recover_loop fuel' (pos + 1) inflight
      end
  end.

(** [recover_leader]; the loop visits each entry of the log at most once. *)
Definition recover_leader (watermark : Z) : NM ExecutionError Z :=
  let* n := get_st in
  recover_loop (Datatypes.S (length (lg_entries (nd_log n)))) (watermark + 1) None ;;;
  map_err from_storage (on_storage last_processed_position).

(** [StreamProcessor::run] of the leader up to its tail loop: the position it tails from. *)
Definition start_leader : NM ExecutionError EntryId :=
  let* watermark := map_err from_storage (on_storage last_processed_position) in
  modify (fun n => set_watermark n watermark) ;;;
  let* w := recover_leader watermark in
  modify (fun n => set_watermark n w) ;;;
  ret (w + 1).
Definition run_processor (fuel : nat) : NM ExecutionError EntryId :=
  let* from := start_leader in run_leader fuel (if decide (from = id_nil) then 1 else from).

(** A process restart: the log and the store survive, everything else starts over. *)
Definition restart (n : Node S) : Node S :=
  mkNode (nd_storage n) (nd_log n) ∅ EvalEnv_new 0 [] (nd_clock n) (nd_ids n) [] [].

(** ** The follower *)

(** [struct Follower] and the store it folds into. *)
Record FollowerSt := mkFollower { fo_storage : S; fo_watermark : Z }.
Notation FM := (M FollowerSt).
Definition fo_on {E A} (m : M S E A) : FM E A :=
  fun f => let '(r, s') := m (fo_storage f) in (r, mkFollower s' (fo_watermark f)).

(** [Follower::set_resume_position], [Follower::apply_event], [Follower::commit_at_noop]. *)
Definition set_resume_position {E} (position : Z) : FM E unit :=
  fun f => (Ok tt, mkFollower (fo_storage f) position).
Definition follower_apply_event (txn : T) (timestamp : Timestamp) (event : Event)
    : FM ExecutionError (option Z * T) :=
  fun f => let '(r, txn') := dispatch_event timestamp event txn in
           (lift_res r ;;; ret (None, txn')) f.
Definition commit_at_noop (entry_id : EntryId) : FM ExecutionError (option Z) :=
  fun f => (Ok (Some entry_id), mkFollower (fo_storage f) entry_id).

(** One iteration of [run_follower]. *)
Definition follow_entry (inflight : option T) (e : Entry) : FM ExecutionError (option T) :=
  match en_payload e with
  | PCommand _ | PReject _ => ret inflight
  | PEvent event =>
      let* txn :=
        match inflight with
        | Some txn => ret txn
        | None => map_err from_storage (fo_on open_txn)
        end in
      let* applied := follower_apply_event txn (en_timestamp e) event in
      ret (Some applied.2)
  | PNoop =>
      match inflight with
      | None => ret None
      | Some txn =>
          let* w := commit_at_noop (en_entry_id e) in
          map_err from_storage (fo_on (commit_txn txn w)) ;;; ret None
      end
  end.
Fixpoint follow (entries : list Entry) (inflight : option T) : FM ExecutionError (option T) :=
  match entries with
  | [] => ret inflight
  | e :: entries' => let* inflight := follow_entry inflight e in follow entries' inflight
  end.

(** [run] of a follower over what the log holds. *)
Definition run_follower (g : LogState) : FM ExecutionError unit :=
  let* w := map_err from_storage (fo_on last_processed_position) in
  set_resume_position w ;;;
  follow (stream_read g (w + 1)) None ;;; ret tt.
End StreamProcessor.
