(* ===== verification/Working.v ===== *)
(** The working overlay of one command ([crates/engine/src/working.rs]): a transaction that is
    gone once it has been committed. Handlers see its reads, the collector its projection and
    its counter. Elsewhere a handler runs on the transaction itself; here that is justified:
    as long as the transaction is there, a command has on the overlay the outcome it has on the
    transaction. *)
From S2P Require Import Prelude Names Timestamp Json Asl Errors Meta Entities Tasks Commands.
From S2P Require Import LogStream Storage StorageFacts Applier ApplierFacts Eval Handler.
From S2P Require Import Containers StateHandler States TaskState FanOut ActivityElement Elements.
From S2P Require Import Dispatch HandlerFacts RocksFacts HandlerSim Leader.
Local Open Scope string_scope.

(** [struct WorkingState], [WorkingState::new], [WorkingState::empty]. *)
Record WorkingState (T : Type) := mkWorking { ws_txn : option T }.
Arguments mkWorking {T}. Arguments ws_txn {T}.
Definition WorkingState_new {T} (txn : T) : WorkingState T := mkWorking (Some txn).
Definition WorkingState_empty {T} : WorkingState T := mkWorking None.

(** [txn.as_mut().expect("working txn alive during dispatch")], and the call on it. *)
Definition alive {T E A} (m : M T E A) : M (WorkingState T) E A :=
  fun w => match ws_txn w with
           | Some t => let '(r, t') := m t in (r, mkWorking (Some t'))
           | None => (Panic "working txn alive during dispatch", w)
           end.

Section Working.
Context `{Engine} {S T : Type} `{Storage S T}.
Notation WM := (M (WorkingState T)).

(** [WorkingState::apply_projection]. *)
Definition apply_projection (event : Event) (timestamp : Timestamp) : WM ExecutionError unit :=
  fun w => match ws_txn w with
           | None => (Ok tt, w)
           | Some t => let '(r, t') := dispatch_event timestamp event t in (r, mkWorking (Some t'))
           end.

(** [WorkingState::commit]: the overlay is consumed. *)
Definition working_commit (w : WorkingState T) (watermark : option Z) : M S ExecutionError unit :=
  match ws_txn w with
  | Some t => map_err from_storage (commit_txn t watermark)
  | None => ret tt
  end.

(** [impl ReadonlyStorageTxn for WorkingState]; the writes are the ones the projection and the
    counter make on the transaction. *)
#[export] Instance WorkingState_ops : StorageTxn (WorkingState T) := {
  get_execution reference := alive (get_execution reference);
  get_thread reference := alive (get_thread reference);
  get_variables reference := alive (get_variables reference);
  get_activity reference := alive (get_activity reference);
  get_task reference := alive (get_task reference);
  get_children id := alive (get_children id);
  activatable_tasks resource now limit := alive (activatable_tasks resource now limit);
  get_flow_by_name name := alive (get_flow_by_name name);
  get_flow_version version := alive (get_flow_version version);
  flow_version_of name version := alive (flow_version_of name version);
  put_execution e := alive (put_execution e);
  put_thread t := alive (put_thread t);
  put_variables r v := alive (put_variables r v);
  put_activity a := alive (put_activity a);
  put_task t := alive (put_task t);
  remove_child p c := alive (remove_child p c);
  add_child p c := alive (add_child p c);
  put_flow f := alive (put_flow f);
  put_flow_version v := alive (put_flow_version v);
  next_generated_seq := alive next_generated_seq;
  put_next_generated_seq z := alive (put_next_generated_seq z) }.

(** ** The overlay and its transaction *)

Definition overlays (t : T) (w : WorkingState T) : Prop := w = WorkingState_new t.
Lemma alive_sim {E A} (m : M T E A) : psim overlays m (alive m).
Proof. intros t w -> _. unfold alive. simpl. by destruct (m t). Qed.
#[export] Instance overlays_ops : OpSim overlays.
Proof.
  intros op. destruct op; apply psim_bind; try (exact (alive_sim _)); intros; apply psim_ret.
Qed.

(** A handler's state over the overlay of its transaction. *)
Definition over_working (h : HSt T) : HSt (WorkingState T) :=
  mkHSt (WorkingState_new (h_txn h)) (h_entries h) (h_clock h) (h_ids h) (h_env h)
    (h_definitions h) (h_cause_id h).

(** While the transaction is there, dispatching a command on the overlay gives what it gives
    on the transaction, and the transaction is still there; the projection the collector calls
    is the fold of the event; and the commit of the overlay is the commit of the transaction.
    Once it is gone, a projection and a commit do nothing. *)
Theorem working_state_is_its_transaction (c : Command) (ev : Event) (ts : Timestamp) (h : HSt T)
    (watermark : option Z) (s : S) :
  (not_panic (dispatch_command c h).1 ->
   dispatch_command c (over_working h) =
     ((dispatch_command c h).1, over_working (dispatch_command c h).2)) /\
  (not_panic (dispatch_event ts ev (h_txn h)).1 ->
   apply_projection ev ts (WorkingState_new (h_txn h)) =
     dispatch_event ts ev (WorkingState_new (h_txn h))) /\
  working_commit (WorkingState_new (h_txn h)) watermark s =
    map_err from_storage (commit_txn (h_txn h) watermark) s /\
  apply_projection ev ts WorkingState_empty = (Ok tt, WorkingState_empty) /\
  working_commit WorkingState_empty watermark s = (Ok tt, s).
Proof.
  split_and!; [| |done..].
  - intros Hp. destruct (dispatch_sim overlays c h (over_working h)) as [Hr Hh]; [by split|done|].
    destruct (dispatch_command c (over_working h)) as [r hw]. simpl in *. subst r. f_equal.
    destruct Hh as [Ht]. destruct hw. simpl in *. unfold overlays in Ht. by subst.
  - intros Hp. destruct (psim_dispatch_event overlays ts ev (h_txn h) _ eq_refl Hp) as [Hr Ht].
    unfold apply_projection. simpl. destruct (dispatch_event ts ev (h_txn h)) as [r t'].
    unfold overlays in Ht. destruct (dispatch_event ts ev (WorkingState_new _)). simpl in *.
    by subst.
Qed.
End Working.
