(* ===== verification/LeaderSim.v ===== *)
(** The leader over two stores: when each operation, opening and commit of one store has its
    outcome on the other, short of a panic on the first, so have the dispatch of a command,
    its retries, the leader's loop and the startup recovery. *)
From S2P Require Import Prelude Names Timestamp Json Asl Errors Meta Entities Tasks Commands.
From S2P Require Import LogStream Storage Applier Eval Handler Dispatch HandlerSim Leader.
From S2P Require Import StreamProcessor.
Local Open Scope Z_scope.

(** A script of what happens to a node: a submission, a start of the leader, its loop from a
    position on, a stop between the append of a batch and its commit, a stop. *)
Inductive NodeAct :=
  | ActSubmit (c : Command)
  | ActStart (fuel : nat)
  | ActLead (fuel : nat) (cursor : EntryId)
  | ActCrash (id : EntryId) (c : Command)
  | ActStop.
Definition node_act `{Engine} {S T} `{Storage S T} (a : NodeAct)
    : M (Node S) ExecutionError unit :=
  match a with
  | ActSubmit c => submit_command c
  | ActStart fuel => run_processor fuel ;;; ret tt
  | ActLead fuel cursor => run_leader fuel cursor ;;; ret tt
  | ActCrash id c =>
      let* p := process_command id c in
      append_batch id (cp_entries p) ;;; modify restart
  | ActStop => modify restart
  end.
Definition node_acts `{Engine} {S T} `{Storage S T} (l : list NodeAct)
    : M (Node S) ExecutionError unit :=
  forM_ l node_act.

(** ** Relational triples *)

(** From states related by [P], unless [m1] panics, both computations return values and reach
    states related by [Q], or fail with one error and reach states related by [X]. *)
Definition tri {S1 S2 E A B} (P : S1 -> S2 -> Prop) (Q : A -> B -> S1 -> S2 -> Prop)
    (X : S1 -> S2 -> Prop) (m1 : M S1 E A) (m2 : M S2 E B) : Prop :=
  forall s1 s2, P s1 s2 -> not_panic (m1 s1).1 ->
    match m1 s1, m2 s2 with
    | (Ok a, t1), (Ok b, t2) => Q a b t1 t2
    | (Err e1, t1), (Err e2, t2) => e1 = e2 /\ X t1 t2
    | _, _ => False
    end.

Section Triples.
Context {S1 S2 E : Type}.
Implicit Types P X : S1 -> S2 -> Prop.

Lemma tri_ret {A B} P X (Q : A -> B -> S1 -> S2 -> Prop) a b :
  (forall s1 s2, P s1 s2 -> Q a b s1 s2) -> tri (E:=E) P Q X (ret a) (ret b).
Proof. intros HQ s1 s2 Hs _. by apply HQ. Qed.
Lemma tri_lift_res {A} P X (Q : A -> A -> S1 -> S2 -> Prop) (r : Res E A) :
  (forall a s1 s2, P s1 s2 -> Q a a s1 s2) -> (forall s1 s2, P s1 s2 -> X s1 s2) ->
  tri P Q X (lift_res r) (lift_res r).
Proof. intros HQ HX s1 s2 Hs Hp. destruct r; simpl in *; auto. Qed.
Lemma tri_panic {A B} P X (Q : A -> B -> S1 -> S2 -> Prop) msg (m : M S2 E B) :
  tri P Q X (panic msg) m.
Proof. by intros s1 s2 _ []. Qed.

Lemma tri_pure {A B} (phi : Prop) P (Q : A -> B -> S1 -> S2 -> Prop) X (m1 : M S1 E A) m2 :
  (phi -> tri P Q X m1 m2) -> tri (fun s1 s2 => phi /\ P s1 s2) Q X m1 m2.
Proof. intros Hm s1 s2 [Hphi Hs]. by apply Hm. Qed.
Lemma tri_bind {A B A' B'} P Q R X (m1 : M S1 E A) (m2 : M S2 E B) (k1 : A -> M S1 E A')
    (k2 : B -> M S2 E B') :
  tri P Q X m1 m2 -> (forall a b, tri (Q a b) R X (k1 a) (k2 b)) ->
  tri P R X (bind m1 k1) (bind m2 k2).
Proof.
  intros Hm Hk s1 s2 Hs. specialize (Hm s1 s2 Hs). unfold bind.
  destruct (m1 s1) as [[a|e|m] t1], (m2 s2) as [[b|e'|m'] t2]; simpl in *; intros Hp;
    try done; specialize (Hm I); try done. by apply Hk.
Qed.

Lemma tri_conseq {A B} P P' (Q Q' : A -> B -> S1 -> S2 -> Prop) X X' (m1 : M S1 E A) m2 :
  tri P Q X m1 m2 -> (forall s1 s2, P' s1 s2 -> P s1 s2) ->
  (forall a b s1 s2, Q a b s1 s2 -> Q' a b s1 s2) -> (forall s1 s2, X s1 s2 -> X' s1 s2) ->
  tri P' Q' X' m1 m2.
Proof.
  intros Hm HP HQ HX s1 s2 Hs Hp. specialize (Hm s1 s2 (HP _ _ Hs) Hp).
  destruct (m1 s1) as [[] ?], (m2 s2) as [[] ?]; try done; [auto|]. destruct Hm. auto.
Qed.

Lemma tri_map_err {F A B} P Q X (f : F -> E) (m1 : M S1 F A) (m2 : M S2 F B) :
  tri P Q X m1 m2 -> tri P Q X (map_err f m1) (map_err f m2).
Proof.
  intros Hm s1 s2 Hs. specialize (Hm s1 s2 Hs). unfold map_err.
  destruct (m1 s1) as [[] ?], (m2 s2) as [[] ?]; simpl in *; intros Hp; try by apply Hm.
  destruct (Hm I). by subst.
Qed.

(** What [attempt] hands on: one error, or related values. *)
Definition tried {F A B} (Q : A -> B -> S1 -> S2 -> Prop) X (r1 : F + A) (r2 : F + B) s1 s2 : Prop :=
  match r1, r2 with
  | inl e1, inl e2 => e1 = e2 /\ X s1 s2
  | inr a, inr b => Q a b s1 s2
  | _, _ => False
  end.
Lemma tri_attempt {F A B} P Q X X' (m1 : M S1 F A) (m2 : M S2 F B) :
  tri P Q X m1 m2 -> tri (E:=E) P (tried Q X) X' (attempt m1) (attempt m2).
Proof.
  intros Hm s1 s2 Hs. specialize (Hm s1 s2 Hs). unfold attempt.
  destruct (m1 s1) as [[] ?], (m2 s2) as [[] ?]; simpl in *; intros Hp; by apply Hm.
Qed.
End Triples.

(** ** Two stores *)

(** The promise of one store to another: related stores open related transactions, whose
    operations agree; committing them leaves related stores; the positions agree. *)
Class StoreSim `{Storage S1 T1, Storage S2 T2} (RS : S1 -> S2 -> Prop)
    (RT : S1 -> S2 -> T1 -> T2 -> Prop) : Prop := {
  txn_sim s1 s2 :: OpSim (RT s1 s2);
  open_sim s1 s2 : RS s1 s2 ->
    exists t1 t2, open_txn s1 = (Ok t1, s1) /\ open_txn s2 = (Ok t2, s2) /\ RT s1 s2 t1 t2;
  commit_sim s1 s2 t1 t2 w : RS s1 s2 -> RT s1 s2 t1 t2 -> not_panic (commit_txn t1 w s1).1 ->
    exists s1' s2', commit_txn t1 w s1 = (Ok tt, s1') /\ commit_txn t2 w s2 = (Ok tt, s2') /\
      RS s1' s2';
  position_sim s1 s2 : RS s1 s2 ->
    exists p, last_processed_position s1 = (Ok p, s1) /\ last_processed_position s2 = (Ok p, s2) }.

Section Nodes.
Context `{Engine} {S1 T1 S2 T2 : Type} `{Storage S1 T1, Storage S2 T2}.
Context (RS : S1 -> S2 -> Prop) (RT : S1 -> S2 -> T1 -> T2 -> Prop) `{!StoreSim RS RT}.

(** The node over another store. *)
Definition over_store {S S'} (n : Node S) (s : S') : Node S' :=
  mkNode s (nd_log n) (nd_definitions n) (nd_env n) (nd_watermark n) (nd_last_applied n)
    (nd_clock n) (nd_ids n) (nd_hooks n) (nd_slept n).

(** Nodes over two given stores, and over related ones, equal otherwise. *)
Definition at_stores (s1 : S1) (s2 : S2) (n1 : Node S1) (n2 : Node S2) : Prop :=
  nd_storage n1 = s1 /\ n2 = over_store n1 s2.
Definition nodes (n1 : Node S1) (n2 : Node S2) : Prop :=
  exists s1 s2, RS s1 s2 /\ at_stores s1 s2 n1 n2.

(** Between two commits. *)
Section Inner.
Context (s1 : S1) (s2 : S2) (Hs : RS s1 s2).
Notation AT := (at_stores s1 s2).
Notation with_val RA := (fun a b n1 n2 => RA a b /\ AT n1 n2).

Lemma tri_now {E} : tri (E:=E) AT (with_val eq) AT node_now node_now.
Proof. intros n1 n2 [Hn1 ->] _. by split_and!. Qed.

Lemma tri_open {E} (f : StorageError -> E) :
  tri AT (with_val (RT s1 s2)) AT (map_err f (on_storage open_txn)) (map_err f (on_storage open_txn)).
Proof.
  apply tri_map_err. intros n1 n2 [<- ->] _. destruct (open_sim _ _ Hs) as (t1 & t2 & H1' & H2' & Ht).
  unfold on_storage. simpl. rewrite H1', H2'. by split_and!.
Qed.

Lemma tri_modify {E} (f1 : Node S1 -> Node S1) (f2 : Node S2 -> Node S2) :
  (forall n1 n2, AT n1 n2 -> AT (f1 n1) (f2 n2)) ->
  tri (E:=E) AT (with_val eq) AT (modify f1) (modify f2).
Proof. intros Hf n1 n2 Hn _. simpl. split; [done|by apply Hf]. Qed.

Lemma tri_get {E A B} (k1 : Node S1 -> M (Node S1) E A) (k2 : Node S2 -> M (Node S2) E B) Q X :
  (forall n1 n2, AT n1 n2 -> tri (fun m1 m2 => m1 = n1 /\ m2 = n2) Q X (k1 n1) (k2 n2)) ->
  tri AT Q X (bind get_st k1) (bind get_st k2).
Proof. intros Hk n1 n2 Hn. by apply (Hk n1 n2 Hn). Qed.

Lemma tri_closed_append l : tri AT (with_val eq) AT (closed_append l) (closed_append l).
Proof.
  unfold closed_append. apply tri_bind with (Q := with_val eq).
  - assert (forall k : Timestamp -> list Entry,
      tri (E:=ExecutionError) AT (with_val eq) AT
        (let* t := node_now in ret (k t)) (let* t := node_now in ret (k t)))
      as Hmark.
    { intros k. eapply tri_bind; [apply tri_now|]. intros t ?. apply tri_ret. by intros ? ? [-> ?]. }
    destruct (last l) as [e|]; [destruct (is_noop e)|]; [by apply tri_ret|apply Hmark..].
  - intros a b n1 n2 [-> [<- ->]]. simpl.
    destruct (log_append (nd_log n1) b) as [[]]; simpl; intros Hp; [by split_and!..|done].
Qed.
Lemma tri_append_batch id l : tri AT (with_val eq) AT (append_batch id l) (append_batch id l).
Proof.
  unfold append_batch. eapply tri_bind; [apply tri_now|]. intros t ? n1 n2 [-> Hn].
  by apply tri_closed_append.
Qed.

(** A processed command on both sides. *)
Definition processed (p1 : CommandProcessed (T:=T1)) (p2 : CommandProcessed (T:=T2)) : Prop :=
  cp_entries p1 = cp_entries p2 /\ RT s1 s2 (cp_work p1) (cp_work p2).

Lemma tri_dispatch_once id c :
  tri AT (with_val processed) AT (dispatch_once id c) (dispatch_once id c).
Proof.
  unfold dispatch_once. eapply tri_bind; [apply tri_open|].
  intros t1 t2 n1 n2 [Ht [Hst ->]].
  assert (hrel (RT s1 s2) (open_context n1 t1 id) (open_context (over_store n1 s2) t2 id))
    as Hh by by split.
  pose proof (dispatch_sim (RT s1 s2) c _ _ Hh) as Hd.
  destruct (dispatch_command c (open_context n1 t1 id)) as [[a|e|m] h1]; simpl in *; [..|done];
    destruct Hd as [Hr [Ht' He Hc Hi Hn Hdf Hca]]; [done| |done|];
    destruct (dispatch_command c (open_context (over_store n1 s2) t2 id)) as [r2 h2];
    simpl in *; subst r2.
  - rewrite <- He. destruct (h_entries h1) eqn:E; simpl; [done|]. intros _.
    split; [by split|split; [done|]].
    unfold over_store, close_context, set_last_applied. simpl. congruence.
  - intros _. do 2 (split; [done|]). unfold over_store, close_context. simpl. congruence.
Qed.

Lemma tri_reject_command id c e :
  tri AT (with_val processed) AT (reject_command id c e) (reject_command id c e).
Proof.
  unfold reject_command. destruct (rejection_of e) as [t r].
  eapply tri_bind; [apply tri_open|]. intros t1 t2 n1 n2 [Ht Hn].
  eapply (tri_bind AT); [apply tri_now| |done]. intros ts ?. apply tri_ret. by intros ? ? [-> ?].
Qed.

Lemma tri_process_loop left id c :
  tri AT (with_val processed) AT (process_loop left id c) (process_loop left id c).
Proof.
  induction left as [|left IH]; simpl;
    (eapply tri_bind; [by apply tri_attempt, tri_dispatch_once|]);
    intros [e1|p1] [e2|p2]; simpl; try (by intros ? ? []); try (by apply tri_ret);
    apply tri_pure; intros ->.
  - destruct (is_unexpected e2); apply tri_reject_command.
  - destruct (is_unexpected e2); [|apply tri_reject_command].
    eapply tri_bind; [apply tri_modify|]; [by intros ? ? [<- ->]|].
    intros ? ?. apply tri_pure. by intros _.
Qed.
Lemma tri_process_command id c :
  tri AT (with_val processed) AT (process_command id c) (process_command id c).
Proof. apply tri_process_loop. Qed.

Lemma tri_apply_event t1 t2 ts cause ev :
  RT s1 s2 t1 t2 ->
  tri AT (with_val (fun a b => a.1 = b.1 /\ RT s1 s2 a.2 b.2)) AT
    (leader_apply_event t1 ts cause ev) (leader_apply_event t2 ts cause ev).
Proof.
  intros Ht n1 n2 [Hst ->]. unfold leader_apply_event.
  pose proof (psim_dispatch_event (RT s1 s2) ts ev _ _ Ht) as Hd.
  destruct (dispatch_event ts ev t1) as [[a|e|m] t1']; simpl in *; [..|done];
    destruct Hd as [Hr Ht']; [done| |done|];
    destruct (dispatch_event ts ev t2) as [r2 t2']; simpl in *; subst r2; intros _; [|done].
  destruct cause as [cause|]; [case_decide|]; by split_and!.
Qed.

Lemma at_nodes n1 n2 : AT n1 n2 -> nodes n1 n2.
Proof. intros Hn. by exists s1, s2. Qed.
Lemma inner_nodes {E A B} (RA : A -> B -> Prop) (m1 : M (Node S1) E A) m2 :
  tri AT (with_val RA) AT m1 m2 -> tri AT (with_val RA) nodes m1 m2.
Proof. intros Hm. eapply tri_conseq; eauto using at_nodes. Qed.

(** A commit leaves nodes over related stores. *)
Lemma tri_commit {E} (f : StorageError -> E) t1 t2 w :
  RT s1 s2 t1 t2 ->
  tri AT (fun _ _ => nodes) nodes (map_err f (on_storage (commit_txn t1 w)))
    (map_err f (on_storage (commit_txn t2 w))).
Proof.
  intros Ht. apply tri_map_err. intros n1 n2 [Hst ->]. unfold on_storage. simpl. rewrite Hst.
  intros Hp. destruct (commit_sim s1 s2 t1 t2 w Hs Ht) as (s1' & s2' & H1' & H2' & Hr).
  { by destruct (commit_txn t1 w s1). }
  rewrite H1', H2'. by exists s1', s2'.
Qed.

Lemma tri_position {E} (f : StorageError -> E) :
  tri AT (with_val eq) nodes (map_err f (on_storage last_processed_position))
    (map_err f (on_storage last_processed_position)).
Proof.
  apply tri_map_err. intros n1 n2 [Hst ->] _. destruct (position_sim _ _ Hs) as (p & H1' & H2').
  unfold on_storage. simpl. rewrite Hst, H1', H2'. split; [done|]. by destruct n1; simpl in *; subst.
Qed.
End Inner.

(** ** The loops *)
Notation NODES RA := (tri nodes (fun a b n1 n2 => RA a b /\ nodes n1 n2) nodes).
Notation alike m := (NODES eq m m) (only parsing).

Lemma tri_nodes {E A B} Q X (m1 : M (Node S1) E A) (m2 : M (Node S2) E B) :
  (forall s1 s2, RS s1 s2 -> tri (at_stores s1 s2) Q X m1 m2) -> tri nodes Q X m1 m2.
Proof. intros Hm n1 n2 (s1 & s2 & Hs & Hn). by apply (Hm s1 s2 Hs). Qed.
Lemma nodes_inner {E A B} (RA : A -> B -> Prop) (m1 : M (Node S1) E A) m2 :
  (forall s1 s2, RS s1 s2 ->
     tri (at_stores s1 s2) (fun a b n1 n2 => RA a b /\ at_stores s1 s2 n1 n2)
       (at_stores s1 s2) m1 m2) -> NODES RA m1 m2.
Proof.
  intros Hm. apply tri_nodes. intros s1 s2 Hs.
  eapply tri_conseq; [by apply Hm|done| |]; [intros ? ? ? ? []; split; [done|]|intros ? ?];
    by apply (at_nodes s1 s2 Hs).
Qed.
Lemma nodes_modify {E} (f1 : Node S1 -> Node S1) (f2 : Node S2 -> Node S2) :
  (forall s1 s2 n1 n2, at_stores s1 s2 n1 n2 -> at_stores s1 s2 (f1 n1) (f2 n2)) ->
  NODES eq (modify (E:=E) f1) (modify f2).
Proof. intros Hf. apply nodes_inner. intros s1 s2 _. apply tri_modify. eauto. Qed.
Lemma nodes_bind {E A B} (m1 : M (Node S1) E A) m2 (k1 : A -> M (Node S1) E B) k2 :
  NODES eq m1 m2 -> (forall a, NODES eq (k1 a) (k2 a)) -> NODES eq (bind m1 k1) (bind m2 k2).
Proof.
  intros Hm Hk. eapply tri_bind; [exact Hm|]. intros a b. apply tri_pure. by intros ->.
Qed.
Lemma nodes_ret {E A} (a : A) : alike (ret (E:=E) a).
Proof. by apply tri_ret. Qed.

Lemma nodes_submit c : alike (submit_command c).
Proof.
  unfold submit_command. apply nodes_bind; [apply nodes_inner; intros; by apply tri_now|]. intros t.
  apply nodes_bind; [apply nodes_inner; intros; by apply tri_closed_append|].
  intros ?. apply nodes_ret.
Qed.

Lemma nodes_lead_entry e : alike (lead_entry e).
Proof.
  unfold lead_entry. destruct (en_payload e) as [c| | |].
  - apply tri_nodes. intros s1 s2 Hs.
    eapply tri_bind; [apply inner_nodes; [done|by apply tri_process_command]|].
    intros p1 p2. apply tri_pure. intros [He Ht]. rewrite <- He.
    eapply tri_bind with (Q := fun _ _ => nodes).
    2: { intros _ _. apply nodes_modify. by intros ? ? ? ? [<- ->]. }
    destruct (cp_entries p1) as [|x l].
    { apply tri_ret. intros ? ?. by apply at_nodes. }
    eapply tri_bind; [apply inner_nodes; [done|by apply tri_append_batch]|].
    intros last ?. apply tri_pure. intros <-.
    eapply tri_bind; [by apply tri_commit|]. intros ? ?.
    eapply tri_conseq with (P := nodes); [|done| |done].
    + apply nodes_bind; [apply nodes_modify; by intros ? ? ? ? [<- ->]|]. intros _.
      unfold after_commit. apply nodes_modify. by intros ? ? ? ? [<- ->].
    + by intros ? ? ? ? [].
  - intros n1 n2 (s1 & s2 & Hs & [Hst ->]). unfold bind, get_st.
    change (is_already_applied (over_store n1 s2) (en_entry_id e))
      with (is_already_applied n1 (en_entry_id e)).
    destruct (_ && negb (is_already_applied n1 _)); simpl; [by intros []|].
    intros _. split; [done|]. by exists s1, s2.
  - apply nodes_ret.
  - apply nodes_ret.
Qed.

(** What a computation reads of the node is its log. *)
Lemma tri_log {E A B} (P : Node S1 -> Node S2 -> Prop) Q (k1 : LogState -> M (Node S1) E A)
    (k2 : LogState -> M (Node S2) E B) :
  (forall n1 n2, P n1 n2 -> nodes n1 n2) -> (forall g, tri P Q nodes (k1 g) (k2 g)) ->
  tri P Q nodes (bind get_st (fun n => k1 (nd_log n))) (bind get_st (fun n => k2 (nd_log n))).
Proof.
  intros HP Hk n1 n2 Hn. destruct (HP _ _ Hn) as (s1 & s2 & _ & _ & Heq). unfold bind, get_st.
  replace (nd_log n2) with (nd_log n1) by by rewrite Heq. by apply Hk.
Qed.

Lemma nodes_run_leader fuel cursor : alike (run_leader fuel cursor).
Proof.
  revert cursor. induction fuel as [|fuel IH]; intros cursor; simpl; [apply nodes_ret|].
  apply (tri_log nodes _
    (fun g => match entry_at g cursor with
              | None => ret cursor
              | Some e => lead_entry e ;;; run_leader fuel (cursor + 1)
              end)
    (fun g => match entry_at g cursor with
              | None => ret cursor
              | Some e => lead_entry e ;;; run_leader fuel (cursor + 1)
              end)); [done|].
  intros g. destruct (entry_at g cursor); [|apply nodes_ret].
  apply nodes_bind; [apply nodes_lead_entry|done].
Qed.

(** ** Recovery *)

(** The open batch on both sides. *)
Definition inflight_rel (o1 : option T1) (o2 : option T2) (n1 : Node S1) (n2 : Node S2) : Prop :=
  exists s1 s2, RS s1 s2 /\ at_stores s1 s2 n1 n2 /\ option_relation (RT s1 s2) (fun _ => False)
    (fun _ => False) o1 o2.

Lemma inflight_nodes o1 o2 n1 n2 : inflight_rel o1 o2 n1 n2 -> nodes n1 n2.
Proof. intros (s1 & s2 & Hs & Hn & _). by exists s1, s2. Qed.
Lemma inflight_none n1 n2 : nodes n1 n2 -> inflight_rel None None n1 n2.
Proof. intros (s1 & s2 & Hs & Hn). by exists s1, s2. Qed.

Lemma tri_inflight {E A B} o1 o2 Q X (m1 : M (Node S1) E A) (m2 : M (Node S2) E B) :
  (forall s1 s2, RS s1 s2 -> option_relation (RT s1 s2) (fun _ => False) (fun _ => False) o1 o2 ->
     tri (at_stores s1 s2) Q X m1 m2) ->
  tri (inflight_rel o1 o2) Q X m1 m2.
Proof. intros Hm n1 n2 (s1 & s2 & Hs & Hn & Ho). by apply (Hm s1 s2 Hs Ho). Qed.

Lemma nodes_recover_entry o1 o2 e :
  tri (inflight_rel o1 o2) inflight_rel nodes (recover_entry o1 e) (recover_entry o2 e).
Proof.
  unfold recover_entry. destruct (en_payload e) as [c|ev|r|]; [by apply tri_ret| |by apply tri_ret|];
    apply tri_inflight; intros s1 s2 Hs Ho.
  - eapply (tri_bind _ (fun a b n1 n2 => RT s1 s2 a b /\ at_stores s1 s2 n1 n2)).
    { destruct o1, o2; simpl in Ho; try done; try (by apply tri_ret).
      apply inner_nodes; [done|by apply tri_open]. }
    intros t1 t2. apply tri_pure. intros Ht.
    eapply tri_bind; [apply inner_nodes; [done|by apply tri_apply_event]|].
    intros a b. apply tri_pure. intros [_ Hab]. apply tri_ret. intros n1 n2 Hn.
    by exists s1, s2.
  - destruct o1 as [t1|], o2 as [t2|]; simpl in Ho; try done.
    + eapply tri_bind; [by apply tri_commit|]. intros ? ?. apply tri_ret. apply inflight_none.
    + apply tri_ret. intros n1 n2 Hn. by apply inflight_none, (at_nodes s1 s2 Hs).
Qed.

Lemma nodes_recover_loop fuel pos o1 o2 :
  tri (inflight_rel o1 o2) (fun a b n1 n2 => a = b /\ nodes n1 n2) nodes (recover_loop fuel pos o1)
    (recover_loop fuel pos o2).
Proof.
  revert pos o1 o2. induction fuel as [|fuel IH]; intros pos o1 o2; simpl; [apply tri_panic|].
  apply (tri_log (inflight_rel o1 o2) _
    (fun g => let* entry := lift_res (res_map_err from_log (log_read g pos)) in
              match entry with
              | None => ret tt
              | Some e => let* i := recover_entry o1 e in recover_loop fuel (pos + 1) i
              end)
    (fun g => let* entry := lift_res (res_map_err from_log (log_read g pos)) in
              match entry with
              | None => ret tt
              | Some e => let* i := recover_entry o2 e in recover_loop fuel (pos + 1) i
              end)); [apply inflight_nodes|].
  intros g. eapply (tri_bind _ (fun a b n1 n2 => a = b /\ inflight_rel o1 o2 n1 n2)).
  { apply tri_lift_res; [done|apply inflight_nodes]. }
  intros [e|] ?; apply tri_pure; intros <-.
  - eapply tri_bind; [apply nodes_recover_entry|]. intros i1 i2. apply IH.
  - apply tri_ret. intros n1 n2 Hn. split; [done|by eapply inflight_nodes].
Qed.

Lemma nodes_position {E} (f : StorageError -> E) :
  alike (map_err f (on_storage last_processed_position)).
Proof.
  apply tri_nodes. intros s1 s2 Hs. eapply tri_conseq; [by apply tri_position|done| |done].
  intros ? ? ? ? []. split; [done|by apply (at_nodes s1 s2 Hs)].
Qed.

Lemma nodes_recover_leader w : alike (recover_leader w).
Proof.
  unfold recover_leader.
  apply (tri_log nodes _
    (fun g => recover_loop (Datatypes.S (length (lg_entries g))) (w + 1) None ;;;
              map_err from_storage (on_storage last_processed_position))
    (fun g => recover_loop (Datatypes.S (length (lg_entries g))) (w + 1) None ;;;
              map_err from_storage (on_storage last_processed_position))); [done|].
  intros g. apply nodes_bind; [|intros []; apply nodes_position].
  eapply tri_conseq; [apply nodes_recover_loop|apply inflight_none|done|done].
Qed.

Lemma nodes_start_leader : alike start_leader.
Proof.
  unfold start_leader. apply nodes_bind; [apply nodes_position|]. intros w.
  apply nodes_bind; [apply nodes_modify; by intros ? ? ? ? [<- ->]|]. intros [].
  apply nodes_bind; [apply nodes_recover_leader|]. intros w'.
  apply nodes_bind; [apply nodes_modify; by intros ? ? ? ? [<- ->]|]. intros []. apply nodes_ret.
Qed.
Lemma nodes_run_processor fuel : alike (run_processor fuel).
Proof.
  unfold run_processor. apply nodes_bind; [apply nodes_start_leader|]. intros. apply nodes_run_leader.
Qed.
Lemma nodes_restart {E} : alike (modify (E:=E) restart).
Proof. apply nodes_modify. by intros ? ? ? ? [<- ->]. Qed.

(** A script has over the second store the outcome it has over the first. *)
Lemma nodes_act a : alike (node_act a).
Proof.
  destruct a; simpl.
  - apply nodes_submit.
  - apply nodes_bind; [apply nodes_run_processor|]. intros. apply nodes_ret.
  - apply nodes_bind; [apply nodes_run_leader|]. intros. apply nodes_ret.
  - apply tri_nodes. intros s1 s2 Hs.
    eapply tri_bind; [apply inner_nodes; [done|by apply tri_process_command]|].
    intros p1 p2. apply tri_pure. intros [<- _].
    eapply tri_bind; [apply inner_nodes; [done|by apply tri_append_batch]|].
    intros last ?. apply tri_pure. intros <-.
    eapply tri_conseq; [apply nodes_restart|by apply at_nodes|done|done].
  - apply nodes_restart.
Qed.
Lemma nodes_acts l : alike (node_acts l).
Proof.
  unfold node_acts. induction l as [|a l IH]; simpl; [apply nodes_ret|].
  apply nodes_bind; [apply nodes_act|done].
Qed.

Lemma nodes_outcome {E A} (m1 : M (Node S1) E A) m2 n1 n2 :
  NODES eq m1 m2 -> nodes n1 n2 -> not_panic (m1 n1).1 ->
  (m2 n2).1 = (m1 n1).1 /\ nodes (m1 n1).2 (m2 n2).2.
Proof.
  intros Hm Hn Hp. specialize (Hm n1 n2 Hn Hp).
  destruct (m1 n1) as [[] ?], (m2 n2) as [[] ?]; simpl; try done; by destruct Hm as [-> ?].
Qed.
End Nodes.
