(* ===== verification/Scheduler.v ===== *)
(** The deadline scheduler ([crates/scheduler/src/in_memory.rs]): a loop over an inbox of
    arm and cancel messages that pushes each expired deadline into the attached sink. The
    loop and the callers around it are a step relation: callers send, the clock moves and
    the handle is dropped between any two steps of the loop. *)
From S2P Require Import Prelude Names Timestamp Json Errors Meta.
Local Open Scope Z_scope.

#[export] Instance DeadlineTarget_countable : Countable DeadlineTarget.
Proof.
  refine (inj_countable'
    (fun t => match t with DExecution r => inl r | DActivity r => inr r end)
    (fun x => match x with inl r => DExecution r | inr r => DActivity r end) _).
  by intros [].
Defined.

(** [enum SchedulerInput]. *)
Inductive SchedulerInput :=
  | ScheduleInput (target : DeadlineTarget) (deadline : Timestamp)
  | CancelInput (target : DeadlineTarget)
  | WakeInput.

(** [fn apply]. *)
Definition apply_input (input : SchedulerInput) (armed : gmap DeadlineTarget Timestamp)
    : gmap DeadlineTarget Timestamp :=
  match input with
  | ScheduleInput target deadline => <[target := deadline]> armed
  | CancelInput target => delete target armed
  | WakeInput => armed
  end.

(** Where the loop is: draining the inbox, firing what was due, or waiting for the inbox or
    the earliest deadline. *)
Inductive SchedulerPhase :=
  | Draining
  | Firing (due : list DeadlineTarget)
  | Waiting (next : option Timestamp)
  | Stopped.

(** [struct InMemoryScheduler] with the state of its loop, the clock it reads, and what the
    sink was called with. [sd_sent] records every message sent. *)
Record SchedulerState := mkScheduler {
  sd_inbox : list SchedulerInput;
  sd_open : bool;
  sd_sink : bool;
  sd_armed : gmap DeadlineTarget Timestamp;
  sd_phase : SchedulerPhase;
  sd_now : Timestamp;
  sd_triggered : list (DeadlineTarget * Timestamp);
  sd_sent : list SchedulerInput }.

(** [InMemoryScheduler::spawn_with_clock]. *)
Definition scheduler_spawn (now : Timestamp) : SchedulerState :=
  mkScheduler [] true false ∅ Draining now [] [].

(** The [schedule], [cancel], [tick] and [attach_sink] of [impl Scheduler]. *)
Definition send_input (s : SchedulerState) (i : SchedulerInput) : SchedulerState :=
  mkScheduler (sd_inbox s ++ [i]) (sd_open s) (sd_sink s) (sd_armed s) (sd_phase s) (sd_now s)
    (sd_triggered s) (sd_sent s ++ [i]).
Definition schedule (s : SchedulerState) (target : DeadlineTarget) (deadline : Timestamp) :=
  send_input s (ScheduleInput target deadline).
Definition cancel (s : SchedulerState) (target : DeadlineTarget) :=
  send_input s (CancelInput target).
Definition tick (s : SchedulerState) : SchedulerState := send_input s WakeInput.
Definition attach_sink (s : SchedulerState) : SchedulerState :=
  mkScheduler (sd_inbox s) (sd_open s) true (sd_armed s) (sd_phase s) (sd_now s)
    (sd_triggered s) (sd_sent s).

(** Dropping the last handle; the clock. *)
Definition drop_handle (s : SchedulerState) : SchedulerState :=
  mkScheduler (sd_inbox s) false (sd_sink s) (sd_armed s) (sd_phase s) (sd_now s)
    (sd_triggered s) (sd_sent s).
Definition clock_to (s : SchedulerState) (now : Timestamp) : SchedulerState :=
  mkScheduler (sd_inbox s) (sd_open s) (sd_sink s) (sd_armed s) (sd_phase s) now
    (sd_triggered s) (sd_sent s).

(** ** The loop *)

Definition set_phase (s : SchedulerState) (p : SchedulerPhase) : SchedulerState :=
  mkScheduler (sd_inbox s) (sd_open s) (sd_sink s) (sd_armed s) p (sd_now s)
    (sd_triggered s) (sd_sent s).

(** A message taken off the inbox and applied. *)
Definition receive (s : SchedulerState) (i : SchedulerInput) (rest : list SchedulerInput)
    : SchedulerState :=
  mkScheduler rest (sd_open s) (sd_sink s) (apply_input i (sd_armed s)) Draining (sd_now s)
    (sd_triggered s) (sd_sent s).

(** The targets due, in the order the table is iterated. *)
Definition due_targets (iter : list (DeadlineTarget * Timestamp)) (now : Timestamp)
    : list DeadlineTarget :=
  (filter (fun x : DeadlineTarget * Timestamp => x.2 <= now) iter).*1.

(** One round of the firing loop: without a sink the fire is dropped. *)
Definition fire_target (s : SchedulerState) (target : DeadlineTarget) (rest : list DeadlineTarget)
    : Res string SchedulerState :=
  match sd_armed s !! target with
  | None => Panic "a due target is armed"
  | Some deadline =>
      Ok (mkScheduler (sd_inbox s) (sd_open s) (sd_sink s) (delete target (sd_armed s))
            (Firing rest) (sd_now s)
            (if sd_sink s then sd_triggered s ++ [(target, deadline)] else sd_triggered s)
            (sd_sent s))
  end.

(** [armed.values().copied().min()]. *)
Definition next_deadline (armed : gmap DeadlineTarget Timestamp) : option Timestamp :=
  map_fold (fun _ d acc => Some (match acc with Some m => Z.min d m | None => d end)) None armed.

(** A step of the loop. A timer may end before or after the clock reaches the deadline it
    was set for: an injected clock need not follow real time. *)
Inductive loop_step : SchedulerState -> SchedulerState -> Prop :=
  | step_drain s i rest :
      sd_phase s = Draining -> sd_inbox s = i :: rest -> loop_step s (receive s i rest)
  | step_disconnected s :
      sd_phase s = Draining -> sd_inbox s = [] -> sd_open s = false ->
      loop_step s (set_phase s Stopped)
  | step_collect s iter :
      sd_phase s = Draining -> sd_inbox s = [] -> sd_open s = true ->
      iter ≡ₚ map_to_list (sd_armed s) ->
      loop_step s (set_phase s (Firing (due_targets iter (sd_now s))))
  | step_fire s target rest s' :
      sd_phase s = Firing (target :: rest) -> fire_target s target rest = Ok s' -> loop_step s s'
  | step_fired s :
      sd_phase s = Firing [] -> loop_step s (set_phase s (Waiting (next_deadline (sd_armed s))))
  | step_input s next i rest :
      sd_phase s = Waiting next -> sd_inbox s = i :: rest -> loop_step s (receive s i rest)
  | step_timer s deadline :
      sd_phase s = Waiting (Some deadline) -> loop_step s (set_phase s Draining)
  | step_closed s next :
      sd_phase s = Waiting next -> sd_inbox s = [] -> sd_open s = false ->
      loop_step s (set_phase s Stopped).

(** A step of the scheduler and what is around it. *)
Inductive scheduler_step : SchedulerState -> SchedulerState -> Prop :=
  | caller_sends s i : sd_open s = true -> scheduler_step s (send_input s i)
  | caller_attaches s : scheduler_step s (attach_sink s)
  | caller_drops s : scheduler_step s (drop_handle s)
  | clock_moves s now : sd_now s <= now -> scheduler_step s (clock_to s now)
  | loop_runs s s' : loop_step s s' -> scheduler_step s s'.

Definition scheduler_reachable (s : SchedulerState) : Prop :=
  exists now, rtc scheduler_step (scheduler_spawn now) s.

(** ** Invariants *)

(** Arms, fires and pending messages of a target. *)
Definition schedules (t : DeadlineTarget) (i : SchedulerInput) : Prop :=
  match i with ScheduleInput t' _ => t' = t | _ => False end.
#[export] Instance schedules_dec t i : Decision (schedules t i).
Proof. destruct i; simpl; apply _. Defined.
Definition arms (t : DeadlineTarget) (l : list SchedulerInput) : nat := length (filter (schedules t) l).
Definition fires (t : DeadlineTarget) (l : list (DeadlineTarget * Timestamp))
    : list (DeadlineTarget * Timestamp) := filter (fun x => x.1 = t) l.
Definition is_armed (t : DeadlineTarget) (s : SchedulerState) : nat :=
  if decide (is_Some (sd_armed s !! t)) then 1 else 0.

(** What is known of a target whose deadline is armed, queued or fired. *)
Record scheduler_inv (s : SchedulerState) : Prop := {
  inv_due : match sd_phase s with
            | Firing due => NoDup due /\
                forall t, t ∈ due -> exists d : Timestamp, sd_armed s !! t = Some d /\ d <= sd_now s
            | _ => True
            end;
  inv_early : forall t (d : Timestamp), (t, d) ∈ sd_triggered s ->
    d <= sd_now s /\ ScheduleInput t d ∈ sd_sent s;
  inv_sent : forall t (d : Timestamp), sd_armed s !! t = Some d \/ ScheduleInput t d ∈ sd_inbox s ->
    ScheduleInput t d ∈ sd_sent s;
  inv_once : forall t,
    (length (fires t (sd_triggered s)) + is_armed t s + arms t (sd_inbox s)
     <= arms t (sd_sent s))%nat }.

Lemma arms_app t l1 l2 : arms t (l1 ++ l2) = (arms t l1 + arms t l2)%nat.
Proof. unfold arms. by rewrite filter_app, length_app. Qed.
Lemma fires_app t l1 l2 : fires t (l1 ++ l2) = fires t l1 ++ fires t l2.
Proof. unfold fires. by rewrite filter_app. Qed.

Lemma scheduler_inv_spawn now : scheduler_inv (scheduler_spawn now).
Proof. split; simpl; try done; set_solver. Qed.

(** A received message: the arm of its target moves from the inbox to the table. *)
Lemma receive_once t s i rest :
  sd_inbox s = i :: rest ->
  (is_armed t (receive s i rest) + arms t rest <= is_armed t s + arms t (sd_inbox s))%nat.
Proof.
  intros ->. unfold is_armed, arms. rewrite filter_cons. simpl.
  destruct i as [t' d|t'|]; simpl.
  - destruct (decide (t' = t)) as [->|].
    + rewrite lookup_insert_eq, decide_True by eauto. simpl.
      destruct (decide (is_Some _)); lia.
    + rewrite lookup_insert_ne by done. lia.
  - destruct (decide (t' = t)) as [->|].
    + rewrite lookup_delete_eq. rewrite decide_False by (intros [? ?]; done). lia.
    + rewrite lookup_delete_ne by done. lia.
  - lia.
Qed.

Lemma elem_of_due_targets iter now t :
  t ∈ due_targets iter now -> exists d : Timestamp, (t, d) ∈ iter /\ d <= now.
Proof.
  unfold due_targets. intros ((t', d) & -> & Hin)%list_elem_of_fmap.
  apply list_elem_of_filter in Hin as [Hd Hin]. eauto.
Qed.

Lemma due_targets_NoDup iter now (m : gmap DeadlineTarget Timestamp) :
  iter ≡ₚ map_to_list m -> NoDup (due_targets iter now).
Proof.
  intros Hp. unfold due_targets. eapply sublist_NoDup; [|apply fmap_sublist, sublist_filter].
  rewrite Hp. apply NoDup_fst_map_to_list.
Qed.

(** The table after a fire. *)
Lemma fired_once t target (s : SchedulerState) d :
  sd_armed s !! target = Some d ->
  ((if decide (is_Some (delete target (sd_armed s) !! t)) then 1 else 0)
   + length (fires t [(target, d)]) = is_armed t s)%nat.
Proof.
  intros Hd. unfold fires, is_armed. rewrite filter_cons. simpl.
  destruct (decide (target = t)) as [->|].
  - rewrite lookup_delete_eq, decide_False by (by intros [? ?]). rewrite Hd, decide_True by eauto.
    done.
  - by rewrite lookup_delete_ne.
Qed.

(** The steps that only move the loop. *)
Lemma set_phase_inv s p :
  scheduler_inv s ->
  match p with
  | Firing due => NoDup due /\
      forall t, t ∈ due -> exists d : Timestamp, sd_armed s !! t = Some d /\ d <= sd_now s
  | _ => True
  end ->
  scheduler_inv (set_phase s p).
Proof. intros [H1 H2 H3 H4] Hp. by split. Qed.

Lemma receive_inv s i rest :
  scheduler_inv s -> sd_inbox s = i :: rest -> scheduler_inv (receive s i rest).
Proof.
  intros [H1 H2 H3 H4] Hi. split; simpl; [done|done|..].
  - intros t d [Ht|Ht]; apply H3; rewrite Hi.
    + destruct i as [t' d'|t'|]; simpl in Ht.
      * apply lookup_insert_Some in Ht as [[-> ->]|[_ Ht]]; [right; set_solver|by left].
      * apply lookup_delete_Some in Ht as [_ Ht]. by left.
      * by left.
    + right. set_solver.
  - intros t. pose proof (receive_once t s i rest Hi). specialize (H4 t). lia.
Qed.

Lemma fire_target_inv s target rest s' :
  scheduler_inv s -> sd_phase s = Firing (target :: rest) ->
  fire_target s target rest = Ok s' -> scheduler_inv s'.
Proof.
  intros [H1 H2 H3 H4] Hp Hf. unfold fire_target in Hf.
  destruct (sd_armed s !! target) as [d|] eqn:Hd; simplify_eq/=.
  rewrite Hp in H1. destruct H1 as [[Hnin Hnd]%NoDup_cons Hdue].
  destruct (Hdue target ltac:(set_solver)) as (d' & Hd' & Hle).
  rewrite Hd in Hd'. injection Hd' as <-.
  split; simpl.
  - split; [done|]. intros t Ht. rewrite lookup_delete_ne by set_solver. apply Hdue. set_solver.
  - intros t d' Hin. assert ((t, d') ∈ sd_triggered s ++ [(target, d)]) as Hin'.
    { destruct (sd_sink s); set_solver. }
    apply elem_of_app in Hin' as [?|Hx]; [by apply H2|].
    apply list_elem_of_singleton in Hx. simplify_eq. auto.
  - intros t d' [Ht|Ht]; apply H3; [|by right].
    apply lookup_delete_Some in Ht as [_ Ht]. by left.
  - intros t. specialize (H4 t). pose proof (fired_once t target s d Hd) as Hf1.
    unfold is_armed at 1. simpl. destruct (sd_sink s).
    + rewrite fires_app, length_app. lia.
    + lia.
Qed.

Lemma loop_step_inv s s' : scheduler_inv s -> loop_step s s' -> scheduler_inv s'.
Proof.
  intros H. destruct 1; eauto using receive_inv, set_phase_inv, fire_target_inv.
  apply set_phase_inv; [done|]. split; [by eapply due_targets_NoDup|].
  intros t (d & Hin & Hd)%elem_of_due_targets. exists d. split; [|done].
  apply elem_of_map_to_list. by match goal with Hp : _ ≡ₚ _ |- _ => rewrite <- Hp end.
Qed.

Lemma scheduler_step_inv s s' : scheduler_inv s -> scheduler_step s s' -> scheduler_inv s'.
Proof.
  intros H. destruct 1 as [s i Ho|s|s|s now Hn|s s' Hs]; [..|by eapply loop_step_inv].
  - destruct H as [H1 H2 H3 H4]. split; simpl; [done|..].
    + intros t d Hin. destruct (H2 t d Hin). set_solver.
    + intros t d Hin. rewrite elem_of_app in *. specialize (H3 t d). set_solver.
    + intros t. rewrite !arms_app. specialize (H4 t). unfold is_armed in *. simpl. lia.
  - by destruct H.
  - by destruct H.
  - destruct H as [H1 H2 H3 H4]. split; simpl; [|..|done|done].
    + destruct (sd_phase s) as [|due|next|]; try done. destruct H1 as [Hn1 Hd].
      split; [done|]. intros t Ht. destruct (Hd t Ht) as (d & ? & ?). exists d. split; [done|]. lia.
    + intros t d Hin. destruct (H2 t d Hin). split; [lia|done].
Qed.

Lemma scheduler_reachable_inv s : scheduler_reachable s -> scheduler_inv s.
Proof.
  intros [now Hr]. pose proof (scheduler_inv_spawn now) as Hi.
  remember (scheduler_spawn now) as s0 eqn:E. clear E.
  induction Hr; eauto using scheduler_step_inv.
Qed.

(** ** Cancelling *)

(** What a message leaves of a target's deadline. *)
Definition settle (t : DeadlineTarget) (o : option Timestamp) (i : SchedulerInput)
    : option Timestamp :=
  match i with
  | ScheduleInput t' d => if decide (t' = t) then Some d else o
  | CancelInput t' => if decide (t' = t) then None else o
  | WakeInput => o
  end.

Lemma apply_input_settle t i armed : apply_input i armed !! t = settle t (armed !! t) i.
Proof.
  destruct i as [t' d|t'|]; simpl; [..|done]; case_decide; subst; by simplify_map_eq.
Qed.

(** The messages queued leave the target without a deadline, and the loop is not firing it. *)
Record disarmed (t : DeadlineTarget) (s : SchedulerState) : Prop := {
  dis_settled : foldl (settle t) (sd_armed s !! t) (sd_inbox s) = None;
  dis_firing : match sd_phase s with Firing due => t ∉ due | _ => True end }.

Lemma cancel_disarms t s :
  match sd_phase s with Firing due => t ∉ due | _ => True end -> disarmed t (cancel s t).
Proof.
  intros Hp. split; simpl; [|done]. rewrite foldl_app. simpl. by rewrite decide_True.
Qed.

Lemma receive_disarmed t s i rest :
  disarmed t s -> sd_inbox s = i :: rest -> disarmed t (receive s i rest).
Proof.
  intros [Hs Hf] E. rewrite E in Hs. split; simpl; [|done]. by rewrite apply_input_settle.
Qed.

Lemma arms_settle t i o : arms t [i] = 0%nat -> o = None -> settle t o i = None.
Proof.
  intros Hi ->. destruct i as [t' d|t'|]; simpl; [|by case_decide|done].
  case_decide as E; [|done]. unfold arms in Hi. rewrite filter_cons in Hi. simpl in Hi.
  by rewrite decide_True in Hi.
Qed.

Lemma loop_step_disarmed t s s' :
  disarmed t s -> loop_step s s' ->
  disarmed t s' /\ fires t (sd_triggered s') = fires t (sd_triggered s).
Proof.
  intros Hd. destruct 1 as [s i rest ? E|s|s iter Hp E Ho Hit|s target rest s' Hp Hf|s
    |s next i rest ? E|s|s]; try (by split; [by apply receive_disarmed|]);
    try (by destruct Hd; split).
  - destruct Hd as [Hs Hf]. rewrite E in Hs. simpl in Hs. split; [|done].
    split; simpl; [by rewrite E|]. intros (d & Hin & _)%elem_of_due_targets.
    rewrite Hit in Hin. apply elem_of_map_to_list in Hin. congruence.
  - destruct Hd as [Hs Hfi]. rewrite Hp in Hfi. apply not_elem_of_cons in Hfi as [Hne Hr].
    unfold fire_target in Hf. destruct (sd_armed s !! target) as [d|] eqn:Ht; simplify_eq/=.
    split; [split; simpl; [by rewrite lookup_delete_ne|done]|].
    destruct (sd_sink s); [|done]. unfold fires. rewrite filter_app, filter_cons. simpl.
    by rewrite decide_False, app_nil_r.
Qed.

Lemma disarmed_step t s s' :
  disarmed t s -> scheduler_step s s' -> arms t (sd_sent s') = arms t (sd_sent s) ->
  disarmed t s' /\ fires t (sd_triggered s') = fires t (sd_triggered s).
Proof.
  intros Hd. destruct 1 as [s i Ho|s|s|s now Hn|s s' Hl]; simpl; intros Hsent;
    try (by destruct Hd; split); [|by apply loop_step_disarmed].
  rewrite arms_app in Hsent. destruct Hd as [Hs Hf]. split; [|done]. split; simpl; [|done].
  rewrite foldl_app. simpl. apply arms_settle; [lia|done].
Qed.

(** Sending only grows the record of what was sent. *)
Lemma sent_grows t s s' : rtc scheduler_step s s' -> (arms t (sd_sent s) <= arms t (sd_sent s'))%nat.
Proof.
  induction 1 as [|s s1 s' Hs Hr IH]; [lia|]. etransitivity; [|exact IH].
  destruct Hs as [s i Ho|s|s|s now Hn|s s1 Hl]; simpl; try lia.
  - rewrite arms_app. lia.
  - destruct Hl as [| | |s target rest s1 Hp Hf| | | |]; simpl; try lia.
    unfold fire_target in Hf. by destruct (sd_armed s !! target); simplify_eq/=.
Qed.

Lemma disarmed_steps t s s' :
  rtc scheduler_step s s' -> disarmed t s -> arms t (sd_sent s') = arms t (sd_sent s) ->
  fires t (sd_triggered s') = fires t (sd_triggered s).
Proof.
  induction 1 as [|s s1 s' Hs Hr IH]; [done|]. intros Hd Hsent.
  pose proof (sent_grows t s s1 (rtc_once _ _ Hs)). pose proof (sent_grows t s1 s' Hr).
  destruct (disarmed_step t s s1 Hd Hs) as [Hd1 Hf1]; [lia|].
  rewrite IH; [done|done|lia].
Qed.

(** Where the loop has already taken the target to fire it, the messages queued still leave it
    without a deadline: it is fired once, at most, and then disarmed. *)
Lemma settle_none t l o : foldl (settle t) o l = None -> foldl (settle t) None l = None.
Proof.
  revert o. induction l as [|i l IH]; intros o; simpl; [done|].
  destruct i as [t' d|t'|]; simpl; [|..|apply IH]; case_decide; first [done | apply IH].
Qed.
Lemma late_step t s s' due :
  sd_phase s = Firing due -> NoDup due -> foldl (settle t) (sd_armed s !! t) (sd_inbox s) = None ->
  scheduler_step s s' -> arms t (sd_sent s') = arms t (sd_sent s) ->
  exists late, fires t (sd_triggered s') = fires t (sd_triggered s) ++ late /\
    (length late <= 1)%nat /\
    (disarmed t s' \/ late = [] /\ exists due', sd_phase s' = Firing due' /\ NoDup due' /\
       foldl (settle t) (sd_armed s' !! t) (sd_inbox s') = None).
Proof.
  intros Hp Hnd Hs Hstep. destruct Hstep as [s i Ho|s|s|s now Hn|s s' Hl]; simpl; intros Ha.
  - exists []. rewrite app_nil_r. split; [done|]. split; [simpl; lia|]. right. split; [done|].
    exists due. split_and!; [done..|]. rewrite foldl_app. simpl. rewrite arms_app in Ha.
    apply arms_settle; [lia|done].
  - exists []. rewrite app_nil_r. split; [done|]. split; [simpl; lia|]. eauto 6.
  - exists []. rewrite app_nil_r. split; [done|]. split; [simpl; lia|]. eauto 6.
  - exists []. rewrite app_nil_r. split; [done|]. split; [simpl; lia|]. eauto 6.
  - destruct Hl as [| | |s target rest s' Hp' Hf|s Hp'| | |]; try congruence.
    + rewrite Hp in Hp'. injection Hp' as ->. apply NoDup_cons in Hnd as [Hnin Hnd].
      unfold fire_target in Hf. destruct (sd_armed s !! target) as [d|] eqn:Hd; simplify_eq/=.
      destruct (decide (target = t)) as [->|Hne].
      * exists (if sd_sink s then [(t, d)] else []). split.
        { destruct (sd_sink s); [|by rewrite app_nil_r]. rewrite fires_app. f_equal.
          unfold fires. rewrite filter_cons. simpl. by rewrite decide_True. }
        split; [by destruct (sd_sink s); simpl; lia|]. left. split; simpl; [|done].
        rewrite lookup_delete_eq. by eapply settle_none.
      * exists []. rewrite app_nil_r. split.
        { destruct (sd_sink s); [|done]. unfold fires. rewrite filter_app, filter_cons. simpl.
          by rewrite decide_False, app_nil_r. }
        split; [simpl; lia|]. right. split; [done|]. exists rest. simpl.
        by rewrite lookup_delete_ne.
    + exists []. rewrite app_nil_r. split; [done|]. split; [simpl; lia|]. left. by split.
Qed.
Lemma late_steps t s s' :
  rtc scheduler_step s s' -> forall due, sd_phase s = Firing due -> NoDup due ->
  foldl (settle t) (sd_armed s !! t) (sd_inbox s) = None ->
  arms t (sd_sent s') = arms t (sd_sent s) ->
  exists late, fires t (sd_triggered s') = fires t (sd_triggered s) ++ late /\
    (length late <= 1)%nat.
Proof.
  induction 1 as [|s s1 s' Hs Hr IH]; intros due Hp Hnd Hd Hsent.
  { exists []. rewrite app_nil_r. split; [done|simpl; lia]. }
  pose proof (sent_grows t s s1 (rtc_once _ _ Hs)). pose proof (sent_grows t s1 s' Hr).
  destruct (late_step t s s1 due Hp Hnd Hd Hs) as (late & Hf & Hl & Hnext); [lia|].
  destruct Hnext as [Hdis|[-> (due' & Hp' & Hnd' & Hd')]].
  - exists late. rewrite (disarmed_steps t s1 s' Hr Hdis) by lia. done.
  - rewrite app_nil_r in Hf. rewrite <- Hf. apply (IH due'); [done..|lia].
Qed.

(** ** One turn of the loop *)

(** The table once the messages queued are applied. *)
Definition drained (s : SchedulerState) : gmap DeadlineTarget Timestamp :=
  foldl (fun m i => apply_input i m) (sd_armed s) (sd_inbox s).

(** The messages are drained in the order they were sent. *)
Lemma loop_drains s :
  sd_phase s = Draining ->
  rtc loop_step s (mkScheduler [] (sd_open s) (sd_sink s) (drained s) Draining (sd_now s)
                     (sd_triggered s) (sd_sent s)).
Proof.
  unfold drained. remember (sd_inbox s) as l eqn:E. revert s E.
  induction l as [|i l IH]; intros s E Hp.
  - destruct s; simplify_eq/=. constructor.
  - eapply rtc_l; [by apply step_drain|]. exact (IH (receive s i l) eq_refl eq_refl).
Qed.

(** The state after the due targets are fired. *)
Definition fired_state (s : SchedulerState) (due : list DeadlineTarget) : SchedulerState :=
  mkScheduler (sd_inbox s) (sd_open s) (sd_sink s)
    (filter (fun x => x.1 ∉ due) (sd_armed s)) (Firing []) (sd_now s)
    (if sd_sink s
     then sd_triggered s ++ omap (fun t => (fun d => (t, d)) <$> sd_armed s !! t) due
     else sd_triggered s)
    (sd_sent s).

Lemma omap_delete (armed : gmap DeadlineTarget Timestamp) t (due : list DeadlineTarget) :
  t ∉ due ->
  omap (fun x => (fun d => (x, d)) <$> delete t armed !! x) due
  = omap (fun x => (fun d => (x, d)) <$> armed !! x) due.
Proof.
  induction due as [|x due IH]; [done|]. intros [Hne Hnin]%not_elem_of_cons.
  cbn [omap list_omap]. by rewrite lookup_delete_ne, IH.
Qed.

Lemma fired_state_cons s t due d :
  t ∉ due -> sd_armed s !! t = Some d ->
  fired_state s (t :: due)
  = fired_state
      (mkScheduler (sd_inbox s) (sd_open s) (sd_sink s) (delete t (sd_armed s)) (Firing due)
         (sd_now s) (if sd_sink s then sd_triggered s ++ [(t, d)] else sd_triggered s)
         (sd_sent s)) due.
Proof.
  intros Hnin Hd. unfold fired_state. cbn [sd_inbox sd_open sd_sink sd_armed sd_now sd_triggered
    sd_sent]. f_equal.
  - apply map_eq. intros t'. apply option_eq. intros d'. rewrite !map_lookup_filter_Some.
    rewrite lookup_delete_Some. set_solver.
  - cbn [omap list_omap]. rewrite Hd, omap_delete by done. destruct (sd_sink s); [|done].
    by rewrite <- app_assoc.
Qed.

Lemma loop_fires due s :
  sd_phase s = Firing due -> NoDup due -> (forall t, t ∈ due -> is_Some (sd_armed s !! t)) ->
  rtc loop_step s (fired_state s due).
Proof.
  revert s. induction due as [|t due IH]; intros s Hp Hnd Ha.
  - destruct s as [inbox op sink armed ph now trig sent]; simplify_eq/=. unfold fired_state.
    simpl. rewrite app_nil_r, map_filter_id by (intros; set_solver). destruct sink; constructor.
  - apply NoDup_cons in Hnd as [Hnin Hnd]. destruct (Ha t ltac:(set_solver)) as [d Hd].
    eapply rtc_l; [eapply step_fire; [done|unfold fire_target; by rewrite Hd]|].
    rewrite (fired_state_cons _ _ _ _ Hnin Hd). apply IH; [done|done|].
    intros t' Ht'. simpl. rewrite lookup_delete_ne by set_solver. apply Ha. set_solver.
Qed.

(** The entries the fires are called with are the due entries, in the order iterated. *)
Lemma omap_due (armed : gmap DeadlineTarget Timestamp) iter now :
  (forall t d, (t, d) ∈ iter -> armed !! t = Some d) ->
  omap (fun x => (fun d => (x, d)) <$> armed !! x) (due_targets iter now)
  = filter (fun x : DeadlineTarget * Timestamp => x.2 <= now) iter.
Proof.
  unfold due_targets. induction iter as [|[t d] iter IH]; [done|]. intros H.
  rewrite !filter_cons. simpl.
  assert (forall t' d', (t', d') ∈ iter -> armed !! t' = Some d') as H' by set_solver.
  case_decide; [|by apply IH]. cbn [fmap list_fmap omap list_omap fst].
  rewrite (H t d) by set_solver. cbn [fmap option_fmap option_map]. by rewrite IH.
Qed.

Lemma filter_due (armed : gmap DeadlineTarget Timestamp) iter now :
  iter ≡ₚ map_to_list armed ->
  filter (fun x => x.1 ∉ due_targets iter now) armed
  = filter (fun x : DeadlineTarget * Timestamp => now < x.2) armed.
Proof.
  intros Hp. apply map_filter_ext. intros t d Hd. simpl.
  assert ((t, d) ∈ iter) as Hin by (rewrite Hp; by apply elem_of_map_to_list).
  split; [intros Hn|intros Hlt (d' & Hin' & Hle)%elem_of_due_targets].
  - destruct (decide (now < d)); [done|]. exfalso. apply Hn. unfold due_targets.
    apply (list_elem_of_fmap_2' fst _ (t, d)); [|done]. apply list_elem_of_filter. split; [simpl; lia|done].
  - rewrite Hp in Hin'. apply elem_of_map_to_list in Hin'. simplify_eq. lia.
Qed.

(** The earliest deadline. *)
Lemma next_deadline_spec (armed : gmap DeadlineTarget Timestamp) :
  match next_deadline armed with
  | Some m => (exists t, armed !! t = Some m) /\ forall t d, armed !! t = Some d -> m <= d
  | None => armed = ∅
  end.
Proof.
  unfold next_deadline.
  apply (map_fold_weak_ind (fun acc m => match acc with
    | Some x => (exists t, m !! t = Some x) /\ forall t d, m !! t = Some d -> x <= d
    | None => m = ∅ end)); [done|].
  intros t d m acc Hn IH. destruct acc as [x|].
  - destruct IH as [[t0 Ht0] Hle]. split.
    + destruct (Z.min_spec d x) as [[_ ->]|[_ ->]]; [exists t; by simplify_map_eq|].
      exists t0. rewrite lookup_insert_ne; [done|]. intros ->.
      by pose proof (eq_trans (eq_sym Hn) Ht0).
    + intros t' d' [[-> ->]|[_ H]]%lookup_insert_Some; [lia|]. specialize (Hle t' d' H). lia.
  - subst. split; [exists t; by simplify_map_eq|].
    intros t' d' [[-> ->]|[_ H]]%lookup_insert_Some; [lia|by simplify_map_eq].
Qed.

(** The loop left alone: it drains the inbox, fires what is due and waits for the rest. *)
Definition turn_state (s : SchedulerState) (iter : list (DeadlineTarget * Timestamp))
    : SchedulerState :=
  let armed := filter (fun x : DeadlineTarget * Timestamp => sd_now s < x.2) (drained s) in
  mkScheduler [] true (sd_sink s) armed (Waiting (next_deadline armed)) (sd_now s)
    (if sd_sink s
     then sd_triggered s ++ filter (fun x : DeadlineTarget * Timestamp => x.2 <= sd_now s) iter
     else sd_triggered s)
    (sd_sent s).

Lemma loop_turn s iter :
  sd_phase s = Draining -> sd_open s = true -> iter ≡ₚ map_to_list (drained s) ->
  rtc loop_step s (turn_state s iter).
Proof.
  intros Hp Ho Hit. etransitivity; [by apply loop_drains|].
  eapply rtc_l; [by apply (step_collect _ iter)|].
  assert (forall t d, (t, d) ∈ iter -> drained s !! t = Some d) as Hin.
  { intros t d. rewrite Hit. apply elem_of_map_to_list. }
  etransitivity; [apply loop_fires; [done|by eapply due_targets_NoDup|]|].
  { intros t (d & H & _)%elem_of_due_targets. simpl. eauto. }
  eapply rtc_l; [by apply step_fired|].
  unfold fired_state, turn_state, set_phase. cbn [sd_inbox sd_open sd_sink sd_armed sd_phase sd_now
    sd_triggered sd_sent]. rewrite omap_due, filter_due, Ho by done. constructor.
Qed.
