(* ===== verification/Facade.v ===== *)
(** The engine's public operations ([crates/engine/src/engine.rs]) and its read facade
    ([query.rs]): reads of the store by kind and name, listings a page at a time, and the
    submissions with their pre-checks. They are written against the read half of
    [trait Storage]. *)
From S2P Require Import Prelude ByteStrings Names Timestamp Json Asl Errors Meta Entities Tasks.
From S2P Require Import Commands Keys LogStream Storage Rows RocksStorage Applier Eval Handler.
From S2P Require Import Dispatch Leader StreamProcessor.
Local Open Scope string_scope.
Local Open Scope Z_scope.

(** The reads of [trait Storage]. *)
Class StoreReads (S B : Type) : Type := {
  read_execution : ObjectRef ExecutionKind -> M S StorageError (option Execution);
  read_thread : ObjectRef ThreadKind -> M S StorageError (option Thread);
  read_variables : ObjectRef ThreadKind -> M S StorageError Variables;
  read_activity : ObjectRef ActivityKind -> M S StorageError (option Activity);
  read_task : ObjectRef TaskKind -> M S StorageError (option Task);
  read_flow_by_name : PlainName -> M S StorageError (option Flow);
  read_flow_version : ObjectRef FlowVersionKind -> M S StorageError (option FlowVersion);
  read_flow_version_of : PlainName -> Z -> M S StorageError (option FlowVersion);
  read_activatable_tasks : string -> Timestamp -> Z -> M S StorageError (list Task);
  read_list_kind :
    ObjectKind -> option ObjectName -> Z -> M S StorageError (list (ObjectName * B)) }.

(** [impl Storage for InMemoryStorage], [impl Storage for RocksStorage]. *)
#[export] Instance memory_reads {B} `{RowCodecs B, RowOrder, HashOrder}
    : StoreReads InMemoryDb B := {
  read_execution := get_execution;
  read_thread := get_thread;
  read_variables := get_variables;
  read_activity := get_activity;
  read_task := get_task;
  read_flow_by_name := get_flow_by_name;
  read_flow_version := get_flow_version;
  read_flow_version_of := flow_version_of;
  read_activatable_tasks := activatable_tasks;
  read_list_kind := memory_list_kind }.
#[export] Instance rocks_reads {B D X} `{RocksDb B D X, RowCodecs B}
    : StoreReads (RocksStorage D) B := {
  read_execution := rs_get_execution (X:=X);
  read_thread := rs_get_thread (X:=X);
  read_variables := rs_get_variables (X:=X);
  read_activity := rs_get_activity (X:=X);
  read_task := rs_get_task (X:=X);
  read_flow_by_name := rs_get_flow_by_name (X:=X);
  read_flow_version := rs_get_flow_version (X:=X);
  read_flow_version_of := rs_flow_version_of (X:=X);
  read_activatable_tasks := rs_activatable_tasks (X:=X);
  read_list_kind := rs_list_kind (X:=X) }.

(** The persistent store, as the leader drives it. *)
#[export] Instance rocks_storage {B D X} `{RocksDb B D X, RowCodecs B}
    : Storage (RocksStorage D) (RocksTxn X) := {
  open_txn := rs_begin_txn (X:=X);
  commit_txn t w := rt_commit t w;
  last_processed_position := rs_last_processed_position (X:=X) }.

(** ** The read facade *)

(** [enum QueryObject], [QueryObject::kind], [QueryObject::name]. *)
Inductive QueryObject :=
  | QFlow (f : Flow) | QFlowVersion (v : FlowVersion) | QExecution (e : Execution)
  | QThread (t : Thread) | QActivity (a : Activity) | QTask (t : Task).
Definition q_kind (o : QueryObject) : ObjectKind :=
  match o with
  | QFlow _ => FlowKind | QFlowVersion _ => FlowVersionKind | QExecution _ => ExecutionKind
  | QThread _ => ThreadKind | QActivity _ => ActivityKind | QTask _ => TaskKind
  end.
Definition q_name (o : QueryObject) : ObjectName :=
  match o with
  | QFlow f => m_name (fl_meta f) | QFlowVersion v => m_name (fv_meta v)
  | QExecution e => m_name (ex_meta e) | QThread t => m_name (th_meta t)
  | QActivity a => m_name (ac_meta a) | QTask t => m_name (tk_meta t)
  end.

(** [struct QueryListPage]. *)
Record QueryListPage := mkPage { pg_objects : list QueryObject; pg_continue_token : option string }.

(** [fn ref_for]. *)
Definition ref_for (K : ObjectKind) (name : ObjectName) : ObjectRef K := mkRef name ulid_nil.

(** [format!("{name:?}")]: the derived [Debug] of [ObjectName]. *)
Definition plain_debug (p : PlainName) : string := "PlainName(" +:+ debug_str (pn_str p) +:+ ")".
Definition name_debug (n : ObjectName) : string :=
  match n with
  | Plain p => "Plain(" +:+ plain_debug p +:+ ")"
  | Generated b k => "Generated(GeneratedName { base: " +:+ plain_debug b +:+ ", suffix: " +:+
                     u64_to_string k +:+ " })"
  end.

(** [fn decode]. *)
Definition decode {B} `{RowCodecs B} (kind : ObjectKind) (name : ObjectName) (bytes : B)
    : Res ExecutionError QueryObject :=
  let bad {A} (f : A -> QueryObject) (r : Res string A) :=
    res_map_err (fun _ => Runtime (InvalidDefinition
      ("Query decode of " +:+ kind_str kind +:+ " " +:+ name_debug name +:+ " failed")))
      (res_map f r) in
  match kind with
  | FlowKind => bad QFlow (from_slice bytes)
  | FlowVersionKind => bad QFlowVersion (from_slice bytes)
  | ExecutionKind => bad QExecution (from_slice bytes)
  | ThreadKind => bad QThread (from_slice bytes)
  | ActivityKind => bad QActivity (from_slice bytes)
  | TaskKind => bad QTask (from_slice bytes)
  end.

Section Reads.
Context {S B : Type} `{StoreReads S B, RowCodecs B}.

(** [query::list_kind]. *)
Definition parse_token (continue_token : option string)
    : Res ExecutionError (option ObjectName) :=
  match continue_token with
  | Some t =>
      if String.eqb t "" then Ok None
      else res_map_err (fun e => Runtime (InvalidDefinition
             ("invalid continue_token " +:+ debug_str t +:+ ": " +:+ name_error_str e)))
             (res_map Some (from_parsed t))
  | None => Ok None
  end.
Definition query_list_kind (kind : ObjectKind) (limit : Z) (continue_token : option string)
    : M S ExecutionError QueryListPage :=
  let* start_after := lift_res (parse_token continue_token) in
  let* rows := map_err from_storage
    (read_list_kind (B:=B) kind start_after (u64_saturating_add limit 1)) in
  let more := bool_decide (limit < Z.of_nat (length rows)) in
  let rows := take (Z.to_nat limit) rows in
  let* objects := lift_res (collect ((fun r => decode kind r.1 r.2) <$> rows)) in
  ret (mkPage objects (if more then (fun o => as_str (q_name o)) <$> last objects else None)).

(** [EngineInner::get_object]. *)
Definition get_object (kind : ObjectKind) (name : ObjectName)
    : M S ExecutionError (option QueryObject) :=
  let read {A} (f : A -> QueryObject) (m : M S StorageError (option A)) :=
    let* o := map_err from_storage m in ret (f <$> o) in
  match kind with
  | FlowKind =>
      match as_plain name with
      | Some flow_name => read QFlow (read_flow_by_name flow_name)
      | None => ret None
      end
  | FlowVersionKind => read QFlowVersion (read_flow_version (ref_for FlowVersionKind name))
  | ExecutionKind => read QExecution (read_execution (ref_for ExecutionKind name))
  | ThreadKind => read QThread (read_thread (ref_for ThreadKind name))
  | ActivityKind => read QActivity (read_activity (ref_for ActivityKind name))
  | TaskKind => read QTask (read_task (ref_for TaskKind name))
  end.

(** [EngineInner::get_variables]. *)
Definition engine_get_variables (name : ObjectName) : M S ExecutionError Variables :=
  map_err from_storage (read_variables (ref_for ThreadKind name)).

(** [EngineInner::activatable_tasks]. *)
Definition engine_activatable_tasks (resource : string) (now : Timestamp) (limit : Z)
    : M S ExecutionError (list Task) :=
  map_err from_storage (read_activatable_tasks resource now limit).

(** [EngineInner::latest_version], [resolve_version_id]. *)
Definition latest_version (name : PlainName) : M S ExecutionError (ObjectRef FlowVersionKind) :=
  let* flow := map_err from_storage (read_flow_by_name name) in
  let* flow := lift_res (ok_or (Runtime (InvalidDefinition
    ("flow " +:+ pn_str name +:+ " has no created version"))) flow) in
  let* ver := map_err from_storage (read_flow_version_of name (fl_latest_version flow)) in
  lift_res (ok_or (Runtime (InvalidDefinition
    ("flow " +:+ pn_str name +:+ " has no version " +:+ u64_to_string (fl_latest_version flow))))
    ((fun v => object_ref (fv_meta v)) <$> ver)).
Definition resolve_version_id (name : PlainName) (version : Z)
    : M S ExecutionError (ObjectRef FlowVersionKind) :=
  if decide (version = 0) then latest_version name
  else
    let* ver := map_err from_storage (read_flow_version_of name version) in
    let* ver := lift_res (ok_or (Runtime (InvalidDefinition
      ("flow " +:+ pn_str name +:+ " has no version " +:+ u64_to_string version))) ver) in
    ret (object_ref (fv_meta ver)).

(** One round of [EngineInner::wait_for_execution]: the terminal row, or another round. *)
Definition wait_round (execution : ObjectRef ExecutionKind)
    : M S ExecutionError (option Execution) :=
  let* record := map_err from_storage (read_execution execution) in
  let* record := lift_res (ok_or (Runtime (InvalidDefinition
    ("execution " +:+ ref_str execution +:+
     " has no projection to await (never created or GC'd)"))) record) in
  ret (if is_terminal (ex_status record) then Some record else None).
(** [EngineInner::wait_for_execution] over the stores its rounds find. *)
Fixpoint wait_for_execution (execution : ObjectRef ExecutionKind) (rounds : list S)
    : option (Res ExecutionError Execution) :=
  match rounds with
  | [] => None
  | s :: rest =>
      match (wait_round execution s).1 with
      | Ok (Some record) => Some (Ok record)
      | Ok None => wait_for_execution execution rest
      | Err e => Some (Err e)
      | Panic m => Some (Panic m)
      end
  end.
End Reads.

(** ** Submissions *)
Section Submissions.
Context `{Engine} {S B T : Type} `{Storage S T} `{!StoreReads S B, !RowCodecs B}.
Notation NM := (M (Node S)).

Definition invalid_definition {A} (msg : string) : NM ExecutionError A :=
  throw (Runtime (InvalidDefinition msg)).

(** [EngineInner::create_flow]. *)
Definition engine_create_flow (request_id : RequestId) (name : PlainName) (definition : string)
    : NM ExecutionError unit :=
  match parse_machine definition with
  | inl _ => invalid_definition "malformed flow definition: does not parse as a StateMachine"
  | inr _ =>
      let* existing := on_storage (get_object (B:=B) FlowKind (Plain name)) in
      match existing with
      | Some _ => invalid_definition ("flow " +:+ pn_str name +:+ " already exists")
      | None => submit_command (CCreateFlow (mkCreateFlow request_id name definition))
      end
  end.

(** [EngineInner::create_execution]. *)
Definition engine_create_execution (request_id : RequestId) (name : ObjectName)
    (flow_version : ObjectRef FlowVersionKind) (input : Value) : NM ExecutionError unit :=
  let* existing := on_storage (get_object (B:=B) ExecutionKind name) in
  match existing with
  | Some _ => invalid_definition ("execution " +:+ as_str name +:+ " already exists")
  | None => submit_command (CCreateExecution (mkCreateExecution request_id name flow_version input))
  end.

(** [EngineInner::cancel_execution]. *)
Definition engine_cancel_execution (name : ObjectName) (uid : option Ulid)
    : NM ExecutionError unit :=
  submit_command (CTerminateExecution (mkTerminateExecution name uid Cancelled)).

(** [EngineInner::claim_tasks], [complete_task], [fail_task]. *)
Definition engine_claim_tasks (request_id : RequestId) (worker_id resource : string)
    (max_tasks lease_seconds : Z) : NM ExecutionError unit :=
  submit_command (CClaimTasks (mkClaimTasks request_id worker_id resource max_tasks lease_seconds)).
Definition engine_complete_task (worker_id : string) (task : ObjectName) (request_id : RequestId)
    (output : Value) : NM ExecutionError unit :=
  submit_command (CCompleteTask (mkCompleteTask request_id (mkRef task ulid_nil) worker_id output)).
Definition engine_fail_task (worker_id : string) (task : ObjectName) (error : ExecutionError)
    : NM ExecutionError unit :=
  submit_command (CFailTask (mkFailTask (mkRef task ulid_nil) worker_id error)).

(** [EngineInner::list_objects]. *)
Definition list_objects (kind : ObjectKind) (limit : Z) (continue_token : option string)
    : NM ExecutionError QueryListPage :=
  on_storage (query_list_kind (B:=B) kind limit continue_token).
End Submissions.
