(* ===== verification/FacadeFacts.v ===== *)
(** Listings through the read facade: following the continue tokens of the pages enumerates
    every row of a kind once, in the order of its names. *)
From S2P Require Import Prelude ByteStrings Names Timestamp Json Asl Errors Meta Entities Tasks.
From S2P Require Import Commands Keys LogStream Storage StorageFacts Rows RocksStorage RocksFacts.
From S2P Require Import RocksRefinement RocksScans Handler Leader StreamProcessor Facade.
Local Open Scope Z_scope.

(** Rows strictly in the order of their names. *)
Definition rows_sorted {B} : list (ObjectName * B) -> Prop :=
  StronglySorted (fun x y => str_lt (as_str x.1) (as_str y.1)).

Lemma sorted_app_cross {A} (R : relation A) l1 l2 x y :
  StronglySorted R (l1 ++ l2) -> x ∈ l1 -> y ∈ l2 -> R x y.
Proof.
  induction l1 as [|z l1 IH]; simpl; [by intros _ ?%not_elem_of_nil|].
  inversion_clear 1 as [|? ? Hs Hlt]. intros [->|Hx]%elem_of_cons Hy; [|auto].
  rewrite Forall_forall in Hlt. apply Hlt. set_solver.
Qed.

Lemma filter_none {A} (P : A -> Prop) `{forall x, Decision (P x)} (l : list A) :
  (forall x, x ∈ l -> ~ P x) -> filter P l = [].
Proof.
  induction l as [|x l IH]; intros Hl; [done|].
  rewrite filter_cons_False by (apply Hl; left). apply IH. intros y Hy. apply Hl. by right.
Qed.
Lemma filter_all {A} (P : A -> Prop) `{forall x, Decision (P x)} (l : list A) :
  (forall x, x ∈ l -> P x) -> filter P l = l.
Proof.
  induction l as [|x l IH]; intros Hl; [done|].
  rewrite filter_cons_True by (apply Hl; left). f_equal. apply IH. intros y Hy. apply Hl. by right.
Qed.

(** The rows after a name of the list are the rest of the list. *)
Lemma filter_after {B} (pre suf : list (ObjectName * B)) n :
  rows_sorted (pre ++ suf) -> fst <$> last pre = Some n ->
  filter (after_name (Some n)) (pre ++ suf) = suf.
Proof.
  intros Hs Hl. destruct (last pre) as [[n' b]|] eqn:El; [|done]. simplify_eq/=.
  apply last_Some in El as [pre' ->]. rewrite filter_app.
  assert (filter (after_name (Some n)) (pre' ++ [(n, b)]) = []) as ->.
  { apply filter_none. intros x Hx Ha. simpl in Ha. apply elem_of_app in Hx as [Hx|Hx].
    - apply sorted_app_l in Hs.
      pose proof (sorted_app_cross _ _ _ x (n, b) Hs Hx ltac:(set_solver)) as Hlt. simpl in Hlt.
      exact (str_lt_irrefl _ (str_lt_trans _ _ _ Ha Hlt)).
    - apply list_elem_of_singleton in Hx as ->. by apply str_lt_irrefl in Ha. }
  simpl. apply filter_all. intros x Hx. simpl.
  eapply (sorted_app_cross _ _ _ (n, b) x Hs); [set_solver|done].
Qed.

(** The client's loop: a page, then the pages its token leads to. *)
Fixpoint list_all {S B} `{StoreReads S B, RowCodecs B} (fuel : nat) (kind : ObjectKind)
    (limit : Z) (token : option string) : M S ExecutionError (list QueryObject) :=
  match fuel with
  | O => ret []
  | Datatypes.S fuel' =>
      let* p := query_list_kind (B:=B) kind limit token in
      match pg_continue_token p with
      | None => ret (pg_objects p)
      | Some t => let* rest := list_all fuel' kind limit (Some t) in ret (pg_objects p ++ rest)
      end
  end.

Section Paging.
Context {S B : Type} `{StoreReads S B, RowCodecs B} (s : S) (kind : ObjectKind).
Context (rows : list (ObjectName * B)) (objs : list QueryObject) (limit : Z).
(** The listing of the store serves pages of [rows], which decode to [objs]. *)
Hypothesis Hlist : forall after n, 0 < n ->
  read_list_kind kind after n s = (Ok (page after n rows), s).
Hypothesis Hsorted : rows_sorted rows.
Hypothesis Hwf : Forall (fun r => name_wf r.1) rows.
Hypothesis Hdec : Forall2 (fun r o => decode kind r.1 r.2 = Ok o /\ q_name o = r.1) rows objs.
Hypothesis Hlimit : 0 < limit < u64_max.

Lemma collect_decode rs os :
  Forall2 (fun r o => decode kind r.1 r.2 = Ok o /\ q_name o = r.1) rs os ->
  collect ((fun r => decode kind r.1 r.2) <$> rs) = Ok os.
Proof.
  induction 1 as [|r o rs os [Hr _] _ IH]; [done|]. cbn. by rewrite Hr, IH.
Qed.

(** The token that resumes after the rows [pre]. *)
Definition resumes (token : option string) (pre : list (ObjectName * B)) : Prop :=
  match token with
  | None => pre = []
  | Some t => exists n, fst <$> last pre = Some n /\ t = as_str n
  end.

Lemma name_nonempty n : name_wf n -> (as_str n =? "")%string = false.
Proof.
  intros Hn. apply String.eqb_neq. intros E. pose proof (name_roundtrip n Hn) as Hr.
  by rewrite E in Hr.
Qed.

Lemma resume_rows token pre suf :
  rows = pre ++ suf -> resumes token pre ->
  exists after, parse_token token = Ok after /\
    forall n, page after n rows = take (Z.to_nat n) suf.
Proof.
  intros Hrows Ht. destruct token as [t|]; simpl in Ht.
  - destruct Ht as (n & Hn & ->).
    assert (name_wf n) as Hwn.
    { rewrite Hrows in Hwf. apply Forall_app in Hwf as [Hpre _]. destruct (last pre) as [[n' b]|] eqn:El;
      simplify_eq/=. apply last_Some in El as [pre' ->]. apply Forall_app in Hpre as [_ Hpre].
      exact (proj1 (Forall_singleton _ _) Hpre). }
    exists (Some n). unfold parse_token. rewrite name_nonempty, name_roundtrip by done.
    split; [done|]. intros k. unfold page. rewrite Hrows, filter_after; [done| |done].
    by rewrite <- Hrows.
  - subst pre. exists None. split; [done|]. intros k. unfold page. rewrite Hrows. simpl.
    by rewrite filter_all.
Qed.

(** One page: the next [limit] objects, and a token exactly when rows remain. *)
Lemma query_page token pre suf :
  rows = pre ++ suf -> resumes token pre ->
  query_list_kind kind limit token s =
  (Ok (mkPage (take (Z.to_nat limit) (drop (length pre) objs))
         (if bool_decide (limit < Z.of_nat (length suf))
          then (fun r => as_str r.1) <$> last (take (Z.to_nat limit) suf) else None)), s).
Proof.
  intros Hrows Ht. destruct (resume_rows token pre suf Hrows Ht) as (after & Hp & Hpage).
  unfold query_list_kind, bind, lift_res, map_err. rewrite Hp.
  rewrite Hlist by (unfold u64_saturating_add; lia). simpl.
  rewrite Hpage. unfold u64_saturating_add. rewrite Z.min_l by lia.
  rewrite take_take, length_take, Nat.min_l by lia.
  assert (Forall2 (fun r o => decode kind r.1 r.2 = Ok o /\ q_name o = r.1)
    (take (Z.to_nat limit) suf) (take (Z.to_nat limit) (drop (length pre) objs))) as Hd.
  { apply Forall2_take. rewrite <- (drop_app_length pre suf), <- Hrows. by apply Forall2_drop. }
  rewrite (collect_decode _ _ Hd). unfold ret. do 3 f_equal.
  rewrite (bool_decide_ext _ (limit < Z.of_nat (length suf))) by lia.
  case_bool_decide; [|done]. clear -Hd.
  induction Hd as [|r o rs os [_ Hn] Hd IH] using Forall2_ind; [done|].
  destruct rs as [|r' rs]; inversion Hd; simplify_eq.
  - simpl. by rewrite Hn.
  - rewrite !last_cons_cons. exact IH.
Qed.

Lemma list_all_from fuel token pre suf :
  rows = pre ++ suf -> resumes token pre -> (length suf < fuel)%nat ->
  list_all fuel kind limit token s = (Ok (drop (length pre) objs), s).
Proof.
  revert token pre suf. induction fuel as [|fuel IH]; intros token pre suf Hrows Ht Hf; [lia|].
  cbn [list_all]. unfold bind. rewrite (query_page token pre suf Hrows Ht).
  pose proof (Forall2_length _ _ _ Hdec) as Hlen. rewrite Hrows, length_app in Hlen.
  cbn [pg_continue_token pg_objects]. case_bool_decide as Hmore.
  - destruct (last (take (Z.to_nat limit) suf)) as [[n b]|] eqn:El.
    2: { apply last_None in El. assert (length (take (Z.to_nat limit) suf) = 0%nat) as E by by rewrite El.
         rewrite length_take in E. lia. }
    cbn [fmap option_fmap option_map fst].
    rewrite (IH _ (pre ++ take (Z.to_nat limit) suf) (drop (Z.to_nat limit) suf)).
    + unfold ret. do 2 f_equal. rewrite length_app, length_take, Nat.min_l by lia.
      rewrite <- drop_drop. apply take_drop.
    + by rewrite <- app_assoc, take_drop.
    + simpl. exists n. split; [|done]. rewrite last_app, El. done.
    + rewrite length_drop. lia.
  - unfold ret. do 2 f_equal. apply take_ge. rewrite length_drop. lia.
Qed.

Lemma list_all_enumerates fuel :
  (length rows < fuel)%nat -> list_all fuel kind limit None s = (Ok objs, s).
Proof. intros Hf. rewrite (list_all_from fuel None [] rows); done. Qed.
End Paging.

(** ** The stores that serve such pages *)

(** The objects of a kind, by name. *)
Definition table_of (d : InMemoryDb) (k : ObjectKind) : gmap ObjectName QueryObject :=
  match k with
  | FlowKind => kmap Plain (QFlow <$> db_flows d)
  | FlowVersionKind => QFlowVersion <$> db_flow_versions d
  | ExecutionKind => QExecution <$> db_executions d
  | ThreadKind => QThread <$> db_threads d
  | ActivityKind => QActivity <$> db_activities d
  | TaskKind => QTask <$> db_tasks d
  end.
Definition objects_by_name (d : InMemoryDb) (k : ObjectKind) : list QueryObject :=
  (sort_by_name (map_to_list (table_of d k))).*2.

(** A table sorted by name is strictly sorted. *)
Lemma sort_by_name_strict {A} (tb : gmap ObjectName A) :
  names_wf tb -> rows_sorted (sort_by_name (map_to_list tb)).
Proof.
  intros Hwf.
  assert (StronglySorted name_le (sort_by_name (map_to_list tb))) as Hs
    by (apply StronglySorted_merge_sort; apply _).
  assert (NoDup (sort_by_name (map_to_list tb)).*1) as Hnd.
  { unfold sort_by_name. rewrite merge_sort_Permutation. apply NoDup_fst_map_to_list. }
  assert (Forall (fun x : ObjectName * A => name_wf x.1) (sort_by_name (map_to_list tb))) as Hn.
  { unfold sort_by_name. rewrite merge_sort_Permutation. apply Forall_forall.
    intros [n x] Hx%elem_of_map_to_list. by eapply Hwf. }
  unfold rows_sorted. induction Hs as [|x l Hs IH Hle]; constructor; simpl in Hnd;
    apply NoDup_cons in Hnd as [Hnin Hnd]; apply Forall_cons in Hn as [Hx Hn]; [by apply IH|].
  rewrite Forall_forall in Hle, Hn. apply Forall_forall. intros y Hy.
  specialize (Hle y Hy). unfold name_le in Hle. apply str_le_lt_eq in Hle as [?|Heq]; [done|].
  exfalso. apply Hnin, list_elem_of_fmap. exists y. split; [|done].
  apply as_str_inj; [done|exact (Hn _ Hy)|done].
Qed.

Section Listable.
Context {B : Type} `{RowCodecs B, RowOrder}.

Definition encode_object (o : QueryObject) : Res string B :=
  match o with
  | QFlow f => to_vec f | QFlowVersion v => to_vec v | QExecution e => to_vec e
  | QThread t => to_vec t | QActivity a => to_vec a | QTask t => to_vec t
  end.

(** Rows under their own valid names, that the serializer round-trips. *)
Definition listable (d : InMemoryDb) (k : ObjectKind) : Prop :=
  forall n o, table_of d k !! n = Some o ->
    name_wf n /\ q_name o = n /\ exists b, encode_object o = Ok b /\ decode k n b = Ok o.

(** The encoding of the rows of a kind, before they are sorted. *)
Definition encoded (d : InMemoryDb) (k : ObjectKind) : Res StorageError (list (ObjectName * B)) :=
  match k with
  | ExecutionKind => encode_rows (db_executions d)
  | ThreadKind => encode_rows (db_threads d)
  | ActivityKind => encode_rows (db_activities d)
  | TaskKind => encode_rows (db_tasks d)
  | FlowKind => encode_flows (db_flows d)
  | FlowVersionKind => encode_rows (db_flow_versions d)
  end.

Definition encode_entry (x : ObjectName * QueryObject) : Res StorageError (ObjectName * B) :=
  match encode_object x.2 with Ok b => Ok (x.1, b) | _ => Panic "storage rows are serializable" end.

(** A table whose rows encode, encoded in the order it is iterated. *)
Lemma encode_rows_table {V} `{RowCodec B V} (f : V -> QueryObject) (tb : gmap ObjectName V) ln :
  (encode_entry <$> map_to_list (f <$> tb)) ≡ₚ (Ok <$> ln) ->
  (forall v, encode_object (f v) = to_vec v) ->
  rows_sorted ln -> Forall (fun r => name_wf r.1) ln ->
  res_map sort_by_name (encode_rows tb) = Ok ln.
Proof.
  intros Hp Hf Hs Hwf. apply sorted_encoding; [done..|].
  rewrite <- Hp, row_iter_perm, map_to_list_fmap.
  rewrite <- list_fmap_compose. apply reflexive_eq, list_fmap_ext. intros i [n v] _.
  unfold encode_entry. simpl. by rewrite Hf.
Qed.

Lemma encode_flows_table (tb : gmap PlainName Flow) ln :
  (forall p x, tb !! p = Some x -> plain_wf p /\ exists b, to_vec (B:=B) x = Ok b) ->
  (encode_entry <$> map_to_list (kmap Plain (QFlow <$> tb) : gmap ObjectName QueryObject))
    ≡ₚ (Ok <$> ln) ->
  rows_sorted ln -> Forall (fun r => name_wf r.1) ln ->
  res_map sort_by_name (encode_flows tb) = Ok ln.
Proof.
  intros Hf Hp Hs Hwf. apply sorted_encoding; [done..|].
  rewrite <- Hp, row_iter_perm, map_to_list_kmap, map_to_list_fmap by apply _.
  rewrite <- !list_fmap_compose. apply reflexive_eq, list_fmap_ext. intros i [p x] Hi.
  apply list_elem_of_lookup_2, elem_of_map_to_list in Hi. destruct (Hf p x Hi) as (Hwp & b & Hb).
  unfold encode_entry. simpl. unfold ObjectName_plain. rewrite PlainName_new_wf by done. simpl.
  by rewrite Hb.
Qed.

(** The listing of a store whose rows encode serves pages of its sorted rows. *)
Lemma memory_lists d k :
  listable d k ->
  exists ln, rows_sorted ln /\ Forall (fun r => name_wf r.1) ln /\
    Forall2 (fun r o => decode k r.1 r.2 = Ok o /\ q_name o = r.1) ln (objects_by_name d k) /\
    forall after n, memory_list_kind k after n d = (Ok (page after n ln), d).
Proof.
  intros Hl. set (xs := sort_by_name (map_to_list (table_of d k))).
  assert (names_wf (table_of d k)) as Hn by (intros n o Ho; by apply Hl in Ho as []).
  assert (exists ln, Forall2 (fun r x => r.1 = x.1 /\ encode_object x.2 = Ok r.2 /\
    decode k r.1 r.2 = Ok x.2 /\ q_name x.2 = r.1 /\ name_wf r.1) ln xs) as (ln & Hln).
  { assert (Forall (fun x => table_of d k !! x.1 = Some x.2) xs) as Hall.
    { subst xs. unfold sort_by_name. rewrite merge_sort_Permutation. apply Forall_forall.
      by intros [n o] Ho%elem_of_map_to_list. }
    clearbody xs. clear -Hall Hl. induction Hall as [|[n o] xs Ho _ [ln IH]]; [by exists []|].
    destruct (Hl n o Ho) as (Hw & Hq & b & Hb & Hd). exists ((n, b) :: ln). by constructor. }
  assert (rows_sorted ln) as Hs.
  { eapply row_sorted_transfer; [|exact (sort_by_name_strict _ Hn)]. fold xs.
    apply Forall2_flip. eapply Forall2_impl; [exact Hln|]. by intros r x [-> _]. }
  assert (Forall (fun r => name_wf r.1) ln) as Hwf.
  { clear -Hln. induction Hln as [|r x ln xs Hr _ IH]; constructor; [by apply Hr|done]. }
  assert ((encode_entry <$> map_to_list (table_of d k)) ≡ₚ (Ok <$> ln)) as Hp.
  { transitivity (encode_entry <$> xs).
    - subst xs. unfold sort_by_name. by rewrite merge_sort_Permutation.
    - apply reflexive_eq. clear -Hln. induction Hln as [|r x ln xs (Hr & He & _) _ IH]; [done|].
      cbn. unfold encode_entry at 1. rewrite He, <- Hr, IH. by destruct r. }
  exists ln. split_and!; [done..| |].
  - unfold objects_by_name. fold xs. clear -Hln.
    induction Hln as [|r x ln xs Hr _ IH]; constructor; [|done]. split; apply Hr.
  - intros after n. unfold memory_list_kind. f_equal.
    assert (res_map sort_by_name (encoded d k) = Ok ln) as He.
    { destruct k; simpl in *; try by eapply encode_rows_table.
      apply encode_flows_table; [|done..]. intros p x Hx.
      assert (table_of d FlowKind !! Plain p = Some (QFlow x)) as Ht.
      { unfold table_of. rewrite lookup_kmap by apply _. by rewrite lookup_fmap, Hx. }
      destruct (Hl _ _ Ht) as (Hw & _ & b & Hb & _). eauto. }
    change (res_map (fun rows => page after n (sort_by_name rows)) (encoded d k) = Ok (page after n ln)).
    destruct (encoded d k); simpl in *; congruence.
Qed.
End Listable.
