(* ===== verification/PersistentLeader.v ===== *)
(** The leader over the persistent store. [checked_ops] is the in-memory transaction that
    takes only operations a row store can take; a run over it that does not panic is, step
    for step, the run over the in-memory store and the run over the persistent one. *)
From S2P Require Import Prelude ByteStrings Names Timestamp Json Asl Errors Meta Entities Tasks.
From S2P Require Import Commands LogStream Keys Storage StorageFacts Rows RocksStorage RocksFacts.
From S2P Require Import RocksRefinement Applier Eval Handler Dispatch HandlerSim Leader.
From S2P Require Import StreamProcessor LeaderSim Facade.
Local Open Scope string_scope.
Local Open Scope Z_scope.

#[local] Existing Instance name_order.

(** ** The checked store *)
Section Checked.
Context (good : TxnOp -> bool) (good_position : Z -> bool).

(** An operation is refused unless [good] accepts it. *)
Definition checked {A} (op : TxnOp) (m : M InMemoryTxn StorageError A)
    : M InMemoryTxn StorageError A :=
  if good op then m else panic "an operation no row store takes".

(** The transaction; its counter never goes down. *)
Definition checked_ops : StorageTxn InMemoryTxn := {|
  get_execution r := checked (OpGetExecution r) (get_execution r);
  get_thread r := checked (OpGetThread r) (get_thread r);
  get_variables r := checked (OpGetVariables r) (get_variables r);
  get_activity r := checked (OpGetActivity r) (get_activity r);
  get_task r := checked (OpGetTask r) (get_task r);
  get_children r := checked (OpGetChildren r) (get_children r);
  activatable_tasks res now n := checked (OpActivatableTasks res now n) (activatable_tasks res now n);
  get_flow_by_name n := checked (OpGetFlowByName n) (get_flow_by_name n);
  get_flow_version r := checked (OpGetFlowVersion r) (get_flow_version r);
  flow_version_of n v := checked (OpFlowVersionOf n v) (flow_version_of n v);
  put_execution e := checked (OpPutExecution e) (put_execution e);
  put_thread t := checked (OpPutThread t) (put_thread t);
  put_variables r v := checked (OpPutVariables r v) (put_variables r v);
  put_activity a := checked (OpPutActivity a) (put_activity a);
  put_task t := checked (OpPutTask t) (put_task t);
  remove_child p c := checked (OpRemoveChild p c) (remove_child p c);
  add_child p c := checked (OpAddChild p c) (add_child p c);
  put_flow f := checked (OpPutFlow f) (put_flow f);
  put_flow_version v := checked (OpPutFlowVersion v) (put_flow_version v);
  next_generated_seq := checked OpNextGeneratedSeq next_generated_seq;
  put_next_generated_seq s := checked (OpPutNextGeneratedSeq s)
    (let* current := next_generated_seq in
     if current <=? s then put_next_generated_seq s else panic "the counter goes down") |}.

(** The in-memory store whose transactions are checked. *)
Definition checked_storage : Storage InMemoryDb InMemoryTxn := {|
  storage_txn := checked_ops;
  open_txn := open_txn (Storage := memory_storage);
  commit_txn t w :=
    if match w with Some p => good_position p | None => true end
    then commit_txn (Storage := memory_storage) t w
    else panic "a position no row store takes";
  last_processed_position := last_processed_position (Storage := memory_storage) |}.

Lemma perform_checked op :
  perform (H := checked_ops) op =
  if good op then
    match op with
    | OpPutNextGeneratedSeq s =>
        answer (fun _ => VUnit) (let* current := next_generated_seq in
          if current <=? s then put_next_generated_seq s else panic "the counter goes down")
    | _ => perform op
    end
  else panic "an operation no row store takes".
Proof. destruct op; simpl; unfold checked; by destruct (good _). Qed.

(** ** Against the in-memory store *)

(** The order of the in-memory store only matters to the scans for tasks. *)
Definition scans_by_name (order : HashOrder) : Prop :=
  forall resource now limit, good (OpActivatableTasks resource now limit) = true ->
  forall m, map_iter (HashOrder:=order) m = map_iter (HashOrder:=name_order) m.
Lemma checked_is_memory_ops order :
  scans_by_name order -> OpSim (H:=checked_ops) (H0:=@InMemoryTxn_ops order) eq.
Proof.
  intros Ho op. rewrite perform_checked. destruct (good op) eqn:Hg; [|apply psim_panic].
  destruct op; try (by intros s1 s2 -> _; split).
  - intros t ? <- _. split; [|done]. simpl. unfold select_tasks.
    by rewrite (Ho _ _ _ Hg).
  - intros t ? <- Hp. simpl in *. unfold answer, bind, reads in *. simpl in *.
    by destruct (_ <=? _).
Qed.

Lemma checked_is_memory order :
  scans_by_name order -> StoreSim (H:=checked_storage) (H0:=@memory_storage order) eq (fun _ _ => eq).
Proof.
  intros Ho. split.
  - intros _ _. by apply checked_is_memory_ops.
  - intros d ? <-. by eexists _, _.
  - intros d ? t ? w <- <- Hp. simpl in *.
    destruct (match w with Some p => good_position p | None => true end); [|done].
    by eexists _, _.
  - intros d ? <-. by eexists.
Qed.

(** ** Against the persistent store *)

(** The operations on a transaction and on the database its commit would leave. *)
Lemma perform_flush op :
  match op with OpPutNextGeneratedSeq _ => False | _ => True end ->
  sim flushes eq (perform (T:=InMemoryTxn) op) (perform op).
Proof.
  destruct op; intros Hop; try done; apply sim_answer;
    eauto with spica typeclass_instances.
  intros [d0 b] d [Hseq Hc]. unfold commit in Hc. simplify_eq/=. unfold seq_ok in Hseq. simpl in *.
  split; [|done]. destruct (b_next_generated_seq b); simpl in *; [lia|done].
Qed.
Lemma flush_seq t d s :
  flushes t d -> db_next_generated_seq d <= s ->
  flushes (perform (OpPutNextGeneratedSeq s) t).2 (db_set_seq d s).
Proof.
  destruct t as [d0 b]. intros [Hseq Hc] Hle. unfold commit in Hc. simplify_eq/=.
  unfold seq_ok in Hseq. simpl in *.
  assert (db_next_generated_seq d0 <= s) by (destruct (b_next_generated_seq b); lia).
  split; [done|]. unfold commit. simpl. unfold db_set_seq. simpl. by rewrite Z.max_r.
Qed.
Lemma perform_base op t : tx_db (perform (T:=InMemoryTxn) op t).2 = tx_db t.
Proof. destruct op; try done. simpl. unfold answer, bind, flow_key. by destruct (as_plain _). Qed.

(** An operation the checked store takes. *)
Lemma checked_flush op : psim flushes (perform (H:=checked_ops) op) (perform (T:=InMemoryDb) op).
Proof.
  rewrite perform_checked. destruct (good op); [|apply psim_panic].
  destruct op; try (by apply sim_psim, perform_flush). intros t d Hf. simpl.
  destruct (perform_flush OpNextGeneratedSeq I t d Hf) as [Hs _].
  injection Hs as Hs. unfold answer, bind, reads in *. simpl in *. rewrite Hs.
  destruct (_ <=? s) eqn:E; [|done]. intros _. split; [done|].
  apply flush_seq; [done|lia].
Qed.
Lemma checked_base op t : tx_db (perform (H:=checked_ops) op t).2 = tx_db t.
Proof.
  rewrite perform_checked. destruct (good op); [|done].
  destruct op; try apply perform_base. unfold answer, bind, reads. simpl. by destruct (_ <=? s).
Qed.

Context {B D X : Type} `{HR : RocksDb B D X, HC : RowCodecs B}.
Context `{!RocksLaws B D X, !RowLaws B} (kb : KeyBuilder) (Hkb : kb_wf kb).
Context (uid_of : ObjectKind -> ObjectName -> Ulid).
Hypothesis good_wf : forall op, good op = true -> op_wf uid_of op.
Hypothesis good_position_wf : forall p, good_position p = true -> ok_i64 p.

(** A persistent store against the tables it stands for, and a transaction on it against the
    overlay on those tables. *)
Definition rocks_rel (d : InMemoryDb) (s : RocksStorage D) : Prop :=
  store_refines (X:=X) kb uid_of s d.
Definition rocks_txn_rel (d : InMemoryDb) (s : RocksStorage D) (t : InMemoryTxn) (x : RocksTxn X)
    : Prop :=
  tx_db t = d /\ exists d', flushes t d' /\ txn_refines kb uid_of (dview (rs_db s)) x d'.

#[export] Instance checked_is_rocks_ops d s :
  OpSim (H:=checked_ops) (H0:=RocksTxn_ops) (rocks_txn_rel d s).
Proof.
  intros op t x (Hb & d' & Hf & Hx) Hp.
  assert (op_wf uid_of op) as Hg.
  { apply good_wf. rewrite perform_checked in Hp. by destruct (good op). }
  destruct (checked_flush op t d' Hf Hp) as [Hr1 Hf'].
  destruct (perform_sim kb Hkb uid_of _ op Hg x d' Hx) as [Hr2 Hx'].
  rewrite Hr1 in Hr2. split.
  - destruct (perform op x).1, (perform op t).1; simpl in *; by subst.
  - split; [by rewrite checked_base|by eexists].
Qed.

#[export] Instance checked_is_rocks :
  StoreSim (H:=checked_storage) (H0:=rocks_storage) rocks_rel rocks_txn_rel.
Proof.
  split.
  - apply checked_is_rocks_ops.
  - intros d s Hs. destruct (begin_refines kb uid_of s d Hs) as (x & Hx & Hr).
    eexists _, x. split; [done|]. split; [done|]. split; [done|].
    exists d. split; [apply flushes_begin|done].
  - intros d s t x w Hs (Hb & d' & [_ Hc] & Hx) Hp. simpl in *.
    destruct (match w with Some p => good_position p | None => true end) eqn:Hw; [|done].
    destruct Hs as (m & [Hk _] & _).
    destruct (commit_refines kb Hkb uid_of s x d' w Hk Hx) as (s' & Hs' & Hr).
    { intros p ->. by apply good_position_wf. }
    eexists _, s'. split; [done|]. split; [done|]. unfold rocks_rel.
    destruct t as [d0 b]. simpl in *. subst d0. unfold commit in *. simpl in *. injection Hc as <-.
    by destruct w.
  - intros d s Hs. exists (db_last_processed_position d). split; [done|].
    assert (sim (store_refines (X:=X) kb uid_of) eq (rs_last_processed_position (D:=D) (X:=X))
      (reads db_last_processed_position)) as Hsim by by apply (store_get_or kb uid_of _ APosition).
    destruct (Hsim s d Hs) as [Hr _]. simpl. revert Hr.
    unfold rs_last_processed_position, rs_get_row, bind, reads.
    destruct (res_bind _ _) as [o| |]; simpl; intros Hr; [|done..]. by rewrite <- Hr.
Qed.

(** A script whose checked run does not panic. *)
Lemma acts_alike `{Engine} order (n : Node InMemoryDb) (nr : Node (RocksStorage D)) acts :
  scans_by_name order -> nodes rocks_rel n nr ->
  not_panic (node_acts (H0:=checked_storage) acts n).1 ->
  exists r n' nr', node_acts (H0:=@memory_storage order) acts n = (r, n') /\
    node_acts (H0:=rocks_storage) acts nr = (r, nr') /\ nodes rocks_rel n' nr'.
Proof.
  intros Ho Hn Hp.
  assert (nodes eq n n) as Hself by by exists (nd_storage n), (nd_storage n); destruct n.
  destruct (nodes_outcome eq _ _ _ _ (nodes_acts eq (fun _ _ => eq)
    (StoreSim0 := checked_is_memory order Ho) acts) Hself Hp) as [Hr (? & ? & <- & <- & Hn1)].
  destruct (nodes_outcome rocks_rel _ _ _ _ (nodes_acts rocks_rel rocks_txn_rel acts) Hn Hp)
    as [Hr' Hn'].
  exists (node_acts (H0:=@memory_storage order) acts n).1,
    (node_acts (H0:=@memory_storage order) acts n).2,
    (node_acts (H0:=rocks_storage) acts nr).2.
  split; [apply surjective_pairing|]. split; [rewrite Hr, <- Hr'; apply surjective_pairing|].
  rewrite Hn1. by destruct (node_acts (H0:=checked_storage) acts n) as [? []].
Qed.
End Checked.
