(* ===== verification/Gateway.v ===== *)
(** The server's application layer ([crates/server/src/gateway.rs]): the registry that pairs
    an awaited request with its outcome, the observer that feeds it and the scheduler from
    the leader's hook calls, and the request/response operations in front of the engine. *)
From S2P Require Import Prelude Names Timestamp Json Asl Errors Meta Entities Tasks Commands.
From S2P Require Import Keys LogStream Storage Rows RocksStorage Applier Eval Handler Dispatch.
From S2P Require Import Leader StreamProcessor Scheduler Facade.
Local Open Scope string_scope.
Local Open Scope Z_scope.

(** ** The acknowledgement registry *)

(** [enum AckTarget]. *)
Inductive AckTarget :=
  | AckFlowVersionCreated | AckExecutionCreated | AckTaskCompleted | AckGrant.
#[export] Instance AckTarget_eq_dec : EqDecision AckTarget.
Proof. solve_decision. Defined.

(** [struct ActivatedTask] of the task API. *)
Record ActivatedTask := mkActivated {
  av_task : ObjectName; av_resource : string; av_arguments : Value }.

(** [enum AckOutcome], [enum AckFailure]. *)
Inductive AckOutcome :=
  | Applied (e : Event)
  | AckRejected (r : Reject)
  | Granted (tasks : list ActivatedTask).
Inductive AckFailure := Dropped | FailureRejected (r : Reject).

(** A one-shot channel: nothing sent yet, the value sent, or its sender dropped unsent. *)
Inductive OneShot := Unsent | Sent (o : AckOutcome) | SenderDropped.

(** [struct AckHook]: the pending senders, each a channel of the list. *)
Record AckHook := mkAck {
  ak_pending : gmap RequestId (AckTarget * nat);
  ak_channels : list OneShot }.
Definition AckHook_new : AckHook := mkAck ∅ [].

(** [tx.send(outcome)], and the drop of a sender. *)
Definition close_with (c : OneShot) (ch : nat) (channels : list OneShot) : list OneShot :=
  alter (fun x => match x with Unsent => c | _ => x end) ch channels.

(** [AckHook::register]: a sender the insertion replaces is dropped. *)
Definition register (key : RequestId) (target : AckTarget) (h : AckHook) : nat * AckHook :=
  let ch := length (ak_channels h) in
  let channels :=
    match ak_pending h !! key with
    | Some (_, old) => close_with SenderDropped old (ak_channels h)
    | None => ak_channels h
    end in
  (ch, mkAck (<[key := (target, ch)]> (ak_pending h)) (channels ++ [Unsent])%list).

(** [AckHook::resolves]. *)
Definition resolves (event : Event) : option (RequestId * AckTarget) :=
  match event with
  | FlowVersionCreated request_id _ => Some (request_id, AckFlowVersionCreated)
  | ExecutionCreated request_id _ => Some (request_id, AckExecutionCreated)
  | TaskCompleted request_id _ _ => Some (request_id, AckTaskCompleted)
  | TasksClaimed request_id _ => Some (request_id, AckGrant)
  | _ => None
  end.

(** [AckHook::granted_from]. *)
Definition granted_from (tasks : list Task) : list ActivatedTask :=
  map (fun t => mkActivated (m_name (tk_meta t)) (tk_resource t) (tk_arguments t)) tasks.

(** [AckHook::on_event_applied]: the entry is removed before its target is compared. *)
Definition ack_on_event_applied (event : Event) (h : AckHook) : AckHook :=
  match resolves event with
  | None => h
  | Some (request_id, target) =>
      match ak_pending h !! request_id with
      | None => h
      | Some (t, ch) =>
          let finish c := mkAck (delete request_id (ak_pending h))
                                (close_with c ch (ak_channels h)) in
          if decide (t = target) then
            match target with
            | AckGrant =>
                match event with
                | TasksClaimed _ tasks => finish (Sent (Granted (granted_from tasks)))
                | _ => finish SenderDropped
                end
            | _ => finish (Sent (Applied event))
            end
          else finish SenderDropped
      end
  end.

(** [AckHook::on_command_rejected]. *)
Definition ack_on_command_rejected (request_id : RequestId) (reject : Reject) (h : AckHook)
    : AckHook :=
  match ak_pending h !! request_id with
  | None => h
  | Some (_, ch) =>
      mkAck (delete request_id (ak_pending h))
            (close_with (Sent (AckRejected reject)) ch (ak_channels h))
  end.

(** ** The observer *)

(** The messages [CompositeHook::on_event_applied] sends the scheduler. *)
Definition deadline_inputs (event : Event) : list SchedulerInput :=
  match event with
  | ExecutionCreated _ execution =>
      match ex_deadline execution with
      | Some deadline => [ScheduleInput (DExecution (object_ref (ex_meta execution))) deadline]
      | None => []
      end
  | TaskActivated task =>
      match tk_deadline task with
      | Some deadline => [ScheduleInput (DActivity (m_owner (tk_meta task))) deadline]
      | None => []
      end
  | StateActivated activity =>
      match ac_activity_state activity with
      | Some (ASWait w) =>
          [ScheduleInput (DActivity (object_ref (ac_meta activity))) (wa_resume_at w)]
      | _ => []
      end
  | StateCompleted activity | StateTerminated activity =>
      [CancelInput (DActivity (object_ref (ac_meta activity)))]
  | ExecutionCompleted execution | ExecutionTerminated execution =>
      [CancelInput (DExecution (object_ref (ex_meta execution)))]
  | _ => []
  end.

(** [impl Hook for CompositeHook]. *)
Definition composite_hook (call : HookCall) (x : AckHook * SchedulerState)
    : AckHook * SchedulerState :=
  match call with
  | on_event_applied event =>
      (ack_on_event_applied event x.1, foldl send_input x.2 (deadline_inputs event))
  | on_command_rejected request_id reject => (ack_on_command_rejected request_id reject x.1, x.2)
  end.

(** ** The gateway *)

(** The engine with the observer it was booted with ([build_observer], [struct Gateway]);
    [gw_booted] is the engine slot of the deadline sink. *)
Record Gateway `{JsonataLib} (S : Type) := mkGateway {
  gw_node : Node S;
  gw_ack : AckHook;
  gw_scheduler : SchedulerState;
  gw_booted : bool }.
Arguments mkGateway {_ S}. Arguments gw_node {_ S}. Arguments gw_ack {_ S}.
Arguments gw_scheduler {_ S}. Arguments gw_booted {_ S}.

(** [build_observer]: the sink is attached before the engine exists. *)
Definition build_observer (scheduler : SchedulerState) : AckHook * SchedulerState :=
  (AckHook_new, attach_sink scheduler).

Section Gateway.
Context `{Engine} {S B T : Type} `{Storage S T} `{!StoreReads S B, !RowCodecs B}.
Notation GM := (M (Gateway S)).

(** The hook calls a run of the engine made, delivered in order. *)
Definition observe (g : Gateway S) (n : Node S) : Gateway S :=
  let calls := drop (length (nd_hooks (gw_node g))) (nd_hooks n) in
  let '(ack, scheduler) :=
    foldl (fun x c => composite_hook c x) (gw_ack g, gw_scheduler g) calls in
  mkGateway n ack scheduler (gw_booted g).
Definition on_engine {E A} (m : M (Node S) E A) : GM E A :=
  fun g => let '(r, n) := m (gw_node g) in (r, observe g n).
Definition with_ack {E A} (f : AckHook -> A * AckHook) : GM E A :=
  fun g => let '(a, h) := f (gw_ack g) in
           (Ok a, mkGateway (gw_node g) h (gw_scheduler g) (gw_booted g)).

(** [EngineDeadlineSink::trigger]: the result of the append is dropped. *)
Definition trigger (target : DeadlineTarget) (deadline : Timestamp) (g : Gateway S) : Gateway S :=
  if gw_booted g
  then (on_engine (submit_command (CTriggerDeadline target deadline)) g).2
  else g.

(** What a receiver finds: [None] while nothing was sent and the sender lives. *)
Definition received (rx : nat) (h : AckHook) : option (Res unit AckOutcome) :=
  match ak_channels h !! rx with
  | Some (Sent o) => Some (Ok o)
  | Some SenderDropped => Some (Err tt)
  | _ => None
  end.

(** [Gateway::await_event], [Gateway::await_tasks], [Gateway::ack_failure_error]. *)
Definition await_event (received : Res unit AckOutcome) : Res AckFailure Event :=
  match received with
  | Ok (Applied ev) => Ok ev
  | Ok (AckRejected reject) => Err (FailureRejected reject)
  | Ok (Granted _) =>
      Panic "internal error: entered unreachable code: a task grant is awaited via await_tasks, not await_event"
  | Err _ => Err Dropped
  | Panic m => Panic m
  end.
Definition await_tasks (received : Res unit AckOutcome) : Res AckFailure (list ActivatedTask) :=
  match received with
  | Ok (Granted tasks) => Ok tasks
  | Ok (AckRejected reject) => Err (FailureRejected reject)
  | Ok (Applied _) =>
      Panic "internal error: entered unreachable code: a ClaimTasks ack delivers Granted, never an applied Event"
  | Err _ => Err Dropped
  | Panic m => Panic m
  end.
Definition ack_failure_error (failure : AckFailure) : ExecutionError :=
  match failure with
  | Dropped => Runtime (InvalidDefinition
      "no acknowledgement received (engine not started, or its StreamProcessor never applied the awaited outcome)")
  | FailureRejected reject => Rejected reject
  end.

(** [rx.await]: the rest of the process runs on; the answer is [None] while the caller is
    still suspended. *)
Context (elapse : Gateway S -> Gateway S).
Definition rx_await {E} (rx : nat) : GM E (option (Res unit AckOutcome)) :=
  fun g => let g' := elapse g in (Ok (received rx (gw_ack g')), g').
Definition answer_with {A} (f : Res unit AckOutcome -> Res AckFailure A) (rx : nat)
    : GM ExecutionError (option A) :=
  let* o := rx_await rx in
  match o with
  | None => ret None
  | Some r => let* a := lift_res (res_map_err ack_failure_error (f r)) in ret (Some a)
  end.

(** [Gateway::create_flow]; [request_id] is the [RequestId::new()] it draws. *)
Definition gateway_create_flow (request_id : RequestId) (name : PlainName) (definition : string)
    : GM ExecutionError (option (ObjectRef FlowVersionKind)) :=
  let* rx := with_ack (register request_id AckFlowVersionCreated) in
  on_engine (engine_create_flow (B:=B) request_id name definition) ;;;
  let* event := answer_with await_event rx in
  match event with
  | None => ret None
  | Some (FlowVersionCreated _ flow_version) => ret (Some (object_ref (fv_meta flow_version)))
  | Some _ =>
      panic "internal error: entered unreachable code: AckHook routes CreateFlow's ack only to a FlowVersionCreated event"
  end.

(** [Gateway::start_for_revision]. *)
Definition start_for_revision (request_id : RequestId) (name : ObjectName)
    (flow_version : ObjectRef FlowVersionKind) (input : Value)
    : GM ExecutionError (option (ObjectRef ExecutionKind)) :=
  let* rx := with_ack (register request_id AckExecutionCreated) in
  on_engine (engine_create_execution (B:=B) request_id name flow_version input) ;;;
  let* event := answer_with await_event rx in
  match event with
  | None => ret None
  | Some (ExecutionCreated _ execution) => ret (Some (object_ref (ex_meta execution)))
  | Some _ => panic "internal error: entered unreachable code: AckHook only delivers ExecutionCreated to this ack"
  end.

(** [Gateway::poll_tasks], with the [Timestamp::now()] of its read. *)
Definition poll_tasks (request_id : RequestId) (now : Timestamp) (worker_id resource : string)
    (max_tasks lease_seconds : Z) : GM ExecutionError (option (list ActivatedTask)) :=
  let* found := attempt (on_engine (on_storage
    (engine_activatable_tasks (B:=B) resource now max_tasks))) in
  let claimable_now := match found with inr (_ :: _) => true | _ => false end in
  if negb claimable_now then ret (Some [])
  else
    let* rx := with_ack (register request_id AckGrant) in
    on_engine (engine_claim_tasks request_id worker_id resource max_tasks lease_seconds) ;;;
    answer_with await_tasks rx.

(** [Gateway::complete], [Gateway::fail]. *)
Definition gateway_complete (worker_id : string) (task : ObjectName) (request_id : RequestId)
    (output : Value) : GM ExecutionError (option unit) :=
  let* rx := with_ack (register request_id AckTaskCompleted) in
  on_engine (engine_complete_task worker_id task request_id output) ;;;
  let* event := answer_with await_event rx in
  ret (const tt <$> event).
Definition gateway_fail (worker_id : string) (task : ObjectName) (error : ExecutionError)
    : GM ExecutionError unit :=
  on_engine (engine_fail_task worker_id task error).
End Gateway.
