(* ===== verification/Wire.v ===== *)
(** The wire contract ([crates/proto/proto/spica.proto]) and the conversions between its
    messages and the engine's rows ([crates/server/src/common.rs], [query.rs]): a message is
    the record the generated code has for it, an enumeration travels as its number. *)
From S2P Require Import Prelude Names Timestamp Json Asl Errors Meta Entities Tasks Commands.
From S2P Require Import Storage Rows RocksStorage Handler Facade.
Local Open Scope string_scope.
Local Open Scope Z_scope.

(** ** Statuses *)

(** [tonic::Code], the codes the sources build, and [tonic::Status]. *)
Inductive Code :=
  | CodeInvalidArgument | CodeNotFound | CodeAlreadyExists | CodeFailedPrecondition
  | CodeInternal.
#[export] Instance Code_eq_dec : EqDecision Code.
Proof. solve_decision. Defined.
Record Status := mkStatus { st_code : Code; st_message : string }.
Definition invalid_argument : string -> Status := mkStatus CodeInvalidArgument.
Definition not_found : string -> Status := mkStatus CodeNotFound.
Definition already_exists : string -> Status := mkStatus CodeAlreadyExists.
Definition failed_precondition : string -> Status := mkStatus CodeFailedPrecondition.
Definition internal : string -> Status := mkStatus CodeInternal.

(** ** Enumerations *)

(** [enum ExecutionStatus], [ThreadStatus], [ActivityStatus]: one numbering. *)
Inductive WLifecycle := WUnspecified | WRunning | WCompleting | WTerminating | WCompleted
  | WTerminated.
Definition wlifecycle_num (s : WLifecycle) : Z :=
  match s with
  | WUnspecified => 0 | WRunning => 1 | WCompleting => 2 | WTerminating => 3 | WCompleted => 4
  | WTerminated => 5
  end.
(** The generated [TryFrom<i32>]. *)
Definition wlifecycle_try_from (n : Z) : option WLifecycle :=
  find (fun s => wlifecycle_num s =? n)
    [WUnspecified; WRunning; WCompleting; WTerminating; WCompleted; WTerminated].
(** [enum TaskStatus], [enum FlowStatus]. *)
Definition wtask_status (s : TaskStatus) : Z :=
  match s with
  | TPending => 1 | TRunning => 2 | TCompleted => 3 | TFailed => 4 | TCancelled => 5
  end.
Definition wflow_status (s : FlowStatus) : Z :=
  match s with FlowActive => 1 | FlowDeleted => 2 end.

(** ** Messages *)

(** [message ObjectReference], [ObjectMeta], [ErrorFailure], [TerminationReason]. *)
Record WObjectReference := mkWRef { wr_kind : string; wr_name : string; wr_uid : string }.
Record WObjectMeta := mkWMeta {
  wm_kind : string; wm_tenant : string; wm_namespace : string; wm_name : string;
  wm_uid : string; wm_created_at_millis : Z; wm_updated_at_millis : Z;
  wm_owner : option WObjectReference }.
Record WErrorFailure := mkWFailure { we_error_name : string; we_output : string }.
Record WTerminationReason := mkWReason {
  wt_failed : option WErrorFailure; wt_timed_out : bool; wt_cancelled : bool }.

(** The entity mirrors. *)
Record WFlow := mkWFlow {
  wf_meta : option WObjectMeta; wf_status : Z; wf_latest_version : Z }.
Record WFlowVersion := mkWFlowVersion {
  wv_meta : option WObjectMeta; wv_version : Z; wv_definition : string; wv_checksum : Z }.
Record WExecution := mkWExecution {
  wx_meta : option WObjectMeta; wx_flow_version : option WObjectReference; wx_status : Z;
  wx_termination_reason : option WTerminationReason; wx_input : string; wx_output : string;
  wx_deadline_millis : Z }.
Record WThread := mkWThread {
  wh_meta : option WObjectMeta; wh_execution : option WObjectReference; wh_state_path : string;
  wh_index : Z; wh_status : Z; wh_termination_reason : option WTerminationReason;
  wh_input : string; wh_output : string; wh_variables : gmap string string }.
Record WActivity := mkWActivity {
  wa_meta : option WObjectMeta; wa_execution : option WObjectReference; wa_state_path : string;
  wa_status : Z; wa_termination_reason : option WTerminationReason; wa_raw_input : string;
  wa_input : string; wa_raw_output : string; wa_output : string; wa_activity_state : string;
  wa_retry_state : string }.
Record WTask := mkWTask {
  wk_meta : option WObjectMeta; wk_execution : option WObjectReference; wk_resource : string;
  wk_arguments : string; wk_status : Z; wk_deadline_millis : Z; wk_worker_id : string;
  wk_lease_expires_at_millis : Z; wk_retry_plan : string; wk_retry_state : string }.

(** The [oneof] of [message Object], and the message, which may hold none of its arms. *)
Inductive WObjectOneof :=
  | OFlow (f : WFlow) | OFlowVersion (v : WFlowVersion) | OExecution (e : WExecution)
  | OThread (t : WThread) | OActivity (a : WActivity) | OTask (t : WTask).
Record WObject := mkWObject { wo_object : option WObjectOneof }.

(** ** What the conversions call *)

(** [str::parse::<ulid::Ulid>()], the [Display] of a JSON pointer and of a [Status], and
    [std::any::type_name]. *)
Class WireText : Type := {
  ulid_parse : string -> option Ulid;
  pointer_str : list string -> string;
  status_str : Status -> string;
  type_name : ObjectKind -> string }.

(** [serde_json] at the types that travel as bytes. *)
Class WireJson : Type := {
  wire_value :: RowCodec string Value;
  wire_activity_state :: RowCodec string ActivityState;
  wire_retry_state :: RowCodec string RetryState;
  wire_retry_plan :: RowCodec string (list RetryPolicy) }.

(** [serde_json::to_vec(v).unwrap_or_default()], and the bytes of an [Option]. *)
Definition vec_or_empty {A} `{RowCodec string A} (a : A) : string :=
  match to_vec a with Ok b => b | _ => "" end.
Definition option_vec {A} `{RowCodec string A} (o : option A) : string :=
  match o with Some a => vec_or_empty a | None => "null" end.
Definition vec_if_some {A} `{RowCodec string A} (o : option A) : string :=
  match o with Some a => vec_or_empty a | None => "" end.

Section Conversions.
Context `{Engine, WireText, WireJson}.

(** [fn parse_ulid]. *)
Definition parse_ulid (s what : string) : Res Status Ulid :=
  ok_or (invalid_argument ("invalid " +:+ what +:+ " ULID: " +:+ debug_str s)) (ulid_parse s).

(** [fn proto_ref]. *)
Definition proto_raw_ref (r : RawObjectRef) : WObjectReference :=
  mkWRef (kind_str (raw_kind r)) (as_str (raw_name r)) (ulid_str (raw_uid r)).
Definition proto_ref {K} (r : ObjectRef K) : WObjectReference := proto_raw_ref (as_raw r).

(** [impl Display for KindMismatch]. *)
Definition kind_mismatch_str (e : KindMismatch) : string :=
  "reference kind mismatch: the payload carries kind " +:+ kind_debug (km_seen e) +:+
  ", but this field admits only " +:+ kind_debug (km_expected e) +:+ " (" +:+
  type_name (km_expected e) +:+ ")".

(** [fn parse_ref]. *)
Definition parse_ref (K : ObjectKind) (r : WObjectReference) : Res Status (ObjectRef K) :=
  res_bind (ok_or (invalid_argument ("unknown object kind: " +:+ debug_str (wr_kind r)))
    (kind_parse (wr_kind r))) (fun kind =>
  res_bind (res_map_err (fun e => invalid_argument
    ("invalid object name: " +:+ name_error_str e)) (from_parsed (wr_name r))) (fun name =>
  res_bind (ok_or (invalid_argument ("invalid uid ULID: " +:+ debug_str (wr_uid r)))
    (ulid_parse (wr_uid r))) (fun uid =>
  res_map_err (fun e => invalid_argument (kind_mismatch_str e))
    (ref_try_from K (mkRaw kind name uid))))).

(** [fn to_status]. *)
Definition to_status (e : ExecutionError) : Status :=
  match e with
  | Rejected reject =>
      match rj_rejection_type reject with
      | AlreadyExists => already_exists (rj_rejection_reason reject)
      | RNotFound => not_found (rj_rejection_reason reject)
      | InvalidArgument => invalid_argument (rj_rejection_reason reject)
      | InvalidState => failed_precondition (rj_rejection_reason reject)
      | Errors.ProcessingError => internal (rj_rejection_reason reject)
      end
  | Runtime err =>
      match err with
      | InvalidDefinition _ | StateNotFound _ | NoTerminal =>
          invalid_argument (runtime_error_str err)
      | _ => internal (runtime_error_str err)
      end
  | Infra _ => internal (execution_error_str e)
  end.

(** ** The read mirrors ([query.rs]) *)

(** [OwnerKindMarker::to_raw_object_ref] of the owner slot of each kind. *)
Definition owner_raw {K : ObjectKind} : OwnedBy K -> option RawObjectRef :=
  match K return OwnedBy K -> option RawObjectRef with
  | FlowKind | ExecutionKind => fun _ => None
  | FlowVersionKind | ActivityKind | TaskKind => fun o => Some (as_raw o)
  | ThreadKind => fun o => Some (thread_owner_raw o)
  end.

(** [fn proto_meta]. *)
Definition proto_meta {K} (meta : ObjectMeta K) : WObjectMeta :=
  mkWMeta (kind_str K) (pn_str (m_tenant meta)) (pn_str (m_namespace meta))
    (as_str (m_name meta)) (ulid_str (m_uid meta)) (as_i64 (m_created_at meta))
    (as_i64 (m_updated_at meta)) (proto_raw_ref <$> owner_raw (m_owner meta)).

(** [fn proto_termination_reason]. *)
Definition proto_termination_reason (r : TerminationReason) : WTerminationReason :=
  match r with
  | Failed error =>
      mkWReason (Some (mkWFailure (error_name error) (vec_if_some (error_output error))))
        false false
  | TimedOut => mkWReason None true false
  | Cancelled => mkWReason None false true
  end.

(** The status and the reason of a lifecycle. *)
Definition wlifecycle (s : Lifecycle) : Z * option TerminationReason :=
  match s with
  | Running => (wlifecycle_num WRunning, None)
  | Completing => (wlifecycle_num WCompleting, None)
  | Terminating r => (wlifecycle_num WTerminating, Some r)
  | Completed => (wlifecycle_num WCompleted, None)
  | Terminated r => (wlifecycle_num WTerminated, Some r)
  end.
Definition wmillis (t : option Timestamp) : Z :=
  match t with Some d => as_i64 d | None => 0 end.

(** [fn to_proto_flow] ... [fn to_proto_task]. *)
Definition to_proto_flow (f : Flow) : WFlow :=
  mkWFlow (Some (proto_meta (fl_meta f))) (wflow_status (fl_status f)) (fl_latest_version f).
Definition to_proto_flow_version (v : FlowVersion) : WFlowVersion :=
  mkWFlowVersion (Some (proto_meta (fv_meta v))) (fv_version v) (fv_definition v)
    (fv_checksum v).
Definition to_proto_execution (e : Execution) : WExecution :=
  let '(status, reason) := wlifecycle (ex_status e) in
  mkWExecution (Some (proto_meta (ex_meta e))) (Some (proto_ref (ex_flow_version e))) status
    (proto_termination_reason <$> reason) (vec_or_empty (ex_input e))
    (vec_if_some (ex_output e)) (wmillis (ex_deadline e)).
Definition to_proto_thread (t : Thread) (scope : Variables) : WThread :=
  let '(status, reason) := wlifecycle (th_status t) in
  mkWThread (Some (proto_meta (th_meta t))) (Some (proto_ref (th_execution t)))
    (pointer_str (th_state_path t)) (th_index t) status (proto_termination_reason <$> reason)
    (vec_or_empty (th_input t)) (vec_if_some (th_output t)) (vec_or_empty <$> scope).
Definition to_proto_activity (a : Activity) : WActivity :=
  let '(status, reason) := wlifecycle (ac_status a) in
  mkWActivity (Some (proto_meta (ac_meta a))) (Some (proto_ref (ac_execution a)))
    (pointer_str (ac_state_path a)) status (proto_termination_reason <$> reason)
    (vec_or_empty (ac_raw_input a)) (option_vec (ac_input a)) (option_vec (ac_raw_output a))
    (option_vec (ac_output a)) (vec_if_some (ac_activity_state a))
    (vec_if_some (ac_retry_state a)).
Definition to_proto_task (t : Task) : WTask :=
  mkWTask (Some (proto_meta (tk_meta t))) (Some (proto_ref (tk_execution t))) (tk_resource t)
    (vec_or_empty (tk_arguments t)) (wtask_status (tk_status t)) (wmillis (tk_deadline t))
    (default "" (tk_worker_id t)) (wmillis (tk_lease_expires_at t))
    (vec_or_empty (tk_retry_plan t)) (vec_or_empty (tk_retry_state t)).
End Conversions.
