(* ===== verification/MetaSerde.v ===== *)
(** The document form of references and metadata ([crates/engine-types/src/types/meta.rs],
    [crates/machinery/src/name.rs]): the hand-written [Serialize] and [Deserialize] of typed
    references, owner slots, the kind tag and the metadata, over the derived forms of the plain
    data. *)
From S2P Require Import Prelude Names Timestamp Errors Meta RocksStorage Handler Wire.
Local Open Scope string_scope.
Local Open Scope Z_scope.

(** The derived [Serialize] and [Deserialize] of a type, for documents of type [V]. *)
Class Serde (V E A : Type) : Type := { ser : A -> V; de : V -> Res E A }.
Arguments ser {V E A _}. Arguments de {V E A _}.

(** What the data format offers: [serde::de::Error::custom], the test for [null], the unit,
    and [std::any::type_name] of an owner slot. *)
Class DocFormat (V E : Type) : Type := {
  custom : string -> E;
  doc_is_null : V -> bool;
  doc_unit : V;
  slot_name : ObjectKind -> string;
  doc_kind :: Serde V E ObjectKind;
  doc_raw :: Serde V E RawObjectRef;
  doc_scope :: Serde V E PlainName;
  doc_text :: Serde V E string;
  doc_uid : Serde V E Ulid;
  doc_stamp : Serde V E Timestamp }.

(** [struct MissingOwner] and its [Display]. *)
Record MissingOwner := mkMissingOwner { mo_kind : ObjectKind; mo_slot : string }.
Definition missing_owner_str (e : MissingOwner) : string :=
  "owner is missing: a " +:+ kind_debug (mo_kind e) +:+ " is always owned (its slot is " +:+
  mo_slot e +:+ "), but the payload carries no `owner`".

(** The fields of a metadata document; [owner] may be left out. *)
Record MetaDoc (V : Type) := mkMetaDoc {
  md_kind : V; md_tenant : V; md_namespace : V; md_name : V; md_uid : V;
  md_created_at : V; md_updated_at : V; md_owner : option V }.
Arguments mkMetaDoc {V}. Arguments md_kind {V}. Arguments md_tenant {V}.
Arguments md_namespace {V}. Arguments md_name {V}. Arguments md_uid {V}.
Arguments md_created_at {V}. Arguments md_updated_at {V}. Arguments md_owner {V}.

Section MetaSerde.
Context `{Engine, WireText} {V E : Type} `{DocFormat V E}.

(** [impl Serialize for ObjectName], [impl Deserialize for ObjectName]. *)
Definition name_serialize (n : ObjectName) : V := ser (as_str n).
Definition name_deserialize (v : V) : Res E ObjectName :=
  res_bind (de v) (fun raw => res_map_err (fun e => custom (name_error_str e)) (from_parsed raw)).

(** [impl Serialize for ObjectRef<K>], [impl Deserialize for ObjectRef<K>]. *)
Definition ref_serialize {K} (r : ObjectRef K) : V := ser (as_raw r).
Definition ref_deserialize (K : ObjectKind) (v : V) : Res E (ObjectRef K) :=
  res_bind (de v) (fun seen =>
    res_map_err (fun e => custom (kind_mismatch_str e)) (ref_try_from K seen)).

(** [Serialize] and [Deserialize] of [ThreadOwner], as [declare_owner!] writes them. *)
Definition thread_owner_serialize (o : ThreadOwner) : V :=
  match o with OwnerExecution r => ref_serialize r | OwnerActivity r => ref_serialize r end.
Definition thread_owner_deserialize (v : V) : Res E ThreadOwner :=
  res_bind (de v) (fun seen =>
    match raw_kind seen with
    | ExecutionKind =>
        res_map_err (fun e => custom (kind_mismatch_str e))
          (res_map OwnerExecution (ref_try_from ExecutionKind seen))
    | ActivityKind =>
        res_map_err (fun e => custom (kind_mismatch_str e))
          (res_map OwnerActivity (ref_try_from ActivityKind seen))
    | other =>
        Err (custom ("reference kind mismatch: the payload carries kind " +:+ kind_debug other +:+
                     ", but this slot admits only Execution or Activity owners (" +:+
                     slot_name ThreadKind +:+ ")"))
    end).

(** [Serialize] and [Deserialize] of [NoOwner]. *)
Definition no_owner_serialize (_ : unit) : V := doc_unit.
Definition no_owner_deserialize (_ : V) : Res E unit :=
  Err (custom "a root object cannot be owned: the payload carries an `owner`").

(** The owner slot of each kind. *)
Definition owner_serialize {K : ObjectKind} : OwnedBy K -> V :=
  match K return OwnedBy K -> V with
  | FlowKind | ExecutionKind => no_owner_serialize
  | FlowVersionKind | ActivityKind | TaskKind => ref_serialize
  | ThreadKind => thread_owner_serialize
  end.
Definition owner_deserialize (K : ObjectKind) : V -> Res E (OwnedBy K) :=
  match K return V -> Res E (OwnedBy K) with
  | FlowKind | ExecutionKind => no_owner_deserialize
  | FlowVersionKind => ref_deserialize FlowKind
  | ActivityKind => ref_deserialize ThreadKind
  | TaskKind => ref_deserialize ActivityKind
  | ThreadKind => thread_owner_deserialize
  end.

(** [OwnerKindMarker::from_wire]: the default, and the one of [NoOwner]. *)
Definition owner_from_wire (K : ObjectKind) (owner : option (OwnedBy K))
    : Res MissingOwner (OwnedBy K) :=
  match K return option (OwnedBy K) -> Res MissingOwner (OwnedBy K) with
  | FlowKind | ExecutionKind => fun owner =>
      match owner with
      | Some _ =>
          if debug_assertions then Panic "an owner cannot be read into an empty slot" else Ok tt
      | None => Ok tt
      end
  | FlowVersionKind => ok_or (mkMissingOwner FlowVersionKind (slot_name FlowVersionKind))
  | ThreadKind => ok_or (mkMissingOwner ThreadKind (slot_name ThreadKind))
  | ActivityKind => ok_or (mkMissingOwner ActivityKind (slot_name ActivityKind))
  | TaskKind => ok_or (mkMissingOwner TaskKind (slot_name TaskKind))
  end owner.

(** [fn owner_is_absent]. *)
Definition owner_is_absent {K} (owner : OwnedBy K) : bool :=
  match owner_raw owner with None => true | Some _ => false end.

(** [Serialize] and [Deserialize] of [KindTag<K>]. *)
Definition kind_tag_serialize (K : ObjectKind) : V := ser K.
Definition kind_tag_deserialize (K : ObjectKind) (v : V) : Res E unit :=
  res_bind (de v) (fun seen =>
    if decide (seen = K) then Ok tt
    else Err (custom ("object meta kind mismatch: the payload carries kind " +:+ kind_debug seen
                +:+ ", but this meta is typed as " +:+ type_name K +:+ " and expects " +:+
                kind_debug K))).

(** [Serialize] of [ObjectMeta<K>]: an absent owner is skipped. *)
Definition meta_serialize {K} (m : ObjectMeta K) : MetaDoc V :=
  mkMetaDoc (kind_tag_serialize K) (ser (m_tenant m)) (ser (m_namespace m))
    (name_serialize (m_name m)) (ser (Serde:=doc_uid) (m_uid m))
    (ser (Serde:=doc_stamp) (m_created_at m)) (ser (Serde:=doc_stamp) (m_updated_at m))
    (if owner_is_absent (m_owner m) then None else Some (owner_serialize (m_owner m))).

(** [struct MetaRepr<K>] read field by field; [owner] defaults to [None], as does a [null]. *)
Definition read_owner (K : ObjectKind) (o : option V) : Res E (option (OwnedBy K)) :=
  match o with
  | None => Ok None
  | Some v => if doc_is_null v then Ok None else res_map Some (owner_deserialize K v)
  end.
(** [Deserialize] of [ObjectMeta<K>], through [TryFrom<MetaRepr<K>>]. *)
Definition meta_deserialize (K : ObjectKind) (d : MetaDoc V) : Res E (ObjectMeta K) :=
  res_bind (kind_tag_deserialize K (md_kind d)) (fun _ =>
  res_bind (de (md_tenant d)) (fun tenant =>
  res_bind (de (md_namespace d)) (fun namespace =>
  res_bind (name_deserialize (md_name d)) (fun name =>
  res_bind (de (Serde:=doc_uid) (md_uid d)) (fun uid =>
  res_bind (de (Serde:=doc_stamp) (md_created_at d)) (fun created_at =>
  res_bind (de (Serde:=doc_stamp) (md_updated_at d)) (fun updated_at =>
  res_bind (read_owner K (md_owner d)) (fun owner =>
  res_map_err (fun e => custom (missing_owner_str e))
    (res_map (mkMeta tenant namespace name uid created_at updated_at)
       (owner_from_wire K owner)))))))))).
End MetaSerde.
