(* ===== verification/Services.v ===== *)
(** The gRPC services of the server ([crates/server/src/workflow.rs], [execution.rs],
    [task.rs], [query.rs]): each handler parses its message, calls the gateway or the engine,
    and maps what comes back onto the wire. A handler that awaits an acknowledgement answers
    [None] while its caller is still suspended. *)
From S2P Require Import Prelude Names Timestamp Json Asl Errors Meta Entities Tasks Commands.
From S2P Require Import Storage Rows RocksStorage Handler Leader StreamProcessor Facade.
From S2P Require Import Scheduler Gateway Wire.
Local Open Scope string_scope.
Local Open Scope Z_scope.

(** ** Requests and responses *)

Record CreateFlowRequest := mkCreateFlowReq { cq_name : string; cq_definition : string }.
Record CreateFlowResponse := mkCreateFlowResp { cp_flow_version : option WObjectReference }.
Record ResolveFlowVersionRequest := mkResolveReq { vq_flow_name : string; vq_version : Z }.
Record ResolveFlowVersionResponse := mkResolveResp { vp_flow_version : option WObjectReference }.

Inductive WTarget := WTFlowVersion (r : WObjectReference) | WTFlowName (name : string).
Record StartExecutionRequest := mkStartReq {
  sq_target : option WTarget; sq_version : Z; sq_input : string; sq_name : string }.
Record StartExecutionResponse := mkStartResp { sp_execution_id : string; sp_name : string }.
Record StopExecutionRequest := mkStopReq { oq_name : string; oq_uid : string }.
Record StopExecutionResponse := mkStopResp { op_name : string }.

Record PollTasksRequest := mkPollReq {
  pq_worker_id : string; pq_resource : string; pq_max_tasks : Z; pq_lease_seconds : Z }.
Record WActivatedTask := mkWActivated {
  wk_task_name : string; wk_task_resource : string; wk_task_arguments : string }.
Record PollTasksResponse := mkPollResp { pp_tasks : list WActivatedTask }.
Record CompleteTaskRequest := mkCompleteReq {
  mq_worker_id : string; mq_task_name : string; mq_output : string; mq_request_id : string }.
Record WTaskFailure := mkWTaskFailure { wf_error_name : string; wf_output : string }.
Record FailTaskRequest := mkFailReq {
  fq_worker_id : string; fq_task_name : string; fq_error : option WTaskFailure }.

Record GetObjectRequest := mkGetReq { gq_kind : string; gq_name : string }.
Record GetObjectResponse := mkGetResp { gp_object : option WObject }.
Record ListObjectsRequest := mkListReq {
  lq_kind : string; lq_limit : Z; lq_continue_token : string }.
Record ListObjectsResponse := mkListResp {
  lp_objects : list WObject; lp_continue_token : string }.

(** [DEFAULT_LIST_LIMIT]. *)
Definition DEFAULT_LIST_LIMIT : Z := 100.

Section Services.
Context `{Engine} {S B T : Type} `{Storage S T} `{!StoreReads S B, !RowCodecs B}.
Context `{!WireText, !WireJson} (elapse : Gateway S -> Gateway S).
Notation GM := (M (Gateway S)).

(** A field refused as [INVALID_ARGUMENT], with the text of its error. *)
Definition refuse {E A} (what : string) (text : E -> string) (r : Res E A) : Res Status A :=
  res_map_err (fun e => invalid_argument (what +:+ ": " +:+ text e)) r.
Definition on_facade {A} (m : M S ExecutionError A) : GM Status A :=
  map_err to_status (on_engine (on_storage m)).

(** ** WorkflowService *)

(** [Svc::create_flow]; [request_id] is the one the gateway draws. *)
Definition svc_create_flow (request_id : RequestId) (req : CreateFlowRequest)
    : GM Status (option CreateFlowResponse) :=
  let* name := lift_res (refuse "invalid flow name" name_error_str (PlainName_new (cq_name req))) in
  let* definition := lift_res (refuse "definition is not UTF-8" utf8_error_str
    (from_utf8 (cq_definition req))) in
  let* flow := map_err to_status (gateway_create_flow (B:=B) elapse request_id name definition) in
  ret ((fun r => mkCreateFlowResp (Some (proto_ref r))) <$> flow).

(** [Svc::resolve_flow_version]. *)
Definition svc_resolve_flow_version (req : ResolveFlowVersionRequest)
    : GM Status ResolveFlowVersionResponse :=
  let* name := lift_res (refuse "invalid flow name" name_error_str
    (PlainName_new (vq_flow_name req))) in
  let* flow := on_facade (resolve_version_id (B:=B) name (vq_version req)) in
  ret (mkResolveResp (Some (proto_ref flow))).

(** ** ExecutionService *)

(** The revision a target names. *)
Definition svc_target (target : option WTarget) (version : Z)
    : GM Status (ObjectRef FlowVersionKind) :=
  match target with
  | Some (WTFlowVersion r) => lift_res (parse_ref FlowVersionKind r)
  | Some (WTFlowName name) =>
      let* name := lift_res (refuse "invalid flow name" name_error_str (PlainName_new name)) in
      on_facade (resolve_version_id (B:=B) name version)
  | None =>
      throw (invalid_argument "StartExecution: no target (flow_version or flow_name) set")
  end.

(** [Svc::start_execution]. *)
Definition svc_start_execution (request_id : RequestId) (req : StartExecutionRequest)
    : GM Status (option StartExecutionResponse) :=
  let* input := lift_res (refuse "input is not valid JSON" id
    (from_slice (A:=Value) (sq_input req))) in
  let* flow_version := svc_target (sq_target req) (sq_version req) in
  let* name := lift_res (refuse "invalid execution name" name_error_str
    (ObjectName_plain (sq_name req))) in
  let* execution_id := map_err to_status
    (start_for_revision (B:=B) elapse request_id name flow_version input) in
  ret ((fun r => mkStartResp (ulid_str (ref_uid r)) (sq_name req)) <$> execution_id).

(** [Svc::stop_execution]. *)
Definition svc_stop_execution (req : StopExecutionRequest) : GM Status StopExecutionResponse :=
  let* name := lift_res (refuse "invalid execution name" name_error_str
    (ObjectName_plain (oq_name req))) in
  let* uid := if String.eqb (oq_uid req) "" then ret None
              else lift_res (res_map Some (parse_ulid (oq_uid req) "uid")) in
  map_err to_status (on_engine (engine_cancel_execution name uid)) ;;;
  ret (mkStopResp (oq_name req)).

(** ** TaskService *)

(** [fn to_wire_task], [fn parse_task_name]. *)
Definition to_wire_task (task : ActivatedTask) : WActivatedTask :=
  mkWActivated (as_str (av_task task)) (av_resource task) (vec_or_empty (av_arguments task)).
Definition parse_task_name (s what : string) : Res Status ObjectName :=
  refuse what name_error_str (from_parsed s).

(** [Svc::poll_tasks], with the clock reading and the request id the gateway takes. *)
Definition svc_poll_tasks (request_id : RequestId) (now : Timestamp) (req : PollTasksRequest)
    : GM Status (option PollTasksResponse) :=
  let* tasks := map_err to_status
    (poll_tasks (B:=B) elapse request_id now (pq_worker_id req) (pq_resource req)
       (pq_max_tasks req) (pq_lease_seconds req)) in
  ret ((fun l => mkPollResp (map to_wire_task l)) <$> tasks).

(** [Svc::complete_task]. *)
Definition svc_complete_task (req : CompleteTaskRequest) : GM Status (option unit) :=
  let* task := lift_res (parse_task_name (mq_task_name req) "task_name") in
  let* request_id := lift_res (parse_ulid (mq_request_id req) "request_id") in
  let* output := lift_res (refuse "output is not valid JSON" id
    (from_slice (A:=Value) (mq_output req))) in
  map_err to_status (gateway_complete elapse (mq_worker_id req) task request_id output).

(** [Svc::fail_task]. *)
Definition svc_fail_task (req : FailTaskRequest) : GM Status unit :=
  let* task := lift_res (parse_task_name (fq_task_name req) "task_name") in
  let* failure := lift_res (ok_or (invalid_argument "error is required") (fq_error req)) in
  let* output :=
    if String.eqb (wf_output failure) "" then ret VNull
    else lift_res (refuse "error.output is not valid JSON" id
           (from_slice (A:=Value) (wf_output failure))) in
  map_err to_status (gateway_fail (fq_worker_id req) task
    (Runtime (StateFailed "" (wf_error_name failure) output))).

(** ** Query *)

(** [fn parse_kind], [fn parse_name]. *)
Definition parse_kind (raw : string) : Res Status ObjectKind :=
  ok_or (invalid_argument ("unknown object kind: " +:+ debug_str raw)) (kind_parse raw).
Definition parse_name (raw : string) : Res Status ObjectName :=
  refuse "invalid name" name_error_str (from_parsed raw).

(** [Svc::to_proto_object]: a thread is joined with its variables, which are read apart. *)
Definition to_proto_object (obj : QueryObject) : GM Status WObject :=
  let* inner :=
    match obj with
    | QFlow f => ret (OFlow (to_proto_flow f))
    | QFlowVersion v => ret (OFlowVersion (to_proto_flow_version v))
    | QExecution e => ret (OExecution (to_proto_execution e))
    | QThread t =>
        let* variables := on_facade (engine_get_variables (B:=B) (m_name (th_meta t))) in
        ret (OThread (to_proto_thread t variables))
    | QActivity a => ret (OActivity (to_proto_activity a))
    | QTask t => ret (OTask (to_proto_task t))
    end in
  ret (mkWObject (Some inner)).
Fixpoint to_proto_objects (l : list QueryObject) : GM Status (list WObject) :=
  match l with
  | [] => ret []
  | obj :: l' =>
      let* o := to_proto_object obj in
      let* os := to_proto_objects l' in
      ret (o :: os)
  end.

(** [Svc::get_object]. *)
Definition svc_get_object (req : GetObjectRequest) : GM Status GetObjectResponse :=
  let* kind := lift_res (parse_kind (gq_kind req)) in
  let* name := lift_res (parse_name (gq_name req)) in
  let* obj := on_facade (get_object (B:=B) kind name) in
  match obj with
  | None => throw (not_found (kind_str kind +:+ " " +:+ as_str name +:+ " not found"))
  | Some obj => let* o := to_proto_object obj in ret (mkGetResp (Some o))
  end.

(** [Svc::list_objects]. *)
Definition svc_list_objects (req : ListObjectsRequest) : GM Status ListObjectsResponse :=
  let* kind := lift_res (parse_kind (lq_kind req)) in
  let limit := if lq_limit req =? 0 then DEFAULT_LIST_LIMIT else lq_limit req in
  let continue_token :=
    if String.eqb (lq_continue_token req) "" then None else Some (lq_continue_token req) in
  let* page := map_err to_status
    (on_engine (list_objects (B:=B) kind limit continue_token)) in
  let* objects := to_proto_objects (pg_objects page) in
  ret (mkListResp objects (default "" (pg_continue_token page))).
End Services.
