(* ===== verification/Client.v ===== *)
(** The client SDK ([crates/client/src/lib.rs]): one method per call of the wire contract,
    over a transport that delivers requests, and the client's own reference and snapshot
    types. [served] is the transport that hands every request to the services of a server. *)
From S2P Require Import Prelude ByteStrings Names Timestamp Json Asl Errors Meta Entities Tasks.
From S2P Require Import Commands Storage Rows RocksStorage Handler Leader StreamProcessor Facade.
From S2P Require Import Scheduler Gateway Wire Services.
Local Open Scope string_scope.
Local Open Scope Z_scope.

(** ** The transport *)

(** The generated clients: each call returns a response or a status, or is awaited still. *)
Class Rpc (S : Type) : Type := {
  rpc_create_flow : CreateFlowRequest -> M S Status (option CreateFlowResponse);
  rpc_resolve_flow_version :
    ResolveFlowVersionRequest -> M S Status (option ResolveFlowVersionResponse);
  rpc_start_execution : StartExecutionRequest -> M S Status (option StartExecutionResponse);
  rpc_stop_execution : StopExecutionRequest -> M S Status (option StopExecutionResponse);
  rpc_poll_tasks : PollTasksRequest -> M S Status (option PollTasksResponse);
  rpc_complete_task : CompleteTaskRequest -> M S Status (option unit);
  rpc_fail_task : FailTaskRequest -> M S Status (option unit);
  rpc_get_object : GetObjectRequest -> M S Status (option GetObjectResponse);
  rpc_list_objects : ListObjectsRequest -> M S Status (option ListObjectsResponse) }.

(** Go on with the value of a call that has returned. *)
Definition returned {S E A C} (m : M S E (option A)) (k : A -> M S E C) : M S E (option C) :=
  let* o := m in
  match o with
  | None => ret None
  | Some a => let* c := k a in ret (Some c)
  end.

(** The requests of one process, handed to the services; [draw] and [wall] are the request
    id and the clock reading the server takes for a call. *)
Definition served `{Engine} {S B T : Type} `{Storage S T} `{!StoreReads S B, !RowCodecs B}
    `{!WireText, !WireJson} (elapse : Gateway S -> Gateway S) (draw : Gateway S -> RequestId)
    (wall : Gateway S -> Timestamp) : Rpc (Gateway S) := {|
  rpc_create_flow req := fun g => svc_create_flow (B:=B) elapse (draw g) req g;
  rpc_resolve_flow_version req :=
    let* r := svc_resolve_flow_version (B:=B) req in ret (Some r);
  rpc_start_execution req := fun g => svc_start_execution (B:=B) elapse (draw g) req g;
  rpc_stop_execution req := let* r := svc_stop_execution req in ret (Some r);
  rpc_poll_tasks req := fun g => svc_poll_tasks (B:=B) elapse (draw g) (wall g) req g;
  rpc_complete_task req := svc_complete_task elapse req;
  rpc_fail_task req := let* r := svc_fail_task req in ret (Some r);
  rpc_get_object req := let* r := svc_get_object (B:=B) req in ret (Some r);
  rpc_list_objects req := let* r := svc_list_objects (B:=B) req in ret (Some r) |}.

(** ** The client's types *)

(** [enum ExecutionState], [struct ExecutionSnapshot], [struct ListObjectsPage]. *)
Inductive ExecutionState := StateActive | StateCompleted_ | StateTerminated_.
Record ExecutionSnapshot := mkSnapshot {
  sn_state : ExecutionState; sn_output : string; sn_error_name : string;
  sn_error_output : string }.
Record ListObjectsPage := mkObjectsPage {
  op_objects : list WObject; op_continue_token : string }.

(** [struct ObjectReference], its [Display] and [FromStr]. *)
Record ObjectReference := mkReference {
  or_kind : string; or_name : string; or_uid : string }.
Definition reference_str (r : ObjectReference) : string :=
  or_kind r +:+ "/" +:+ or_name r +:+ "/" +:+ or_uid r.
(** [it.next().filter(|k| !k.is_empty()).ok_or(missing)]. *)
Definition next_segment (missing : string) (s : option string) : Res string string :=
  match s with
  | Some x => if String.eqb x "" then Err missing else Ok x
  | None => Err missing
  end.
Definition reference_from_str (s : string) : Res string ObjectReference :=
  let split o :=
    match o with
    | Some x => match split_once "/"%char x with
                | Some (a, rest) => (Some a, Some rest)
                | None => (Some x, None)
                end
    | None => (None, None)
    end in
  let '(kind, rest) := split (Some s) in
  let '(name, rest) := split rest in
  res_bind (next_segment "missing kind" kind) (fun kind =>
  res_bind (next_segment "missing name" name) (fun name =>
  res_bind (next_segment "missing uid" rest) (fun uid => Ok (mkReference kind name uid)))).

(** [enum Target], [struct StartExecution]. *)
Inductive Target := ByVersion (r : ObjectReference) | ByName (name : string) (version : Z).
Record StartExecution := mkStartExecution {
  se_target : Target; se_input : string; se_name : string }.

(** [struct ClaimedTask], [struct TaskFailure]: bytes for JSON. *)
Record WireClaimedTask := mkWireClaimed {
  wc_task_name : string; wc_resource : string; wc_arguments : string }.
Record WireFailure := mkWireFailure { wi_error_name : string; wi_output : string }.

(** [Client::to_ref], [Client::to_wire]. *)
Definition to_ref (w : WObjectReference) : ObjectReference :=
  mkReference (wr_kind w) (wr_name w) (wr_uid w).
Definition to_wire (r : ObjectReference) : WObjectReference :=
  mkWRef (or_kind r) (or_name r) (or_uid r).

(** The endpoint [Client::connect] dials. *)
Fixpoint contains (needle s : string) : bool :=
  starts_with needle s ||
  match s with EmptyString => false | String _ s' => contains needle s' end.
Definition endpoint (address : string) : string :=
  if contains "://" address then address else "http://" +:+ address.

(** [fn interpret_execution]. *)
Definition interpret_execution (e : WExecution) : ExecutionSnapshot :=
  let state := match wlifecycle_try_from (wx_status e) with
               | Some WCompleted => StateCompleted_
               | Some WTerminated => StateTerminated_
               | _ => StateActive
               end in
  let '(error_name, error_output) :=
    match wx_termination_reason e with
    | Some reason =>
        match wt_failed reason with
        | Some f => (we_error_name f, we_output f)
        | None => ("", "")
        end
    | None => ("", "")
    end in
  mkSnapshot state (wx_output e) error_name error_output.

(** ** The client *)
Section Client.
Context {S : Type} `{Rpc S}.
Notation CM := (M S Status).

(** [Client::create_flow], [Client::resolve_flow_version]. *)
Definition client_create_flow (name definition : string) : CM (option ObjectReference) :=
  returned (rpc_create_flow (mkCreateFlowReq name definition)) (fun resp =>
    let* r := lift_res (ok_or (internal "CreateFlow response missing flow_version")
      (cp_flow_version resp)) in
    ret (to_ref r)).
Definition client_resolve_flow_version (name : string) (version : Z)
    : CM (option ObjectReference) :=
  returned (rpc_resolve_flow_version (mkResolveReq name version)) (fun resp =>
    let* r := lift_res (ok_or (internal "ResolveFlowVersion response missing flow_version")
      (vp_flow_version resp)) in
    ret (to_ref r)).

(** [Client::start_execution], [Client::stop_execution]. *)
Definition client_start_execution (req : StartExecution) : CM (option string) :=
  let '(target, version) :=
    match se_target req with
    | ByVersion r => (Some (WTFlowVersion (to_wire r)), 0)
    | ByName name version => (Some (WTFlowName name), version)
    end in
  returned (rpc_start_execution (mkStartReq target version (se_input req) (se_name req)))
    (fun resp => ret (sp_name resp)).
Definition client_stop_execution (name : string) (uid : option string) : CM (option string) :=
  returned (rpc_stop_execution (mkStopReq name (default "" uid))) (fun resp => ret (op_name resp)).

(** [Client::get_object], [Client::list_objects], [Client::get_execution]. *)
Definition client_get_object (kind name : string) : CM (option WObject) :=
  returned (rpc_get_object (mkGetReq kind name)) (fun resp =>
    lift_res (ok_or (internal "GetObject response missing object") (gp_object resp))).
Definition client_list_objects (kind : string) (limit : Z) (continue_token : string)
    : CM (option ListObjectsPage) :=
  returned (rpc_list_objects (mkListReq kind limit continue_token)) (fun resp =>
    ret (mkObjectsPage (lp_objects resp) (lp_continue_token resp))).
Definition client_get_execution (name : string) : CM (option ExecutionSnapshot) :=
  returned (client_get_object "execution" name) (fun object =>
    match wo_object object with
    | Some (OExecution e) => ret (interpret_execution e)
    | Some _ => throw (internal "GetObject kind=execution returned a non-execution")
    | None => throw (internal "GetObject returned an empty object")
    end).

(** [Client::poll_tasks], [Client::complete_task], [Client::fail_task]. *)
Definition client_poll_tasks (worker_id resource : string) (max_tasks lease_seconds : Z)
    : CM (option (list WireClaimedTask)) :=
  returned (rpc_poll_tasks (mkPollReq worker_id resource max_tasks lease_seconds)) (fun resp =>
    ret (map (fun t => mkWireClaimed (wk_task_name t) (wk_task_resource t) (wk_task_arguments t))
           (pp_tasks resp))).
Definition client_complete_task (worker_id task_name request_id output : string)
    : CM (option unit) :=
  rpc_complete_task (mkCompleteReq worker_id task_name output request_id).
Definition client_fail_task (worker_id task_name : string) (failure : WireFailure)
    : CM (option unit) :=
  rpc_fail_task (mkFailReq worker_id task_name
    (Some (mkWTaskFailure (wi_error_name failure) (wi_output failure)))).
End Client.
