(* ===== verification/Worker.v ===== *)
(** The task worker ([crates/client/src/worker]): the claim/settle contract it consumes, the
    transport that reaches a server over the wire, the builder, and the loop with the jobs it
    spawns, as a step relation. *)
From S2P Require Import Prelude Names Timestamp Json Errors Rows Handler Wire Services Client.
Local Open Scope string_scope.
Local Open Scope Z_scope.

(** ** The contract ([worker/mod.rs]) *)

(** [struct TaskFailure], [struct ClaimedTask], [struct TaskApiError]. *)
Record TaskFailure := mkTaskFailure { tf_error_name : string; tf_output : Value }.
Record ClaimedTask := mkClaimed {
  ct_task_name : string; ct_resource : string; ct_arguments : Value }.
Record TaskApiError := mkApiError { ae_text : string }.

(** [trait TaskHandler]: caller code, run in the world the worker lives in. *)
Definition TaskHandler (S : Type) : Type := string -> Value -> M S TaskFailure Value.

(** [trait TaskApi]: a call that has not returned yet answers [None]. *)
Class TaskApi (S : Type) : Type := {
  api_poll_tasks : string -> string -> Z -> Z -> M S TaskApiError (option (list ClaimedTask));
  api_complete : string -> string -> string -> Value -> M S TaskApiError (option unit);
  api_fail : string -> string -> TaskFailure -> M S TaskApiError (option unit) }.

(** ** The wire transport ([worker/grpc.rs]) *)
Section Grpc.
Context {S : Type} `{Rpc S, WireText, WireJson}.

(** [fn to_rpc_error], [fn from_wire_task]. *)
Definition to_rpc_error (op : string) (status : Status) : TaskApiError :=
  mkApiError (op +:+ " gRPC call failed: " +:+ status_str status).
Definition from_wire_task (t : WireClaimedTask) : Res TaskApiError ClaimedTask :=
  res_bind (res_map_err (fun e => mkApiError ("server returned invalid arguments JSON: " +:+ e))
    (from_slice (A:=Value) (wc_arguments t))) (fun arguments =>
  Ok (mkClaimed (wc_task_name t) (wc_resource t) arguments)).

(** [impl TaskApi for GrpcTaskApi]: the batch size is cast to the field's width. *)
Definition GrpcTaskApi : TaskApi S := {|
  api_poll_tasks worker_id resource max_tasks lease_seconds :=
    returned (map_err (to_rpc_error "PollTasks")
      (client_poll_tasks worker_id resource (as_u32 max_tasks) lease_seconds)) (fun tasks =>
      lift_res (collect (map from_wire_task tasks)));
  api_complete worker_id task_name request_id output :=
    map_err (to_rpc_error "CompleteTask")
      (client_complete_task worker_id task_name request_id (vec_or_empty output));
  api_fail worker_id task_name error :=
    map_err (to_rpc_error "FailTask")
      (client_fail_task worker_id task_name
         (mkWireFailure (tf_error_name error) (vec_or_empty (tf_output error)))) |}.
End Grpc.

(** ** The worker ([worker/in_memory.rs]) *)

(** [MAX_TASKS], [LEASE_SECONDS], and [POLL_INTERVAL] in milliseconds. *)
Definition MAX_TASKS : Z := 10.
Definition LEASE_SECONDS : Z := 60.
Definition POLL_INTERVAL : Z := 10.

(** [struct InMemoryTaskService] and its constructors. *)
Record InMemoryTaskService (S : Type) := mkService {
  is_handlers : gmap string (TaskHandler S);
  is_name : string; is_max_tasks : Z; is_lease_seconds : Z; is_poll_interval : Z }.
Arguments mkService {S}. Arguments is_handlers {S}. Arguments is_name {S}.
Arguments is_max_tasks {S}. Arguments is_lease_seconds {S}. Arguments is_poll_interval {S}.

Definition spawn_configured {S} (name : string) (handlers : gmap string (TaskHandler S))
    (max_tasks lease_seconds poll_interval : Z) : InMemoryTaskService S :=
  mkService handlers name max_tasks lease_seconds poll_interval.
Definition spawn_named {S} (name : string) (handlers : gmap string (TaskHandler S))
    : InMemoryTaskService S :=
  mkService handlers name MAX_TASKS LEASE_SECONDS POLL_INTERVAL.
Definition spawn {S} (handlers : gmap string (TaskHandler S)) : InMemoryTaskService S :=
  spawn_named "inmem" handlers.

(** ** The builder ([worker/builder.rs]) *)

(** [struct WorkerBuilder]; the transport is the ambient [TaskApi]. *)
Record WorkerBuilder (S : Type) := mkBuilder {
  wb_handlers : gmap string (TaskHandler S);
  wb_name : string; wb_max_tasks : Z; wb_lease_seconds : Z; wb_poll_interval : Z }.
Arguments mkBuilder {S}. Arguments wb_handlers {S}. Arguments wb_name {S}.
Arguments wb_max_tasks {S}. Arguments wb_lease_seconds {S}. Arguments wb_poll_interval {S}.

(** [WorkerBuilder::new], [WorkerBuilder::from_api], and the setters. *)
Definition builder_new {S} : WorkerBuilder S :=
  mkBuilder ∅ "spica-worker" MAX_TASKS LEASE_SECONDS POLL_INTERVAL.
Definition with_resource {S} (resource : string) (handler : TaskHandler S) (b : WorkerBuilder S)
    : WorkerBuilder S :=
  mkBuilder (<[resource := handler]> (wb_handlers b)) (wb_name b) (wb_max_tasks b)
    (wb_lease_seconds b) (wb_poll_interval b).
Definition with_name {S} (name : string) (b : WorkerBuilder S) : WorkerBuilder S :=
  mkBuilder (wb_handlers b) name (wb_max_tasks b) (wb_lease_seconds b) (wb_poll_interval b).
Definition with_max_tasks {S} (n : Z) (b : WorkerBuilder S) : WorkerBuilder S :=
  mkBuilder (wb_handlers b) (wb_name b) n (wb_lease_seconds b) (wb_poll_interval b).
Definition with_lease_seconds {S} (n : Z) (b : WorkerBuilder S) : WorkerBuilder S :=
  mkBuilder (wb_handlers b) (wb_name b) (wb_max_tasks b) n (wb_poll_interval b).
Definition with_poll_interval {S} (d : Z) (b : WorkerBuilder S) : WorkerBuilder S :=
  mkBuilder (wb_handlers b) (wb_name b) (wb_max_tasks b) (wb_lease_seconds b) d.
(** [WorkerBuilder::build]. *)
Definition builder_build {S} (b : WorkerBuilder S) : InMemoryTaskService S :=
  spawn_configured (wb_name b) (wb_handlers b) (wb_max_tasks b) (wb_lease_seconds b)
    (wb_poll_interval b).

(** ** The loop *)

(** What a job reports: [api.complete] under a fresh id, or [api.fail]. *)
Inductive Report := ReportComplete (request_id : string) (output : Value)
  | ReportFail (error : TaskFailure).

(** A spawned job: its handler has not returned yet, or its result is to be reported. *)
Inductive Job := Claimed (t : ClaimedTask) | Returned (t : ClaimedTask) (r : TaskFailure + Value).
Definition job_task (j : Job) : ClaimedTask :=
  match j with Claimed t | Returned t _ => t end.

(** Where the loop stands: in the [select!], in a round with resources left to poll, in a
    call that has not returned, or ended. *)
Inductive LoopAt := Selecting | Polling (rest : list string) | Suspended | Ended.

(** The loop and the jobs it has spawned; the last three fields are histories: the tasks
    handed to the worker, the reports made and the jobs whose handler panicked. *)
Record WorkerState := mkWorker {
  wk_at : LoopAt; wk_jobs : list Job;
  wk_handed : list ClaimedTask; wk_reported : list (ClaimedTask * Report);
  wk_died : list ClaimedTask }.
Definition worker_start : WorkerState := mkWorker Selecting [] [] [] [].

Section Loop.
Context `{Engine} {S : Type} `{TaskApi S} (svc : InMemoryTaskService S).

(** The identity [run] gives the worker; [u] is the [Ulid::new()] it draws. *)
Definition worker_id_of (u : Ulid) : string := is_name svc +:+ "-" +:+ ulid_str u.

Context (worker_id : string).

(** One iteration of the [for] in [poll]: each claimed task is spawned, a failed call is
    logged and the next resource is polled. *)
Definition poll_resource (resource : string) (rest : list string) (w : WorkerState) (s : S)
    : WorkerState * S :=
  let '(r, s') :=
    api_poll_tasks worker_id resource (is_max_tasks svc) (is_lease_seconds svc) s in
  let go at_ claimed :=
    mkWorker at_ (wk_jobs w ++ map Claimed claimed)%list (wk_handed w ++ claimed)%list
      (wk_reported w) (wk_died w) in
  match r with
  | Ok (Some claimed) => (go (Polling rest) claimed, s')
  | Ok None => (go Suspended [], s')
  | Err _ => (go (Polling rest) [], s')
  | Panic _ => (go Ended [], s')
  end.

(** The result of a job: its resource's handler, or the guard against a race. *)
Definition job_result (t : ClaimedTask) : M S TaskFailure Value :=
  match is_handlers svc !! ct_resource t with
  | Some handler => handler (ct_resource t) (ct_arguments t)
  | None => throw (mkTaskFailure "States.Runtime" VNull)
  end.
Definition report_of (request_id : string) (r : TaskFailure + Value) : Report :=
  match r with
  | inr output => ReportComplete request_id output
  | inl error => ReportFail error
  end.
(** The report call; its outcome is only logged. *)
Definition send_report (t : ClaimedTask) (report : Report) : M S TaskApiError (option unit) :=
  match report with
  | ReportComplete request_id output =>
      api_complete worker_id (ct_task_name t) request_id output
  | ReportFail error => api_fail worker_id (ct_task_name t) error
  end.

Definition with_jobs (jobs : list Job) (w : WorkerState) : WorkerState :=
  mkWorker (wk_at w) jobs (wk_handed w) (wk_reported w) (wk_died w).

(** The handler of a job returns; a panic ends the job before it reports. *)
Definition run_job (i : nat) (t : ClaimedTask) (w : WorkerState) (s : S) : WorkerState * S :=
  let '(r, s') := attempt (F:=unit) (job_result t) s in
  match r with
  | Ok result => (with_jobs (<[i := Returned t result]> (wk_jobs w)) w, s')
  | _ => (mkWorker (wk_at w) (delete i (wk_jobs w)) (wk_handed w) (wk_reported w)
            (wk_died w ++ [t])%list, s')
  end.
(** The report of a job is made; [rid] is the [Ulid::new()] drawn for it. *)
Definition settle_job (i : nat) (t : ClaimedTask) (result : TaskFailure + Value)
    (rid : Ulid) (w : WorkerState) (s : S) : WorkerState * S :=
  let report := report_of (ulid_str rid) result in
  (mkWorker (wk_at w) (delete i (wk_jobs w)) (wk_handed w)
     (wk_reported w ++ [(t, report)])%list (wk_died w),
   (send_report t report s).2).

Definition at_ (l : LoopAt) (w : WorkerState) : WorkerState :=
  mkWorker l (wk_jobs w) (wk_handed w) (wk_reported w) (wk_died w).

(** The steps of a worker whose world may move on its own by [env]: the loop and its jobs
    interleave in any order. The token may fire at any time, so the [select!] may end the
    loop whenever it is reached; jobs outlive the loop. *)
Context (resources : list string) (env : S -> S -> Prop).
Inductive worker_step : WorkerState * S -> WorkerState * S -> Prop :=
  | worker_wakes w s :
      wk_at w = Selecting -> worker_step (w, s) (at_ (Polling resources) w, s)
  | worker_cancelled w s :
      wk_at w = Selecting -> worker_step (w, s) (at_ Ended w, s)
  | worker_polls w s resource rest :
      wk_at w = Polling (resource :: rest) ->
      worker_step (w, s) (poll_resource resource rest w s)
  | worker_sleeps w s :
      wk_at w = Polling [] -> worker_step (w, s) (at_ Selecting w, s)
  | worker_runs w s i t :
      wk_jobs w !! i = Some (Claimed t) -> worker_step (w, s) (run_job i t w s)
  | worker_settles w s i t result rid :
      wk_jobs w !! i = Some (Returned t result) ->
      worker_step (w, s) (settle_job i t result rid w s)
  | worker_waits w s s' : env s s' -> worker_step (w, s) (w, s').
Definition worker_reaches : WorkerState * S -> WorkerState * S -> Prop := rtc worker_step.
End Loop.
