(* ===== verification/Cli.v ===== *)
(** The command line ([crates/cli/src]): its arguments, checks and verbs over the client SDK.
    A command runs in the world the transport lives in beside the two output streams; an error
    is the text [main] prints for it. *)
From S2P Require Import Prelude ByteStrings Names Timestamp Json Errors Meta Rows RocksStorage.
From S2P Require Import Wire Services Client.
Local Open Scope string_scope.
Local Open Scope Z_scope.

(** ** Helpers ([util.rs]) *)

(** What the commands call: [fs::read], [Endpoint::connect], [serde_json::to_writer_pretty]. *)
Class CliWorld : Type := {
  fs_read : string -> Res string string;
  dial : string -> Res string unit;
  json_pretty : Value -> string }.

(** [stdout] and [stderr]. *)
Record Console := mkConsole { con_out : string; con_err : string }.
Definition newline : string := String (ascii_of_nat 10) "".

(** [Context::context] on an error whose text is [e], printed with [{:#}]. *)
Definition with_context (context e : string) : string := context +:+ ": " +:+ e.

(** [fn read_input]. *)
Definition read_input `{CliWorld} (path : option string) : Res string string :=
  match path with
  | Some p => res_map_err (with_context ("reading input " +:+ p)) (fs_read p)
  | None => Ok "null"
  end.

(** [fn validate_flow_name]. *)
Definition cli_name_byte (c : ascii) : bool := is_ascii_alphanumeric c || Ascii.eqb c "_"%char.
Definition validate_flow_name (name : string) : Res string unit :=
  let valid := negb (String.eqb name "") && Nat.leb (String.length name) 64
               && string_forallb cli_name_byte name in
  if valid then Ok tt
  else Err ("invalid flow name " +:+ debug_str name +:+ ": must match [A-Za-z0-9_] (1..=64)").

(** [fn state_label]. *)
Definition state_label (state : ExecutionState) : string :=
  match state with
  | StateCompleted_ => "COMPLETED" | StateTerminated_ => "TERMINATED" | StateActive => "ACTIVE"
  end.

(** [String::from_utf8_lossy]: each ill-formed sequence becomes one U+FFFD. *)
Definition replacement_character : string :=
  String (ascii_of_nat 0xEF) (String (ascii_of_nat 0xBF) (String (ascii_of_nat 0xBD) "")).
Fixpoint from_utf8_lossy_from (fuel : nat) (s : string) : string :=
  match fuel, s with
  | S fuel', String c s' =>
      match utf8_char 0 c s' with
      | Ok (rest, w) => string_take (Z.to_nat w) s +:+ from_utf8_lossy_from fuel' rest
      | Err e =>
          match error_len e with
          | Some n =>
              replacement_character +:+ from_utf8_lossy_from fuel' (string_drop (Z.to_nat n) s)
          | None => replacement_character
          end
      | Panic _ => ""
      end
  | _, _ => ""
  end.
Definition from_utf8_lossy (s : string) : string := from_utf8_lossy_from (String.length s) s.

(** [fn printable_error]. *)
Definition printable_error (bytes : string) : string :=
  if String.eqb bytes "" then "" else trim (from_utf8_lossy bytes).

Section Cli.
Context {S : Type} `{Rpc S, WireText, WireJson, CliWorld}.
Notation CM := (M (S * Console) string).

(** [println!], [eprintln!], and a call of the client. *)
Definition println (line : string) : CM unit :=
  fun '(s, c) => (Ok tt, (s, mkConsole (con_out c +:+ line +:+ newline) (con_err c))).
Definition eprintln (line : string) : CM unit :=
  fun '(s, c) => (Ok tt, (s, mkConsole (con_out c) (con_err c +:+ line +:+ newline))).
Definition call {A} (m : M S Status A) : M (S * Console) Status A :=
  fun '(s, c) => let '(r, s') := m s in (r, (s', c)).
Definition in_context {A} (context : string) (m : M (S * Console) Status A) : CM A :=
  map_err (fun st => with_context context (status_str st)) m.

(** [fn print_json]. *)
Definition print_json (value : Value) (pretty : bool) : CM unit :=
  println (if pretty then json_pretty value else vec_or_empty value).

(** ** Flows ([flows.rs]) *)

Record FlowsCreateArgs := mkCreateArgs { fc_definition : string; fc_name : string }.
Record FlowsGetArgs := mkGetArgs { fg_flow_name : string; fg_version : Z }.

(** [flows::create], [flows::get]. *)
Definition flows_create (args : FlowsCreateArgs) : CM (option unit) :=
  lift_res (validate_flow_name (fc_name args)) ;;;
  let* definition := lift_res (res_map_err
    (with_context ("reading definition " +:+ fc_definition args)) (fs_read (fc_definition args))) in
  returned (in_context "CreateFlow" (call (client_create_flow (fc_name args) definition)))
    (fun flow_version => println (reference_str flow_version)).
Definition flows_get (args : FlowsGetArgs) : CM (option unit) :=
  lift_res (validate_flow_name (fg_flow_name args)) ;;;
  returned (in_context "ResolveFlowVersion"
    (call (client_resolve_flow_version (fg_flow_name args) (fg_version args))))
    (fun flow_version => println (reference_str flow_version)).

(** ** Executions ([executions.rs]) *)

Record ExecutionsStartArgs := mkStartArgs {
  xs_flow_version : option string; xs_name : option string; xs_version : Z;
  xs_execution_name : string; xs_input : option string }.
Record ExecutionsStopArgs := mkStopArgs {
  xo_execution_name : string; xo_execution_uid : option string }.
Record ExecutionsGetArgs := mkExecGetArgs { xg_execution_name : string }.
Record ExecutionsWaitArgs := mkWaitArgs { xw_execution_name : string; xw_poll_ms : Z }.

(** [executions::start]. *)
Definition start_target (args : ExecutionsStartArgs) : Res string Target :=
  match xs_flow_version args, xs_name args with
  | Some fv, None =>
      res_map ByVersion (res_map_err (fun e =>
        "malformed --flow-version (expected kind/name/uid, as printed by `flows create`): " +:+ e)
        (reference_from_str fv))
  | None, Some name =>
      res_map (fun _ => ByName name (xs_version args)) (validate_flow_name name)
  | _, _ => Panic "internal error: entered unreachable code: clap ArgGroup requires exactly one of --flow-version / --name"
  end.
Definition executions_start (args : ExecutionsStartArgs) : CM (option unit) :=
  let* target := lift_res (start_target args) in
  let* input := lift_res (read_input (xs_input args)) in
  returned (in_context "StartExecution" (call (client_start_execution
    (mkStartExecution target input (xs_execution_name args)))))
    (fun name => println name).

(** [executions::stop]. *)
Definition executions_stop (args : ExecutionsStopArgs) : CM (option unit) :=
  returned (in_context "StopExecution"
    (call (client_stop_execution (xo_execution_name args) (xo_execution_uid args))))
    (fun name => println ("termination requested for execution " +:+ name)).

(** [serde_json::from_slice(&snap.output).context("parsing completed output")]. *)
Definition completed_output (snap : ExecutionSnapshot) : Res string Value :=
  res_map_err (with_context "parsing completed output") (from_slice (sn_output snap)).
(** The name and the output of a failure, as both verbs print them. *)
Definition failure_text (snap : ExecutionSnapshot) : string :=
  sn_error_name snap +:+ " " +:+ printable_error (sn_error_output snap).

(** [executions::get]. *)
Definition executions_get (pretty : bool) (args : ExecutionsGetArgs) : CM (option unit) :=
  returned (in_context "GetObject" (call (client_get_execution (xg_execution_name args))))
    (fun snap =>
      println ("state: " +:+ state_label (sn_state snap)) ;;;
      match sn_state snap with
      | StateCompleted_ =>
          let* output := lift_res (completed_output snap) in print_json output pretty
      | StateTerminated_ => eprintln ("error: " +:+ failure_text snap)
      | StateActive => ret tt
      end).

(** [executions::wait]: one read, then [sleep] and again; [fuel] bounds the reads, [pause] is
    what happens in the world over one interval. *)
Definition wait_read (args : ExecutionsWaitArgs) : CM (option ExecutionSnapshot) :=
  let* r := attempt (call (client_get_execution (xw_execution_name args))) in
  match r with
  | inr snap => ret snap
  | inl st =>
      if decide (st_code st = CodeNotFound)
      then throw ("execution " +:+ xw_execution_name args
                  +:+ ": no projection (never created or GC'd)")
      else throw (with_context "GetObject" (status_str st))
  end.
Fixpoint executions_wait (pause : S -> S) (fuel : nat) (pretty : bool)
    (args : ExecutionsWaitArgs) : CM (option unit) :=
  match fuel with
  | O => ret None
  | Datatypes.S fuel' =>
      let* snap := wait_read args in
      match snap with
      | None => ret None
      | Some snap =>
          match sn_state snap with
          | StateCompleted_ =>
              let* output := lift_res (completed_output snap) in
              print_json output pretty ;;;
              ret (Some tt)
          | StateTerminated_ => throw ("execution terminated: " +:+ failure_text snap)
          | StateActive =>
              (fun '(s, c) => executions_wait pause fuel' pretty args (pause s, c))
          end
      end
  end.

(** ** The program ([main.rs]) *)

Inductive FlowsCmd := FlowsCreate (a : FlowsCreateArgs) | FlowsGet (a : FlowsGetArgs).
Inductive ExecutionsCmd :=
  | ExecutionsStart (a : ExecutionsStartArgs) | ExecutionsStop (a : ExecutionsStopArgs)
  | ExecutionsGet (a : ExecutionsGetArgs) | ExecutionsWait (a : ExecutionsWaitArgs).
Inductive CliCommand := CmdFlows (cmd : FlowsCmd) | CmdExecutions (cmd : ExecutionsCmd).
Record CliArgs := mkCli { cli_command : CliCommand; cli_address : string; cli_pretty : bool }.

(** [fn dispatch]. *)
Definition dispatch_cli (pause : S -> S) (fuel : nat) (cli : CliArgs) : CM (option unit) :=
  lift_res (res_map_err (with_context "connecting to spica-server (is it running?)")
    (dial (endpoint (cli_address cli)))) ;;;
  match cli_command cli with
  | CmdFlows (FlowsCreate a) => flows_create a
  | CmdFlows (FlowsGet a) => flows_get a
  | CmdExecutions (ExecutionsStart a) => executions_start a
  | CmdExecutions (ExecutionsStop a) => executions_stop a
  | CmdExecutions (ExecutionsGet a) => executions_get (cli_pretty cli) a
  | CmdExecutions (ExecutionsWait a) => executions_wait pause fuel (cli_pretty cli) a
  end.

(** [fn main]: the exit code, [None] while the command has not returned. *)
Definition cli_main (pause : S -> S) (fuel : nat) (cli : CliArgs) : CM (option Z) :=
  let* r := attempt (dispatch_cli pause fuel cli) in
  match r with
  | inr (Some _) => ret (Some 0)
  | inr None => ret None
  | inl e => eprintln e ;;; ret (Some 1)
  end.
End Cli.
