(* ===== verification/Projection.v ===== *)
(** What a dispatch leaves behind: the working transaction is the committed store with the
    emitted events folded in, row for row, and the emitted entries form a batch caused by
    the dispatched command. *)
From S2P Require Import Prelude Names Timestamp Json Asl Errors Meta Entities Tasks Commands.
From S2P Require Import LogStream Storage StorageFacts Applier ApplierFacts Eval Handler.
From S2P Require Import Containers StateHandler States TaskState FanOut ActivityElement Elements.
From S2P Require Import Dispatch HandlerFacts Leader.
Local Open Scope Z_scope.

(** ** Equality of stores up to the generated-name counter *)

Definition rows (d : InMemoryDb) : InMemoryDb := db_set_seq d 0.
Definition same_rows (d1 d2 : InMemoryDb) : Prop := rows d1 = rows d2.
Infix "≈ᵣ" := same_rows (at level 70).

#[export] Instance same_rows_equiv : Equivalence same_rows.
Proof. unfold same_rows. split; [by intros d|by intros a b|]. intros a b c; congruence. Qed.
#[export] Instance db_set_position_proper : Proper (same_rows ==> eq ==> same_rows) db_set_position.
Proof. intros [] [] [=] p ? <-. by simplify_eq. Qed.
#[export] Instance db_set_seq_proper : Proper (same_rows ==> (fun _ _ => True) ==> same_rows) db_set_seq.
Proof. intros [] [] [=] p q _. by simplify_eq. Qed.
#[export] Instance position_proper : Proper (same_rows ==> eq) db_last_processed_position.
Proof. intros [] [] [=]. done. Qed.

(** The transaction and the store its commit would leave, up to the counter. *)
Definition agrees (t : InMemoryTxn) (d : InMemoryDb) : Prop :=
  exists d', commit t None = Ok d' /\ d' ≈ᵣ d.

Lemma agrees_begin d : agrees (begin_txn d) d.
Proof. destruct (flushes_begin d) as [_ Hc]. by exists d. Qed.

(** Any transaction agrees with what its commit leaves. *)
Lemma agrees_commit t d w :
  agrees t d -> exists d', commit t (Some w) = Ok d' /\ d' ≈ᵣ db_set_position d w.
Proof.
  intros (d' & Hc & Hr). exists (db_set_position d' w).
  split; [by apply commit_watermark|]. by rewrite Hr.
Qed.

Section Agree.
Context `{HashOrder}.

(** Equal rows give equal reads; a write keeps them equal. *)
#[export] Instance same_rows_sim : TxnSim same_rows.
Proof.
  split; intros; intros [] [] [=]; simplify_eq/=; unfold flow_key; simpl;
    repeat (case_match; simpl); done.
Qed.

(** The counter aside, a transaction behaves as its flushed store. *)
Definition drop_seq (t : InMemoryTxn) : InMemoryTxn :=
  mkTxn (tx_db t) (mkBatch (b_executions (tx_batch t)) (b_threads (tx_batch t))
    (b_variables (tx_batch t)) (b_activities (tx_batch t)) (b_tasks (tx_batch t))
    (b_flows (tx_batch t)) (b_flow_versions (tx_batch t)) None (b_children (tx_batch t))).

Definition up_to_seq (t1 t2 : InMemoryTxn) : Prop := drop_seq t1 = drop_seq t2.
#[export] Instance up_to_seq_sim : TxnSim up_to_seq.
Proof.
  split; intros; intros [? []] [? []] [=]; simplify_eq/=; unfold flow_key; simpl;
    repeat (case_match; simpl); done.
Qed.

Lemma agrees_split t d :
  agrees t d <-> exists d', flushes (drop_seq t) d' /\ d' ≈ᵣ d.
Proof.
  unfold agrees, flushes, commit, drop_seq. simpl. split.
  - intros (d' & [= <-] & Hd). eexists. split; [split; done|]. by rewrite <- Hd.
  - intros (d' & [_ [= <-]] & Hd). eexists. split; [done|]. by rewrite <- Hd.
Qed.

(** Agreement is kept by any computation the three relations simulate. *)
Lemma agrees_sim {E A} (m1 : M InMemoryTxn E A) (m2 : M InMemoryDb E A) :
  sim up_to_seq eq m1 m1 -> sim flushes eq m1 m2 -> sim same_rows eq m2 m2 ->
  sim agrees eq m1 m2.
Proof.
  intros Hu Hf Hr t d (d' & Hfl & Hrows)%agrees_split.
  assert (up_to_seq t (drop_seq t)) as Hut by done.
  destruct (Hu _ _ Hut) as [Hr1 Hs1], (Hf _ _ Hfl) as [Hr2 [Hq Hs2]], (Hr _ _ Hrows) as [Hr3 Hs3].
  split.
  - destruct (m1 t).1, (m1 (drop_seq t)).1, (m2 d').1, (m2 d).1; simpl in *; try done; congruence.
  - apply agrees_split. exists (db_set_seq (m2 d').2
      (db_next_generated_seq (tx_db (m1 (drop_seq t)).2))).
    unfold up_to_seq in Hs1. rewrite Hs1. split; [split; [done|]|].
    + unfold commit, drop_seq in *. simpl. by injection Hs2 as <-.
    + rewrite <- Hs3. by destruct (m2 d').2.
Qed.

Lemma agrees_event `{Profile} ts e :
  sim agrees eq (dispatch_event (T:=InMemoryTxn) ts e) (dispatch_event (T:=InMemoryDb) ts e).
Proof. apply agrees_sim; apply dispatch_event_sim; apply _. Qed.
End Agree.

(** A transaction never changes the store it was opened on. *)
Definition same_base (t t' : InMemoryTxn) : Prop := tx_db t' = tx_db t.
#[export] Instance same_base_steps `{HashOrder} : TxnSteps same_base.
Proof.
  split; [split; [split; unfold same_base; congruence|..]|]; intros; intros ?; simpl;
    unfold flow_key, overlay, reads, upd, writes; try done.
  by destruct (as_plain _).
Qed.

(** ** The batch a dispatch emits *)

(** The events of a run of entries with the times they were built at. *)
Definition timed_events (l : list Entry) : list (Timestamp * Event) :=
  omap (fun e => match en_payload e with PEvent ev => Some (en_timestamp e, ev) | _ => None end) l.

Lemma timed_events_app l1 l2 : timed_events (l1 ++ l2) = timed_events l1 ++ timed_events l2.
Proof. apply omap_app. Qed.

(** An entry emitted while the command at [cause] is processed. *)
Definition emitted_by (cause : EntryId) (e : Entry) : Prop :=
  en_cause_id e = Some cause /\ en_payload e <> PNoop.

Lemma apply_events_app `{Profile} {T} `{StorageTxn T} l1 l2 (s s' : T) :
  apply_events l1 s = (Ok tt, s') -> apply_events (l1 ++ l2) s = apply_events l2 s'.
Proof.
  unfold apply_events. revert s. induction l1 as [|x l1 IH]; simpl; intros s; [by intros [= ->]|].
  unfold bind. destruct (dispatch_event x.1 x.2 s) as [[] s1]; try done. apply IH.
Qed.

(** Between two states of a dispatch: entries were added at the end, and folding their
    events takes a store the transaction agreed with to one it agrees with. *)
Definition projects `{Engine} (s s' : HSt InMemoryTxn) : Prop :=
  exists es, h_entries s' = h_entries s ++ es /\ h_cause_id s' = h_cause_id s /\
    same_base (h_txn s) (h_txn s') /\ Forall (emitted_by (h_cause_id s)) es /\
    forall d, agrees (h_txn s) d ->
      exists d', apply_events (timed_events es) d = (Ok tt, d') /\ agrees (h_txn s') d'.

Section Projects.
Context `{Engine}.

#[export] Instance projects_preorder : PreOrder projects.
Proof.
  split.
  - intros s. exists []. rewrite app_nil_r. split_and!; try done. intros d Hd. by exists d.
  - intros s1 s2 s3 (l1 & He1 & Hc1 & Hb1 & Hf1 & Hp1) (l2 & He2 & Hc2 & Hb2 & Hf2 & Hp2).
    exists (l1 ++ l2). rewrite He2, He1, (assoc_L app). split_and!; try congruence.
    + apply Forall_app. rewrite Hc1 in Hf2. done.
    + intros d (d1 & Ha1 & Hd1)%Hp1. destruct (Hp2 _ Hd1) as (d2 & Ha2 & Hd2).
      exists d2. by rewrite timed_events_app, (apply_events_app _ _ _ _ Ha1).
Qed.

(** A step that adds no entry and leaves the transaction's rows alone. *)
Lemma projects_quiet (s s' : HSt InMemoryTxn) :
  h_entries s' = h_entries s -> h_cause_id s' = h_cause_id s ->
  same_base (h_txn s) (h_txn s') ->
  (forall d, agrees (h_txn s) d -> agrees (h_txn s') d) -> projects s s'.
Proof.
  intros He Hc Hb Ht. exists []. rewrite app_nil_r. split_and!; try done.
  intros d Hd. exists d. split; [done|by apply Ht].
Qed.

Lemma projects_push s e :
  en_cause_id e = Some (h_cause_id s) -> en_payload e <> PNoop ->
  (match en_payload e with PEvent _ => False | _ => True end) -> projects s (push_entry s e).
Proof.
  intros Hc Hn He. exists [e]. split_and!; try done; [by apply Forall_singleton|].
  intros d Hd. exists d. unfold timed_events. simpl. destruct (en_payload e); done.
Qed.

Lemma steps_projects_push {E} p :
  p <> PNoop -> (match p with PEvent _ => False | _ => True end) ->
  steps (E:=E) projects (push p).
Proof.
  intros Hn Hp s _. unfold push, build, now, bind. simpl.
  etrans; [|apply projects_push; done]. by apply projects_quiet.
Qed.

(** A failed or successful raise of the counter does not touch the rows. *)
Lemma agrees_set_seq t d k : agrees t d -> agrees (put_next_generated_seq k t).2 d.
Proof. intros (d' & [= <-] & Hd). eexists. split; [done|]. by rewrite <- Hd. Qed.

Lemma steps_projects_event {E} ev : steps (E:=E) projects (append_event ev).
Proof.
  intros s. unfold append_event, build, now, bind, attempt, on_txn. simpl.
  set (ts := clock_at (h_clock s)).
  pose proof (agrees_event ts ev (h_txn s)) as Hsim.
  pose proof (dispatch_event_total ts ev (h_txn s)) as Htot.
  pose proof (dispatch_event_steps same_base ts ev (h_txn s)) as Hbase.
  destruct (dispatch_event ts ev (h_txn s)) as [[[]|e|m] t']; simpl in *; try done.
  intros _. eexists [_]. split_and!; try done; [by apply Hbase|..].
  { by apply Forall_singleton. }
  intros d Hd. specialize (Hsim _ Hd) as [Hr Ha]. unfold timed_events, apply_events; simpl.
  unfold bind. simpl. destruct (dispatch_event ts ev d) as [[[]| |] d'] eqn:Hev; simpl in *; try done.
  by exists d'.
Qed.

#[export] Instance projects_prim : PrimSteps projects.
Proof.
  apply prim_steps; [split; [apply _|..]|..].
  - intros A m Hm s _. apply projects_quiet; destruct Hm; done.
  - intros E v sm s _. by apply projects_quiet.
  - intros E s _. by apply projects_quiet.
  - intros E s _. by apply projects_quiet.
  - intros E s. unfold mint_generated_seq, attempt, on_txn, bind. simpl.
    unfold lift_res. destruct (i64_add _ 1) as [k| |]; simpl; try done; intros _.
    + apply projects_quiet; try done. simpl. intros d Hd.
      apply (agrees_set_seq _ _ k) in Hd. done.
    + by apply projects_quiet.
  - intros E A m _ s. unfold on_env. destruct (m (h_env s)) as [r env']. intros _.
    by apply projects_quiet.
  - intros E ev. apply steps_projects_event.
  - intros E c. by apply steps_projects_push.
  - intros E i t r. by apply steps_projects_push.
Qed.

(** Dispatching a command leaves a transaction that agrees with the fold of the emitted
    events over any store it started in agreement with. *)
Lemma dispatch_projects c s :
  not_panic (dispatch_command c s).1 -> projects s (dispatch_command c s).2.
Proof. apply dispatch_steps, _. Qed.
End Projects.
