(* ===== verification/Runs.v ===== *)
(** Executions over time: whatever a handler does, the executions of the store keep their
    identity and definition, and their status only moves along the lifecycle. *)
From S2P Require Import Prelude Names Timestamp Json Asl Errors Meta Entities Tasks Commands.
From S2P Require Import LogStream Storage StorageFacts Applier ApplierFacts Eval Handler.
From S2P Require Import Containers StateHandler States TaskState FanOut ActivityElement Elements.
From S2P Require Import Dispatch HandlerFacts Projection.

(** The lifecycle of an execution; an activity may also give up completing. *)
Inductive lifecycle_step (giving_up : bool) : Lifecycle -> Lifecycle -> Prop :=
  | begin_completing : lifecycle_step giving_up Running Completing
  | complete : lifecycle_step giving_up Completing Completed
  | begin_terminating r : lifecycle_step giving_up Running (Terminating r)
  | give_up_completing r :
      giving_up = true -> lifecycle_step giving_up Completing (Terminating r)
  | terminate r : lifecycle_step giving_up (Terminating r) (Terminated r).

Lemma terminal_stuck b s s' : lifecycle_step b s s' -> is_terminal s = false.
Proof. by intros []. Qed.

(** [e'] is a later row of the run [e]. *)
Record advances (e e' : Execution) : Prop := {
  adv_status : rtc (lifecycle_step false) (ex_status e) (ex_status e');
  adv_final : is_terminal (ex_status e) = true -> e' = e;
  adv_ref : object_ref (ex_meta e') = object_ref (ex_meta e);
  adv_created : m_created_at (ex_meta e') = m_created_at (ex_meta e);
  adv_version : ex_flow_version e' = ex_flow_version e;
  adv_deadline : ex_deadline e' = ex_deadline e;
  adv_input : ex_input e' = ex_input e }.
#[export] Instance advances_preorder : PreOrder advances.
Proof.
  split; [by intros e; split|]. intros a b c [] []. split; try congruence; [by etrans|].
  intros Ht. assert (b = a) by auto. subst. auto.
Qed.

(** Tables of executions under their own names, and their order in time. *)
Definition own_names (m : gmap ObjectName Execution) : Prop :=
  map_Forall (fun k e => m_name (ex_meta e) = k) m.
Definition runs_le (m m' : gmap ObjectName Execution) : Prop :=
  own_names m -> own_names m' /\
  forall k e, m !! k = Some e -> exists e', m' !! k = Some e' /\ advances e e'.
#[export] Instance runs_le_preorder : PreOrder runs_le.
Proof.
  split; [intros m Hm; split; [done|]; intros k e He; by exists e|].
  intros m1 m2 m3 H12 H23 Hm. destruct (H12 Hm) as [Hm2 Ha]. destruct (H23 Hm2) as [Hm3 Hb].
  split; [done|]. intros k e (e2 & He2 & H2)%Ha. destruct (Hb _ _ He2) as (e3 & He3 & H3).
  exists e3. split; [done|]. by etrans.
Qed.
(** A later row in place of a row, or a row where there was none. *)
Lemma runs_le_insert m k e' :
  m_name (ex_meta e') = k -> (forall e, m !! k = Some e -> advances e e') ->
  runs_le m (<[k := e']> m).
Proof.
  intros Hk He Hm. split; [by apply map_Forall_insert_2|]. intros k1 e1 H1.
  destruct (decide (k1 = k)) as [->|].
  - exists e'. rewrite lookup_insert_eq. auto.
  - exists e1. by rewrite lookup_insert_ne.
Qed.

Section Runs.
Context `{Engine}.
Notation St := (HSt InMemoryTxn).

(** The executions a transaction shows. *)
Definition runs (t : InMemoryTxn) : gmap ObjectName Execution :=
  b_executions (tx_batch t) ∪ db_executions (tx_db t).
Lemma agrees_runs t d : agrees t d -> db_executions d = runs t.
Proof.
  intros (d' & [= <-] & Hr). unfold same_rows, rows in Hr. by injection Hr.
Qed.

(** ** What leaves the executions alone *)
Definition same_runs (t t' : InMemoryTxn) : Prop := runs t' = runs t.
#[export] Instance same_runs_steps : PlainSteps same_runs.
Proof.
  split; [split; unfold same_runs; congruence|..]; intros; intros ?; simpl;
    unfold flow_key, overlay, reads, upd, writes; try done.
  by destruct (as_plain _).
Qed.
Definition quiet (s s' : St) : Prop := same_runs (h_txn s) (h_txn s').
#[export] Instance quiet_preorder : PreOrder quiet.
Proof. unfold quiet, same_runs. split; [by intros s|]. intros a b c; congruence. Qed.
#[export] Instance quiet_base : BaseSteps quiet.
Proof.
  split; [split; [apply _|..]|..]; unfold quiet, same_runs.
  - intros A m Hm s _. by destruct Hm.
  - by intros E v sm s.
  - by intros E s.
  - by intros E s.
  - intros E s. unfold mint_generated_seq, attempt, on_txn, bind, lift_res. simpl.
    by destruct (i64_add _ 1).
  - intros E A m _ s. unfold on_env. by destruct (m (h_env s)).
  - intros E ev Hev s. unfold append_event, build, now, bind, attempt, on_txn. simpl.
    pose proof (plain_event_steps same_runs (clock_at (h_clock s)) ev Hev (h_txn s)) as Hs.
    by destruct (dispatch_event _ ev _) as [[] t'].
  - by intros E c s _.
  - by intros E i t r s _.
Qed.

(** ** Hoare-style reasoning on the handlers of executions *)

(** From a state whose table is keyed and which satisfies [P], [m] moves the executions
    forward, and its value and state satisfy [Q]. *)
Definition forward (s s' : St) : Prop := runs_le (runs (h_txn s)) (runs (h_txn s')).
#[export] Instance forward_preorder : PreOrder forward.
Proof. unfold forward. split; [by intros s|]. intros a b c Hab Hbc. by etrans. Qed.
Definition guarded {E A} (P : St -> Prop) (m : M St E A) (Q : A -> St -> Prop) : Prop :=
  forall s, own_names (runs (h_txn s)) -> P s ->
    match m s with
    | (Ok a, s') => forward s s' /\ Q a s'
    | (Err _, s') => forward s s'
    | (Panic _, _) => True
    end.

Lemma steps_guarded {E A} (m : M St E A) Q :
  guarded (fun _ => True) m Q -> steps forward m.
Proof.
  intros Hm s. unfold forward, runs_le. specialize (Hm s).
  destruct (m s) as [[a|e|msg] s']; simpl; intros Hp; [| |done]; intros Hs;
    specialize (Hm Hs I); [by apply Hm|by apply Hm].
Qed.
Lemma guarded_bind {E A B} P Q R (m : M St E A) (k : A -> M St E B) :
  guarded P m Q -> (forall a, guarded (Q a) (k a) R) -> guarded P (bind m k) R.
Proof.
  intros Hm Hk s Hs HP. specialize (Hm s Hs HP). unfold bind.
  destruct (m s) as [[a|e|msg] s1]; [|done..]. destruct Hm as [Hf HQ].
  specialize (Hk a s1 (proj1 (Hf Hs)) HQ). destruct (k a s1) as [[b|e|msg] s2]; [|by etrans|done].
  destruct Hk as [Hf2 HR]. split; [by etrans|done].
Qed.
(** What only asks about the executions survives a quiet computation. *)
Definition stable (P : St -> Prop) : Prop := forall s s', quiet s s' -> P s -> P s'.
Lemma guarded_quiet {E A} P (m : M St E A) :
  steps quiet m -> stable P -> guarded P m (fun _ => P).
Proof.
  intros Hm HP s _ Hs. specialize (Hm s). unfold forward. unfold quiet, same_runs in Hm.
  destruct (m s) as [[a|e|msg] s1]; [..|done]; specialize (Hm I); simpl in Hm; rewrite Hm;
    [|reflexivity].
  split; [reflexivity|]. by eapply HP.
Qed.
Lemma guarded_weaken {E A} (P P' : St -> Prop) (m : M St E A) Q :
  (forall s, P s -> P' s) -> guarded P' m Q -> guarded P m Q.
Proof. intros HP Hm s Hs Hps. apply Hm; auto. Qed.

Lemma guarded_end {E A} P (m : M St E A) : steps quiet m -> guarded P m (fun _ _ => True).
Proof.
  intros Hm. apply (guarded_weaken P (fun _ => True)); [done|]. apply guarded_quiet; [done|].
  by intros s s'.
Qed.

Lemma guarded_pure {E A} P (φ : Prop) (m : M St E A) Q :
  (φ -> guarded P m Q) -> guarded (fun s => P s /\ φ) m Q.
Proof. intros Hm s Hs [HP Hφ]. by apply Hm. Qed.
Lemma guarded_forget {E A} P (m : M St E A) Q : guarded P m Q -> guarded P m (fun _ _ => True).
Proof. intros Hm s Hs HP. specialize (Hm s Hs HP). by destruct (m s) as [[] ?]; [destruct Hm|..]. Qed.

(** The run [k] is unknown; it is known and has status [st]. *)
Definition absent (k : ObjectName) (s : St) : Prop := runs (h_txn s) !! k = None.
Lemma absent_stable k : stable (absent k).
Proof. intros s s' Hq Hk. unfold absent. by rewrite Hq. Qed.
Definition at_status (k : ObjectName) (st : Lifecycle) (s : St) : Prop :=
  exists x, runs (h_txn s) !! k = Some x /\ ex_status x = st.
Lemma at_status_stable k st : stable (at_status k st).
Proof. intros s s' Hq (x & Hx & Hst). exists x. by rewrite Hq. Qed.
Lemma true_stable : stable (fun _ => True).
Proof. by intros s s'. Qed.

Lemma read_runs (r : ObjectRef ExecutionKind) t :
  get_execution r t = (Ok (runs t !! ref_name r), t).
Proof. unfold runs. simpl. unfold overlay, reads. by rewrite lookup_overlay. Qed.
Lemma guarded_probe {E} r :
  guarded (fun _ => True) (read_flat (E:=E) (get_execution r))
    (fun row s => row = None -> absent (ref_name r) s).
Proof.
  intros s Hs _. unfold read_flat, read_ok, attempt, on_txn, bind, ret. rewrite read_runs.
  split; [unfold forward; reflexivity|]. unfold absent. simpl.
  by destruct (runs (h_txn s) !! ref_name r).
Qed.
Lemma guarded_read r :
  guarded (fun _ => True) (rd (get_execution r))
    (fun row s => match row with
                  | Some e => at_status (ref_name r) (ex_status e) s /\
                              m_name (ex_meta e) = ref_name r
                  | None => True
                  end).
Proof.
  intros s Hs _. unfold rd, map_err, on_txn. rewrite read_runs. simpl.
  split; [unfold forward; reflexivity|].
  destruct (runs (h_txn s) !! ref_name r) as [e|] eqn:He; [|done].
  split; [by exists e|by apply Hs].
Qed.

(** The status an execution event writes. *)
Definition event_status (ev : Event) : option (Execution * Lifecycle) :=
  match ev with
  | ExecutionCompleting e => Some (e, Completing)
  | ExecutionCompleted e => Some (e, Completed)
  | ExecutionTerminating e | ExecutionTerminated e => Some (e, ex_status e)
  | _ => None
  end.
Lemma guarded_event {E} ev e st st' :
  event_status ev = Some (e, st') -> lifecycle_step false st st' ->
  guarded (at_status (m_name (ex_meta e)) st) (append_event (E:=E) ev)
    (fun _ => at_status (m_name (ex_meta e)) st').
Proof.
  intros Hev Hst s Hs (x & Hx & <-).
  assert (exists out t, (dispatch_event (clock_at (h_clock s)) ev (h_txn s)).1 = Ok tt /\
    runs (dispatch_event (clock_at (h_clock s)) ev (h_txn s)).2 =
      <[m_name (ex_meta e) := exec_advance x st' out t]> (runs (h_txn s))) as (out & t & Hd1 & Hd2).
  { destruct ev; simplify_eq/=; unfold_appliers; unfold map_err, bind, overlay, reads; simpl;
      rewrite lookup_overlay; change (b_executions _ ∪ _) with (runs (h_txn s)); rewrite Hx;
      eexists _, _; (split; [done|]); unfold runs at 1; simpl;
      rewrite <- insert_union_l, <- (Hs _ _ Hx); reflexivity. }
  unfold append_event, build, now, bind, attempt, on_txn. simpl.
  destruct (dispatch_event _ ev _) as [r t']. simpl in *. subst r. unfold forward, at_status. simpl.
  rewrite Hd2. split.
  - apply runs_le_insert; [by apply (Hs _ _ Hx)|]. rewrite Hx. intros ? [= <-].
    split; try done; [by apply rtc_once|]. by rewrite (terminal_stuck _ _ _ Hst).
  - eexists. by rewrite lookup_insert_eq.
Qed.
Lemma guarded_created {E} id e :
  guarded (absent (m_name (ex_meta e))) (append_event (E:=E) (ExecutionCreated id e))
    (fun _ _ => True).
Proof.
  intros s _ Habs. unfold append_event, build, now, bind, attempt, on_txn. simpl.
  split; [|done]. unfold forward. simpl. unfold runs at 2. simpl. rewrite <- insert_union_l.
  apply runs_le_insert; [done|]. intros x Hx. unfold absent, runs in *. simpl in *.
  congruence.
Qed.

(** The event of a row whose name is the name of the run. *)
Lemma guarded_transition {E} ev e e' st' :
  event_status ev = Some (e', st') -> m_name (ex_meta e') = m_name (ex_meta e) ->
  lifecycle_step false (ex_status e) st' ->
  guarded (at_status (m_name (ex_meta e)) (ex_status e)) (append_event (E:=E) ev)
    (fun _ => at_status (m_name (ex_meta e)) st').
Proof. intros Hev Hn Hs. rewrite <- Hn. by apply guarded_event. Qed.
Lemma guarded_mark {E} e (f : Timestamp -> Res string Execution) P :
  stable P -> (forall t e', f t = Ok e' -> m_name (ex_meta e') = m_name (ex_meta e)) ->
  guarded P (debug_assert_mark (E:=E) e f)
    (fun e' s => P s /\ m_name (ex_meta e') = m_name (ex_meta e)).
Proof.
  intros HP Hf s _ Hps. unfold debug_assert_mark.
  destruct debug_assertions; [|split; [reflexivity|done]]. unfold bind, now, forward. cbv beta iota.
  destruct (f (clock_at (h_clock s))) as [e'| |] eqn:He; simpl; [|done..].
  split; [reflexivity|]. split; [|by eapply Hf]. by apply (HP s); [unfold quiet, same_runs|].
Qed.
End Runs.

(** An accepted transition is an edge of the lifecycle, under the same name. *)
Definition edge (e e' : Execution) : Prop :=
  m_name (ex_meta e') = m_name (ex_meta e) /\ lifecycle_step false (ex_status e) (ex_status e').
Lemma mark_completing_edge e o t e' :
  exec_mark_completing e o t = Ok e' -> edge e e' /\ ex_status e' = Completing.
Proof.
  unfold exec_mark_completing. destruct (ex_status e) eqn:He; intros; simplify_eq/=.
  split; [split|]; try done. rewrite He. constructor.
Qed.
Lemma mark_completed_edge e t e' :
  exec_mark_completed e t = Ok e' -> edge e e' /\ ex_status e' = Completed.
Proof.
  unfold exec_mark_completed. destruct (ex_status e) eqn:He; intros; simplify_eq/=.
  split; [split|]; try done. rewrite He. constructor.
Qed.
Lemma mark_terminating_edge e r t e' :
  exec_mark_terminating e r t = Ok e' -> edge e e' /\ ex_status e' = Terminating r.
Proof.
  unfold exec_mark_terminating. destruct (ex_status e) eqn:He; intros; simplify_eq/=.
  split; [split|]; try done. rewrite He. constructor.
Qed.
Lemma mark_terminated_edge e t e' : exec_mark_terminated e t = Ok e' -> edge e e'.
Proof.
  unfold exec_mark_terminated. destruct (ex_status e) eqn:He; intros; simplify_eq/=.
  split; [done|]. rewrite He. constructor.
Qed.

(** Walk over the quiet part of a handler's body, keeping what is known of the run. *)
Ltac quiet_walk :=
  repeat first
    [ apply guarded_end; solve [hsteps]
    | eapply guarded_bind;
        [apply guarded_mark; [apply at_status_stable|intros ? ? [[? _] _]%mark_completed_edge; done]
        |intros ?; apply guarded_pure; intros ?]
    | eapply guarded_bind;
        [apply guarded_quiet; [solve [hsteps]|apply at_status_stable || apply absent_stable]
        |intros ?; cbv beta]
    | case_match ].
(** The event of a row the previous steps marked, and the last event of a handler. *)
Ltac event_step Hn Hs :=
  eapply guarded_bind; [eapply guarded_transition; [reflexivity|exact Hn|exact Hs]|intros ?];
  cbv beta; rewrite <- Hn.
Ltac last_event := eapply guarded_forget, guarded_transition.

Section Handlers.
Context `{Engine}.

(** The first read of a handler of an existing run. *)
Lemma forward_of_read {A} r (k : option Execution -> M (HSt InMemoryTxn) ProcessingError A) :
  steps quiet (k None) ->
  (forall e, guarded (at_status (m_name (ex_meta e)) (ex_status e)) (k (Some e)) (fun _ _ => True)) ->
  steps forward (bind (rd (get_execution r)) k).
Proof.
  intros Hn Hk. eapply steps_guarded, guarded_bind; [apply guarded_read|].
  intros [e|]; [|by apply guarded_end]. eapply guarded_weaken; [|apply Hk].
  by intros s [? ->].
Qed.

Lemma forward_complete p : steps forward (execution_complete p).
Proof.
  unfold execution_complete. apply forward_of_read; [hsteps|]. intros e. quiet_walk.
  match goal with E : exec_mark_completing _ _ _ = Ok _ |- _ =>
    destruct (mark_completing_edge _ _ _ _ E) as [[Hn Hs] Hst] end.
  rewrite Hst in Hs. event_step Hn Hs. rewrite <- Hst. quiet_walk.
  last_event; [done..|]. rewrite Hst. constructor.
Qed.
Lemma forward_terminate p : steps forward (execution_terminate p).
Proof.
  unfold execution_terminate. apply forward_of_read; [hsteps|]. intros e.
  quiet_walk; match goal with E : exec_mark_terminating _ _ _ = Ok _ |- _ =>
    destruct (mark_terminating_edge _ _ _ _ E) as [[Hn Hs] Hst] end;
  event_step Hn Hs; quiet_walk; match goal with E : exec_mark_terminated _ _ = Ok _ |- _ =>
    destruct (mark_terminated_edge _ _ _ E) as [Hn' Hs'] end; by last_event.
Qed.
Lemma forward_continue_complete e : steps forward (execution_continue_complete e).
Proof.
  unfold execution_continue_complete. apply forward_of_read; [hsteps|]. intros x. quiet_walk.
  match goal with E : exec_mark_completed _ _ = Ok _ |- _ =>
    destruct (mark_completed_edge _ _ _ E) as [[Hn Hs] Hst] end.
  last_event; [done..|]. by rewrite <- Hst.
Qed.
Lemma forward_continue_terminate e : steps forward (execution_continue_terminate e).
Proof.
  unfold execution_continue_terminate. apply forward_of_read; [hsteps|]. intros x. quiet_walk.
  match goal with E : exec_mark_terminated _ _ = Ok _ |- _ =>
    destruct (mark_terminated_edge _ _ _ E) as [Hn Hs] end.
  by last_event.
Qed.
Lemma forward_create p : steps forward (execution_create p).
Proof.
  unfold execution_create. eapply steps_guarded, guarded_bind; [apply guarded_probe|].
  intros [e|]; [apply guarded_end; hsteps|].
  eapply guarded_weaken; [intros s Hs; exact (Hs eq_refl)|].
  quiet_walk; match goal with |- guarded _ (bind (append_event (ExecutionCreated ?i ?e)) _) _ =>
    eapply guarded_bind; [exact (guarded_created i e)|intros ?; apply guarded_end; hsteps] end.
Qed.

Lemma quiet_forward {E A} (m : M (HSt InMemoryTxn) E A) : steps quiet m -> steps forward m.
Proof. intros Hm. by eapply steps_guarded, guarded_end. Qed.
#[export] Instance forward_base : BaseSteps forward.
Proof.
  split; [split; [apply _|..]|..]; intros; apply quiet_forward;
    eauto with spica typeclass_instances.
Qed.

(** Whatever a command does, the executions move forward. *)
Lemma dispatch_forward c : steps forward (dispatch_command c).
Proof.
  apply dispatch_steps_but_executions; [apply _|].
  split_and!; [apply forward_create|apply forward_complete|apply forward_terminate|
    |apply forward_continue_complete|apply forward_continue_terminate].
  intros e t. apply quiet_forward. unfold execution_on_deadline_fired, execution_gone. hsteps.
Qed.
End Handlers.
