(* ===== verification/LeaderFacts.v ===== *)
(** The leader over the in-memory store: processing a command answers with a non-empty
    batch caused by it, and a working transaction that is the store with the batch's events
    folded in; a rejection leaves the store's rows as they were. *)
From S2P Require Import Prelude Names Timestamp Json Asl Errors Meta Entities Tasks Commands.
From S2P Require Import LogStream Storage StorageFacts Applier ApplierFacts Eval Handler Dispatch.
From S2P Require Import HandlerFacts Emission Leader Projection Runs.
Local Open Scope Z_scope.

Section LeaderFacts.
Context `{Engine}.
Notation LNode := (Node InMemoryDb).

(** What processing a command leaves alone. *)
Record keeps (n n' : LNode) : Prop := {
  keeps_storage : nd_storage n' = nd_storage n;
  keeps_log : nd_log n' = nd_log n;
  keeps_watermark : nd_watermark n' = nd_watermark n;
  keeps_hooks : nd_hooks n' = nd_hooks n }.
#[export] Instance keeps_preorder : PreOrder keeps.
Proof. split; [by intros n|]. intros a b c [] []. split; congruence. Qed.

(** A batch for the command at [id] over the store [d], with its working transaction. *)
Record batch_ok (id : EntryId) (d : InMemoryDb) (p : CommandProcessed (T:=InMemoryTxn)) : Prop := {
  batch_nonempty : cp_entries p <> [];
  batch_cause : Forall (emitted_by id) (cp_entries p);
  batch_base : tx_db (cp_work p) = d;
  batch_fold : exists d', apply_events (timed_events (cp_entries p)) d = (Ok tt, d') /\
                          agrees (cp_work p) d' /\
                          runs_le (db_executions d) (db_executions d') }.

(** A successful dispatch passes the non-emptiness assertion. *)
Lemma dispatch_once_spec id c (n : LNode) :
  match dispatch_once id c n with
  | (Ok p, n') =>
      keeps n n' /\ batch_ok id (nd_storage n) p /\
      nd_last_applied n' = events_of (cp_entries p)
  | (Err _, n') => keeps n n' /\ nd_last_applied n' = nd_last_applied n
  | (Panic _, _) => not_panic (dispatch_command c (open_context n (begin_txn (nd_storage n)) id)).1 -> False
  end.
Proof.
  unfold dispatch_once, on_storage, map_err, bind. simpl.
  change (open_context _ _ _) with (open_context n (begin_txn (nd_storage n)) id).
  set (h0 := open_context n (begin_txn (nd_storage n)) id).
  pose proof (dispatch_emits c h0) as He. unfold emits_at in He.
  pose proof (dispatch_projects c h0) as Hp.
  destruct (dispatch_command c h0) as [[[]|e|m] h] eqn:Hdis; simpl in *; [|by repeat split|done].
  destruct (Hp I) as (es & Hes & Hc & Hb & Hf & Hd). simpl in Hes.
  destruct (h_entries h) as [|e0 es0] eqn:Hh; [simpl in He; lia|].
  destruct (Hd (nd_storage n) (agrees_begin _)) as (d' & Ha & Hag).
  split_and!; try done. split; simpl; subst; try done. exists d'. split_and!; try done.
  pose proof (dispatch_forward c h0) as Hr. rewrite Hdis in Hr.
  specialize (Hr I). rewrite (agrees_runs _ _ (agrees_begin (nd_storage n))).
  by rewrite (agrees_runs _ _ Hag).
Qed.

Lemma timed_events_reject l r t c :
  timed_events (l ++ [mkEntry id_nil id_nil c t (PReject r)]) = timed_events l.
Proof. rewrite timed_events_app. simpl. by rewrite app_nil_r. Qed.

Lemma reject_command_spec id c err (n : LNode) :
  exists p n' t r, reject_command id c err n = (Ok p, n') /\ keeps n n' /\
    batch_ok id (nd_storage n) p /\ nd_last_applied n' = nd_last_applied n /\
    cp_entries p = [mkEntry id_nil id_nil (Some id) t (PReject r)] /\
    cp_work p = begin_txn (nd_storage n) /\
    rj_request_id r = default RequestId_nil (command_request_id c) /\
    (rj_rejection_type r, rj_rejection_reason r) = rejection_of err.
Proof.
  unfold reject_command. destruct (rejection_of err) as [ty reason].
  eexists _, _, _, _. split; [done|]. split; [by split|]. split_and!; try done.
  split; simpl; try done.
  - by apply Forall_singleton.
  - eexists. split; [done|split; [apply agrees_begin|reflexivity]].
Qed.

(** Processing a command answers, whatever happens short of a panic. *)
Lemma process_loop_spec left id c (n : LNode) :
  match process_loop left id c n with
  | (Ok p, n') => keeps n n' /\ batch_ok id (nd_storage n) p
  | (Err _, _) => False
  | (Panic _, _) => True
  end.
Proof.
  revert n. induction left as [|left IH]; intros n; simpl; unfold bind, attempt;
    pose proof (dispatch_once_spec id c n) as Hd;
    destruct (dispatch_once id c n) as [[p|err|m] n1]; try done; try (by destruct Hd as (? & ? & ?));
    destruct Hd as [Hk _].
  - destruct (reject_command_spec id c err n1) as (p & n2 & t & r & Hr & Hk2 & Hb & _).
    destruct (is_unexpected err); rewrite Hr; split; [by etrans|by rewrite <- (keeps_storage _ _ Hk)
      |by etrans|by rewrite <- (keeps_storage _ _ Hk)].
  - destruct (is_unexpected err); simpl.
    + set (n2 := add_sleep n1 _). specialize (IH n2).
      assert (keeps n n2) as Hk2 by (etrans; [done|by split]).
      destruct (process_loop left id c n2) as [[] n3]; try done. destruct IH as [Hk3 Hb].
      split; [by etrans|]. by rewrite <- (keeps_storage _ _ Hk2).
    + destruct (reject_command_spec id c err n1) as (p & n2 & t & r & Hr & Hk2 & Hb & _).
      rewrite Hr. split; [by etrans|]. by rewrite <- (keeps_storage _ _ Hk).
Qed.

Lemma process_command_spec id c (n : LNode) :
  match process_command id c n with
  | (Ok p, n') => keeps n n' /\ batch_ok id (nd_storage n) p
  | (Err _, _) => False
  | (Panic _, _) => True
  end.
Proof. apply process_loop_spec. Qed.
End LeaderFacts.
