(* ===== verification/GatewayFacts.v ===== *)
(** The gateway's lemmas: a channel registered for a request only ever carries an outcome of
    that request and target, and the batch of an awaited command holds such an outcome. *)
From S2P Require Import Prelude Names Timestamp Json Asl Errors Meta Entities Tasks Commands.
From S2P Require Import LogStream Storage Applier Eval Handler Containers StateHandler States.
From S2P Require Import TaskState FanOut ActivityElement Elements Dispatch HandlerFacts Leader.
From S2P Require Import StreamProcessor Scheduler Facade Gateway.
Local Open Scope Z_scope.

(** ** The registry *)

(** Each pending request has its own open channel. *)
Record ack_wf (h : AckHook) : Prop := {
  wf_unsent : forall r t ch, ak_pending h !! r = Some (t, ch) -> ak_channels h !! ch = Some Unsent;
  wf_unique : forall r1 r2 t1 t2 ch,
    ak_pending h !! r1 = Some (t1, ch) -> ak_pending h !! r2 = Some (t2, ch) -> r1 = r2 }.

(** An outcome a caller that registered [r] for [t] may receive. *)
Definition outcome_of (r : RequestId) (t : AckTarget) (o : AckOutcome) : Prop :=
  match o with
  | Applied ev => resolves ev = Some (r, t) /\ t <> AckGrant
  | Granted tasks => t = AckGrant
  | AckRejected rj => rj_request_id rj = r
  end.

(** [impl Hook for AckHook]. *)
Definition ack_hook (call : HookCall) (h : AckHook) : AckHook :=
  match call with
  | on_event_applied ev => ack_on_event_applied ev h
  | on_command_rejected r rj => ack_on_command_rejected r rj h
  end.

(** What a call leaves of the registry: nothing changes, or the request it concerns is
    removed and its channel closed. *)
Definition verdict (call : HookCall) (t : AckTarget) : OneShot :=
  match call with
  | on_event_applied ev =>
      match resolves ev with
      | Some (_, t') =>
          if decide (t = t') then
            match ev with
            | TasksClaimed _ tasks => Sent (Granted (granted_from tasks))
            | _ => Sent (Applied ev)
            end
          else SenderDropped
      | None => SenderDropped
      end
  | on_command_rejected _ rj => Sent (AckRejected rj)
  end.
(** The request a hook call concerns. *)
Definition call_id (call : HookCall) : option RequestId :=
  match call with
  | on_event_applied ev => fst <$> resolves ev
  | on_command_rejected r _ => Some r
  end.

Lemma ack_hook_eq call h :
  ack_hook call h =
  match call_id call with
  | None => h
  | Some r =>
      match ak_pending h !! r with
      | None => h
      | Some (t, ch) =>
          mkAck (delete r (ak_pending h)) (close_with (verdict call t) ch (ak_channels h))
      end
  end.
Proof.
  destruct call as [ev|r rj]; simpl; [|done].
  destruct ev; try done; unfold ack_on_event_applied; simpl;
    destruct (ak_pending h !! request_id) as [[t ch]|]; try done; by destruct t.
Qed.

(** A channel other than the one closed is as it was; a closed one keeps its value. *)
Lemma close_with_ne c ch ch' l : ch <> ch' -> close_with c ch l !! ch' = l !! ch'.
Proof. apply list_lookup_alter_ne. Qed.
Lemma close_with_unsent c ch l : l !! ch = Some Unsent -> close_with c ch l !! ch = Some c.
Proof. intros E. unfold close_with. by rewrite list_lookup_alter_eq, E. Qed.
Lemma close_with_keeps c ch ch' l x :
  l !! ch' = Some x -> x <> Unsent -> close_with c ch l !! ch' = Some x.
Proof.
  intros E Hx. destruct (decide (ch = ch')) as [->|]; [|by rewrite close_with_ne].
  unfold close_with. rewrite list_lookup_alter_eq, E. by destruct x.
Qed.
Lemma close_with_length c ch l : length (close_with c ch l) = length l.
Proof. apply length_alter. Qed.

Lemma ack_hook_wf call h : ack_wf h -> ack_wf (ack_hook call h).
Proof.
  intros [Hu Hq]. rewrite ack_hook_eq. destruct (call_id call) as [r|]; [|done].
  destruct (ak_pending h !! r) as [[t ch]|] eqn:E; [|done]. split; simpl.
  - intros r' t' ch' [Hne E']%lookup_delete_Some. rewrite close_with_ne; [by eapply Hu|].
    intros ->. apply Hne. by eapply Hq.
  - intros r1 r2 t1 t2 ch' [_ E1]%lookup_delete_Some [_ E2]%lookup_delete_Some. eauto.
Qed.

Lemma register_wf r t h ch h' :
  ack_wf h -> register r t h = (ch, h') ->
  ack_wf h' /\ ak_pending h' !! r = Some (t, ch) /\ ak_channels h' !! ch = Some Unsent.
Proof.
  intros [Hu Hq] [= <- <-]. set (old := match ak_pending h !! r with Some _ => _ | None => _ end).
  assert (length old = length (ak_channels h)) as Hlen.
  { unfold old. destruct (ak_pending h !! r) as [[? ?]|]; [apply close_with_length|done]. }
  assert (forall r' t' c, r' <> r -> ak_pending h !! r' = Some (t', c) -> old !! c = Some Unsent)
    as Hold.
  { intros r' t' c Hne E. unfold old. destruct (ak_pending h !! r) as [[t0 c0]|] eqn:E0; [|eauto].
    rewrite close_with_ne; [eauto|]. intros ->. apply Hne. by eapply Hq. }
  split_and!; simpl; [|by rewrite lookup_insert_eq|by apply list_lookup_middle].
  split; simpl.
  - intros r' t' c [[<- [= <- <-]]|[Hne E]]%lookup_insert_Some.
    + by apply list_lookup_middle.
    + apply lookup_app_l_Some. eauto.
  - assert (forall r' t' , ak_pending h !! r' = Some (t', length (ak_channels h)) -> False) as Hf.
    { intros r' t' E%Hu. apply lookup_lt_Some in E. lia. }
    intros r1 r2 t1 t2 c [[<- [= <- <-]]|[Hne1 E1]]%lookup_insert_Some
      [[<- E2]|[Hne2 E2]]%lookup_insert_Some; try done; [| |eauto].
    + by destruct (Hf _ _ E2).
    + injection E2 as _ <-. by destruct (Hf _ _ E1).
Qed.

(** A rejection is reported under the id it carries. *)
Definition call_ok (call : HookCall) : Prop :=
  match call with on_command_rejected r rj => rj_request_id rj = r | _ => True end.

(** What may happen to the registry: a registration, or a hook call. *)
Inductive ack_step : AckHook -> AckHook -> Prop :=
  | ack_registers r t h ch h' : register r t h = (ch, h') -> ack_step h h'
  | ack_observes call h : call_ok call -> ack_step h (ack_hook call h).

(** A channel of the request: still pending, dropped, or holding an outcome of it. *)
Definition channel_of (r : RequestId) (t : AckTarget) (ch : nat) (h : AckHook) : Prop :=
  (ak_pending h !! r = Some (t, ch) /\ ak_channels h !! ch = Some Unsent) \/
  ak_channels h !! ch = Some SenderDropped \/
  (exists o, ak_channels h !! ch = Some (Sent o) /\ outcome_of r t o).

Lemma verdict_outcome r t call :
  call_ok call -> call_id call = Some r ->
  verdict call t = SenderDropped \/ exists o, verdict call t = Sent o /\ outcome_of r t o.
Proof.
  destruct call as [ev|r' rj]; simpl; [intros _|intros Hrj [= ->]; right; by eexists].
  destruct ev; simpl; try done; intros [= ->]; case_decide; subst;
    (by left) || (right; eexists; split; [done|by split]) || (right; by eexists).
Qed.

(** A channel that holds something keeps it over a registration and over a hook call. *)
Lemma ack_hook_keeps call h ch x :
  ak_channels h !! ch = Some x -> x <> Unsent -> ak_channels (ack_hook call h) !! ch = Some x.
Proof.
  intros E Hx. rewrite ack_hook_eq. destruct (call_id call); [|done].
  destruct (ak_pending h !! _) as [[t c]|]; [|done]. by apply close_with_keeps.
Qed.
Lemma register_keeps r t h ch' h' ch x :
  register r t h = (ch', h') -> ak_channels h !! ch = Some x -> x <> Unsent ->
  ak_channels h' !! ch = Some x.
Proof.
  intros [= <- <-] E Hx. simpl. apply lookup_app_l_Some.
  destruct (ak_pending h !! r) as [[? ?]|]; [by apply close_with_keeps|done].
Qed.

(** A call on another request leaves a pending channel alone. *)
Lemma ack_hook_other call h r t ch :
  ack_wf h -> ak_pending h !! r = Some (t, ch) -> call_id call <> Some r ->
  ak_pending (ack_hook call h) !! r = Some (t, ch).
Proof.
  intros Hwf E Hne. rewrite ack_hook_eq. destruct (call_id call) as [r'|]; [|done].
  destruct (ak_pending h !! r') as [[t' c]|]; [|done]. simpl.
  rewrite lookup_delete_ne; [done|congruence].
Qed.

Lemma ack_step_channel r t ch h h' :
  ack_step h h' -> ack_wf h -> channel_of r t ch h -> ack_wf h' /\ channel_of r t ch h'.
Proof.
  intros Hs Hwf Hc. destruct Hs as [r' t' h ch' h' Hr|call h Hok].
  - destruct (register_wf _ _ _ _ _ Hwf Hr) as (Hwf' & Hp' & Hu'). split; [done|].
    destruct Hc as [[Hp Hu]|[Hd|(o & Ho & Hoo)]].
    + injection Hr as <- <-. destruct (decide (r' = r)) as [->|Hne].
      * right; left. simpl. rewrite Hp. apply lookup_app_l_Some. by apply close_with_unsent.
      * left. assert (<[r':=(t', length (ak_channels h))]> (ak_pending h) !! r = Some (t, ch)) as E
          by by rewrite lookup_insert_ne.
        split; [done|]. by eapply wf_unsent.
    + right; left. by eapply register_keeps.
    + right; right. exists o. split; [by eapply register_keeps|done].
  - split; [by apply ack_hook_wf|]. destruct Hc as [[Hp Hu]|[Hd|(o & Ho & Hoo)]].
    + destruct (decide (call_id call = Some r)) as [Hid|Hne].
      * right. rewrite ack_hook_eq, Hid, Hp. simpl.
        rewrite close_with_unsent by done.
        destruct (verdict_outcome r t call Hok Hid) as [->|(o & -> & Ho)]; eauto.
      * left. pose proof (ack_hook_other call h r t ch Hwf Hp Hne) as E. split; [done|].
        eapply wf_unsent; [by apply ack_hook_wf|done].
    + right; left. by apply ack_hook_keeps.
    + right; right. exists o. split; [by apply ack_hook_keeps|done].
Qed.

Lemma ack_steps_channel r t ch h h' :
  rtc ack_step h h' -> ack_wf h -> channel_of r t ch h -> channel_of r t ch h'.
Proof. induction 1; [done|]. intros. by edestruct ack_step_channel; eauto. Qed.

(** Delivery: the first call on a request settles its channel for good. *)
Lemma ack_delivers calls pre call suf r t ch h :
  ack_wf h -> ak_pending h !! r = Some (t, ch) ->
  calls = pre ++ call :: suf -> Forall (fun c => call_id c <> Some r) pre ->
  call_id call = Some r -> verdict call t <> Unsent ->
  ak_channels (foldl (fun h c => ack_hook c h) h calls) !! ch = Some (verdict call t).
Proof.
  intros Hwf Hp -> Hpre Hid Hv. revert h Hwf Hp. induction Hpre as [|c pre Hc Hpre IH];
    intros h Hwf Hp; simpl.
  - assert (ak_channels (ack_hook call h) !! ch = Some (verdict call t)) as E.
    { rewrite ack_hook_eq, Hid, Hp. simpl. apply close_with_unsent. by eapply wf_unsent. }
    clear Hp Hwf. revert E. generalize (ack_hook call h). induction suf as [|c suf IH]; [done|].
    intros h' E. simpl. apply IH. by apply ack_hook_keeps.
  - apply IH; [by apply ack_hook_wf|by apply ack_hook_other].
Qed.

(** The observer delivers the same calls to both of its halves. *)
Lemma composite_fold calls (x : AckHook * SchedulerState) :
  foldl (fun x c => composite_hook c x) x calls =
  (foldl (fun h c => ack_hook c h) x.1 calls,
   foldl send_input x.2 (calls ≫= fun c =>
     match c with on_event_applied ev => deadline_inputs ev | _ => [] end)).
Proof.
  revert x. induction calls as [|c calls IH]; intros [a s]; [done|]. simpl. rewrite IH.
  destruct c; simpl; by rewrite ?foldl_app.
Qed.

(** Every delivery of calls by the leader is a run of the registry. *)
Lemma ack_folds calls h :
  Forall call_ok calls -> rtc ack_step h (foldl (fun h c => ack_hook c h) h calls).
Proof.
  intros Hc. revert h. induction Hc as [|c calls Hc _ IH]; intros h; [constructor|].
  eapply rtc_l; [by apply ack_observes|apply IH].
Qed.

(** ** The batch of an awaited command *)

(** The outcome each request is awaited by. *)
Definition awaited (c : Command) : option AckTarget :=
  match c with
  | CCreateFlow _ => Some AckFlowVersionCreated
  | CCreateExecution _ => Some AckExecutionCreated
  | CClaimTasks _ => Some AckGrant
  | CCompleteTask _ => Some AckTaskCompleted
  | _ => None
  end.

(** A batch replies to [r]: its first event that echoes a request echoes [r] with the awaited
    variant, or the batch is a rejection under [r]. *)
Inductive replies (r : RequestId) (t : AckTarget) (l : list Entry) : Prop :=
  | reply_event pre ev suf :
      events_of l = pre ++ ev :: suf -> Forall (fun e => resolves e = None) pre ->
      resolves ev = Some (r, t) -> replies r t l
  | reply_reject rj : events_of l = [] -> rejects_of l = [rj] -> rj_request_id rj = r -> replies r t l.

Lemma events_of_app l1 l2 : events_of (l1 ++ l2) = events_of l1 ++ events_of l2.
Proof. apply omap_app. Qed.

Section Batches.
Context `{Engine} {T : Type} `{StorageTxn T}.
Notation St := (HSt T).

(** Steps that emit nothing, and steps that only add entries. *)
Definition silent (s s' : St) : Prop := h_entries s' = h_entries s.
Definition extends (s s' : St) : Prop := h_entries s `prefix_of` h_entries s'.
#[export] Instance silent_preorder : PreOrder silent.
Proof. split; [by intros s|]. unfold silent. intros a b c -> ->. done. Qed.
#[export] Instance extends_preorder : PreOrder extends.
Proof. unfold extends. split; [by intros s; reflexivity|]. intros a b c. by etrans. Qed.

Lemma silent_txn {E A} (m : M T E A) : steps silent (on_txn m).
Proof. intros s. unfold on_txn. by destruct (m (h_txn s)). Qed.
#[local] Instance silent_reads : ReadSteps silent.
Proof. split; [apply _|intros; apply silent_txn|by intros E v sm s]. Qed.
Lemma silent_seq {E} : steps (E:=E) silent mint_generated_seq.
Proof.
  unfold mint_generated_seq. apply steps_bind; [apply _|apply steps_attempt, silent_txn|intros r].
  apply steps_bind; [apply _|by intros s; destruct (i64_add _ 1)|intros n].
  apply steps_bind; [apply _|apply steps_attempt, silent_txn|intros x]. by intros s.
Qed.

Lemma append_event_entries {E} ev (s : St) :
  match append_event (E:=E) ev s with
  | (Ok _, s') => exists e, h_entries s' = h_entries s ++ [e] /\ en_payload e = PEvent ev
  | (_, s') => h_entries s' = h_entries s
  end.
Proof.
  unfold append_event, build, now, bind, attempt, on_txn. simpl.
  destruct (dispatch_event _ ev _) as [[] t']; simpl; eauto.
Qed.

#[local] Instance extends_prim : PrimSteps extends.
Proof.
  apply prim_steps; [split; [apply _|..]|..]; unfold extends.
  - intros A m Hm s _. unfold on_txn. by destruct (m (h_txn s)).
  - by intros E v sm s.
  - by intros E s.
  - by intros E s.
  - intros E s Hp. pose proof (silent_seq (E:=E) s Hp) as ->. done.
  - intros E A m _ s. unfold on_env. by destruct (m (h_env s)).
  - intros E ev s _. pose proof (append_event_entries (E:=E) ev s) as He.
    destruct (append_event ev s) as [[x| |] s']; simpl in *; [|by rewrite He..].
    destruct He as (e & -> & _). by eexists.
  - intros E c s _. by eexists.
  - intros E i t r s _. by eexists.
Qed.

(** From no entries, a successful [m] leaves a batch that replies. *)
Definition leads {A} (r : RequestId) (t : AckTarget) (m : HM (T:=T) ProcessingError A) : Prop :=
  forall s, h_entries s = [] ->
    match m s with (Ok _, s') => replies r t (h_entries s') | _ => True end.

Lemma leads_silent {A B} r t (m : HM (T:=T) ProcessingError A) (k : A -> HM ProcessingError B) :
  steps silent m -> (forall a, leads r t (k a)) -> leads r t (bind m k).
Proof.
  intros Hm Hk s Hs. unfold bind. specialize (Hm s).
  destruct (m s) as [[a| |] s1]; simpl in *; try done. apply Hk. by rewrite Hm.
Qed.
Lemma leads_throw {A} r t e : leads r t (throw e : HM ProcessingError A).
Proof. by intros s. Qed.
Lemma leads_panic {A} r t msg : leads r t (panic msg : HM ProcessingError A).
Proof. by intros s. Qed.

Lemma leads_event {A} r t ev (k : unit -> HM ProcessingError A) :
  resolves ev = Some (r, t) -> (forall x, steps extends (k x)) -> leads r t (bind (append_event ev) k).
Proof.
  intros Hr Hk s Hs. unfold bind. pose proof (append_event_entries (E:=ProcessingError) ev s) as He.
  destruct (append_event ev s) as [[x| |] s1]; try done. destruct He as (e & He & Hp).
  specialize (Hk x s1). destruct (k x s1) as [[a| |] s2]; try done. simpl in Hk.
  destruct (Hk I) as [suf Hsuf]. apply (reply_event r t _ [] ev (events_of suf)); [|done|done].
  rewrite Hsuf, He, Hs, !events_of_app. simpl. unfold events_of. simpl. by rewrite Hp.
Qed.
Lemma leads_last_event r t ev : resolves ev = Some (r, t) -> leads r t (append_event ev).
Proof.
  intros Hr s Hs. pose proof (append_event_entries (E:=ProcessingError) ev s) as He.
  destruct (append_event ev s) as [[x| |] s1]; try done. destruct He as (e & -> & Hp).
  apply (reply_event r t _ [] ev []); [|done|done]. rewrite Hs. unfold events_of. simpl. by rewrite Hp.
Qed.

#[local] Hint Resolve silent_seq leads_throw leads_panic leads_last_event : spica.
#[local] Hint Extern 1 (steps silent now) => by intros s : spica.
#[local] Hint Extern 1 (steps silent mint) => by intros s : spica.

(** The event that announces a flow echoes no awaited request; the version's does. *)
Lemma leads_flow_create p : leads (cf_request_id p) AckFlowVersionCreated (flow_create p).
Proof.
  unfold flow_create. destruct (parse_machine _) as [err|sm]; [by intros s|].
  apply leads_silent; [hsteps|]. intros [f|].
  - intros s Hs. simpl. rewrite Hs. by eapply reply_reject.
  - do 3 (apply leads_silent; [by intros s|]; intros ?).
    destruct (ObjectName_plain _); [|by intros s..].
    apply leads_silent; [by intros s; unfold lift_res; destruct (res_map_err _ _)|].
    intros fl s Hs. unfold bind at 1.
    pose proof (append_event_entries (E:=ProcessingError) (FlowCreated (cf_request_id p) fl) s) as He.
    destruct (append_event _ s) as [[x| |] s1]; try done. destruct He as (e & He & Hp).
    unfold bind, lift_res. destruct (res_map_err _ _) as [v| |]; try done.
    pose proof (append_event_entries (E:=ProcessingError)
      (FlowVersionCreated (cf_request_id p) v) s1) as He'.
    destruct (append_event _ s1) as [[y| |] s2]; try done. destruct He' as (e' & He' & Hp').
    apply (reply_event _ _ _ [FlowCreated (cf_request_id p) fl]
      (FlowVersionCreated (cf_request_id p) v) []); [|by apply Forall_singleton|done].
    rewrite He', He, Hs. unfold events_of. simpl. by rewrite Hp, Hp'.
Qed.
Lemma leads_execution_create p : leads (ce_request_id p) AckExecutionCreated (execution_create p).
Proof.
  unfold execution_create, execution_deadline. apply leads_silent; [hsteps|]. intros [x|]; [by intros s|].
  apply leads_silent; [by intros s|]. intros uid. apply leads_silent; [hsteps|]. intros sm.
  apply leads_silent; [hsteps; by intros s|].
  intros [[secs|] [d|]]; try (by intros s); (apply leads_silent; [by intros s|]; intros tnow;
    apply leads_event; [done|]; hsteps).
Qed.
Lemma leads_task_claim p : leads (cl_request_id p) AckGrant (task_claim p).
Proof.
  unfold task_claim. apply leads_silent; [by intros s|]. intros tnow.
  destruct (checked_add _ _); [|by intros s].
  apply leads_silent; [hsteps|]. intros tasks. by apply leads_last_event.
Qed.
Lemma leads_task_complete p : leads (ctk_request_id p) AckTaskCompleted (task_complete p).
Proof.
  unfold task_complete. apply leads_silent; [hsteps|]. intros [act|]; [|by intros s].
  apply leads_silent; [by intros s|]. intros tnow.
  destruct (task_mark_completed _ _ _); [|by intros s..].
  apply leads_silent; [hsteps|]. intros c. apply leads_event; [done|].
  intros _. apply steps_activity_completed, _.
Qed.

Lemma dispatch_leads c r t :
  awaited c = Some t -> command_request_id c = Some r -> leads r t (dispatch_command c).
Proof.
  destruct c; simpl; intros [= <-] [= <-];
    [apply leads_flow_create|apply leads_execution_create|apply leads_task_claim
    |apply leads_task_complete].
Qed.
End Batches.

(** ** The iteration on an awaited command *)
Section Iteration.
Context `{Engine} {S T : Type} `{Storage S T}.

(** An attempt that fails leaves the events to report as they were; one that succeeds
    reports the events of its batch. *)
Lemma dispatch_once_replies id c r t (n : Node S) :
  awaited c = Some t -> command_request_id c = Some r ->
  match dispatch_once id c n with
  | (Ok p, n') => nd_hooks n' = nd_hooks n /\ replies r t (cp_entries p) /\
                  nd_last_applied n' = events_of (cp_entries p) /\ cp_entries p <> []
  | (_, n') => nd_hooks n' = nd_hooks n /\ nd_last_applied n' = nd_last_applied n
  end.
Proof.
  intros Ha Hr. unfold dispatch_once, map_err, on_storage, bind.
  destruct (open_txn (nd_storage n)) as [[work| |] s']; try done.
  cbn [res_map_err]. set (h0 := open_context (set_storage n s') work id).
  pose proof (dispatch_leads c r t Ha Hr h0 eq_refl) as Hl.
  destruct (dispatch_command c h0) as [[[]| |] h]; try done.
  destruct (h_entries h) as [|e es] eqn:E; done.
Qed.
Lemma process_loop_replies left id c r t (n : Node S) p n' :
  awaited c = Some t -> command_request_id c = Some r ->
  process_loop left id c n = (Ok p, n') ->
  nd_hooks n' = nd_hooks n /\ replies r t (cp_entries p) /\ cp_entries p <> [] /\
  (nd_last_applied n' = events_of (cp_entries p) \/
   nd_last_applied n' = nd_last_applied n /\ events_of (cp_entries p) = []).
Proof.
  intros Ha Hr.
  assert (forall err (m : Node S) p n', reject_command id c err m = (Ok p, n') ->
    nd_hooks n' = nd_hooks m /\ replies r t (cp_entries p) /\ cp_entries p <> [] /\
    nd_last_applied n' = nd_last_applied m /\ events_of (cp_entries p) = []) as Hrej.
  { intros err m p0 n0. unfold reject_command. destruct (rejection_of err) as [ty why].
    unfold map_err, on_storage, bind. destruct (open_txn _) as [[]]; try done.
    intros [= <- <-]. split_and!; try done. eapply reply_reject; [done|done|]. by rewrite Hr. }
  revert n. induction left as [|left IH]; intros n; simpl; unfold bind, attempt;
    pose proof (dispatch_once_replies id c r t n Ha Hr) as Hd;
    destruct (dispatch_once id c n) as [[q|err|m] n1]; try done.
  1, 3: by intros [= <- <-]; destruct Hd as (? & ? & ? & ?); split_and!; auto.
  - destruct Hd as [Hh Hla]. intros Hp.
    assert (reject_command id c err n1 = (Ok p, n')) as Hq by by destruct (is_unexpected err).
    apply Hrej in Hq as (-> & ? & ? & -> & ?). rewrite Hh, Hla. split_and!; auto.
  - destruct Hd as [Hh Hla]. destruct (is_unexpected err).
    + simpl. intros Hp. apply IH in Hp as (-> & ? & ? & Hor). simpl in *. rewrite Hh, Hla in *.
      split_and!; auto.
    + intros Hq. apply Hrej in Hq as (-> & ? & ? & -> & ?). rewrite Hh, Hla. split_and!; auto.
Qed.

(** Appending the batch touches neither the hook calls nor the events to report. *)
Lemma append_batch_keeps id l (n : Node S) r n' :
  append_batch id l n = (r, n') ->
  nd_hooks n' = nd_hooks n /\ nd_last_applied n' = nd_last_applied n.
Proof.
  unfold append_batch, closed_append, node_now, bind, ret. cbv beta iota.
  destruct (last _) as [x|]; [destruct (is_noop x)|]; cbv beta iota;
    match goal with |- context [log_append ?g ?x] => destruct (log_append g x) as [? ?] end;
    by intros [= <- <-].
Qed.

(** The hook calls of an iteration on an awaited command settle its request. *)
Lemma lead_entry_settles e c r t (n n' : Node S) :
  en_payload e = PCommand c -> awaited c = Some t -> command_request_id c = Some r ->
  Forall (fun ev => call_id (on_event_applied ev) <> Some r) (nd_last_applied n) ->
  lead_entry e n = (Ok tt, n') ->
  exists pre call suf o,
    nd_hooks n' = nd_hooks n ++ (pre ++ call :: suf) /\
    Forall (fun x => call_id x <> Some r) pre /\ call_id call = Some r /\
    verdict call t = Sent o /\ outcome_of r t o.
Proof.
  intros He Ha Hr Hst. unfold lead_entry. rewrite He. unfold bind at 1.
  destruct (process_command (en_entry_id e) c n) as [[p| |] n1] eqn:Hp; try done.
  apply (process_loop_replies _ _ _ _ _ _ _ _ Ha Hr) in Hp as (Hh & Hrep & Hne & Hla).
  destruct (cp_entries p) as [|e0 es] eqn:Hes; [done|]. rewrite <- Hes in *. clear Hne.
  unfold bind at 1 2. destruct (append_batch _ _ n1) as [[last| |] n2] eqn:Hab; try done.
  apply append_batch_keeps in Hab as [Hh2 Hla2].
  unfold bind, map_err, on_storage. destruct (commit_txn _ _ _) as [[[]| |] s3]; try done.
  unfold modify, after_commit, modify. cbn [res_map_err]. intros [= <-]. simpl.
  rewrite Hh2, Hla2, Hh, <- app_assoc. destruct Hrep as [pre ev suf Hev Hpre Hres|rj Hev Hrj <-].
  - destruct Hla as [->|[_ Hnil]]; [|rewrite Hnil in Hev; by destruct pre].
    rewrite Hev, map_app. simpl. rewrite <- app_assoc. simpl.
    eexists (map on_event_applied pre), (on_event_applied ev), _,
      (match ev with TasksClaimed _ ts => Granted (granted_from ts) | _ => Applied ev end).
    split; [done|]. split_and!; simpl; [|by rewrite Hres| |].
    + apply Forall_map. eapply Forall_impl; [exact Hpre|]. intros x Hx. simpl. by rewrite Hx.
    + rewrite Hres, decide_True by done. by destruct ev.
    + by destruct ev; simplify_eq/=.
  - rewrite Hrj. exists (map on_event_applied (nd_last_applied n1)),
      (on_command_rejected (rj_request_id rj) rj), [], (AckRejected rj). split_and!; try done.
    apply Forall_map. destruct Hla as [->|[-> _]]; [by rewrite Hev|done].
Qed.
End Iteration.

(** ** The requests *)
Section Requests.
Context `{Engine} {S B T : Type} `{Storage S T} `{!StoreReads S B, !RowCodecs B}.

(** A submission makes no hook call. *)
Definition same_hooks (n n' : Node S) : Prop := nd_hooks n' = nd_hooks n.
#[export] Instance same_hooks_preorder : PreOrder same_hooks.
Proof. split; [by intros n|]. unfold same_hooks. intros a b c -> ->. done. Qed.
Lemma storage_same_hooks {E A} (m : M S E A) : steps same_hooks (on_storage m).
Proof. intros n. unfold on_storage. by destruct (m (nd_storage n)). Qed.
Lemma submit_same_hooks c : steps same_hooks (submit_command c).
Proof.
  intros n _. unfold submit_command, node_now, closed_append, ret, bind. cbv beta iota.
  cbn [last is_noop en_payload]. unfold node_now. cbv beta iota.
  match goal with |- context [log_append ?g ?x] => destruct (log_append g x) as [[] ?] end; done.
Qed.

Lemma create_flow_same_hooks r name definition :
  steps same_hooks (engine_create_flow (B:=B) r name definition).
Proof.
  unfold engine_create_flow. destruct (parse_machine definition); [by intros n|].
  apply steps_bind; [apply _|apply storage_same_hooks|]. intros [o|]; [by intros n|].
  apply submit_same_hooks.
Qed.
Lemma create_execution_same_hooks r name v input :
  steps same_hooks (engine_create_execution (B:=B) r name v input).
Proof.
  unfold engine_create_execution. apply steps_bind; [apply _|apply storage_same_hooks|].
  intros [o|]; [by intros n|]. apply submit_same_hooks.
Qed.

Lemma observe_same (g : Gateway S) n :
  nd_hooks n = nd_hooks (gw_node g) -> gw_ack (observe g n) = gw_ack g.
Proof. intros E. unfold observe. by rewrite E, drop_all. Qed.

(** What the registered caller finds once the process has run on. *)
Context (elapse : Gateway S -> Gateway S).
Hypothesis Helapse : forall g, rtc ack_step (gw_ack g) (gw_ack (elapse g)).

Lemma awaits_its_outcome r t (g g1 : Gateway S) rx h :
  ack_wf (gw_ack g) -> register r t (gw_ack g) = (rx, h) -> gw_ack g1 = h ->
  match received rx (gw_ack (elapse g1)) with
  | Some (Ok o) => outcome_of r t o
  | Some (Panic _) => False
  | _ => True
  end.
Proof.
  intros Hwf Hr <-. destruct (register_wf _ _ _ _ _ Hwf Hr) as (Hwf1 & Hp & Hu).
  destruct (ack_steps_channel r t rx _ _ (Helapse g1) Hwf1) as [[_ E]|[E|(o & E & Ho)]];
    [by left|unfold received; by rewrite E..].
Qed.

(** A request: register, submit, await. *)
Definition request {A R} (r : RequestId) (t : AckTarget) (submit : M (Node S) ExecutionError A)
    (finish : nat -> M (Gateway S) ExecutionError R) : M (Gateway S) ExecutionError R :=
  let* rx := with_ack (register r t) in on_engine submit ;;; finish rx.

Lemma request_runs {A R} r t submit (finish : nat -> M (Gateway S) ExecutionError R) (g : Gateway S) :
  ack_wf (gw_ack g) -> steps same_hooks (submit : M (Node S) ExecutionError A) ->
  match submit (gw_node g) with
  | (Panic m, _) => (request r t submit finish g).1 = Panic m
  | (Err e, _) => (request r t submit finish g).1 = Err e
  | (Ok _, _) => exists rx g1, rx = length (ak_channels (gw_ack g)) /\
      request r t submit finish g = finish rx g1 /\
      match received rx (gw_ack (elapse g1)) with
      | Some (Ok o) => outcome_of r t o
      | Some (Panic _) => False
      | _ => True
      end
  end.
Proof.
  intros Hwf Hq. unfold request, with_ack, bind, on_engine.
  destruct (register r t (gw_ack g)) as [rx h] eqn:Hr. cbn [gw_node].
  specialize (Hq (gw_node g)). destruct (submit (gw_node g)) as [[a|e|m] n]; [|done..].
  eexists rx, _. split; [by injection Hr|]. split; [done|].
  eapply awaits_its_outcome; [done|done|]. by apply observe_same, Hq.
Qed.

(** Awaiting an event of a target, and awaiting a grant. *)
Lemma await_event_fits r t rx (g : Gateway S) :
  t <> AckGrant ->
  match received rx (gw_ack (elapse g)) with
  | Some (Ok o) => outcome_of r t o | Some (Panic _) => False | _ => True
  end ->
  match answer_with elapse await_event rx g with
  | (Ok (Some ev), g') => g' = elapse g /\ resolves ev = Some (r, t) /\
                          received rx (gw_ack g') = Some (Ok (Applied ev))
  | (Panic _, _) => False
  | (_, g') => g' = elapse g
  end.
Proof.
  intros Ht Hc. unfold answer_with, rx_await, bind, lift_res, ret.
  destruct (received rx (gw_ack (elapse g))) as [[o|[]|m]|] eqn:E; try done.
  destruct o as [ev|rj|ts]; try done. simpl. by destruct Hc as [? _].
Qed.
Lemma await_tasks_fits r rx (g : Gateway S) :
  match received rx (gw_ack (elapse g)) with
  | Some (Ok o) => outcome_of r AckGrant o | Some (Panic _) => False | _ => True
  end ->
  match answer_with elapse await_tasks rx g with
  | (Ok (Some ts), g') => g' = elapse g /\ received rx (gw_ack g') = Some (Ok (Granted ts))
  | (Panic _, _) => False
  | (_, g') => g' = elapse g
  end.
Proof.
  intros Hc. unfold answer_with, rx_await, bind, lift_res, ret.
  destruct (received rx (gw_ack (elapse g))) as [[o|[]|m]|] eqn:E; try done.
  destruct o as [ev|rj|ts]; try done. by destruct Hc as [_ []].
Qed.

(** A request that awaits an event: what it comes to. *)
Lemma event_request {A R} r t (submit : M (Node S) ExecutionError A)
    (k : option Event -> M (Gateway S) ExecutionError R) (g : Gateway S) res g' :
  t <> AckGrant -> ack_wf (gw_ack g) -> steps same_hooks submit ->
  request r t submit (fun rx => bind (answer_with elapse await_event rx) k) g = (res, g') ->
  (exists m, res = Panic m /\ (submit (gw_node g)).1 = Panic m) \/ (exists e, res = Err e) \/
  (exists g1, k None g1 = (res, g')) \/
  (exists ev g1, k (Some ev) g1 = (res, g') /\ resolves ev = Some (r, t) /\
     received (length (ak_channels (gw_ack g))) (gw_ack g1) = Some (Ok (Applied ev))).
Proof.
  intros Ht Hwf Hq Hrun. pose proof (request_runs r t submit
    (fun rx => bind (answer_with elapse await_event rx) k) g Hwf Hq) as Hr.
  destruct (submit (gw_node g)) as [[a|e|m] n]; rewrite ?Hrun in Hr; simpl in Hr; [|eauto..].
  destruct Hr as (rx & g1 & -> & Hk & Hc). symmetry in Hk.
  pose proof (await_event_fits r t _ g1 Ht Hc) as Ha. unfold bind in Hk.
  destruct (answer_with elapse await_event _ g1) as [[[ev|]|e|m] g2];
    [|by eauto|injection Hk as <- <-; eauto|done].
  destruct Ha as (-> & Hres & Hrx). right; right; right. eauto.
Qed.
End Requests.
