(* ===== verification/HandlerLogic.v ===== *)
(** Weakest preconditions for handlers over the in-memory store: what a handler that succeeds
    leaves, in terms of the database its transaction would commit, the commands it has emitted
    and the definitions it has cached. *)
From S2P Require Import Prelude Names Timestamp Json Asl Errors Meta Entities Tasks Commands.
From S2P Require Import LogStream Storage StorageFacts Applier ApplierFacts Eval Handler.
From S2P Require Import Containers StateHandler Leader GatewayFacts.
Local Open Scope Z_scope.

Section HandlerLogic.
Context `{Engine}.
Notation St := (HSt InMemoryTxn).

(** What a handler's state shows. *)
Record View := mkView {
  v_db : InMemoryDb;
  v_cmds : list Command;
  v_defs : gmap (ObjectRef FlowVersionKind) StateMachine }.
Definition to_db (v : View) (d : InMemoryDb) : View := mkView d (v_cmds v) (v_defs v).
Definition to_cmds (v : View) (l : list Command) : View := mkView (v_db v) l (v_defs v).

Record shows (s : St) (v : View) : Prop := {
  sh_db : flushes (h_txn s) (v_db v);
  sh_cmds : commands_of (h_entries s) = v_cmds v;
  sh_defs : h_definitions s = v_defs v;
  sh_cache : cache_ok (h_env s) }.

(** From every state that shows [v], [m] returns, and what it returns and shows is in [Q]. *)
Definition wp {E A} (m : M St E A) (v : View) (Q : A -> View -> Prop) : Prop :=
  forall s, shows s v -> exists a s' v', m s = (Ok a, s') /\ shows s' v' /\ Q a v'.

(** ** The monad *)

Lemma wp_ret {E A} (a : A) v (Q : A -> View -> Prop) : Q a v -> wp (E:=E) (ret a) v Q.
Proof. intros HQ s Hs. by exists a, s, v. Qed.
Lemma wp_bind {E A B} (m : M St E A) (k : A -> M St E B) v Q :
  wp m v (fun a v' => wp (k a) v' Q) -> wp (bind m k) v Q.
Proof.
  intros Hm s Hs. destruct (Hm s Hs) as (a & s1 & v1 & E1 & Hs1 & Hk).
  destruct (Hk s1 Hs1) as (b & s2 & v2 & E2 & Hs2 & HQ). exists b, s2, v2. unfold bind.
  by rewrite E1.
Qed.
Lemma wp_mono {E A} (m : M St E A) v (P Q : A -> View -> Prop) :
  wp m v P -> (forall a v', P a v' -> Q a v') -> wp m v Q.
Proof.
  intros Hm HPQ s Hs. destruct (Hm s Hs) as (a & s' & v' & E1 & Hs' & HP). exists a, s', v'. auto.
Qed.
Lemma wp_map_err {E F A} (f : E -> F) (m : M St E A) v Q : wp m v Q -> wp (map_err f m) v Q.
Proof.
  intros Hm s Hs. destruct (Hm s Hs) as (a & s' & v' & E1 & Hs' & HQ). exists a, s', v'.
  unfold map_err. by rewrite E1.
Qed.
Lemma wp_attempt {E F A} (m : M St E A) v (Q : E + A -> View -> Prop) :
  wp m v (fun a => Q (inr a)) -> wp (E:=F) (attempt m) v Q.
Proof.
  intros Hm s Hs. destruct (Hm s Hs) as (a & s' & v' & E1 & Hs' & HQ). exists (inr a), s', v'.
  unfold attempt. by rewrite E1.
Qed.
Lemma wp_lift_res {E A} (r : Res E A) a v (Q : A -> View -> Prop) :
  r = Ok a -> Q a v -> wp (lift_res r) v Q.
Proof. intros -> HQ s Hs. by exists a, s, v. Qed.

(** From every state that shows [v], [m] errs with [e]. *)
Definition errs {E A} (m : M St E A) (v : View) (e : E) (Q : View -> Prop) : Prop :=
  forall s, shows s v -> exists s' v', m s = (Err e, s') /\ shows s' v' /\ Q v'.
Lemma wp_attempt_fails {E F A} (m : M St E A) v e (Q : E + A -> View -> Prop) :
  errs m v e (Q (inl e)) -> wp (E:=F) (attempt m) v Q.
Proof.
  intros Hm s Hs. destruct (Hm s Hs) as (s' & v' & E1 & Hs' & HQ). exists (inl e), s', v'.
  unfold attempt. by rewrite E1.
Qed.
Lemma errs_first {E A B} (m : M St E A) (k : A -> M St E B) v e Q :
  errs m v e Q -> errs (bind m k) v e Q.
Proof.
  intros Hm s Hs. destruct (Hm s Hs) as (s' & v' & E1 & Hs' & HQ). exists s', v'.
  unfold bind. by rewrite E1.
Qed.
Lemma errs_then {E A B} (m : M St E A) (k : A -> M St E B) v e Q :
  wp m v (fun a v' => errs (k a) v' e Q) -> errs (bind m k) v e Q.
Proof.
  intros Hm s Hs. destruct (Hm s Hs) as (a & s1 & v1 & E1 & Hs1 & Hk).
  destruct (Hk s1 Hs1) as (s2 & v2 & E2 & Hs2 & HQ). exists s2, v2. unfold bind. by rewrite E1.
Qed.
Lemma errs_throw {E A} (e : E) v (Q : View -> Prop) : Q v -> errs (A:=A) (throw e) v e Q.
Proof. intros HQ s Hs. by exists s, v. Qed.

(** ** The primitives *)

Lemma wp_now {E} v (Q : Timestamp -> View -> Prop) :
  (forall k, Q (clock_at k) v) -> wp (E:=E) now v Q.
Proof. intros HQ s []. eexists _, _, v. split; [done|]. split; [by split|apply HQ]. Qed.
Lemma wp_mint {E} v (Q : Ulid -> View -> Prop) : (forall u, Q u v) -> wp (E:=E) mint v Q.
Proof. intros HQ s []. eexists _, _, v. split; [done|]. split; [by split|done]. Qed.

(** A read has the outcome it has on the database. *)
Lemma wp_on_txn {E A} (m1 : M InMemoryTxn E A) (m2 : M InMemoryDb E A) v a d'
    (Q : A -> View -> Prop) :
  sim flushes eq m1 m2 -> m2 (v_db v) = (Ok a, d') -> Q a (to_db v d') -> wp (on_txn m1) v Q.
Proof.
  intros Hm Ha HQ s [Hd Hc Hf He]. destruct (Hm _ _ Hd) as [Hr Ht]. rewrite Ha in Hr, Ht.
  unfold on_txn. destruct (m1 (h_txn s)) as [[b| |] t']; simpl in *; try done. subst b.
  exists a, (set_txn s t'), (to_db v d'). split; [done|]. split; [by split|done].
Qed.
Lemma wp_rd {A} (m1 : M InMemoryTxn StorageError A) (m2 : M InMemoryDb StorageError A) v a
    (Q : A -> View -> Prop) :
  sim flushes eq m1 m2 -> m2 (v_db v) = (Ok a, v_db v) -> Q a v -> wp (rd m1) v Q.
Proof.
  intros Hm Ha HQ. apply wp_map_err. eapply wp_on_txn; [done..|]. by destruct v.
Qed.
Lemma wp_sto {A} (m1 : M InMemoryTxn StorageError A) (m2 : M InMemoryDb StorageError A) v a
    (Q : A -> View -> Prop) :
  sim flushes eq m1 m2 -> m2 (v_db v) = (Ok a, v_db v) -> Q a v -> wp (sto m1) v Q.
Proof.
  intros Hm Ha HQ. apply wp_map_err. eapply wp_on_txn; [done..|]. by destruct v.
Qed.
Lemma wp_read_flat {E A} (m1 : M InMemoryTxn StorageError (option A)) m2 v a
    (Q : option A -> View -> Prop) :
  sim flushes eq m1 m2 -> m2 (v_db v) = (Ok a, v_db v) -> Q a v -> wp (E:=E) (read_flat m1) v Q.
Proof.
  intros Hm Ha HQ. unfold read_flat, read_ok.
  apply wp_bind, wp_bind, wp_attempt. eapply wp_on_txn; [done..|]. apply wp_ret, wp_ret.
  destruct v. by destruct a.
Qed.

(** An event is folded into the database, whatever the time is. *)
Lemma wp_event {E} ev v (Q : unit -> View -> Prop) :
  (forall ts, exists d', dispatch_event ts ev (v_db v) = (Ok tt, d') /\ Q tt (to_db v d')) ->
  wp (E:=E) (append_event ev) v Q.
Proof.
  intros Hev s [Hd Hc Hf He]. destruct (Hev (clock_at (h_clock s))) as (d' & Hd' & HQ).
  destruct (dispatch_event_sim flushes (clock_at (h_clock s)) ev _ _ Hd) as [Hr Ht].
  rewrite Hd' in Hr, Ht. unfold append_event, build, now, bind, attempt, on_txn. simpl.
  destruct (dispatch_event _ ev (h_txn s)) as [[[]| |] t']; simpl in *; try done.
  eexists _, _, (to_db v d'). split; [done|]. split; [|exact HQ]. split; simpl; try done.
  rewrite <- Hc. unfold commands_of. rewrite omap_app. simpl. by rewrite app_nil_r.
Qed.
Lemma wp_command {E} c v (Q : unit -> View -> Prop) :
  Q tt (to_cmds v (v_cmds v ++ [c])) -> wp (E:=E) (append_command c) v Q.
Proof.
  intros HQ s [Hd Hc Hf He]. eexists _, _, _. split; [done|]. split; [|exact HQ].
  split; simpl; try done. rewrite <- Hc. unfold commands_of. by rewrite omap_app.
Qed.

(** A pure evaluation, from any sound cache. *)
Lemma wp_on_env {A} (m : M EvalEnv ExecutionError A) a v (Q : A -> View -> Prop) :
  computes m (Ok a) -> Q a v -> wp (on_env m) v Q.
Proof.
  intros Hm HQ s [Hd Hc Hf He]. destruct (Hm _ He) as [Hr He']. unfold on_env.
  destruct (m (h_env s)) as [r env']. simpl in *. subst r. eexists _, _, v. split; [done|].
  by split.
Qed.

Lemma errs_on_env {A} (m : M EvalEnv ExecutionError A) e v (Q : View -> Prop) :
  computes m (Err e) -> Q v -> errs (on_env m) v e Q.
Proof.
  intros Hm HQ s [Hd Hc Hf He]. destruct (Hm _ He) as [Hr He']. unfold on_env.
  destruct (m (h_env s)) as [r env']. simpl in *. subst r. eexists _, v. split; [done|].
  by split.
Qed.

(** [m] against an outcome worked out beside it. *)
Definition yields {E A B} (m : M St E A) (v : View) (r : Res E B) (Q : A -> B -> View -> Prop)
    (F : View -> Prop) : Prop :=
  match r with
  | Ok b => wp m v (fun a => Q a b)
  | Err e => errs m v e F
  | Panic _ => True
  end.
Lemma yields_ret {E A B} (a : A) (b : B) v Q F : Q a b v -> yields (E:=E) (ret a) v (Ok b) Q F.
Proof. intros HQ. by apply (wp_ret a v (fun a => Q a b)). Qed.
Lemma yields_bind {E A B A' B'} (m : M St E A) (k : A -> M St E A') (r : Res E B)
    (kr : B -> Res E B') v Q Q' F :
  yields m v r Q F -> (forall a b v', Q a b v' -> yields (k a) v' (kr b) Q' F) ->
  yields (bind m k) v (res_bind r kr) Q' F.
Proof.
  intros Hm Hk. destruct r as [b|e|]; simpl in *; [|by apply errs_first|done].
  destruct (kr b) as [b'|e|] eqn:Hb; simpl; [| |done].
  - apply wp_bind. eapply wp_mono; [exact Hm|]. intros a v' HQ. specialize (Hk a b v' HQ).
    by rewrite Hb in Hk.
  - apply errs_then. eapply wp_mono; [exact Hm|]. intros a v' HQ. specialize (Hk a b v' HQ).
    by rewrite Hb in Hk.
Qed.
Lemma yields_map {E A B C} (m : M St E A) (r : Res E B) (g : B -> C) v Q F :
  yields m v r (fun a b => Q a (g b)) F -> yields m v (res_map g r) Q F.
Proof. by destruct r. Qed.
Lemma yields_on_env {A} (m : M EvalEnv ExecutionError A) r v (Q : A -> A -> View -> Prop) F :
  computes m r -> (forall a, r = Ok a -> Q a a v) -> F v -> yields (on_env m) v r Q F.
Proof.
  intros Hm HQ HF. destruct r as [a|e|]; simpl; [|by apply errs_on_env|done].
  eapply wp_on_env; [done|by apply HQ].
Qed.

(** The next generated number, while the counter has room. *)
Lemma wp_seq {E} v (Q : Z -> View -> Prop) :
  0 <= db_next_generated_seq (v_db v) < i64_max ->
  Q (db_next_generated_seq (v_db v))
    (to_db v (db_set_seq (v_db v) (db_next_generated_seq (v_db v) + 1))) ->
  wp (E:=E) mint_generated_seq v Q.
Proof.
  intros Hn HQ s [[Hq Hd] Hc Hf He]. unfold commit in Hd. injection Hd as Hd.
  assert (default (db_next_generated_seq (tx_db (h_txn s)))
    (b_next_generated_seq (tx_batch (h_txn s))) = db_next_generated_seq (v_db v)) as Hs.
  { rewrite <- Hd. unfold seq_ok in Hq. simpl. destruct (b_next_generated_seq _); simpl; lia. }
  unfold mint_generated_seq, attempt, on_txn, bind, lift_res. simpl. rewrite Hs.
  unfold i64_add. rewrite decide_True by (unfold i64_min, i64_max in *; lia). simpl.
  assert (as_u64 (db_next_generated_seq (v_db v)) = db_next_generated_seq (v_db v)) as ->
    by (unfold as_u64; apply Z.mod_small; unfold i64_max in *; lia).
  eexists _, _, (to_db v (db_set_seq (v_db v) (db_next_generated_seq (v_db v) + 1))).
  split; [done|]. split; [|exact HQ]. split; simpl; try done.
  assert (db_next_generated_seq (tx_db (h_txn s)) <= db_next_generated_seq (v_db v)).
  { rewrite <- Hs. unfold seq_ok in Hq. destruct (b_next_generated_seq _); simpl; lia. }
  split; [unfold seq_ok; simpl; lia|]. unfold commit, db_set_seq.
  set (N := db_next_generated_seq (v_db v)) in *. clearbody N. rewrite <- Hd. simpl.
  do 2 f_equal. lia.
Qed.

(** A definition that is cached, or that the store holds. *)
Lemma wp_machine_cached fv sm v (Q : StateMachine -> View -> Prop) :
  v_defs v !! fv = Some sm -> Q sm v -> wp (machine fv) v Q.
Proof.
  intros Hf HQ s Hs. unfold machine, bind, get_st. rewrite (sh_defs _ _ Hs), Hf.
  by exists sm, s, v.
Qed.

Definition resolves_to (v : View) (fv : ObjectRef FlowVersionKind) (sm : StateMachine) : Prop :=
  v_defs v !! fv = Some sm \/
  v_defs v !! fv = None /\ exists ver, db_flow_versions (v_db v) !! ref_name fv = Some ver /\
    parse_machine (fv_definition ver) = inr sm.
Lemma wp_machine fv sm v (Q : StateMachine -> View -> Prop) :
  resolves_to v fv sm ->
  (forall defs, defs !! fv = Some sm -> Q sm (mkView (v_db v) (v_cmds v) defs)) ->
  wp (machine fv) v Q.
Proof.
  intros [Hf|(Hf & ver & Hv & Hp)] HQ.
  { eapply wp_machine_cached; [done|]. destruct v. by apply HQ. }
  intros s [Hd Hc Hdf He]. unfold machine, bind, get_st. rewrite Hdf, Hf.
  destruct (wp_sto (get_flow_version fv) (get_flow_version fv) v (Some ver)
    (fun a v' => a = Some ver /\ v' = v) ltac:(eauto with spica typeclass_instances)) with (s := s)
    as (a & s' & v' & Hs & [Hd' Hc' Hdf' He'] & -> & ->); [|done|done|].
  { simpl. unfold reads. by rewrite Hv. }
  rewrite Hs, Hp. eexists _, _, _. split; [reflexivity|].
  split; [|apply (HQ (<[fv := sm]> (h_definitions s'))); by rewrite lookup_insert_eq].
  by split.
Qed.

(** An update under a debug assertion. *)
Lemma wp_mark {E X} (x : X) (f : Timestamp -> Res string X) v (Q : X -> View -> Prop) :
  (forall t, exists y, f t = Ok y /\ Q y v) -> Q x v -> wp (E:=E) (debug_assert_mark x f) v Q.
Proof.
  intros Hf Hx. unfold debug_assert_mark. destruct debug_assertions; [|by apply wp_ret].
  apply wp_bind, wp_now. intros k. destruct (Hf (clock_at k)) as (y & -> & HQ). by apply wp_ret.
Qed.
End HandlerLogic.
