(* ===== verification/WireFacts.v ===== *)
(** Lemmas of the wire services: reads leave the server as it was, names and
    references survive their text, and the client sees the rows the store holds. *)
From S2P Require Import Prelude ByteStrings Names Timestamp Json Asl Errors Meta Entities Tasks.
From S2P Require Import Commands Storage Rows RocksStorage RocksScans Handler Leader Facade.
From S2P Require Import StreamProcessor FacadeFacts Scheduler Gateway Wire Services Client.
Local Open Scope string_scope.
Local Open Scope Z_scope.

(** ** Reads *)

(** The reads of a store leave it as it was. *)
Class ReadLaws (S B : Type) `{StoreReads S B} : Prop := {
  execution_read r (s : S) : (read_execution r s).2 = s;
  variables_read r (s : S) : (read_variables r s).2 = s;
  flow_read n (s : S) : (read_flow_by_name n s).2 = s;
  version_read n v (s : S) : (read_flow_version_of n v s).2 = s;
  listing_read k after limit (s : S) : (read_list_kind k after limit s).2 = s }.
#[export] Instance memory_read_laws {B} `{RowCodecs B, RowOrder, HashOrder}
    : ReadLaws InMemoryDb B.
Proof. by split. Qed.
#[export] Instance rocks_read_laws {B D X} `{RocksDb B D X, RowCodecs B}
    : ReadLaws (RocksStorage D) B (H:=rocks_reads (X:=X)).
Proof.
  split; try done. intros r s. cbn. unfold rs_get_variables, bind, rs_get_row.
  by destruct (res_bind _ _).
Qed.

(** A computation that leaves the state as it was. *)
Definition still {S E A} (m : M S E A) : Prop := forall s, (m s).2 = s.
Lemma still_map_err {S E F A} (f : E -> F) (m : M S E A) : still m -> still (map_err f m).
Proof. intros Hm s. specialize (Hm s). unfold map_err. by destruct (m s). Qed.
Lemma still_bind {S E A B} (m : M S E A) (k : A -> M S E B) :
  still m -> (forall a, still (k a)) -> still (bind m k).
Proof.
  intros Hm Hk s. specialize (Hm s). unfold bind.
  destruct (m s) as [[a|e|msg] s']; simpl in *; subst; [apply Hk|done..].
Qed.
Lemma still_lift {S E A} (r : Res E A) : still (S:=S) (lift_res r).
Proof. by intros s. Qed.
Lemma still_ret {S E A} (a : A) : still (S:=S) (E:=E) (ret a).
Proof. by intros s. Qed.

Section Services.
Context `{Engine} {S B T : Type} `{Storage S T} `{!StoreReads S B, !RowCodecs B, !ReadLaws S B}.
Context `{!WireText, !WireJson}.

Lemma observe_still (g : Gateway S) : observe g (gw_node g) = g.
Proof. unfold observe. rewrite drop_all. by destruct g. Qed.

(** A read of the facade, through the gateway. *)
Lemma on_storage_still {E A} (m : M S E A) :
  still m -> forall g : Gateway S,
  on_engine (on_storage m) g = ((m (nd_storage (gw_node g))).1, g).
Proof.
  intros Hm g. specialize (Hm (nd_storage (gw_node g))). unfold on_engine, on_storage.
  destruct (m _) as [r s]. simpl in *. subst s. f_equal.
  replace (set_storage (gw_node g) _) with (gw_node g) by by destruct (gw_node g).
  apply observe_still.
Qed.
Lemma on_facade_still {A} (m : M S ExecutionError A) :
  still m -> forall g : Gateway S,
  on_facade m g = (res_map_err to_status (m (nd_storage (gw_node g))).1, g).
Proof. intros Hm g. unfold on_facade, map_err. by rewrite on_storage_still. Qed.

Lemma flow_still n : still (read_flow_by_name n : M S StorageError _).
Proof. intros s. apply flow_read. Qed.
Lemma version_still n v : still (read_flow_version_of n v : M S StorageError _).
Proof. intros s. apply version_read. Qed.
Lemma execution_still r : still (read_execution r : M S StorageError _).
Proof. intros s. apply execution_read. Qed.
#[local] Hint Resolve flow_still version_still execution_still : spica.

Lemma resolve_still name v : still (resolve_version_id (B:=B) name v : M S _ _).
Proof.
  unfold resolve_version_id, latest_version.
  case_decide; eauto 8 using still_bind, still_map_err, still_lift, still_ret with spica.
Qed.
End Services.

(** ** References *)

Lemma kind_no_slash k : no_slash (kind_str k) = true.
Proof. by destruct k. Qed.
Lemma kind_nonempty k : String.eqb (kind_str k) "" = false.
Proof. by destruct k. Qed.

(** A reference survives the trip to the wire and back, and its printed form. *)
Lemma parse_proto_ref `{Engine, WireText} {K} (r : ObjectRef K) :
  name_wf (ref_name r) -> ulid_parse (ulid_str (ref_uid r)) = Some (ref_uid r) ->
  parse_ref K (proto_ref r) = Ok r.
Proof.
  intros Hn Hu. unfold parse_ref, proto_ref, proto_raw_ref. simpl.
  rewrite kind_parse_str. simpl. rewrite name_roundtrip by done. simpl. rewrite Hu. simpl.
  by rewrite (ref_try_from_as_raw K r : ref_try_from K (mkRaw K _ _) = Ok r).
Qed.
Lemma reference_token (r : ObjectReference) :
  no_slash (or_kind r) = true -> String.eqb (or_kind r) "" = false -> no_slash (or_name r) = true ->
  String.eqb (or_name r) "" = false -> String.eqb (or_uid r) "" = false ->
  reference_from_str (reference_str r) = Ok r.
Proof.
  intros Hk Hk' Hn Hn' Hu. unfold reference_from_str, reference_str.
  rewrite (split_once_sep "/"%char (or_kind r)) by done. cbn -[String.eqb split_once].
  rewrite (split_once_sep "/"%char (or_name r)) by done. cbn -[String.eqb].
  rewrite Hk', Hn', Hu. by destruct r.
Qed.

(** ** The client's view of an execution *)

(** What a client should see of a stored execution. *)
Definition snapshot_of `{WireJson} (e : Execution) : ExecutionSnapshot :=
  let output := match ex_output e with Some v => vec_or_empty v | None => "" end in
  match ex_status e with
  | Completed => mkSnapshot StateCompleted_ output "" ""
  | Terminated (Failed error) =>
      mkSnapshot StateTerminated_ output (error_name error) (vec_if_some (error_output error))
  | Terminated _ => mkSnapshot StateTerminated_ output "" ""
  | Terminating (Failed error) =>
      mkSnapshot StateActive output (error_name error) (vec_if_some (error_output error))
  | _ => mkSnapshot StateActive output "" ""
  end.
Lemma interpret_to_proto `{Engine, WireText, WireJson} (e : Execution) :
  interpret_execution (to_proto_execution e) = snapshot_of e.
Proof.
  unfold interpret_execution, to_proto_execution, snapshot_of, wlifecycle, vec_if_some.
  by destruct (ex_status e) as [| |[] | |[]].
Qed.

Section Reads.
Context `{Engine} {S B T : Type} `{Storage S T} `{!StoreReads S B, !RowCodecs B, !ReadLaws S B}.
Context `{!WireText, !WireJson}.
Context (elapse : Gateway S -> Gateway S) (draw : Gateway S -> RequestId).
Context (wall : Gateway S -> Timestamp).
#[local] Instance server : Rpc (Gateway S) := served (B:=B) elapse draw wall.

Lemma svc_get_execution (g : Gateway S) (n : ObjectName) (row : option Execution) :
  name_wf n -> (read_execution (ref_for ExecutionKind n) (nd_storage (gw_node g))).1 = Ok row ->
  svc_get_object (B:=B) (mkGetReq "execution" (as_str n)) g =
  (match row with
   | Some e => Ok (mkGetResp (Some (mkWObject (Some (OExecution (to_proto_execution e))))))
   | None => Err (not_found ("execution " +:+ as_str n +:+ " not found"))
   end, g).
Proof.
  intros Hn Hrow. unfold svc_get_object, parse_name, refuse. cbn [gq_kind gq_name].
  rewrite name_roundtrip by done. unfold bind at 1 2.
  cbn [lift_res res_map_err]. change (parse_kind "execution") with (Ok (E:=Status) ExecutionKind).
  unfold bind at 1. cbn beta iota. rewrite on_facade_still.
  2:{ unfold get_object.
      eauto 8 using still_bind, still_map_err, still_ret, execution_still with spica. }
  unfold get_object, bind, map_err.
  destruct (read_execution _ _) as [r s']. simpl in Hrow. subst r. by destruct row.
Qed.
(** The stored row, read by the client across the wire. *)
Lemma served_get_execution (g : Gateway S) (n : ObjectName) (row : option Execution) :
  name_wf n -> (read_execution (ref_for ExecutionKind n) (nd_storage (gw_node g))).1 = Ok row ->
  client_get_execution (as_str n) g =
  (match row with
   | Some e => Ok (Some (snapshot_of e))
   | None => Err (not_found ("execution " +:+ as_str n +:+ " not found"))
   end, g).
Proof.
  intros Hn Hrow. unfold client_get_execution, client_get_object, returned, bind.
  cbn [rpc_get_object server served]. unfold bind. rewrite (svc_get_execution g n row) by done.
  destruct row as [e|]; [|done]. simpl. by rewrite interpret_to_proto.
Qed.
End Reads.
