(* ===== verification/WorkerFacts.v ===== *)
(** Lemmas of the worker: the wire transport carries the values of a call unchanged, and what
    the worker was handed is what it runs, has reported or has lost, over any interleaving. *)
From S2P Require Import Prelude ByteStrings Names Timestamp Json Asl Errors Meta Entities Tasks.
From S2P Require Import Commands Storage Rows RocksStorage Handler Leader Facade StreamProcessor.
From S2P Require Import Scheduler Gateway Wire Services Client Worker.
Local Open Scope string_scope.
Local Open Scope Z_scope.

(** ** Values on the wire *)
Section Values.
Context `{!WireText, !WireJson} (codes : Value -> Prop) `{!RowCodecLaws string Value codes}.

Lemma wire_value_roundtrip v : codes v -> from_slice (vec_or_empty v) = Ok v.
Proof.
  intros Hv. destruct (row_roundtrip (codes:=codes) v Hv) as (b & Hb & Hs).
  unfold vec_or_empty. by rewrite Hb.
Qed.

(** What a worker should find of a granted task. *)
Definition claimed_of (t : ActivatedTask) : ClaimedTask :=
  mkClaimed (as_str (av_task t)) (av_resource t) (av_arguments t).
Lemma claimed_over_the_wire (l : list ActivatedTask) :
  Forall (fun t => codes (av_arguments t)) l ->
  collect (map from_wire_task
    (map (fun t => mkWireClaimed (wk_task_name t) (wk_task_resource t) (wk_task_arguments t))
      (map to_wire_task l))) = Ok (map claimed_of l).
Proof.
  induction 1 as [|t l Ht _ IH]; [done|]. cbn [map collect]. rewrite IH.
  unfold from_wire_task at 1. cbn [wc_arguments to_wire_task wk_task_arguments].
  by rewrite wire_value_roundtrip.
Qed.
End Values.

(** ** The loop *)

(** The report of a task tells what its handler returned in some state of the world. *)
Definition reports_result `{Engine} {S} (svc : InMemoryTaskService S)
    (tr : ClaimedTask * Report) : Prop :=
  exists s rid,
    match (job_result svc tr.1 s).1 with
    | Ok v => tr.2 = ReportComplete (ulid_str rid) v
    | Err e => tr.2 = ReportFail e
    | Panic _ => False
    end.
(** A job that has returned holds a result of its handler. *)
Definition job_sound {S} (svc : InMemoryTaskService S) (j : Job) : Prop :=
  match j with
  | Claimed _ => True
  | Returned t r =>
      exists s, (job_result svc t s).1 = match r with inr v => Ok v | inl e => Err e end
  end.

(** Every task handed to the worker is in exactly one of three places. *)
Record worker_inv `{Engine} {S} (svc : InMemoryTaskService S) (w : WorkerState) : Prop := {
  wi_places : wk_handed w ≡ₚ map job_task (wk_jobs w) ++ map fst (wk_reported w) ++ wk_died w;
  wi_jobs : Forall (job_sound svc) (wk_jobs w);
  wi_reports : Forall (reports_result svc) (wk_reported w) }.

Lemma jobs_delete (jobs : list Job) i j :
  jobs !! i = Some j ->
  map job_task jobs ≡ₚ job_task j :: map job_task (delete i jobs).
Proof. intros E. apply (Permutation_map job_task (delete_Permutation jobs i j E)). Qed.

Section Invariant.
Context `{Engine} {S : Type} `{TaskApi S} (svc : InMemoryTaskService S) (worker_id : string).

Lemma poll_keeps resource rest w s :
  worker_inv svc w -> worker_inv svc (poll_resource svc worker_id resource rest w s).1.
Proof.
  intros [Hp Hj Hr]. unfold poll_resource. destruct (api_poll_tasks _ _ _ _ _) as [r s'].
  assert (forall l claimed, worker_inv svc (mkWorker l (wk_jobs w ++ map Claimed claimed)
    (wk_handed w ++ claimed) (wk_reported w) (wk_died w))) as Hgo.
  { intros l claimed. split; simpl; [| |done].
    - rewrite map_app, map_map. simpl. rewrite map_id, Hp. by solve_Permutation.
    - apply Forall_app. split; [done|]. apply Forall_map. by apply Forall_true. }
  destruct r as [[claimed|]| |]; apply Hgo.
Qed.
Lemma run_keeps i t w s :
  wk_jobs w !! i = Some (Claimed t) ->
  worker_inv svc w -> worker_inv svc (run_job svc i t w s).1.
Proof.
  intros Hi [Hp Hj Hr]. unfold run_job, attempt.
  assert (forall r, (job_result svc t s).1 = match r with inr v => Ok v | inl e => Err e end ->
    worker_inv svc (with_jobs (<[i := Returned t r]> (wk_jobs w)) w)) as Hret.
  { intros r E. split; cbn; [|apply Forall_insert; [done|by exists s]|done].
    change (map job_task ?l) with (job_task <$> l). rewrite list_fmap_insert. cbn [job_task].
    rewrite list_insert_id; [done|]. by rewrite list_lookup_fmap, Hi. }
  destruct (job_result svc t s) as [[v|e|m] s']; [by apply Hret..|].
  split; cbn; [|by apply Forall_delete|done].
  rewrite Hp, (jobs_delete _ _ _ Hi). simpl. by solve_Permutation.
Qed.
Lemma settle_keeps i t r rid w s :
  wk_jobs w !! i = Some (Returned t r) ->
  worker_inv svc w -> worker_inv svc (settle_job worker_id i t r rid w s).1.
Proof.
  intros Hi [Hp Hj Hr]. split; cbn.
  - rewrite Hp, (jobs_delete _ _ _ Hi), map_app. simpl. by solve_Permutation.
  - by apply Forall_delete.
  - apply Forall_app. split; [done|]. apply Forall_singleton.
    pose proof (Forall_lookup_1 _ _ _ _ Hj Hi) as [s0 Hs]. exists s0, rid. simpl. rewrite Hs.
    by destruct r.
Qed.

Context (resources : list string) (env : S -> S -> Prop).
Lemma worker_step_keeps a b :
  worker_step svc worker_id resources env a b -> worker_inv svc a.1 -> worker_inv svc b.1.
Proof.
  intros Hs Hi. destruct Hs; cbn [fst] in *;
    first [by apply poll_keeps | by apply run_keeps | by apply settle_keeps | assumption
          | destruct Hi; by split].
Qed.
Lemma worker_reaches_keeps a b :
  worker_reaches svc worker_id resources env a b -> worker_inv svc a.1 -> worker_inv svc b.1.
Proof. induction 1; eauto using worker_step_keeps. Qed.

(** The jobs a worker has spawned can all run to their end, whatever the loop does. *)
Lemma jobs_drain w s :
  exists w' s', worker_reaches svc worker_id resources env (w, s) (w', s') /\
    wk_jobs w' = [] /\ wk_handed w' = wk_handed w /\ wk_at w' = wk_at w.
Proof.
  remember (wk_jobs w) as jobs eqn:Hj. revert w s Hj.
  induction jobs as [|j jobs IH]; intros w s Hj.
  { exists w, s. split; [constructor|]. by rewrite Hj. }
  assert (forall t r w1 s1, wk_jobs w1 = Returned t r :: jobs ->
    exists w' s', worker_reaches svc worker_id resources env (w1, s1) (w', s') /\
      wk_jobs w' = [] /\ wk_handed w' = wk_handed w1 /\ wk_at w' = wk_at w1) as Hret.
  { intros t r w1 s1 H1. destruct (settle_job worker_id 0 t r 0 w1 s1) as [w2 s2] eqn:E2.
    pose proof (f_equal fst E2) as Ew. cbn in Ew. rewrite H1 in Ew. cbn in Ew.
    destruct (IH w2 s2) as (w' & s' & Hr & Hd & Hh & Ha); [by subst w2|].
    exists w', s'. split; [|by rewrite Hd, Hh, Ha, <- Ew].
    eapply rtc_l; [|exact Hr]. rewrite <- E2. apply worker_settles. by rewrite H1. }
  destruct j as [t|t r]; [|by apply (Hret t r)].
  destruct (run_job svc 0 t w s) as [w2 s2] eqn:E2.
  assert (worker_step svc worker_id resources env (w, s) (w2, s2)) as Hstep.
  { rewrite <- E2. apply worker_runs. by rewrite <- Hj. }
  assert (wk_handed w2 = wk_handed w /\ wk_at w2 = wk_at w /\
    (wk_jobs w2 = jobs \/ exists r, wk_jobs w2 = Returned t r :: jobs)) as (Hh & Ha & Hc).
  { unfold run_job in E2. rewrite <- Hj in E2. destruct (attempt _ _) as [[r| |] s3];
      injection E2 as <- <-; cbn; eauto. }
  assert (exists w' s', worker_reaches svc worker_id resources env (w2, s2) (w', s') /\
    wk_jobs w' = [] /\ wk_handed w' = wk_handed w2 /\ wk_at w' = wk_at w2)
    as (w' & s' & Hr & Hd & Hh' & Ha') by (destruct Hc as [Hc|[r Hc]]; [by apply IH|by eapply Hret]).
  exists w', s'. split; [by eapply rtc_l|]. by rewrite Hd, Hh', Ha', Hh, Ha.
Qed.
End Invariant.
