(* ===== verification/StreamFacts.v ===== *)
(** The processor as a system of steps: clients submit commands, the leader processes the
    next entry, the process stops (also between the append and the commit of a batch) and
    starts again.  In every reachable state the store is the fold of all the events of the
    log. *)
From S2P Require Import Prelude Names Timestamp Json Asl Errors Meta Entities Tasks Commands.
From S2P Require Import LogStream Storage StorageFacts Applier ApplierFacts Eval Handler Dispatch.
From S2P Require Import Leader Projection Runs LeaderFacts StreamProcessor.
Local Open Scope Z_scope.

(** ** Appending *)

Lemma timed_events_ext l1 l2 :
  map en_payload l1 = map en_payload l2 -> map en_timestamp l1 = map en_timestamp l2 ->
  timed_events l1 = timed_events l2.
Proof.
  revert l2. induction l1 as [|e1 l1 IH]; intros [|e2 l2]; simpl; try done.
  intros [= Hp Hps] [= Ht Hts]. unfold timed_events. simpl. rewrite Hp, Ht.
  specialize (IH l2 Hps Hts). unfold timed_events in IH. simpl in IH.
  destruct (en_payload e2); simpl; by rewrite IH.
Qed.

Lemma last_map_payload l1 l2 :
  map en_payload l1 = map en_payload l2 ->
  option_map is_noop (last l1) = option_map is_noop (last l2).
Proof.
  revert l2. induction l1 as [|e1 l1 IH]; intros [|e2 l2]; try done.
  intros [= Hp Hps]. specialize (IH _ Hps). destruct l1, l2; simplify_eq/=; try done.
  unfold is_noop. by rewrite Hp.
Qed.

(** A log closed by a batch mark. *)
Definition closed (l : list Entry) : Prop :=
  l = [] \/ option_map is_noop (last l) = Some true.

Section StreamFacts.
Context `{Engine}.
Notation LNode := (Node InMemoryDb).

(** Appending a batch that ends in its mark stamps the next positions. *)
Lemma append_closed (n : LNode) l :
  log_wf (nd_log n) -> option_map is_noop (last l) = Some true ->
  exists stamped,
    closed_append l n = (Ok (Z.of_nat (length (lg_entries (nd_log n) ++ stamped))),
                         set_log n (log_append (nd_log n) l).2) /\
    lg_entries (log_append (nd_log n) l).2 = lg_entries (nd_log n) ++ stamped /\
    timed_events stamped = timed_events l /\ map en_payload stamped = map en_payload l /\
    map en_cause_id stamped = map en_cause_id l /\ stamped <> [] /\
    closed (lg_entries (nd_log n) ++ stamped) /\ log_wf (log_append (nd_log n) l).2.
Proof.
  intros Hwf Hl. unfold closed_append, bind. destruct (last l) as [e|] eqn:Hlast; [|done].
  simpl in Hl. injection Hl as Hl. rewrite Hl. simpl.
  pose proof (log_append_spec (nd_log n) l Hwf) as Hspec.
  destruct (log_append (nd_log n) l) as [r g].
  destruct Hspec as (st & -> & He & Hlen & Hp & Ht & Hc & Hst & Hsid & Hwf').
  assert (st <> []) as Hne by (intros ->; by destruct l).
  exists st. split_and!; try done; simpl.
  - by rewrite length_app, Hlen.
  - by apply timed_events_ext.
  - right. pose proof (last_map_payload _ _ Hp) as Hlp. rewrite Hlast in Hlp.
    rewrite last_app. destruct (last st); [|done]. simpl in *. congruence.
Qed.

(** ** The leader's iteration *)

(** The produced batch is appended with its mark. *)
Lemma append_batch_spec id es (n : LNode) :
  log_wf (nd_log n) ->
  exists n' batch,
    append_batch id es n = (Ok (Z.of_nat (length (lg_entries (nd_log n')))), n') /\
    lg_entries (nd_log n') = lg_entries (nd_log n) ++ batch /\ log_wf (nd_log n') /\
    closed (lg_entries (nd_log n')) /\ timed_events batch = timed_events es /\
    nd_storage n' = nd_storage n.
Proof.
  intros Hwf. unfold append_batch, node_now, bind. simpl.
  set (n1 := mkNode _ _ _ _ _ _ _ _ _ _).
  set (l := es ++ [noop_entry (Some id) (clock_at (nd_clock n))]).
  destruct (append_closed n1 l) as (st & Happ & He & Ht & Hp & Hc & Hne & Hcl & Hwf');
    [done|by unfold l; rewrite list.last_snoc|].
  rewrite Happ. exists (set_log n1 (log_append (nd_log n1) l).2), st.
  cbn [nd_log nd_storage set_log]. split_and!; try done.
  - by rewrite He.
  - by rewrite He.
  - rewrite Ht. unfold l. rewrite timed_events_app. simpl. by rewrite app_nil_r.
Qed.

(** The store after the commit of a batch. *)
Lemma commit_batch id (d : InMemoryDb) p (w : EntryId) :
  batch_ok id d p ->
  exists d' d'', commit_txn (cp_work p) (Some w) d = (Ok tt, d'') /\
    apply_events (timed_events (cp_entries p)) d = (Ok tt, d') /\
    d'' ≈ᵣ db_set_position d' w /\ runs_le (db_executions d) (db_executions d').
Proof.
  intros [_ _ Hb (d' & Ha & Hag & Hru)]. destruct (agrees_commit _ _ w Hag) as (d'' & Hc & Hr).
  exists d', d''. split_and!; try done. cbn [commit_txn memory_storage].
  replace (mkTxn d (tx_batch (cp_work p))) with (cp_work p); [by change (@Some EntryId w) with (@Some Z w); rewrite Hc|].
  destruct (cp_work p). simpl in *. by subst.
Qed.

(** ** Equality of stores up to the counter and the resume position *)

Definition data (d : InMemoryDb) : InMemoryDb := db_set_position (rows d) 0.
Definition same_data (d1 d2 : InMemoryDb) : Prop := data d1 = data d2.
#[export] Instance same_data_equiv : Equivalence same_data.
Proof. unfold same_data. split; [by intros d|by intros a b|]. intros a b c; congruence. Qed.
#[export] Instance same_data_sim : TxnSim same_data.
Proof.
  split; intros; intros [] [] [=]; simplify_eq/=; unfold flow_key; simpl;
    repeat (case_match; simpl); done.
Qed.
Lemma same_data_position d1 d2 w : d1 ≈ᵣ db_set_position d2 w -> same_data d1 d2.
Proof. destruct d1, d2. intros [=]. by simplify_eq. Qed.
Lemma position_of d1 d2 w : d1 ≈ᵣ db_set_position d2 w -> db_last_processed_position d1 = w.
Proof. destruct d1, d2. intros [=]. by simplify_eq. Qed.

(** Equal data fold to equal data. *)
Lemma fold_same_data l d1 d2 d1' :
  same_data d1 d2 -> apply_events l d1 = (Ok tt, d1') ->
  exists d2', apply_events l d2 = (Ok tt, d2') /\ same_data d1' d2'.
Proof.
  intros Hd Ha. destruct (apply_events_sim same_data l _ _ Hd) as [Hr Hs].
  rewrite Ha in Hr, Hs. destruct (apply_events l d2) as [[[]| |] d2']; try done. by exists d2'.
Qed.

(** The iteration on a command: a batch is appended, and the store is the old one with the
    batch's events folded in, resuming after the batch. *)
Lemma lead_command e c (n n' : LNode) :
  log_wf (nd_log n) -> en_payload e = PCommand c -> lead_entry e n = (Ok tt, n') ->
  exists batch d',
    lg_entries (nd_log n') = lg_entries (nd_log n) ++ batch /\ log_wf (nd_log n') /\
    closed (lg_entries (nd_log n')) /\
    apply_events (timed_events batch) (nd_storage n) = (Ok tt, d') /\
    same_data (nd_storage n') d' /\
    runs_le (db_executions (nd_storage n)) (db_executions d') /\
    db_last_processed_position (nd_storage n') = Z.of_nat (length (lg_entries (nd_log n'))) /\
    nd_watermark n' = Z.of_nat (length (lg_entries (nd_log n'))).
Proof.
  intros Hwf Hc. unfold lead_entry. rewrite Hc. unfold bind.
  pose proof (process_command_spec (en_entry_id e) c n) as Hp.
  destruct (process_command (en_entry_id e) c n) as [[p| |] n1]; try done.
  destruct Hp as [Hk Hb]. pose proof (batch_nonempty _ _ _ Hb) as Hne.
  destruct (append_batch_spec (en_entry_id e) (cp_entries p) n1)
    as (n2 & batch & Happ & He & Hwf2 & Hcl & Ht & Hst); [by rewrite (keeps_log _ _ Hk)|].
  destruct (commit_batch _ _ _ (Z.of_nat (length (lg_entries (nd_log n2)))) Hb)
    as (d' & d'' & Hcm & Hfold & Hrows & Hru).
  destruct (cp_entries p) as [|e0 es]; [done|]. rewrite Happ. unfold map_err, on_storage.
  rewrite Hst, (keeps_storage _ _ Hk), Hcm. unfold after_commit, modify. intros [= <-]. simpl.
  exists batch, d'. rewrite (keeps_log _ _ Hk) in He. split_and!; try done.
  - by rewrite Ht.
  - by eapply same_data_position.
  - by eapply position_of.
Qed.

(** ** Recovery *)

(** The open batch of the recovery loop over the store [d]: nothing, or a transaction on the
    store that holds the data of [d]. *)
Definition holds (n : LNode) (inflight : option InMemoryTxn) (d : InMemoryDb) : Prop :=
  match inflight with
  | None => same_data (nd_storage n) d
  | Some t => tx_db t = nd_storage n /\ exists d', agrees t d' /\ same_data d' d
  end.

(** Folding one event into the open batch. *)
Lemma recover_event inflight e ev d d' (n : LNode) :
  en_payload e = PEvent ev -> holds n inflight d ->
  dispatch_event (en_timestamp e) ev d = (Ok tt, d') ->
  exists t' n', recover_entry inflight e n = (Ok (Some t'), n') /\ holds n' (Some t') d' /\
    nd_storage n' = nd_storage n /\ nd_log n' = nd_log n.
Proof.
  intros Hp Hh Hd. unfold recover_entry. rewrite Hp.
  assert (exists t, (match inflight with
    | Some txn => ret txn
    | None => map_err from_storage (on_storage open_txn)
    end) n = (Ok t, n) /\ tx_db t = nd_storage n /\ exists d1, agrees t d1 /\ same_data d1 d)
    as (t & Ht & Hb & d1 & Hag & Hsd).
  { destruct inflight as [t|]; [by exists t|]. exists (begin_txn (nd_storage n)).
    split; [by destruct n|]. split; [done|]. eexists. split; [apply agrees_begin|done]. }
  unfold bind at 1. rewrite Ht. unfold leader_apply_event, bind.
  destruct (agrees_event (en_timestamp e) ev _ _ Hag) as [Hr1 Hs1].
  destruct (dispatch_event_sim same_data (en_timestamp e) ev _ _ Hsd) as [Hr2 Hs2].
  rewrite Hd in Hr2, Hs2.
  pose proof (dispatch_event_steps same_base (en_timestamp e) ev t) as Hbase.
  destruct (dispatch_event (en_timestamp e) ev d1) as [[[]| |] d1']; try done. simpl in *.
  destruct (dispatch_event (en_timestamp e) ev t) as [[[]| |] t']; try done. simpl in *.
  assert (tx_db t' = nd_storage n /\ exists d2, agrees t' d2 /\ same_data d2 d') as Hh'.
  { rewrite (Hbase I). split; [done|]. by exists d1'. }
  destruct (en_cause_id e) as [cz|]; [case_decide|]; eexists _, _; (split; [done|]); done.
Qed.

(** Closing the open batch at its mark. *)
Lemma recover_noop_some t e d (n : LNode) :
  en_payload e = PNoop -> holds n (Some t) d ->
  exists n', recover_entry (Some t) e n = (Ok None, n') /\ holds n' None d /\
    nd_log n' = nd_log n /\ db_last_processed_position (nd_storage n') = en_entry_id e.
Proof.
  intros Hp (Hb & d' & Hag & Hsd). unfold recover_entry. rewrite Hp.
  destruct (agrees_commit _ _ (en_entry_id e) Hag) as (d'' & Hc & Hr).
  unfold map_err, on_storage, bind. cbn [commit_txn memory_storage].
  replace (mkTxn (nd_storage n) (tx_batch t)) with t by (destruct t; simpl in *; by subst).
  change (@Some EntryId (en_entry_id e)) with (@Some Z (en_entry_id e)). rewrite Hc.
  eexists. split; [done|]. simpl. split_and!; try done.
  - etrans; [by eapply same_data_position|done].
  - by eapply position_of.
Qed.

Lemma closed_tail e l : closed (e :: l) -> closed l.
Proof. intros [|Hl]; [done|]. destruct l; [by left|by right]. Qed.
Lemma closed_open_tail e l : closed (e :: l) -> is_noop e = false -> l <> [].
Proof. intros [|Hl] He ->; simplify_eq/=. congruence. Qed.

(** The position the loop leaves, when it reads the log from the [k]-th entry on: the one it
    found, with no event left above, or the mark of the last batch it committed. *)
Definition recovered_at (g : LogState) (k : nat) (inflight : option InMemoryTxn) (w w' : Z) : Prop :=
  (inflight = None /\ timed_events (drop k (lg_entries g)) = [] /\ w' = w) \/
  (Z.of_nat k < w' <= Z.of_nat (length (lg_entries g)) /\
   timed_events (drop (Z.to_nat w') (lg_entries g)) = []).

Lemma recovered_next g k i1 i2 w w' e :
  lg_entries g !! k = Some e -> (i2 = None -> i1 = None /\ timed_events [e] = []) ->
  recovered_at g (S k) i2 w w' -> recovered_at g k i1 w w'.
Proof.
  intros He Hi [(H2 & Ht & Hw)|[Hw Ht]]; [left|right; split; [lia|done]].
  destruct (Hi H2) as [-> Hte]. split_and!; try done. rewrite (drop_S _ _ _ He).
  change (e :: ?l) with ([e] ++ l). by rewrite timed_events_app, Hte, Ht.
Qed.

Lemma apply_events_cons ts ev l (d d1 : InMemoryDb) :
  apply_events ((ts, ev) :: l) d = (Ok tt, d1) ->
  exists d', dispatch_event ts ev d = (Ok tt, d') /\ apply_events l d' = (Ok tt, d1).
Proof.
  unfold apply_events. simpl. unfold bind.
  destruct (dispatch_event ts ev d) as [[[]| |] d']; try done. by exists d'.
Qed.

(** One iteration: the batch stays open, or is committed at its mark. *)
Lemma recover_entry_spec inflight e l d d1 (n : LNode) :
  holds n inflight d -> apply_events (timed_events (e :: l)) d = (Ok tt, d1) ->
  exists i2 n2 d2, recover_entry inflight e n = (Ok i2, n2) /\ nd_log n2 = nd_log n /\
    holds n2 i2 d2 /\ apply_events (timed_events l) d2 = (Ok tt, d1) /\
    (is_noop e = true -> i2 = None) /\
    (((i2 = None -> inflight = None /\ timed_events [e] = []) /\
      db_last_processed_position (nd_storage n2) = db_last_processed_position (nd_storage n)) \/
     (i2 = None /\ db_last_processed_position (nd_storage n2) = en_entry_id e)).
Proof.
  intros Hh Ha. unfold timed_events, is_noop in *. simpl in Ha |- *.
  destruct (en_payload e) as [c|ev|r|] eqn:Hp.
  - exists inflight, n, d. unfold recover_entry. rewrite Hp. naive_solver.
  - apply apply_events_cons in Ha as (d' & Hd & Ha).
    destruct (recover_event inflight e ev d d' n Hp Hh Hd) as (t' & n' & Hr & Hh' & Hs & Hl).
    exists (Some t'), n', d'. rewrite Hs. naive_solver.
  - exists inflight, n, d. unfold recover_entry. rewrite Hp. naive_solver.
  - destruct inflight as [t|].
    + destruct (recover_noop_some t e d n Hp Hh) as (n' & Hr & Hh' & Hl & Hpos).
      exists None, n', d. naive_solver.
    + exists None, n, d. unfold recover_entry. rewrite Hp. naive_solver.
Qed.

(** The recovery loop reaches the end of a closed log, having folded every event it read. *)
Lemma recover_loop_spec fuel k inflight (n : LNode) d d1 :
  log_wf (nd_log n) -> (length (drop k (lg_entries (nd_log n))) < fuel)%nat ->
  closed (drop k (lg_entries (nd_log n))) ->
  (drop k (lg_entries (nd_log n)) = [] -> inflight = None) ->
  holds n inflight d ->
  apply_events (timed_events (drop k (lg_entries (nd_log n)))) d = (Ok tt, d1) ->
  exists n', recover_loop fuel (Z.of_nat k + 1) inflight n = (Ok tt, n') /\
    nd_log n' = nd_log n /\ same_data (nd_storage n') d1 /\
    recovered_at (nd_log n) k inflight (db_last_processed_position (nd_storage n))
      (db_last_processed_position (nd_storage n')).
Proof.
  revert k inflight n d. induction fuel as [|fuel IH]; intros k inflight n d Hwf Hf Hcl Hin Hh Ha;
    [lia|]. simpl. unfold bind at 1, get_st. unfold bind at 1, lift_res, log_read. simpl.
  unfold entry_at. rewrite decide_True by lia.
  replace (Z.to_nat (Z.of_nat k + 1 - 1)) with k by lia.
  destruct (lg_entries (nd_log n) !! k) as [e|] eqn:He.
  2:{ apply lookup_ge_None in He. rewrite drop_ge in * by done. rewrite (Hin eq_refl) in *.
      injection Ha as <-. exists n. split_and!; try done. left. by rewrite drop_ge. }
  rewrite (drop_S _ _ _ He) in Hf, Hcl, Ha. simpl in Hf.
  destruct (recover_entry_spec _ _ _ _ _ _ Hh Ha)
    as (i2 & n2 & d2 & Hre & Hlog & Hh2 & Ha2 & Hnoop & Hpos).
  unfold bind. rewrite Hre. replace (Z.of_nat k + 1 + 1) with (Z.of_nat (S k) + 1) by lia.
  destruct (IH (S k) i2 n2 d2) as (n' & Hloop & Hlog' & Hd' & Hat); rewrite ?Hlog; auto with lia.
  { by apply closed_tail in Hcl. }
  { intros Hnil. apply Hnoop. destruct (is_noop e) eqn:Hn; [done|].
    by apply (closed_open_tail _ _ Hcl) in Hn. }
  exists n'. rewrite Hlog in Hat, Hlog'. split_and!; try done.
  destruct Hpos as [[Hi <-]|[-> Hp2]]; [by eapply recovered_next|].
  pose proof (lookup_lt_Some _ _ _ He). apply (proj1 Hwf) in He as [Hid _]. right.
  destruct Hat as [(_ & Ht & ->)|[Hw Ht]]; [|split; [lia|done]].
  rewrite Hp2, Hid. replace (Z.to_nat (1 + Z.of_nat k)) with (S k) by lia. split; [lia|done].
Qed.

(** Starting the leader folds what the log holds above the resume position. *)
Lemma start_leader_spec (n : LNode) d1 (w : nat) :
  log_wf (nd_log n) -> closed (drop w (lg_entries (nd_log n))) ->
  db_last_processed_position (nd_storage n) = Z.of_nat w ->
  (w <= length (lg_entries (nd_log n)))%nat ->
  apply_events (timed_events (drop w (lg_entries (nd_log n)))) (nd_storage n) = (Ok tt, d1) ->
  exists n' w', start_leader n = (Ok (Z.of_nat w' + 1), n') /\ nd_log n' = nd_log n /\
    same_data (nd_storage n') d1 /\ db_last_processed_position (nd_storage n') = Z.of_nat w' /\
    nd_watermark n' = Z.of_nat w' /\ (w <= w' <= length (lg_entries (nd_log n)))%nat /\
    timed_events (drop w' (lg_entries (nd_log n))) = [].
Proof.
  intros Hwf Hcl Hw Hle Ha. unfold start_leader, recover_leader, on_storage, map_err, bind,
    modify, get_st. cbn [last_processed_position memory_storage nd_storage res_map_err].
  rewrite Hw. set (n1 := set_watermark (set_storage n (nd_storage n)) (Z.of_nat w)).
  destruct (recover_loop_spec (S (length (lg_entries (nd_log n1)))) w None n1 (nd_storage n) d1)
    as (n' & Hloop & Hlog & Hd & Hat); try done.
  { rewrite length_drop. lia. }
  rewrite Hloop. set (w' := db_last_processed_position (nd_storage n')) in *.
  assert (Z.of_nat w <= w' <= Z.of_nat (length (lg_entries (nd_log n))) /\
    timed_events (drop (Z.to_nat w') (lg_entries (nd_log n))) = []) as [Hb Ht].
  { change (nd_log n1) with (nd_log n) in Hat. change (nd_storage n1) with (nd_storage n) in Hat.
    destruct Hat as [(_ & Ht & ->)|[Hpos Ht]]; [rewrite Hw, Nat2Z.id|]; split; done || lia. }
  exists (set_watermark (set_storage n' (nd_storage n')) w'), (Z.to_nat w').
  rewrite Z2Nat.id by lia. split_and!; done || lia.
Qed.
End StreamFacts.
