(* ===== verification/System.v ===== *)
(** The running system: a log, a store, a leader and its clients, as a step relation; the
    invariant of its reachable states, and the follower that replays the same log. *)
From S2P Require Import Prelude Names Timestamp Json Asl Errors Meta Entities Tasks Commands.
From S2P Require Import LogStream Storage StorageFacts Applier ApplierFacts Eval Handler Dispatch.
From S2P Require Import Leader Projection Runs LeaderFacts StreamProcessor StreamFacts.
Local Open Scope Z_scope.

Section System.
Context `{Engine}.
Notation LNode := (Node InMemoryDb).

(** A node with the position its tail loop reads next. *)
Definition Sys : Type := LNode * EntryId.
Definition sys_init : Sys := (mkNode db_default log_new ∅ EvalEnv_new 0 [] 0 0 [] [], 1).

(** A client's submission; the leader's next entry; a stop and start; a stop between the
    append of a batch and its commit, and the start after it. *)
Inductive sys_step : Sys -> Sys -> Prop :=
  | step_submit n c cmd n' :
      submit_command cmd n = (Ok tt, n') -> sys_step (n, c) (n', c)
  | step_lead n c e n' :
      entry_at (nd_log n) c = Some e -> lead_entry e n = (Ok tt, n') ->
      sys_step (n, c) (n', c + 1)
  | step_restart n c n' c' :
      start_leader (restart n) = (Ok c', n') -> sys_step (n, c) (n', c')
  | step_crash n c e cmd p n1 last n2 n' c' :
      entry_at (nd_log n) c = Some e -> en_payload e = PCommand cmd ->
      process_command (en_entry_id e) cmd n = (Ok p, n1) ->
      append_batch (en_entry_id e) (cp_entries p) n1 = (Ok last, n2) ->
      start_leader (restart n2) = (Ok c', n') -> sys_step (n, c) (n', c').
Definition reachable (s : Sys) : Prop := rtc sys_step sys_init s.

(** The resume position the store holds, as an index into the log. *)
Definition resume_at (n : LNode) : nat := Z.to_nat (db_last_processed_position (nd_storage n)).

(** A store up to date with a log: every event folded, none above the resume position. *)
Record synced (n : LNode) : Prop := {
  sy_wf : log_wf (nd_log n);
  sy_closed : closed (lg_entries (nd_log n));
  sy_fold : exists d, apply_events (timed_events (lg_entries (nd_log n))) db_default = (Ok tt, d)
              /\ same_data (nd_storage n) d;
  sy_position : db_last_processed_position (nd_storage n) = Z.of_nat (resume_at n);
  sy_low : (resume_at n <= length (lg_entries (nd_log n)))%nat;
  sy_rest : timed_events (drop (resume_at n) (lg_entries (nd_log n))) = [] }.
Definition sys_inv (s : Sys) : Prop :=
  synced s.1 /\ nd_watermark s.1 = db_last_processed_position (nd_storage s.1).

Lemma closed_app l1 l2 : l2 <> [] -> closed (l1 ++ l2) -> closed l2.
Proof.
  intros Hne [Hn|Hl]; [by apply app_nil in Hn as [_ ->]|]. right. rewrite last_app in Hl.
  destruct (last l2) eqn:H2; [done|]. by apply last_None in H2.
Qed.
Lemma closed_drop k l : closed l -> closed (drop k l).
Proof.
  intros Hl. destruct (drop k l) as [|e l'] eqn:Hd; [by left|]. rewrite <- Hd.
  rewrite <- (take_drop k l) in Hl. apply (closed_app _ _) in Hl; [done|by rewrite Hd].
Qed.

(** The state after a batch has been appended to a synced node, committed or not: folding
    what lies above the resume position leads to the fold of the whole log. *)
Lemma synced_append (n : LNode) batch d' g :
  synced n -> lg_entries g = lg_entries (nd_log n) ++ batch ->
  apply_events (timed_events batch) (nd_storage n) = (Ok tt, d') ->
  apply_events (timed_events (drop (resume_at n) (lg_entries g))) (nd_storage n) = (Ok tt, d') /\
  exists d, apply_events (timed_events (lg_entries g)) db_default = (Ok tt, d) /\ same_data d' d.
Proof.
  intros [] Hg Ha. destruct sy_fold0 as (d & Hd & Hsd).
  destruct (fold_same_data _ _ _ _ Hsd Ha) as (d2 & Ha2 & Hs2). rewrite Hg. split.
  - rewrite drop_app_le by done. by rewrite timed_events_app, sy_rest0.
  - exists d2. split; [|done]. by rewrite timed_events_app, (apply_events_app _ _ _ _ Hd).
Qed.

(** A start over a log whose suffix folds gives a synced node. *)
Lemma start_synced (n : LNode) d1 :
  log_wf (nd_log n) -> closed (lg_entries (nd_log n)) ->
  db_last_processed_position (nd_storage n) = Z.of_nat (resume_at n) ->
  (resume_at n <= length (lg_entries (nd_log n)))%nat ->
  apply_events (timed_events (drop (resume_at n) (lg_entries (nd_log n)))) (nd_storage n)
    = (Ok tt, d1) ->
  (exists d, apply_events (timed_events (lg_entries (nd_log n))) db_default = (Ok tt, d) /\
     same_data d1 d) ->
  exists n', start_leader (restart n) = (Ok (Z.of_nat (resume_at n') + 1), n') /\
    nd_log n' = nd_log n /\ sys_inv (n', Z.of_nat (resume_at n') + 1) /\
    (resume_at n <= resume_at n')%nat.
Proof.
  intros Hwf Hcl Hw Hle Ha (d & Hd & Hsd).
  destruct (start_leader_spec (restart n) d1 (resume_at n))
    as (n' & w' & Hs & Hlog & Hdat & Hpos & Hwm & Hb & Ht); try done; [by apply closed_drop|].
  change (nd_log (restart n)) with (nd_log n) in *.
  assert (resume_at n' = w') as Hw' by (unfold resume_at; lia).
  exists n'. rewrite Hw'. split_and!; try done; [|lia].
  split; simpl; [|congruence]. split; rewrite ?Hlog, ?Hw'; try done; [|lia].
  exists d. split; [done|]. by etrans.
Qed.

(** A submission appends its command, closed by a mark, and touches nothing else. *)
Lemma submit_spec cmd (n : LNode) :
  log_wf (nd_log n) ->
  exists n' batch, submit_command cmd n = (Ok tt, n') /\
    lg_entries (nd_log n') = lg_entries (nd_log n) ++ batch /\ log_wf (nd_log n') /\
    closed (lg_entries (nd_log n')) /\ map en_payload batch = [PCommand cmd; PNoop] /\
    nd_storage n' = nd_storage n /\ nd_watermark n' = nd_watermark n.
Proof.
  intros Hwf. unfold submit_command, node_now, bind. cbv beta iota.
  set (n1 := mkNode _ _ _ _ _ _ _ _ _ _).
  set (e := mkEntry id_nil id_nil None (clock_at (nd_clock n)) (PCommand cmd)).
  set (m := noop_entry None (clock_at (nd_clock n1))).
  set (n2 := mkNode (nd_storage n1) (nd_log n1) (nd_definitions n1) (nd_env n1) (nd_watermark n1)
    (nd_last_applied n1) (1 + nd_clock n1)%nat (nd_ids n1) (nd_hooks n1) (nd_slept n1)).
  change (closed_append [e] n1) with (closed_append [e; m] n2).
  destruct (append_closed n2 [e; m]) as (st & -> & He & Ht & Hp & Hc & Hne & Hcl & Hwf');
    [done..|].
  eexists _, st. split; [done|]. cbn [nd_log nd_storage nd_watermark set_log].
  split_and!; try done. by rewrite He.
Qed.

Lemma timed_events_none l :
  Forall (fun p => match p with PEvent _ => False | _ => True end) (map en_payload l) ->
  timed_events l = [].
Proof.
  induction l as [|e l IH]; [done|]. simpl. intros [He Hl]%Forall_cons. unfold timed_events. simpl.
  destruct (en_payload e); [by apply IH|done|by apply IH..].
Qed.

(** Appending entries that hold no event to a synced node keeps it so. *)
Lemma synced_quiet (n n' : LNode) batch :
  synced n -> nd_storage n' = nd_storage n ->
  lg_entries (nd_log n') = lg_entries (nd_log n) ++ batch -> log_wf (nd_log n') ->
  closed (lg_entries (nd_log n')) -> timed_events batch = [] -> synced n'.
Proof.
  intros Hs Hst Hg Hwf Hcl Ht. pose proof (synced_append n batch (nd_storage n) (nd_log n') Hs Hg)
    as [Hd (d & Hd2 & Hsd)]; [by rewrite Ht|]. destruct Hs.
  assert (resume_at n' = resume_at n) as Hr by (unfold resume_at; by rewrite Hst).
  split; rewrite ?Hst, ?Hr, ?Hg, ?length_app; try done; [by rewrite <- Hg|by rewrite <- Hg; exists d|lia|].
  rewrite drop_app_le by done. by rewrite timed_events_app, sy_rest0, Ht.
Qed.

Lemma same_executions d1 d2 : same_data d1 d2 -> db_executions d1 = db_executions d2.
Proof. unfold same_data, data, rows. by intros [=]. Qed.

(** The node after a processed command. *)
Lemma synced_lead e c (n n' : LNode) :
  synced n -> en_payload e = PCommand c -> lead_entry e n = (Ok tt, n') ->
  synced n' /\ nd_watermark n' = db_last_processed_position (nd_storage n') /\
  resume_at n' = length (lg_entries (nd_log n')) /\
  runs_le (db_executions (nd_storage n)) (db_executions (nd_storage n')).
Proof.
  intros Hs Hp Hl. destruct (lead_command e c n n' (sy_wf _ Hs) Hp Hl)
    as (batch & d' & Hg & Hwf & Hcl & Ha & Hd & Hru & Hpos & Hwm).
  destruct (synced_append n batch d' (nd_log n') Hs Hg Ha) as [_ (d & Hd2 & Hsd)].
  assert (resume_at n' = length (lg_entries (nd_log n'))) as Hr by (unfold resume_at; lia).
  split_and!; [|congruence|done|by rewrite (same_executions _ _ Hd)].
  split; rewrite ?Hr; try done.
  - exists d. split; [done|]. by etrans.
  - by rewrite drop_all.
Qed.

(** An event the leader reads back lies at or below its resume position. *)
Lemma event_applied (n : LNode) c e ev :
  synced n -> nd_watermark n = db_last_processed_position (nd_storage n) ->
  entry_at (nd_log n) c = Some e -> en_payload e = PEvent ev ->
  lead_entry e n = (Ok tt, n).
Proof.
  intros Hs Hw (Hc & He)%entry_at_lookup Hp. unfold lead_entry, bind, get_st. rewrite Hp.
  assert (is_already_applied n (en_entry_id e) = true) as ->; [|by rewrite andb_false_r].
  apply bool_decide_eq_true. destruct Hs. rewrite Hw, sy_position0.
  apply (proj1 sy_wf0) in He as Hid. destruct Hid as [-> _].
  destruct (decide (Z.to_nat (c - 1) < resume_at n)%nat); [lia|].
  exfalso. rewrite <- (take_drop (Z.to_nat (c - 1) - resume_at n)
    (drop (resume_at n) (lg_entries (nd_log n)))) in sy_rest0.
  rewrite drop_drop, timed_events_app in sy_rest0.
  replace (resume_at n + (Z.to_nat (c - 1) - resume_at n))%nat with (Z.to_nat (c - 1)) in sy_rest0
    by lia.
  rewrite (drop_S _ _ _ He) in sy_rest0. unfold timed_events in sy_rest0. simpl in sy_rest0.
  rewrite Hp in sy_rest0. by apply app_nil in sy_rest0 as [_ ?].
Qed.

(** ** The invariant *)

Lemma sys_init_inv : sys_inv sys_init.
Proof.
  split; [|done]. by split; [apply log_new_wf|left|exists db_default|..].
Qed.

Lemma synced_restart (n : LNode) :
  synced n ->
  exists n', start_leader (restart n) = (Ok (Z.of_nat (resume_at n') + 1), n') /\
    nd_log n' = nd_log n /\ sys_inv (n', Z.of_nat (resume_at n') + 1) /\
    (resume_at n <= resume_at n')%nat.
Proof.
  intros Hs. destruct (synced_append n [] (nd_storage n) (nd_log n) Hs) as [Ha Hd];
    [by rewrite app_nil_r|done|]. destruct Hs. by eapply start_synced.
Qed.

Lemma crash_inv e cmd p (n n1 n2 : LNode) last :
  synced n -> en_payload e = PCommand cmd ->
  process_command (en_entry_id e) cmd n = (Ok p, n1) ->
  append_batch (en_entry_id e) (cp_entries p) n1 = (Ok last, n2) ->
  exists n', start_leader (restart n2) = (Ok (Z.of_nat (resume_at n') + 1), n') /\
    nd_log n' = nd_log n2 /\ sys_inv (n', Z.of_nat (resume_at n') + 1) /\
    runs_le (db_executions (nd_storage n)) (db_executions (nd_storage n')).
Proof.
  intros Hs Hp Hpc Hab. pose proof (process_command_spec (en_entry_id e) cmd n) as Hspec.
  rewrite Hpc in Hspec. destruct Hspec as [Hk [_ _ _ (d' & Ha & _ & Hru)]].
  destruct (append_batch_spec (en_entry_id e) (cp_entries p) n1)
    as (n2' & batch & Hab' & Hg & Hwf & Hcl & Ht & Hst);
    [rewrite (keeps_log _ _ Hk); apply Hs|].
  rewrite Hab in Hab'. injection Hab' as -> <-.
  rewrite (keeps_log _ _ Hk) in Hg. rewrite (keeps_storage _ _ Hk) in Hst.
  rewrite <- Ht in Ha. destruct (synced_append n batch d' (nd_log n2) Hs Hg Ha) as [Ha2 Hd].
  assert (resume_at n2 = resume_at n) as Hr by (unfold resume_at; by rewrite Hst).
  destruct Hs. destruct (start_synced n2 d') as (n' & Hst' & Hlog & Hinv & _);
    rewrite ?Hr, ?Hst, ?Hg; rewrite <- ?Hg; try done.
  - rewrite Hg, length_app. lia.
  - exists n'. split_and!; try done. destruct Hd as (d & Hd & Hsd), Hinv as [[] _]. simpl in *.
    destruct sy_fold1 as (d0 & Hd0 & Hsd0). rewrite Hlog, Hd in Hd0. injection Hd0 as <-.
    by rewrite (same_executions _ _ Hsd0), <- (same_executions _ _ Hsd).
Qed.

(** Every step keeps the invariant. *)
Lemma sys_step_inv s s' : sys_step s s' -> sys_inv s -> sys_inv s'.
Proof.
  intros Hstep [Hs Hw]. destruct Hstep as [n c cmd n' Hsub|n c e n' He Hl|n c n' c' Hst|
    n c e cmd p n1 last n2 n' c' He Hp Hpc Hab Hst]; simpl in Hs, Hw.
  - destruct (submit_spec cmd n (sy_wf _ Hs)) as (n2 & b & Hsub' & Hg & Hwf & Hcl & Hpl & Hst & Hwm).
    rewrite Hsub in Hsub'. injection Hsub' as <-. split; simpl; [|congruence].
    eapply synced_quiet; try done. apply timed_events_none. rewrite Hpl. by repeat constructor.
  - destruct (en_payload e) as [cmd|ev|r|] eqn:Hp.
    + destruct (synced_lead e cmd n n' Hs Hp Hl) as (? & ? & _). by split.
    + rewrite (event_applied n c e ev Hs Hw He Hp) in Hl. injection Hl as <-. by split.
    + unfold lead_entry in Hl. rewrite Hp in Hl. injection Hl as <-. by split.
    + unfold lead_entry in Hl. rewrite Hp in Hl. injection Hl as <-. by split.
  - destruct (synced_restart n Hs) as (n2 & Hst' & _ & Hinv & _). rewrite Hst in Hst'.
    by injection Hst' as -> <-.
  - destruct (crash_inv e cmd p n n1 n2 last Hs Hp Hpc Hab) as (n3 & Hst' & _ & Hinv & _).
    rewrite Hst in Hst'. by injection Hst' as -> <-.
Qed.

(** Every step moves the executions of the store forward. *)
Lemma sys_step_runs s s' :
  sys_step s s' -> sys_inv s ->
  runs_le (db_executions (nd_storage s.1)) (db_executions (nd_storage s'.1)).
Proof.
  intros Hstep [Hs Hw]. destruct Hstep as [n c cmd n' Hsub|n c e n' He Hl|n c n' c' Hst|
    n c e cmd p n1 last n2 n' c' He Hp Hpc Hab Hst]; simpl in Hs, Hw |- *.
  - destruct (submit_spec cmd n (sy_wf _ Hs)) as (n2 & b & Hsub' & _ & _ & _ & _ & Hst & _).
    rewrite Hsub in Hsub'. injection Hsub' as <-. by rewrite Hst.
  - destruct (en_payload e) as [cmd|ev|r|] eqn:Hp.
    + by destruct (synced_lead e cmd n n' Hs Hp Hl) as (_ & _ & _ & Hr).
    + rewrite (event_applied n c e ev Hs Hw He Hp) in Hl. by injection Hl as <-.
    + unfold lead_entry in Hl. rewrite Hp in Hl. by injection Hl as <-.
    + unfold lead_entry in Hl. rewrite Hp in Hl. by injection Hl as <-.
  - destruct (synced_restart n Hs) as (n2 & Hst' & Hlog & [[] _] & _). rewrite Hst in Hst'.
    injection Hst' as -> <-. simpl in *. destruct Hs. rewrite Hlog in *.
    destruct sy_fold0 as (d & Hd & Hsd), sy_fold1 as (d0 & Hd0 & Hsd0).
    rewrite (same_executions _ _ Hsd), (same_executions _ _ Hsd0).
    assert (d0 = d) as -> by congruence. reflexivity.
  - destruct (crash_inv e cmd p n n1 n2 last Hs Hp Hpc Hab) as (n3 & Hst' & _ & _ & Hr).
    rewrite Hst in Hst'. by injection Hst' as -> <-.
Qed.

Lemma steps_inv s s' : rtc sys_step s s' -> sys_inv s -> sys_inv s'.
Proof. induction 1; eauto using sys_step_inv. Qed.
Lemma steps_runs s s' :
  rtc sys_step s s' -> sys_inv s ->
  runs_le (db_executions (nd_storage s.1)) (db_executions (nd_storage s'.1)).
Proof.
  induction 1 as [|s1 s2 s3 Hs]; intros Hi; [done|].
  etrans; [by apply sys_step_runs|]. eauto using sys_step_inv.
Qed.

Lemma reachable_inv s : reachable s -> sys_inv s.
Proof.
  intros Hr. by eapply steps_inv, sys_init_inv.
Qed.
Lemma reachable_names s : reachable s -> own_names (db_executions (nd_storage s.1)).
Proof. intros Hr. apply (steps_runs _ _ Hr sys_init_inv (map_Forall_empty _)). Qed.

(** ** The follower *)

(** A follower folds an entry as recovery does. *)
Lemma follow_entry_recover inflight e (n n2 : LNode) (f : FollowerSt (S:=InMemoryDb)) i2 :
  fo_storage f = nd_storage n -> recover_entry inflight e n = (Ok i2, n2) ->
  exists f2, follow_entry inflight e f = (Ok i2, f2) /\ fo_storage f2 = nd_storage n2 /\
    nd_log n2 = nd_log n.
Proof.
  intros Hf. unfold recover_entry, follow_entry.
  destruct (en_payload e) as [c|ev|r|]; [intros [= <- <-]; by exists f| |
    intros [= <- <-]; by exists f|].
  - assert (forall t, bind (leader_apply_event t (en_timestamp e) (en_cause_id e) ev)
      (fun a => ret (Some a.2)) n = (Ok i2, n2) ->
      bind (follower_apply_event t (en_timestamp e) ev) (fun a => ret (Some a.2)) f = (Ok i2, f) /\
      nd_storage n2 = nd_storage n /\ nd_log n2 = nd_log n) as Hgo.
    { intros t. unfold bind, leader_apply_event, follower_apply_event.
      destruct (dispatch_event (en_timestamp e) ev t) as [[[]| |] t']; try done.
      destruct (en_cause_id e); [case_decide|]; by intros [= <- <-]. }
    assert (exists t, (match inflight with
        | Some txn => ret txn | None => map_err from_storage (on_storage open_txn) end) n = (Ok t, n) /\
      (match inflight with
        | Some txn => ret txn | None => map_err from_storage (fo_on open_txn) end) f = (Ok t, f))
      as (t & Hn & Hfo).
    { destruct inflight as [t|]; [by exists t|]. exists (begin_txn (nd_storage n)).
      destruct n, f. simpl in Hf. by subst. }
    unfold bind at 1. rewrite Hn. intros (Hff & Hs & Hl)%Hgo. exists f.
    unfold bind at 1. rewrite Hfo. split_and!; [done|congruence|done].
  - destruct inflight as [t|]; [|intros [= <- <-]; by exists f].
    unfold bind, map_err, on_storage, fo_on. simpl. rewrite Hf.
    intros [= <- <-]. by eexists.
Qed.

Lemma follow_recover fuel k inflight (n n' : LNode) (f : FollowerSt (S:=InMemoryDb)) :
  fo_storage f = nd_storage n ->
  recover_loop fuel (Z.of_nat k + 1) inflight n = (Ok tt, n') ->
  exists f' i', follow (drop k (lg_entries (nd_log n))) inflight f = (Ok i', f') /\
    fo_storage f' = nd_storage n'.
Proof.
  revert k inflight n f. induction fuel as [|fuel IH]; intros k inflight n f Hf; [done|].
  simpl. unfold bind at 1, get_st. unfold bind at 1, lift_res, log_read. simpl.
  unfold entry_at. rewrite decide_True by lia.
  replace (Z.to_nat (Z.of_nat k + 1 - 1)) with k by lia.
  destruct (lg_entries (nd_log n) !! k) as [e|] eqn:He.
  2:{ apply lookup_ge_None in He. rewrite drop_ge by done. intros [= <-]. by eexists _, _. }
  rewrite (drop_S _ _ _ He). simpl. unfold bind.
  destruct (recover_entry inflight e n) as [[i2| |] n2] eqn:Hre; try done.
  destruct (follow_entry_recover _ _ _ _ _ _ Hf Hre) as (f2 & -> & Hf2 & Hl).
  replace (Z.of_nat k + 1 + 1) with (Z.of_nat (S k) + 1) by lia.
  rewrite <- Hl. by apply IH.
Qed.

Lemma follower_same (n : LNode) :
  synced n ->
  exists f, run_follower (nd_log n) (mkFollower db_default 0) = (Ok tt, f) /\
    same_data (fo_storage f) (nd_storage n).
Proof.
  intros []. destruct sy_fold0 as (d & Hd & Hsd).
  set (n0 := restart (mkNode db_default (nd_log n) ∅ EvalEnv_new 0 [] 0 0 [] [])).
  destruct (recover_loop_spec (S (length (lg_entries (nd_log n0)))) 0 None n0 db_default d)
    as (n' & Hloop & _ & Hdat & _); rewrite ?drop_0; try done; [simpl; lia|].
  destruct (follow_recover _ 0 None n0 n' (mkFollower db_default 0) eq_refl Hloop)
    as (f' & i' & Hfol & Hst).
  exists f'. split; [|by rewrite Hst, Hdat].
  pose proof (stream_read_drop (nd_log n) 0) as Hsr.
  change (Z.of_nat 0 + 1) with (0 + 1) in Hsr.
  unfold run_follower, set_resume_position, bind, map_err, fo_on.
  cbn [last_processed_position memory_storage fo_storage db_last_processed_position db_default
       res_map_err].
  rewrite Hsr. change (nd_log n0) with (nd_log n) in Hfol. by rewrite Hfol.
Qed.
End System.
