(* ===== verification/Durability.v ===== *)
(** From an acknowledgement back to the store: every creation the log holds is a row of the
    store, every event the observer was told about is in the log, and every event a caller of
    the gateway received was told to the observer. *)
From S2P Require Import Prelude Names Timestamp Json Asl Errors Meta Entities Tasks Commands.
From S2P Require Import LogStream Storage StorageFacts Applier ApplierFacts Eval Handler.
From S2P Require Import Containers StateHandler States TaskState FanOut ActivityElement Elements.
From S2P Require Import Dispatch HandlerFacts Leader Projection Runs LeaderFacts StreamProcessor.
From S2P Require Import Scheduler Facade Gateway GatewayFacts StreamFacts System.
Local Open Scope Z_scope.

(** ** The creations of a batch *)

(** Every execution announced in [l] is a row of [m], or has advanced to one. *)
Definition recorded (l : list Event) (m : gmap ObjectName Execution) : Prop :=
  forall r e, ExecutionCreated r e ∈ l ->
    exists e', m !! m_name (ex_meta e) = Some e' /\ advances e e'.

Lemma recorded_nil m : recorded [] m.
Proof. by intros r e ?%elem_of_nil. Qed.
Lemma recorded_le l m m' : own_names m -> runs_le m m' -> recorded l m -> recorded l m'.
Proof.
  intros Hm Hle Hl r e (e1 & H1 & Ha)%Hl. destruct (Hle Hm) as [_ Hle'].
  destruct (Hle' _ _ H1) as (e2 & H2 & Hb). exists e2. split; [done|]. by etrans.
Qed.
Lemma recorded_app l1 l2 m : recorded l1 m -> recorded l2 m -> recorded (l1 ++ l2) m.
Proof. intros H1 H2 r e [He|He]%elem_of_app; eauto. Qed.

Definition creates (ev : Event) : bool :=
  match ev with ExecutionCreated _ _ => true | _ => false end.

Section Batch.
Context `{Engine}.
Notation St := (HSt InMemoryTxn).

(** No execution announced that was not. *)
Definition no_new (s s' : St) : Prop :=
  forall r e, ExecutionCreated r e ∈ events_of (h_entries s') ->
              ExecutionCreated r e ∈ events_of (h_entries s).
#[export] Instance no_new_preorder : PreOrder no_new.
Proof. unfold no_new. split; [by intros s|]. intros a b c Hab Hbc r e. auto. Qed.

Lemma no_new_event {E} ev : creates ev = false -> steps (E:=E) no_new (append_event ev).
Proof.
  intros Hev s _ r e. pose proof (append_event_entries (E:=E) ev s) as He.
  destruct (append_event ev s) as [[x| |] s']; simpl in *; [|by rewrite He..].
  destruct He as (en & -> & Hp). rewrite events_of_app. unfold events_of at 2. simpl. rewrite Hp.
  intros [|Hin]%elem_of_app; [done|]. apply list_elem_of_singleton in Hin as <-. done.
Qed.
#[export] Instance no_new_base : BaseSteps no_new.
Proof.
  assert (forall s s' : St, silent s s' -> no_new s s') as Hs.
  { intros s s' Hq r e. unfold silent in Hq. by rewrite Hq. }
  split; [split; [apply _|..]|..].
  - intros A m _ s Hp. by apply Hs, silent_txn.
  - intros E v sm s _. by apply Hs.
  - intros E s _. by apply Hs.
  - intros E s _. by apply Hs.
  - intros E s Hp. by apply Hs, silent_seq.
  - intros E A m _ s _. apply Hs. unfold on_env. by destruct (m (h_env s)).
  - intros E ev Hev. apply no_new_event. by destruct ev.
  - intros E c s _ r e. simpl. rewrite events_of_app. unfold events_of at 2. simpl.
    by rewrite app_nil_r.
  - intros E i t rs s _ r e. simpl. rewrite events_of_app. unfold events_of at 2. simpl.
    by rewrite app_nil_r.
Qed.

(** From a keyed table that records the batch so far to one that records the batch. *)
Definition booked (s : St) : Prop :=
  own_names (runs (h_txn s)) /\ recorded (events_of (h_entries s)) (runs (h_txn s)).
Definition books (s s' : St) : Prop := booked s -> booked s'.
#[export] Instance books_preorder : PreOrder books.
Proof. unfold books. split; [by intros s|]. intros a b c; auto. Qed.

Lemma books_forward {E A} (m : M St E A) : steps forward m -> steps no_new m -> steps books m.
Proof.
  intros Hf Hn s Hp [Hk Hr]. specialize (Hf s Hp). specialize (Hn s Hp).
  split; [by apply (Hf Hk)|]. apply (recorded_le _ _ _ Hk Hf). intros r e He. by apply (Hr r), Hn.
Qed.
#[export] Instance books_base : BaseSteps books.
Proof.
  split; [split; [apply _|..]|..]; intros; apply books_forward;
    eauto with spica typeclass_instances.
Qed.

(** A computation that books its batch from where [P] holds. *)
Definition books_from {E A} (P : St -> Prop) (m : M St E A) : Prop :=
  forall s, not_panic (m s).1 -> P s -> books s (m s).2.
Lemma books_steps {E A} P (m : M St E A) : steps books m -> books_from P m.
Proof. intros Hm s Hp _. by apply Hm. Qed.
Lemma books_quiet {E A B} P (m : M St E A) (k : A -> M St E B) :
  stable P -> steps quiet m -> steps no_new m -> (forall a, books_from P (k a)) ->
  books_from P (bind m k).
Proof.
  intros HP Hq Hn Hk s Hp Hs. unfold bind in *. pose proof (Hq s) as Hq1.
  pose proof (books_forward m (quiet_forward m Hq) Hn s) as Hb.
  destruct (m s) as [[a|e|msg] s1]; simpl in *; [|by apply Hb|done].
  intros Hbk. apply Hk; [done| |by apply Hb]. by apply (HP s); [apply Hq1|].
Qed.
Lemma books_created {E A} id e (k : unit -> M St E A) :
  steps books (k tt) ->
  books_from (absent (m_name (ex_meta e))) (bind (append_event (ExecutionCreated id e)) k).
Proof.
  intros Hk s Hp Habs. revert Hp.
  unfold bind at 1 2, append_event, build, now, bind, attempt, on_txn. simpl.
  match goal with |- not_panic (k tt ?s1).1 -> _ => intros Hp; specialize (Hk s1 Hp) end.
  intros [Hn Hr]. apply Hk. unfold booked, runs. simpl. rewrite <- insert_union_l.
  change (b_executions _ ∪ _) with (runs (h_txn s)). split; [by apply map_Forall_insert_2|].
  rewrite events_of_app. apply recorded_app.
  - intros r x (x' & Hx & Ha)%Hr. exists x'. rewrite lookup_insert_ne; [done|].
    intros Heq. unfold absent in Habs. congruence.
  - intros r x Hx. unfold events_of in Hx. simpl in Hx.
    apply list_elem_of_singleton in Hx as [= -> ->]. exists e. by rewrite lookup_insert_eq.
Qed.

#[local] Hint Resolve no_new_event : spica.
#[local] Hint Extern 1 (creates _ = false) => reflexivity : spica.

Lemma books_probe {E A} r (k : option Execution -> M St E A) :
  (forall x, steps books (k (Some x))) -> books_from (absent (ref_name r)) (k None) ->
  steps books (bind (read_flat (get_execution r)) k).
Proof.
  intros Hs Hn s. assert (read_flat (E:=E) (get_execution r) s =
    (Ok (runs (h_txn s) !! ref_name r), s)) as E1.
  { unfold read_flat, read_ok, attempt, on_txn, bind, ret. rewrite read_runs.
    destruct s. simpl. by destruct (runs _ !! _). }
  unfold bind. rewrite E1. destruct (runs (h_txn s) !! ref_name r) as [x|] eqn:Hx; [apply Hs|].
  intros Hp. by apply Hn.
Qed.

Lemma books_create p : steps books (execution_create p).
Proof.
  unfold execution_create. apply books_probe; [hsteps|]. simpl.
  do 2 (apply books_quiet; [apply absent_stable|hsteps|hsteps|intros ?]).
  apply books_quiet; [apply absent_stable|hsteps|hsteps|].
  intros [[secs|] [d|]]; try (apply books_steps, steps_rejected, _);
    (apply books_quiet; [apply absent_stable|hsteps|hsteps|]; intros t;
     match goal with |- books_from _ (bind (append_event (ExecutionCreated ?i ?e)) ?k) =>
       apply (books_created i e k) end; hsteps).
Qed.

Lemma dispatch_books c : steps books (dispatch_command c).
Proof.
  apply dispatch_steps_but_executions; [apply _|].
  unfold executions_step.
  split_and!; [apply books_create|..]; intros; apply books_forward; auto using forward_complete,
    forward_terminate, forward_continue_complete, forward_continue_terminate;
    unfold execution_complete, execution_terminate, execution_on_deadline_fired, execution_gone,
      execution_continue_complete, execution_continue_terminate; hsteps.
Qed.
End Batch.

(** ** The log, the store and the observer of a reachable node *)
Section Durability.
Context `{Engine}.
Notation LNode := (Node InMemoryDb).

Definition logged_events (n : LNode) : list Event := events_of (lg_entries (nd_log n)).

(** What the observer was told, or is about to be, is in the log. *)
Definition told (n : LNode) : Prop :=
  forall ev, on_event_applied ev ∈ nd_hooks n \/ ev ∈ nd_last_applied n ->
    ev ∈ logged_events n.
Record durable (n : LNode) : Prop := {
  du_names : own_names (db_executions (nd_storage n));
  du_recorded : recorded (logged_events n) (db_executions (nd_storage n));
  du_told : told n }.

Lemma events_timed l : events_of l = (timed_events l).*2.
Proof.
  induction l as [|e l IH]; [done|]. change (e :: l) with ([e] ++ l).
  rewrite events_of_app, timed_events_app, fmap_app, IH. f_equal.
  unfold events_of, timed_events. simpl. by destruct (en_payload e).
Qed.

Lemma process_loop_books left id c (n : LNode) p n' :
  process_loop left id c n = (Ok p, n') -> own_names (db_executions (nd_storage n)) ->
  recorded (events_of (cp_entries p)) (runs (cp_work p)) /\
  (nd_last_applied n' = events_of (cp_entries p) \/ nd_last_applied n' = nd_last_applied n).
Proof.
  assert (forall (m : LNode) q m', dispatch_once id c m = (Ok q, m') ->
    own_names (db_executions (nd_storage m)) ->
    recorded (events_of (cp_entries q)) (runs (cp_work q))) as Hd.
  { intros m q m'. unfold dispatch_once, on_storage, map_err, bind. simpl.
    change (open_context _ _ _) with (open_context m (begin_txn (nd_storage m)) id).
    set (h0 := open_context m (begin_txn (nd_storage m)) id).
    pose proof (dispatch_books c h0) as Hb.
    destruct (dispatch_command c h0) as [[[]|e|msg] h]; [|done..]. simpl in Hb.
    destruct (h_entries h) as [|e0 es] eqn:Hh; [done|]. intros [= <- _] Hn.
    cbn [cp_entries cp_work]. rewrite <- Hh.
    apply (Hb I). split; [|apply recorded_nil].
    change (own_names (runs (begin_txn (nd_storage m)))).
    by rewrite <- (agrees_runs _ _ (agrees_begin (nd_storage m))). }
  assert (forall err (m : LNode) q m', reject_command id c err m = (Ok q, m') ->
    recorded (events_of (cp_entries q)) (runs (cp_work q)) /\
    nd_last_applied m' = nd_last_applied m) as Hr.
  { intros err m q m' Hq. destruct (reject_command_spec id c err m)
      as (q' & m2 & t & r & Hq' & _ & _ & Hla & Hes & _). rewrite Hq in Hq'. simplify_eq.
    rewrite Hes. split; [apply recorded_nil|done]. }
  revert n. induction left as [|left IH]; intros n; simpl; unfold bind, attempt;
    pose proof (dispatch_once_spec id c n) as Hs; pose proof (Hd n) as Hdn;
    destruct (dispatch_once id c n) as [[q|err|m] n1]; try done.
  1, 3: intros [= <- <-] Hn; destruct Hs as (_ & _ & Hla); eauto.
  - destruct Hs as [_ Hla]. intros Hq Hn.
    assert (reject_command id c err n1 = (Ok p, n')) as Hq' by by destruct (is_unexpected err).
    apply Hr in Hq' as [? ->]. auto.
  - destruct Hs as [Hk Hla]. destruct (is_unexpected err); intros Hq Hn.
    + apply IH in Hq as [? [?|Hla']]; [by auto|simpl in Hla'; rewrite Hla' in *; auto|].
      simpl. by rewrite (keeps_storage _ _ Hk).
    + apply Hr in Hq as [? ->]. auto.
Qed.

(** The node once the batch of a command is in the log, committed or not. *)
Lemma appended_batch id cmd p (n n1 n2 : LNode) last :
  log_wf (nd_log n) -> own_names (db_executions (nd_storage n)) ->
  process_command id cmd n = (Ok p, n1) -> append_batch id (cp_entries p) n1 = (Ok last, n2) ->
  exists batch d', lg_entries (nd_log n2) = lg_entries (nd_log n) ++ batch /\
    apply_events (timed_events batch) (nd_storage n) = (Ok tt, d') /\
    recorded (events_of batch) (db_executions d') /\ nd_hooks n2 = nd_hooks n /\
    (nd_last_applied n2 = events_of batch \/ nd_last_applied n2 = nd_last_applied n).
Proof.
  intros Hwf Hn Hpc Hab. pose proof (process_command_spec id cmd n) as Hs. rewrite Hpc in Hs.
  destruct Hs as [Hk [_ _ _ (d' & Ha & Hag & _)]].
  destruct (process_loop_books _ _ _ _ _ _ Hpc Hn) as [Hrec Hla].
  destruct (append_batch_spec id (cp_entries p) n1) as (n2' & batch & Hab' & Hg & _ & _ & Ht & _);
    [by rewrite (keeps_log _ _ Hk)|].
  rewrite Hab in Hab'. simplify_eq.
  apply append_batch_keeps in Hab as [Hh2 Hla2]. exists batch, d'.
  rewrite Hg, (keeps_log _ _ Hk), Ht, Hh2, Hla2, (keeps_hooks _ _ Hk).
  rewrite (agrees_runs _ _ Hag), (events_timed batch), Ht, <- events_timed. done.
Qed.

(** A step extends the log by a batch whose creations the folded store records. *)
Definition extended (n n' : LNode) : Prop := exists batch d',
  lg_entries (nd_log n') = lg_entries (nd_log n) ++ batch /\
  apply_events (timed_events batch) (nd_storage n) = (Ok tt, d') /\
  recorded (events_of batch) (db_executions d').

Lemma extended_quiet (n n' : LNode) batch :
  lg_entries (nd_log n') = lg_entries (nd_log n) ++ batch -> timed_events batch = [] ->
  extended n n'.
Proof.
  intros Hg Ht. exists batch, (nd_storage n). rewrite events_timed, Ht.
  split_and!; [done..|apply recorded_nil].
Qed.
Lemma logged_grows (n n' : LNode) ev :
  extended n n' -> ev ∈ logged_events n -> ev ∈ logged_events n'.
Proof.
  intros (b & _ & Hg & _) Hev. unfold logged_events. rewrite Hg, events_of_app. set_solver.
Qed.

(** The store of a synced node records what an extension of its log announces. *)
Lemma extended_recorded (n n' : LNode) :
  synced n -> synced n' -> extended n n' ->
  own_names (db_executions (nd_storage n)) ->
  runs_le (db_executions (nd_storage n)) (db_executions (nd_storage n')) ->
  recorded (logged_events n) (db_executions (nd_storage n)) ->
  recorded (logged_events n') (db_executions (nd_storage n')).
Proof.
  intros Hs Hs' (batch & d' & Hg & Ha & Hb) Hn Hle Hr. unfold logged_events.
  rewrite Hg, events_of_app. apply recorded_app; [by eapply recorded_le|].
  destruct (synced_append n batch d' (nd_log n') Hs Hg Ha) as [_ (d & Hd & Hsd)].
  destruct (sy_fold _ Hs') as (d2 & Hd2 & Hsd2). rewrite Hd in Hd2. injection Hd2 as <-.
  by rewrite (same_executions _ _ Hsd2), <- (same_executions _ _ Hsd).
Qed.

(** ** What the observer is told *)

Lemma told_lead e cmd (n n' : LNode) :
  log_wf (nd_log n) -> own_names (db_executions (nd_storage n)) -> told n ->
  en_payload e = PCommand cmd -> lead_entry e n = (Ok tt, n') ->
  extended n n' /\ told n' /\ nd_hooks n `prefix_of` nd_hooks n'.
Proof.
  intros Hwf Hn Ht Hp. unfold lead_entry. rewrite Hp. unfold bind at 1.
  pose proof (process_command_spec (en_entry_id e) cmd n) as Hs.
  destruct (process_command (en_entry_id e) cmd n) as [[p| |] n1] eqn:Hpc; try done.
  destruct Hs as [_ Hb]. pose proof (batch_nonempty _ _ _ Hb) as Hne.
  destruct (cp_entries p) as [|e0 es] eqn:Hes; [done|]. rewrite <- Hes in *. clear Hne.
  unfold bind at 1 2. destruct (append_batch _ _ n1) as [[last| |] n2] eqn:Hab; try done.
  destruct (appended_batch _ _ _ _ _ _ _ Hwf Hn Hpc Hab)
    as (batch & d' & Hg & Ha & Hr & Hh & Hla).
  unfold bind, map_err, on_storage. destruct (commit_txn _ _ _) as [[[]| |] s3]; try done.
  unfold modify, after_commit, modify. cbn [res_map_err]. intros [= <-].
  split_and!; [by exists batch, d'| |simpl; rewrite Hh, <- app_assoc; by eexists].
  intros ev Hev. unfold logged_events. simpl in *.
  rewrite Hg, events_of_app. apply elem_of_app.
  destruct Hev as [[[Hev|Hev]%elem_of_app|Hev]%elem_of_app|?%elem_of_nil]; [..|done].
  - left. apply Ht. left. by rewrite <- Hh.
  - apply list_elem_of_fmap in Hev as (ev' & [= <-] & Hin).
    destruct Hla as [Hla|Hla]; rewrite Hla in Hin; [by right|left]. apply Ht. by right.
  - by apply list_elem_of_fmap in Hev as (r & ? & _).
Qed.

Lemma told_recover_entry inflight e (n n2 : LNode) i2 :
  told n -> e ∈ lg_entries (nd_log n) -> recover_entry inflight e n = (Ok i2, n2) ->
  told n2 /\ nd_log n2 = nd_log n.
Proof.
  intros Ht He. unfold recover_entry.
  destruct (en_payload e) as [c|ev|r|] eqn:Hp; [by intros [= _ <-]| |by intros [= _ <-]|].
  - assert (forall t, bind (leader_apply_event t (en_timestamp e) (en_cause_id e) ev)
      (fun a => ret (Some a.2)) n = (Ok i2, n2) -> told n2 /\ nd_log n2 = nd_log n) as Hgo.
    { intros t. unfold bind, leader_apply_event.
      destruct (dispatch_event (en_timestamp e) ev t) as [[[]| |] t']; try done.
      assert (ev ∈ logged_events n) as Hev.
      { unfold logged_events, events_of. apply list_elem_of_omap. exists e. by rewrite Hp. }
      destruct (en_cause_id e); [case_decide|]; intros [= _ <-]; (split; [|done]);
        (intros x [Hx|Hx%list_elem_of_singleton]; [apply Ht; by left|by subst]). }
    unfold bind at 1. destruct inflight as [t|]; [apply Hgo|].
    unfold map_err, on_storage. simpl. destruct n. apply Hgo.
  - destruct inflight as [t|]; [|by intros [= _ <-]].
    unfold bind, map_err, on_storage. simpl. by intros [= _ <-].
Qed.
Lemma told_recover fuel pos inflight (n n' : LNode) :
  told n -> recover_loop fuel pos inflight n = (Ok tt, n') -> told n'.
Proof.
  revert pos inflight n. induction fuel as [|fuel IH]; intros pos inflight n Ht; [done|].
  simpl. unfold bind at 1, get_st. unfold bind at 1, lift_res, log_read. simpl.
  destruct (entry_at (nd_log n) pos) as [e|] eqn:He; [|by intros [= <-]].
  apply entry_at_lookup in He as [_ He]. apply list_elem_of_lookup_2 in He. unfold bind.
  destruct (recover_entry inflight e n) as [[i2| |] n2] eqn:Hr; try done.
  apply IH. by eapply told_recover_entry.
Qed.
Lemma told_start (n n' : LNode) c : start_leader (restart n) = (Ok c, n') -> told n'.
Proof.
  unfold start_leader, recover_leader, on_storage, map_err, bind, modify, get_st.
  cbn [last_processed_position memory_storage nd_storage res_map_err].
  destruct (recover_loop _ _ _ _) as [[[]| |] n2] eqn:Hr; try done.
  apply told_recover in Hr; [|by intros ev [?%elem_of_nil|?%elem_of_nil]]. by intros [= _ <-].
Qed.

Lemma told_same (n n' : LNode) :
  told n -> nd_hooks n' = nd_hooks n -> nd_last_applied n' = nd_last_applied n ->
  extended n n' -> told n'.
Proof. intros Ht Hh Hl He ev. rewrite Hh, Hl. intros Hev. by eapply logged_grows, Ht. Qed.
Lemma submit_keeps cmd (n n' : LNode) :
  submit_command cmd n = (Ok tt, n') ->
  nd_hooks n' = nd_hooks n /\ nd_last_applied n' = nd_last_applied n.
Proof.
  unfold submit_command, node_now, closed_append, ret, bind. cbv beta iota.
  cbn [last is_noop en_payload]. unfold node_now. cbv beta iota.
  match goal with |- context [log_append ?g ?x] => destruct (log_append g x) as [[] ?] end;
    try done. by intros [= <-].
Qed.

(** ** Every reachable node *)

Lemma sys_step_extends s s' :
  sys_step s s' -> sys_inv s -> durable s.1 -> extended s.1 s'.1 /\ told s'.1.
Proof.
  intros Hstep [Hs Hw] [Hn _ Ht]. destruct Hstep as [n c cmd n' Hsub|n c e n' He Hl|n c n' c' Hst|
    n c e cmd p n1 last n2 n' c' He Hp Hpc Hab Hst]; simpl in Hs, Hw, Hn, Ht |- *.
  - destruct (submit_spec cmd n (sy_wf _ Hs)) as (n2 & b & Hsub' & Hg & _ & _ & Hpl & _).
    rewrite Hsub in Hsub'. injection Hsub' as <-.
    assert (extended n n') as Hex.
    { apply (extended_quiet _ _ b Hg), timed_events_none. rewrite Hpl. by repeat constructor. }
    split; [done|]. destruct (submit_keeps _ _ _ Hsub). by eapply told_same.
  - assert (extended n n) as Hrefl.
    { apply (extended_quiet _ _ []); [by rewrite app_nil_r|done]. }
    destruct (en_payload e) as [cmd|ev|r|] eqn:Hp.
    + destruct (told_lead e cmd n n' (sy_wf _ Hs) Hn Ht Hp Hl) as (? & ? & _). done.
    + rewrite (event_applied n c e ev Hs Hw He Hp) in Hl. by injection Hl as <-.
    + unfold lead_entry in Hl. rewrite Hp in Hl. by injection Hl as <-.
    + unfold lead_entry in Hl. rewrite Hp in Hl. by injection Hl as <-.
  - destruct (synced_restart n Hs) as (n2 & Hst' & Hlog & _). split; [|by eapply told_start].
    rewrite Hst in Hst'. injection Hst' as -> <-. apply (extended_quiet _ _ []); [|done].
    by rewrite app_nil_r, Hlog.
  - destruct (crash_inv e cmd p n n1 n2 last Hs Hp Hpc Hab) as (n3 & Hst' & Hlog & _).
    split; [|by eapply told_start]. rewrite Hst in Hst'. injection Hst' as -> <-.
    destruct (appended_batch _ _ _ _ _ _ _ (sy_wf _ Hs) Hn Hpc Hab)
      as (b & d' & Hg & Ha & Hr & _).
    exists b, d'. by rewrite Hlog.
Qed.

Lemma sys_step_durable s s' : sys_step s s' -> sys_inv s -> durable s.1 -> durable s'.1.
Proof.
  intros Hstep Hi Hd. destruct (sys_step_extends _ _ Hstep Hi Hd) as [He Ht].
  pose proof (sys_step_runs _ _ Hstep Hi) as Hr. pose proof (sys_step_inv _ _ Hstep Hi) as Hi'.
  destruct Hd as [Hn Hrec _]. destruct (Hr Hn) as [Hn' _]. split; [done| |done].
  eapply extended_recorded; [apply Hi|apply Hi'|done..].
Qed.
Lemma steps_durable s s' : rtc sys_step s s' -> sys_inv s -> durable s.1 -> durable s'.1.
Proof. induction 1; eauto using sys_step_inv, sys_step_durable. Qed.
Lemma reachable_durable s : reachable s -> durable s.1.
Proof.
  intros Hr. eapply steps_durable; [exact Hr|apply sys_init_inv|]. split.
  - apply map_Forall_empty.
  - apply recorded_nil.
  - intros ev [?%elem_of_nil|?%elem_of_nil]; done.
Qed.
End Durability.

(** ** The serving process *)
Section Serving.
Context `{Engine}.
Notation LGateway := (Gateway InMemoryDb).

(** A gateway with the position its leader reads next: a caller registers, a command is
    submitted, the leader processes the next entry and the observer hears of it, the
    scheduler moves. *)
Inductive gw_step : LGateway * EntryId -> LGateway * EntryId -> Prop :=
  | gw_registers g c r t :
      gw_step (g, c) ((with_ack (E:=ExecutionError) (register r t) g).2, c)
  | gw_submits g c cmd g' :
      on_engine (submit_command cmd) g = (Ok tt, g') -> gw_step (g, c) (g', c)
  | gw_leads g c e g' :
      entry_at (nd_log (gw_node g)) c = Some e ->
      on_engine (lead_entry e) g = (Ok tt, g') -> gw_step (g, c) (g', c + 1)
  | gw_schedules g c s :
      gw_step (g, c) (mkGateway (gw_node g) (gw_ack g) s (gw_booted g), c).

(** The gateways of a process that booted over a reachable node. *)
Definition serving (x : LGateway * EntryId) : Prop :=
  exists n c s b, reachable (n, c) /\ rtc gw_step (mkGateway n AckHook_new s b, c) x.

(** Every event a caller received was told to the observer. *)
Definition backed_by (P : Event -> Prop) (h : AckHook) : Prop :=
  forall ch ev, ak_channels h !! ch = Some (Sent (Applied ev)) -> P ev.
Definition backed (g : LGateway) : Prop :=
  backed_by (fun ev => on_event_applied ev ∈ nd_hooks (gw_node g)) (gw_ack g).

Lemma backed_close (P : Event -> Prop) x ch l :
  (forall c ev, l !! c = Some (Sent (Applied ev)) -> P ev) ->
  (forall ev, x = Sent (Applied ev) -> P ev) ->
  forall c ev, close_with x ch l !! c = Some (Sent (Applied ev)) -> P ev.
Proof.
  intros Hl Hx c ev. destruct (decide (ch = c)) as [->|].
  2:{ rewrite close_with_ne by done. apply Hl. }
  unfold close_with. rewrite list_lookup_alter_eq. destruct (l !! c) as [[|o|]|] eqn:E; try done.
  - intros [= ->]. by apply Hx.
  - intros [= ->]. by eapply Hl.
Qed.
Lemma backed_register P r t h : backed_by P h -> backed_by P (register r t h).2.
Proof.
  intros Hh ch ev. simpl. intros [E|[_ E]]%lookup_app_Some.
  - destruct (ak_pending h !! r) as [[t0 c0]|]; [|by eapply Hh].
    by eapply backed_close in E; [exact E|exact Hh|].
  - by apply list_lookup_singleton_Some in E as [_ [=]].
Qed.
Lemma backed_fold P calls h :
  backed_by P h -> (forall ev, on_event_applied ev ∈ calls -> P ev) ->
  backed_by P (foldl (fun h c => ack_hook c h) h calls).
Proof.
  revert h. induction calls as [|call calls IH]; intros h Hh Hc; [done|]. simpl.
  apply IH; [|intros ev Hev; apply Hc; by right]. intros ch ev. rewrite ack_hook_eq.
  destruct (call_id call) as [r|]; [|apply Hh].
  destruct (ak_pending h !! r) as [[t c0]|]; [|apply Hh]. simpl.
  apply backed_close; [exact Hh|]. intros ev' Hv. apply Hc, elem_of_cons; left.
  destruct call as [x|]; simpl in Hv; [|done]. destruct (resolves x) as [[r' t']|]; [|done].
  case_decide; [|done]. destruct x; by simplify_eq.
Qed.
Lemma backed_observe (g : LGateway) n :
  nd_hooks (gw_node g) `prefix_of` nd_hooks n -> backed g -> backed (observe g n).
Proof.
  intros [calls Hh] Hg. unfold backed, observe. rewrite Hh, drop_app_length, composite_fold.
  simpl. rewrite Hh. apply backed_fold; [|set_solver]. intros ch ev E%Hg. set_solver.
Qed.

Lemma lead_hooks e c (n n' : Node InMemoryDb) :
  reachable (n, c) -> entry_at (nd_log n) c = Some e -> lead_entry e n = (Ok tt, n') ->
  nd_hooks n `prefix_of` nd_hooks n'.
Proof.
  intros Hr He Hl. destruct (reachable_inv _ Hr) as [Hs Hw]. destruct (reachable_durable _ Hr).
  simpl in *. destruct (en_payload e) as [cmd|ev|rj|] eqn:Hp.
  - destruct (told_lead e cmd n n' (sy_wf _ Hs) du_names0 du_told0 Hp Hl) as (_ & _ & ?). done.
  - rewrite (event_applied n c e ev Hs Hw He Hp) in Hl. by injection Hl as <-.
  - unfold lead_entry in Hl. rewrite Hp in Hl. by injection Hl as <-.
  - unfold lead_entry in Hl. rewrite Hp in Hl. by injection Hl as <-.
Qed.

Lemma observed_node (g : LGateway) n : gw_node (observe g n) = n.
Proof. unfold observe. by destruct (foldl _ _ _). Qed.

Definition serves (x : LGateway * EntryId) : Prop := reachable (gw_node x.1, x.2) /\ backed x.1.
Lemma gw_step_serves x x' : gw_step x x' -> serves x -> serves x'.
Proof.
  intros Hstep [Hr Hb]. destruct Hstep as [g c r t|g c cmd g' Hs|g c e g' He Hl|g c s];
    cbn [fst snd] in *.
  - split; [done|]. exact (backed_register _ r t _ Hb).
  - unfold on_engine in Hs. destruct (submit_command cmd (gw_node g)) as [res n] eqn:Hn.
    injection Hs as -> <-. split.
    + cbn [fst snd]. rewrite observed_node. eapply rtc_r; [exact Hr|]. by eapply step_submit.
    + apply backed_observe; [|done]. by destruct (submit_keeps _ _ _ Hn) as [-> _].
  - unfold on_engine in Hl. destruct (lead_entry e (gw_node g)) as [res n] eqn:Hn.
    injection Hl as -> <-. split.
    + cbn [fst snd]. rewrite observed_node. eapply rtc_r; [exact Hr|]. by eapply step_lead.
    + apply backed_observe; [|done]. by eapply lead_hooks.
  - done.
Qed.
Lemma serving_serves x : serving x -> serves x.
Proof.
  intros (n & c & s & b & Hr & Hs).
  assert (serves (mkGateway n AckHook_new s b, c)) as H0.
  { split; [done|]. intros ch ev. simpl. by rewrite lookup_nil. }
  clear Hr. induction Hs; eauto using gw_step_serves.
Qed.
End Serving.
