(* ===== verification/CacheFacts.v ===== *)
(** The cache of parsed expressions is sound in every reachable state: whatever a command
    evaluates, and wherever the leader stops, an entry is what the parser returns. *)
From S2P Require Import Prelude Names Timestamp Json Asl Errors Meta Entities Tasks Commands.
From S2P Require Import LogStream Storage StorageFacts Applier ApplierFacts Eval Handler Dispatch.
From S2P Require Import HandlerFacts Leader StreamProcessor StreamFacts System.
Local Open Scope Z_scope.

(** ** Handlers *)
Section Handlers.
Context `{Engine} {T : Type} `{StorageTxn T}.

Definition env_sound (s s' : HSt T) : Prop := cache_ok (h_env s) -> cache_ok (h_env s').
#[export] Instance env_sound_preorder : PreOrder env_sound.
Proof. unfold env_sound. split; [by intros s|]. intros a b c; auto. Qed.

Lemma env_on_txn {E A} (m : M T E A) : steps env_sound (on_txn m).
Proof. intros s _. unfold on_txn, env_sound. by destruct (m (h_txn s)). Qed.
#[local] Hint Resolve env_on_txn : spica.
#[export] Instance env_sound_prim : PrimSteps env_sound.
Proof.
  apply prim_steps; [split; [apply _|..]|..].
  - intros A m _. hsteps.
  - by intros E v sm s _ Hc.
  - by intros E s _ Hc.
  - by intros E s _ Hc.
  - intros E. unfold mint_generated_seq. hsteps.
  - intros E A m Hm s Hp. unfold on_env in *. specialize (Hm (h_env s)).
    destruct (m (h_env s)) as [r env']. by apply Hm.
  - intros E ev s. unfold append_event, build, now, bind, attempt, on_txn, env_sound. simpl.
    by destruct (dispatch_event _ ev _) as [[] t'].
  - by intros E c s _ Hc.
  - by intros E i t r s _ Hc.
Qed.
End Handlers.

(** ** The leader *)
Section Nodes.
Context `{Engine}.
Notation LNode := (Node InMemoryDb).

Definition cache_sound (n n' : LNode) : Prop := cache_ok (nd_env n) -> cache_ok (nd_env n').
#[export] Instance cache_sound_preorder : PreOrder cache_sound.
Proof. unfold cache_sound. split; [by intros s|]. intros a b c; auto. Qed.

Lemma cache_on_storage {E A} (m : M InMemoryDb E A) : steps cache_sound (on_storage m).
Proof. intros n _. unfold on_storage, cache_sound. by destruct (m (nd_storage n)). Qed.
Lemma cache_node_now {E} : steps (E:=E) cache_sound node_now.
Proof. by intros n _ Hc. Qed.
Lemma cache_modify {E} f :
  (forall n, nd_env (f n) = nd_env n) -> steps (E:=E) cache_sound (modify f).
Proof. intros Hf n _. unfold cache_sound. simpl. by rewrite Hf. Qed.
#[local] Hint Resolve cache_on_storage cache_node_now : spica.
#[local] Hint Extern 1 (steps _ (modify _)) => apply cache_modify; reflexivity : spica.

Lemma cache_dispatch_once id c : steps cache_sound (dispatch_once id c).
Proof.
  unfold dispatch_once. apply steps_bind; [apply _|hsteps|]. intros w n.
  pose proof (dispatch_steps env_sound c (open_context n w id)) as Hd.
  destruct (dispatch_command c _) as [[]h]; simpl in *; [|by intros _; apply Hd|done].
  destruct (h_entries h); [done|]. intros _. by apply Hd.
Qed.
#[local] Hint Resolve cache_dispatch_once : spica.
Lemma cache_process k id c : steps cache_sound (process_loop k id c).
Proof.
  induction k as [|k IH]; simpl; hsteps; unfold reject_command; hsteps.
Qed.
Lemma cache_closed_append es : steps cache_sound (closed_append es).
Proof.
  unfold closed_append. apply steps_bind; [apply _|hsteps|]. intros l n _.
  unfold cache_sound. by destruct (log_append _ _).
Qed.
#[local] Hint Resolve cache_process cache_closed_append : spica.
Lemma cache_submit c : steps cache_sound (submit_command c).
Proof. unfold submit_command. hsteps. Qed.
Lemma cache_lead e : steps cache_sound (lead_entry e).
Proof. unfold lead_entry, process_command, append_batch, after_commit. hsteps. Qed.

Lemma cache_recover_entry i e : steps cache_sound (recover_entry i e).
Proof.
  unfold recover_entry. hsteps. intros n. unfold leader_apply_event, cache_sound.
  destruct (dispatch_event _ _ _) as [[] t']; try done. destruct (en_cause_id e); [|done].
  by case_decide.
Qed.
#[local] Hint Resolve cache_recover_entry : spica.
Lemma cache_recover fuel : forall pos i, steps cache_sound (recover_loop fuel pos i).
Proof. induction fuel as [|fuel IH]; intros pos i; simpl; hsteps. Qed.
#[local] Hint Resolve cache_recover : spica.
Lemma cache_start : steps cache_sound start_leader.
Proof. unfold start_leader, recover_leader. hsteps. Qed.

(** ** The system *)

Lemma steps_ok {S E A} (R : relation S) (m : M S E A) s a s' :
  steps R m -> m s = (Ok a, s') -> R s s'.
Proof. intros Hm Ha. specialize (Hm s). rewrite Ha in Hm. by apply Hm. Qed.
Lemma empty_cache : cache_ok EvalEnv_new.
Proof. exact (map_Forall_empty _). Qed.
Lemma start_cache (n n' : LNode) c :
  start_leader (restart n) = (Ok c, n') -> cache_ok (nd_env n').
Proof. intros Hs. apply (steps_ok _ _ _ _ _ cache_start Hs), empty_cache. Qed.

(** The cache is sound, and the leader is between the first entry and the end of the log. *)
Record tidy (s : Sys) : Prop := {
  ti_cache : cache_ok (nd_env s.1);
  ti_first : 1 <= s.2;
  ti_last : s.2 <= Z.of_nat (length (lg_entries (nd_log s.1))) + 1 }.

Lemma resume_tidy (n : LNode) :
  cache_ok (nd_env n) -> sys_inv (n, Z.of_nat (resume_at n) + 1) ->
  tidy (n, Z.of_nat (resume_at n) + 1).
Proof. intros Hc [[] _]. split; simpl in *; [done|lia..]. Qed.
Lemma lead_log e (n n' : LNode) :
  log_wf (nd_log n) -> lead_entry e n = (Ok tt, n') ->
  (length (lg_entries (nd_log n)) <= length (lg_entries (nd_log n')))%nat.
Proof.
  intros Hwf Hl. destruct (en_payload e) as [cmd|ev|r|] eqn:Hp.
  - destruct (lead_command e cmd n n' Hwf Hp Hl) as (batch & _ & Hg & _). rewrite Hg, length_app. lia.
  - unfold lead_entry, bind, get_st in Hl. rewrite Hp in Hl.
    destruct (debug_assertions && _); [done|]. by injection Hl as <-.
  - unfold lead_entry in Hl. rewrite Hp in Hl. by injection Hl as <-.
  - unfold lead_entry in Hl. rewrite Hp in Hl. by injection Hl as <-.
Qed.

Lemma sys_step_tidy s s' : sys_step s s' -> sys_inv s -> tidy s -> tidy s'.
Proof.
  intros Hstep [Hs _] [Hc Hp Hle]. destruct Hstep as [n c cmd n' Hsub|n c e n' He Hl|n c n' c' Hst|
    n c e cmd p n1 last n2 n' c' He Hpc Hcm Hab Hst]; simpl in *.
  - destruct (submit_spec cmd n (sy_wf _ Hs)) as (n2 & b & Hsub' & Hg & _).
    rewrite Hsub in Hsub'. injection Hsub' as <-.
    split; simpl; [by apply (steps_ok _ _ _ _ _ (cache_submit cmd) Hsub)|done|].
    rewrite Hg, length_app. lia.
  - split; simpl; [by apply (steps_ok _ _ _ _ _ (cache_lead e) Hl)|lia|].
    pose proof (lead_log _ _ _ (sy_wf _ Hs) Hl). unfold entry_at in He.
    case_decide; [|done]. apply lookup_lt_Some in He. lia.
  - destruct (synced_restart n Hs) as (n2 & Hst' & _ & Hinv & _). rewrite Hst in Hst'.
    injection Hst' as -> <-. apply resume_tidy; [by eapply start_cache|done].
  - destruct (crash_inv e cmd p n n1 n2 last Hs Hpc Hcm Hab) as (n3 & Hst' & _ & Hinv & _).
    rewrite Hst in Hst'. injection Hst' as -> <-. apply resume_tidy; [by eapply start_cache|done].
Qed.
Lemma steps_tidy s s' : rtc sys_step s s' -> sys_inv s -> tidy s -> tidy s'.
Proof. induction 1; eauto using sys_step_tidy, sys_step_inv. Qed.
Lemma reachable_tidy s : reachable s -> tidy s.
Proof.
  intros Hr. apply (steps_tidy _ _ Hr sys_init_inv). split; [apply empty_cache|done..].
Qed.
End Nodes.
