(* ===== verification/WorkQueue.v ===== *)
(** The leader and its log as a work queue: the commands from the position of the leader on are
    dispatched first in, first out, each over the store its predecessors left, and what a
    dispatch emits goes to the back of the queue. *)
From S2P Require Import Prelude Names Timestamp Json Asl Errors Meta Entities Tasks Commands.
From S2P Require Import LogStream Storage StorageFacts Applier ApplierFacts Eval Handler Dispatch.
From S2P Require Import Leader Projection Runs LeaderFacts StreamProcessor GatewayFacts.
From S2P Require Import HandlerLogic StreamFacts System.
Local Open Scope Z_scope.

Section WorkQueue.
Context `{Engine}.
Notation LNode := (Node InMemoryDb).

(** The commands a leader at position [c] has still to process. *)
Definition pending (n : LNode) (c : EntryId) : list Command :=
  commands_of (drop (Z.to_nat (c - 1)) (lg_entries (nd_log n))).

Lemma commands_of_app l1 l2 : commands_of (l1 ++ l2) = commands_of l1 ++ commands_of l2.
Proof. apply omap_app. Qed.

(** The view a dispatch starts from, and the node that a view was committed to. *)
Definition node_view (n : LNode) : View := mkView (nd_storage n) [] (nd_definitions n).
Record committed (n : LNode) (v : View) : Prop := {
  co_storage : exists w, nd_storage n = db_set_position (v_db v) w;
  co_defs : nd_definitions n = v_defs v;
  co_cache : cache_ok (nd_env n) }.

Lemma commands_payload l1 l2 :
  map en_payload l1 = map en_payload l2 -> commands_of l1 = commands_of l2.
Proof.
  revert l2. induction l1 as [|e1 l1 IH]; intros [|e2 l2]; try done. intros [= Hp Hps].
  change (e1 :: l1) with ([e1] ++ l1). change (e2 :: l2) with ([e2] ++ l2).
  rewrite !commands_of_app, (IH _ Hps). f_equal. unfold commands_of. simpl. by rewrite Hp.
Qed.

(** The batch of a command holds the commands of its entries. *)
Lemma append_batch_commands id es (n n' : LNode) last :
  log_wf (nd_log n) -> append_batch id es n = (Ok last, n') ->
  exists batch, lg_entries (nd_log n') = lg_entries (nd_log n) ++ batch /\
    commands_of batch = commands_of es /\ nd_storage n' = nd_storage n /\
    nd_definitions n' = nd_definitions n /\ nd_env n' = nd_env n.
Proof.
  intros Hwf. unfold append_batch, node_now, bind. simpl.
  set (n1 := mkNode _ _ _ _ _ _ _ _ _ _).
  set (l := es ++ [noop_entry (Some id) (clock_at (nd_clock n))]).
  destruct (append_closed n1 l) as (st & Happ & He & _ & Hp & _);
    [done|by unfold l; rewrite list.last_snoc|].
  rewrite Happ. intros [= <- <-]. exists st. split_and!; try done.
  rewrite (commands_payload _ _ Hp). unfold l. rewrite commands_of_app. simpl.
  by rewrite app_nil_r.
Qed.

(** The iteration on a command whose handler succeeds. *)
Lemma lead_wp e cmd (n : LNode) Q :
  log_wf (nd_log n) -> cache_ok (nd_env n) -> en_payload e = PCommand cmd ->
  wp (dispatch_command cmd) (node_view n) Q ->
  exists n' v batch, lead_entry e n = (Ok tt, n') /\ Q tt v /\ committed n' v /\
    lg_entries (nd_log n') = lg_entries (nd_log n) ++ batch /\ commands_of batch = v_cmds v.
Proof.
  intros Hwf Hc Hp Hw. set (s0 := open_context n (begin_txn (nd_storage n)) (en_entry_id e)).
  destruct (Hw s0) as ([] & s & v & Hdis & [Hd Hcm Hdf Hca] & HQ).
  { split; simpl; try done. apply flushes_begin. }
  pose proof (dispatch_once_spec (en_entry_id e) cmd n) as Hspec.
  assert (dispatch_once (en_entry_id e) cmd n =
    (Ok (mkProcessed (h_entries s) (h_txn s)),
     set_last_applied (close_context n s) (events_of (h_entries s)))) as Honce.
  { revert Hspec. unfold dispatch_once, on_storage, map_err, bind. simpl.
    change (open_context _ _ _) with s0. rewrite Hdis. by destruct (h_entries s); [intros []|]. }
  rewrite Honce in Hspec. destruct Hspec as (Hk & Hb & _).
  set (n1 := set_last_applied (close_context n s) (events_of (h_entries s))) in *.
  destruct (append_batch_spec (en_entry_id e) (h_entries s) n1)
    as (n2 & batch0 & Hab & _ & _ & _ & _ & _); [done|].
  destruct (append_batch_commands _ _ _ _ _ (Hwf : log_wf (nd_log n1)) Hab)
    as (batch & Hg & Hbc & Hst & Hdef & Henv).
  set (w := Z.of_nat (length (lg_entries (nd_log n2)))) in *.
  assert (commit_txn (h_txn s) (Some w) (nd_storage n2) =
    (Ok tt, db_set_position (v_db v) w)) as Hcommit.
  { rewrite Hst. pose proof (batch_base _ _ _ Hb) as Hbase.
    cbn [commit_txn memory_storage cp_work] in Hbase |- *.
    change (nd_storage n1) with (nd_storage n).
    replace (mkTxn (nd_storage n) (tx_batch (h_txn s))) with (h_txn s)
      by (destruct (h_txn s); simpl in *; by subst).
    by rewrite (commit_watermark _ _ w (proj2 Hd)). }
  eexists _, v, batch. split.
  { unfold lead_entry. rewrite Hp. unfold bind at 1, process_command.
    assert (process_loop (MAX_COMMAND_ATTEMPTS - 1) (en_entry_id e) cmd n =
      (Ok (mkProcessed (h_entries s) (h_txn s)), n1)) as ->.
    { simpl. unfold bind, attempt. by rewrite Honce. }
    pose proof (batch_nonempty _ _ _ Hb) as Hne. cbn [cp_entries cp_work] in *.
    destruct (h_entries s) as [|e0 es] eqn:Hes; [by destruct (Hne eq_refl)|].
    rewrite <- Hes in *. unfold bind at 1 2. rewrite Hab. unfold bind, map_err, on_storage.
    change (@Some EntryId w) with (@Some Z w). by rewrite Hcommit. }
  split; [done|]. split; [|split; [exact Hg|by rewrite Hbc]]. split; simpl.
  - by exists w.
  - rewrite Hdef. done.
  - rewrite Henv. done.
Qed.

(** ** The loop *)

(** The tail loop gets from one position to another, whatever it is given beyond. *)
Definition leads_to (x y : LNode * EntryId) : Prop :=
  exists k, forall fuel, run_leader (k + fuel) x.2 x.1 = run_leader fuel y.2 y.1.
#[export] Instance leads_to_preorder : PreOrder leads_to.
Proof.
  split; [intros x; by exists 0%nat|]. intros x y z [k1 H1] [k2 H2]. exists (k1 + k2)%nat.
  intros fuel. by rewrite <- Nat.add_assoc, H1, H2.
Qed.
Lemma leads_once (n n' : LNode) c e :
  entry_at (nd_log n) c = Some e -> lead_entry e n = (Ok tt, n') -> leads_to (n, c) (n', c + 1).
Proof.
  intros He Hl. exists 1%nat. intros fuel. simpl. unfold bind, get_st. by rewrite He, Hl.
Qed.

(** What is no command changes nothing. *)
Lemma lead_other (n : LNode) c e :
  sys_inv (n, c) -> entry_at (nd_log n) c = Some e -> commands_of [e] = [] ->
  lead_entry e n = (Ok tt, n).
Proof.
  intros [Hs Hw] He. destruct (en_payload e) as [cmd|ev|r|] eqn:Hp.
  - unfold commands_of. simpl. by rewrite Hp.
  - intros _. by eapply event_applied.
  - intros _. unfold lead_entry. by rewrite Hp.
  - intros _. unfold lead_entry. by rewrite Hp.
Qed.

Lemma entry_here (n : LNode) c :
  1 <= c -> entry_at (nd_log n) c = lg_entries (nd_log n) !! Z.to_nat (c - 1).
Proof. intros Hc. unfold entry_at. by rewrite decide_True by lia. Qed.
Lemma pending_cons (n : LNode) c e :
  1 <= c -> entry_at (nd_log n) c = Some e -> pending n c = commands_of [e] ++ pending n (c + 1).
Proof.
  intros Hc He. rewrite entry_here in He by done. unfold pending.
  rewrite (drop_S _ _ _ He). replace (Z.to_nat (c + 1 - 1)) with (S (Z.to_nat (c - 1))) by lia.
  apply (commands_of_app [e]).
Qed.

(** The loop reaches the first pending command, or the end of the log. *)
Lemma next_command (n : LNode) c :
  sys_inv (n, c) -> 1 <= c -> exists c1, 1 <= c1 /\ leads_to (n, c) (n, c1) /\
    match pending n c with
    | cmd :: rest => exists e, entry_at (nd_log n) c1 = Some e /\ en_payload e = PCommand cmd /\
                               pending n (c1 + 1) = rest
    | [] => entry_at (nd_log n) c1 = None /\ pending n c1 = []
    end.
Proof.
  intros Hi. remember (length (lg_entries (nd_log n)) - Z.to_nat (c - 1))%nat as m eqn:Hm.
  revert c Hi Hm. induction m as [m IH] using lt_wf_ind. intros c Hi -> Hc.
  destruct (entry_at (nd_log n) c) as [e|] eqn:He.
  2:{ exists c. split; [done|]. split; [reflexivity|]. pose proof He as He'.
      rewrite entry_here in He by done. apply lookup_ge_None in He. unfold pending.
      by rewrite drop_ge. }
  rewrite (pending_cons n c e Hc He). pose proof He as He'. rewrite entry_here in He by done.
  apply lookup_lt_Some in He. destruct (commands_of [e]) as [|cmd l] eqn:Hp; simpl.
  - destruct (IH (length (lg_entries (nd_log n)) - Z.to_nat (c + 1 - 1))%nat ltac:(lia) (c + 1))
      as (c1 & H1 & Hl & Hm); [done|done|lia|].
    exists c1. split; [done|]. split; [|done]. etrans; [|exact Hl].
    apply (leads_once _ _ _ e He'). by eapply lead_other.
  - exists c. split; [done|]. split; [reflexivity|]. exists e. split; [done|].
    unfold commands_of in Hp. simpl in Hp. by destruct (en_payload e); simplify_eq/=.
Qed.

(** A turn of the queue: the first command is dispatched over the store, and what it emits
    goes to the back. *)
Lemma queue_turn (n : LNode) c cmd rest Q :
  sys_inv (n, c) -> 1 <= c -> cache_ok (nd_env n) -> pending n c = cmd :: rest ->
  wp (dispatch_command cmd) (node_view n) Q ->
  exists n' c' v, leads_to (n, c) (n', c') /\ sys_inv (n', c') /\ 1 <= c' /\ Q tt v /\
    committed n' v /\ pending n' c' = rest ++ v_cmds v.
Proof.
  intros Hi Hc Hca Hp Hw. destruct (next_command n c Hi Hc) as (c1 & Hc1 & Hl & He).
  rewrite Hp in He. destruct He as (e & He & Hpe & Hrest).
  destruct (lead_wp e cmd n Q (sy_wf _ (proj1 Hi)) Hca Hpe Hw)
    as (n' & v & batch & Hle & HQ & Hco & Hg & Hb).
  exists n', (c1 + 1), v. split_and!; try done; [..|lia|].
  - etrans; [exact Hl|]. by eapply leads_once.
  - apply (sys_step_inv (n, c1)); [by eapply step_lead|exact Hi].
  - rewrite <- Hrest, <- Hb. unfold pending. rewrite entry_here in He by done.
    apply lookup_lt_Some in He. rewrite Hg, drop_app_le by lia. apply commands_of_app.
Qed.
End WorkQueue.
