(* ===== verification/Flows.v ===== *)
(** What a flow computes: a direct interpreter of definitions of Pass, Choice, Succeed and
    Fail states, and the commands of the engine against it, one lemma per command. *)
From S2P Require Import Prelude Names Timestamp Float64 Json Asl Errors Meta Entities Tasks.
From S2P Require Import Commands LogStream Storage StorageFacts Applier ApplierFacts Eval Handler.
From S2P Require Import Containers StateHandler States TaskState FanOut ActivityElement Elements.
From S2P Require Import Dispatch HandlerFacts Leader HandlerLogic.
Local Open Scope string_scope.
Local Open Scope Z_scope.

(** ** The interpreter *)
Section Interpreter.
Context `{JsonataLib}.

(** [$states] of a state that settles. *)
Definition flow_states (name : string) (input : Value) (result : option Value) : Value :=
  states_build (with_assign_ctx (with_result (States_new input name 0) result) (Some input)).

Definition assign_vars (assign : option AssignObject) (states : Value) (vars : Variables)
    : Res ExecutionError Variables :=
  match assign with
  | None => Ok vars
  | Some a =>
      res_bind (eval_ref (VObject a) states vars) (fun v =>
      match v with
      | VObject m => Ok (extend_scope vars m)
      | _ => Err (Runtime (InvalidDefinition "Assign must evaluate to a JSON object"))
      end)
  end.
Definition flow_output (output : option Value) (states : Value) (vars : Variables)
    (fallback : Value) : Res ExecutionError Value :=
  match output with None => Ok fallback | Some o => eval_ref o states vars end.
Definition string_of (s : string) (states : Value) (vars : Variables)
    : Res ExecutionError Value :=
  res_bind (extract_jsonata s) (fun inner =>
  match inner with Some i => eval_expr_ref i states vars | None => Ok (VString s) end).

(** The first rule whose condition holds. *)
Definition condition_of (c : option ChoiceCondition) (states : Value) (vars : Variables)
    : Res ExecutionError bool :=
  match c with
  | Some (CBool b) => Ok b
  | Some (CExpr e) =>
      res_bind (extract_jsonata (jx_str e)) (fun inner =>
      match inner with
      | None =>
          Err (Runtime (InvalidDefinition "Choice Condition must be a {% %} JSONata expression"))
      | Some i =>
          res_bind (eval_expr_ref i states vars) (fun v =>
          match v with
          | VBool b => Ok b
          | _ => Err (Runtime (Jsonata (jx_str e) "Condition must evaluate to a boolean"))
          end)
      end)
  | None => Ok false
  end.
Fixpoint rule_of (rules : list ChoiceRule) (states : Value) (vars : Variables)
    : Res ExecutionError (option ChoiceRule) :=
  match rules with
  | [] => Ok None
  | r :: rules' =>
      res_bind (condition_of (cr_condition r) states vars) (fun b : bool =>
      if b then Ok (Some r) else rule_of rules' states vars)
  end.
Definition choice_of (c : ChoiceState) (name : string) (states : Value) (vars : Variables)
    : Res ExecutionError (option AssignObject * option Value * string) :=
  res_bind (rule_of (cs_choices c) states vars) (fun found =>
  match found with
  | Some r => Ok (cr_assign r, cr_output r, cr_next r)
  | None =>
      match cs_default c with
      | Some d => Ok (None, None, d)
      | None => Err (Runtime (NoChoiceMatched name))
      end
  end).

(** The error a [Fail] state raises. *)
Definition failure_of (f : FailState) (name : string) (states : Value) (vars : Variables)
    : Res ExecutionError ExecutionError :=
  res_bind
    match fs_error f with
    | Some s =>
        res_bind (string_of s states vars) (fun v =>
        Ok (match v with VString s => s | _ => "States.Fail" end, [("Error", v)]))
    | None => Ok ("States.Fail", [])
    end (fun err =>
  res_bind
    match fs_cause f with
    | Some s => res_bind (string_of s states vars) (fun v => Ok (obj_insert err.2 "Cause" v))
    | None => Ok err.2
    end (fun out =>
  Ok (Runtime (StateFailed name err.1 (VObject out))))).

(** Where a state leads: to another state, or to the end of the flow. *)
Inductive Leads :=
  | ToState (next : string)
  | ToEnd
  | ToSuccess.

(** The variables and the output of a state, and its [End] or [Next]. *)
Definition settled_of (assign : option AssignObject) (output : option Value) (states : Value)
    (vars : Variables) (fallback : Value) : Res ExecutionError (Variables * Value) :=
  res_bind (assign_vars assign states vars) (fun vars' =>
  res_bind (flow_output output states vars' fallback) (fun out => Ok (vars', out))).
Definition terminal_of (end_ : option bool) (next : option string) (s : Variables * Value)
    : Res ExecutionError (Variables * Value * Leads) :=
  match end_, next with
  | Some true, _ => Ok (s, ToEnd)
  | _, Some next => Ok (s, ToState next)
  | _, None => Err (Runtime NoTerminal)
  end.

(** One state: the variables and the output it leaves and where it leads, or its error; the
    other types of state are not interpreted. *)
Definition flow_step (st : State) (name : string) (input : Value) (vars : Variables)
    : Res ExecutionError (Variables * Value * Leads) :=
  match st with
  | Pass p =>
      res_bind (settled_of (ps_assign p) (ps_output p) (flow_states name input (Some input))
        vars input) (terminal_of (ps_end p) (ps_next p))
  | Choice c =>
      let states := flow_states name input None in
      res_bind
        (res_bind (choice_of c name states vars) (fun '(assign, output, next) =>
         let assign := match assign with Some a => Some a | None => cs_assign c end in
         let output := match output with Some o => Some o | None => cs_output c end in
         res_map (pair next) (settled_of assign output states vars input)))
        (fun '(next, s) => Ok (s, ToState next))
  | Succeed s =>
      res_bind (flow_output (ss_output s) (flow_states name input (Some input)) vars input)
        (fun out => Ok (vars, out, ToSuccess))
  | Fail_ f =>
      res_bind (failure_of f name (flow_states name input None) vars) (fun e => Err e)
  | _ => Panic "not interpreted"
  end.

(** The end of a flow: an output, from its last state or from a Succeed state, or an error. *)
Inductive Outcome :=
  | Finished (out : Value)
  | Succeeded (out : Value)
  | FailedWith (e : ExecutionError).
Fixpoint flow_eval (fuel : nat) (states : gmap string State) (name : string) (input : Value)
    (vars : Variables) : option Outcome :=
  match fuel with
  | O => None
  | S fuel' =>
      st ← states !! name;
      match flow_step st name input vars with
      | Ok (vars', out, ToState next) => flow_eval fuel' states next out vars'
      | Ok (_, out, ToEnd) => Some (Finished out)
      | Ok (_, out, ToSuccess) => Some (Succeeded out)
      | Err e => Some (FailedWith e)
      | Panic _ => None
      end
  end.
End Interpreter.

(** ** A running execution in the store *)
Section Commands.
Context `{Engine}.

(** The execution [x] of version [fv] runs, with one thread [th] whose scope is [vars] and
    whose live children are [kids]; the counter of generated names has room for [room] more. *)
Record running (fv : ObjectRef FlowVersionKind) (x : ObjectRef ExecutionKind)
    (th : ObjectRef ThreadKind) (vars : Variables) (kids : gset RawObjectRef) (room : Z)
    (d : InMemoryDb) : Prop := {
  ru_exec : exists e, db_executions d !! ref_name x = Some e /\ object_ref (ex_meta e) = x /\
              ex_status e = Running /\ ex_flow_version e = fv;
  ru_thread : exists t, db_threads d !! ref_name th = Some t /\ object_ref (th_meta t) = th /\
                th_status t = Running /\ th_execution t = x /\
                m_owner (th_meta t) = OwnerExecution x;
  ru_vars : default ∅ (db_variables d !! ref_name th) = vars;
  ru_kids : db_children d (as_raw th) = kids;
  ru_threads : db_children d (as_raw x) = {[as_raw th]};
  ru_room : 0 <= db_next_generated_seq d /\ db_next_generated_seq d + room <= i64_max }.

(** The thread is in the state [name] with [input], as the activity [a]. *)
Definition entered (x : ObjectRef ExecutionKind) (th : ObjectRef ThreadKind)
    (a : ObjectRef ActivityKind) (name : string) (input : Value) (d : InMemoryDb) : Prop :=
  exists act, db_activities d !! ref_name a = Some act /\ object_ref (ac_meta act) = a /\
    m_owner (ac_meta act) = th /\ ac_execution act = x /\
    ac_state_path act = sp_state sp_root name /\ ac_status act = Running /\
    ac_raw_input act = input /\ ac_retry_state act = None /\ ac_output act = None.

(** The states the interpreter covers do nothing when entered. *)
Definition flow_state (st : State) : Prop :=
  match st with Pass _ | Choice _ | Succeed _ | Fail_ _ => True | _ => False end.

Lemma raw_kinds (x : ObjectRef ExecutionKind) (th : ObjectRef ThreadKind) : as_raw x <> as_raw th.
Proof. done. Qed.

(** What a state does to the store leaves the rows of the run alone. *)
Lemma running_update fv x th vars vars' kids kids' room room' d d' :
  running fv x th vars kids room d ->
  db_executions d' = db_executions d -> db_threads d' = db_threads d ->
  default ∅ (db_variables d' !! ref_name th) = vars' ->
  db_children d' (as_raw th) = kids' ->
  db_children d' (as_raw x) = db_children d (as_raw x) ->
  0 <= db_next_generated_seq d' /\ db_next_generated_seq d' + room' <= i64_max ->
  running fv x th vars' kids' room' d'.
Proof.
  intros [] Hx Ht Hv Hk Hxk Hq. split; rewrite ?Hx, ?Ht, ?Hxk; done.
Qed.

(** ** Reading the store *)
Ltac wp_read := first [eapply wp_rd | eapply wp_sto | eapply wp_read_flat];
  [solve [eauto with spica typeclass_instances]|reflexivity|].

Lemma wp_thread_machine fv x th vars kids room sm (t : Thread) v Q :
  running fv x th vars kids room (v_db v) -> db_threads (v_db v) !! ref_name th = Some t ->
  v_defs v !! fv = Some sm -> Q sm v -> wp (machine_for_thread t) v Q.
Proof.
  intros [(e & He & _ & _ & Hfv) (t' & Ht' & _ & _ & Hx & _) _ _ _ _] Ht Hsm HQ.
  rewrite Ht in Ht'. injection Ht' as <-. unfold machine_for_thread, resolve_thread_flow_version.
  apply wp_bind, wp_bind. wp_read. rewrite Hx, He. apply wp_ret. rewrite Hfv.
  by apply (wp_machine_cached _ sm).
Qed.
Lemma wp_machine_or_reject what fv x th vars kids room sm (t : Thread) v Q :
  running fv x th vars kids room (v_db v) -> db_threads (v_db v) !! ref_name th = Some t ->
  v_defs v !! fv = Some sm -> Q sm v -> wp (machine_or_reject what t) v Q.
Proof.
  intros Hr Ht Hsm HQ. unfold machine_or_reject. apply wp_bind, wp_attempt.
  eapply wp_thread_machine; [done..|]. by apply wp_ret.
Qed.
Lemma wp_state_or_reject what sm name st v Q :
  sm_states sm !! name = Some st -> Q st v ->
  wp (state_or_reject what sm (sp_state sp_root name)) v Q.
Proof.
  intros Hst HQ. unfold state_or_reject. rewrite (state_at_scope sm _ _ _ (scope_root sm)), Hst.
  by apply wp_ret.
Qed.

(** ** Entering a state *)

Lemma children_added (d d' : InMemoryDb) (p c q : RawObjectRef) :
  db_edges d' = db_edges d ∪ {[(p, c)]} ->
  db_children d' q = (if decide (q = p) then {[c]} else ∅) ∪ db_children d q.
Proof.
  intros He. apply set_eq. intros y. rewrite elem_of_union, !elem_of_db_children, He.
  case_decide; set_solver.
Qed.
Lemma children_removed (d d' : InMemoryDb) (p c q : RawObjectRef) :
  db_edges d' = db_edges d ∖ {[(p, c)]} ->
  db_children d' q = if decide (q = p) then db_children d q ∖ {[c]} else db_children d q.
Proof.
  intros He. apply set_eq. intros y.
  case_decide; rewrite ?elem_of_difference, !elem_of_db_children, He; set_solver.
Qed.

Lemma activating_event ts (a : Activity) b n d :
  m_name (ac_meta a) = Generated b n -> 0 <= n < i64_max ->
  dispatch_event ts (StateActivating a) d =
    (Ok tt, db_set_edges
       (db_set_seq (db_set_activities d (<[m_name (ac_meta a) := a]> (db_activities d)))
          (Z.max (db_next_generated_seq d) (n + 1)))
       (db_edges d ∪ {[(as_raw (m_owner (ac_meta a) : ObjectRef ThreadKind),
                        raw_object_ref (ac_meta a))]})).
Proof.
  intros Hn Hb. simpl. unfold StateActivatingApplier, bump_generated_seq, db, bind. rewrite Hn.
  assert (as_i64 n = n) as Hi.
  { unfold as_i64. rewrite Z.mod_small; unfold i64_max in *; lia. }
  unfold lift_res, i64_add. simpl. rewrite Hi.
  rewrite decide_True by (unfold i64_min, i64_max in *; lia).
  unfold map_err, writes. simpl. by rewrite Hn.
Qed.
Lemma replace_event (a act : Activity) d :
  db_activities d !! m_name (ac_meta a) = Some act ->
  replace_existing a d =
    (Ok tt, db_set_activities d (<[m_name (ac_meta a) := a]> (db_activities d))).
Proof. intros Ha. unfold replace_existing, db, map_err, bind. simpl. by rewrite Ha. Qed.

(** The hooks of a state that goes straight on. *)
Record goes_on (h : StateHandler (T:=InMemoryTxn)) : Prop := {
  go_initialize : initialize h = default_initialize;
  go_process : process_input h = default_process_input;
  go_activated : after_activated h = default_after_activated;
  go_directly : complete_directly h = true }.
Lemma flow_state_goes_on st : flow_state st -> goes_on (create st).
Proof. by destruct st. Qed.

Lemma wp_activate fv x th vars room sm name st input d defs :
  flow_state st -> sm_states sm !! name = Some st -> defs !! fv = Some sm ->
  running fv x th vars ∅ (room + 1) d -> 0 <= room ->
  wp (dispatch_command (CActivateState (mkActivateState x th (sp_state sp_root name) input)))
    (mkView d [] defs)
    (fun _ v => exists a, v_cmds v = [CCompleteState (mkCompleteState a input)] /\
       v_defs v = defs /\ running fv x th vars {[as_raw a]} room (v_db v) /\
       entered x th a name input (v_db v)).
Proof.
  intros Hst Hsm Hdef Hr Hroom. pose proof Hr as [Hx (t & Ht & Hth & Htr & Htx & Hto) Hv Hk Hxk Hq].
  unfold dispatch_command, ActivateStateHandler. cbn [as_owner as_state_path as_execution].
  apply wp_bind. wp_read. cbn [v_db]. rewrite Ht, Htr. simpl.
  apply wp_bind. eapply wp_machine_or_reject; [done..|]. apply wp_bind.
  eapply wp_state_or_reject; [done|]. destruct (flow_state_goes_on _ Hst) as [Hin Hpr Haf Hdi].
  unfold handler_activate. rewrite Hin, Hpr, Haf, Hdi. clear Hin Hpr Haf Hdi.
  unfold default_initialize, default_process_input, default_after_activated.
  cbn [as_owner as_state_path as_execution as_input].
  apply wp_bind, wp_mint. intros uid. apply wp_bind, wp_seq; [simpl; lia|].
  cbn [v_db to_db v_cmds v_defs]. set (n := db_next_generated_seq d) in *.
  apply wp_bind, wp_now. intros t0. apply wp_bind. wp_read.
  set (nm := generated_from_key (base (ref_name x)) n).
  apply wp_bind, wp_event. intros ts. eexists.
  split; [apply (activating_event _ _ (base (ref_name x)) n); [done|lia]|].
  cbn [v_db to_db v_cmds v_defs ac_meta build_meta m_name m_owner ac_raw_input].
  apply wp_bind, wp_now. intros t1. apply wp_bind, wp_attempt.
  apply (wp_on_env _ (input, mkActivity (build_meta uid nm (clock_at t0) (th : OwnedBy ActivityKind)) x
    (sp_state sp_root name) Running input None None None None None)); [by intros env|].
  apply wp_bind, wp_now. intros t2. apply wp_bind, wp_event. intros ts2. eexists.
  split; [eapply replace_event; simpl; by rewrite lookup_insert_eq|].
  apply wp_bind, wp_attempt, wp_ret, wp_command. cbn [v_db to_db v_cmds v_defs to_cmds app].
  exists (mkRef nm uid). split; [done|]. split; [done|]. split.
  - eapply running_update; [exact Hr|done|done|exact Hv|..|simpl; lia].
    + rewrite (children_added d _ (as_raw th) (as_raw (mkRef nm uid : ObjectRef ActivityKind)))
        by done.
      rewrite decide_True, Hk by done. apply right_id_L, _.
    + rewrite (children_added d _ (as_raw th) (as_raw (mkRef nm uid : ObjectRef ActivityKind)))
        by done.
      rewrite decide_False by apply raw_kinds. apply left_id_L, _.
  - eexists. split; [simpl; apply lookup_insert_eq|]. done.
Qed.

(** ** Evaluation *)

Lemma string_computes s states vars :
  computes (eval_string_or_expr s states vars) (string_of s states vars).
Proof.
  apply computes_bind; [apply computes_lift_res|].
  intros [i|]; [apply eval_expr_computes|apply computes_ret].
Qed.
Lemma computes_throw {A} e : computes (A:=A) (throw e) (Err e).
Proof. by intros env. Qed.

(** The rules of a [Choice], tried in order. *)
Lemma condition_computes c states vars :
  computes (condition_holds c states vars) (condition_of c states vars).
Proof.
  destruct c as [[b|e]|]; simpl; [apply computes_ret| |apply computes_ret].
  apply computes_bind; [apply computes_lift_res|]. intros [i|]; [|apply computes_throw].
  apply computes_bind; [apply eval_expr_computes|].
  intros []; first [apply computes_ret | apply computes_throw].
Qed.
Lemma rules_compute rules states vars :
  computes (first_match rules states vars) (rule_of rules states vars).
Proof.
  induction rules as [|rule rules IH]; simpl; [apply computes_ret|].
  apply computes_bind; [apply condition_computes|]. intros []; [apply computes_ret|done].
Qed.
Lemma choice_computes c states vars name :
  computes (resolve_choice c states vars name) (choice_of c name states vars).
Proof.
  apply computes_bind; [apply rules_compute|]. intros [r|]; [apply computes_ret|].
  destruct (cs_default c); [apply computes_ret|apply computes_throw].
Qed.
Lemma failure_computes f a states vars :
  computes (fail_reason f a states vars)
    (res_map (fun e => Failed e) (failure_of f (state_name (ac_state_path a)) states vars)).
Proof.
  assert (forall A B C (r : Res ExecutionError A) (f : A -> Res ExecutionError B) (g : B -> C),
    res_map g (res_bind r f) = res_bind r (fun a => res_map g (f a))) as Hmap by by intros ? ? ? [].
  unfold failure_of. rewrite Hmap. apply computes_bind.
  - destruct (fs_error f); [|apply computes_ret]. apply computes_bind; [apply string_computes|].
    intros v. apply computes_ret.
  - intros err. rewrite Hmap. apply computes_bind; [|intros out; apply computes_ret].
    destruct (fs_cause f); [|apply computes_ret]. apply computes_bind; [apply string_computes|].
    intros v. apply computes_ret.
Qed.

(** ** Settling a state *)
Section Settling.
Context (fv : ObjectRef FlowVersionKind) (x : ObjectRef ExecutionKind)
  (th : ObjectRef ThreadKind) (room : Z)
  (defs : gmap (ObjectRef FlowVersionKind) StateMachine) (name : string) (input : Value).

(** The activity [a], on its way out of the state [name]. *)
Record settling (a : Activity) (d : InMemoryDb) : Prop := {
  se_row : db_activities d !! m_name (ac_meta a) = Some a;
  se_owner : owner_of a = th;
  se_execution : ac_execution a = x;
  se_path : ac_state_path a = sp_state sp_root name;
  se_status : ac_status a = Completing;
  se_input : ac_raw_input a = input;
  se_result : ac_raw_output a = Some input;
  se_retry : ac_retry_state a = None;
  se_output : ac_output a = None }.

(** Between two commands of the run: what was emitted, and the run with no live state; with
    the activity [a] still settling. *)
Definition between (vars : Variables) (cmds : list Command) (v : View) : Prop :=
  v_cmds v = cmds /\ v_defs v = defs /\ running fv x th vars ∅ room (v_db v).
Definition at_work (a : Activity) (vars : Variables) (cmds : list Command) (v : View) : Prop :=
  v_cmds v = cmds /\ v_defs v = defs /\
  running fv x th vars {[as_raw (self_of a)]} room (v_db v) /\ settling a (v_db v).

Lemma close_event (a act : Activity) d :
  db_activities d !! m_name (ac_meta a) = Some act ->
  close_existing a d =
    (Ok tt, db_set_edges (db_set_activities d (<[m_name (ac_meta a) := a]> (db_activities d)))
       (db_edges d ∖ {[(as_raw (owner_of act), raw_object_ref (ac_meta a))]})).
Proof. intros Ha. unfold close_existing, db, map_err, bind. simpl. by rewrite Ha. Qed.

(** The activity [b] is closed: the thread has no live state left. *)
Lemma closed_running (b act : Activity) vars v :
  running fv x th vars {[as_raw (self_of b)]} room (v_db v) ->
  db_activities (v_db v) !! m_name (ac_meta b) = Some act -> owner_of act = th ->
  exists d, close_existing b (v_db v) = (Ok tt, d) /\ running fv x th vars ∅ room d /\
    db_activities d !! m_name (ac_meta b) = Some b.
Proof.
  intros Hr Hact Ho. eexists. split; [by apply close_event|]. split; [|apply lookup_insert_eq].
  rewrite Ho. change (raw_object_ref (ac_meta b)) with (as_raw (self_of b)).
  eapply running_update; [exact Hr|done|done|apply Hr|..|apply Hr].
  - rewrite (children_removed (v_db v) _ (as_raw th) (as_raw (self_of b))) by done.
    rewrite decide_True, (ru_kids _ _ _ _ _ _ _ Hr) by done. set_solver.
  - rewrite (children_removed (v_db v) _ (as_raw th) (as_raw (self_of b))) by done.
    by rewrite decide_False by apply raw_kinds.
Qed.

Lemma wp_completed a vars out (k : Activity -> M (HSt InMemoryTxn) ProcessingError unit) v Q :
  at_work a vars [] v ->
  (forall b v', between vars [] v' ->
     db_activities (v_db v') !! ref_name (self_of a) = Some b -> self_of b = self_of a ->
     ac_output b = (if debug_assertions then Some out else None) -> wp (k b) v' Q) ->
  wp (let* completed := debug_assert_mark a (act_mark_completed a out) in
      append_event (StateCompleted completed) ;;; k completed) v Q.
Proof.
  intros (Hc & Hd & Hr & Hs) HQ.
  assert (forall b, m_name (ac_meta b) = m_name (ac_meta a) -> self_of b = self_of a ->
    ac_output b = (if debug_assertions then Some out else None) ->
    wp (append_event (StateCompleted b) ;;; k b) v Q) as Hb.
  { intros b Hn Hself Hb. apply wp_bind, wp_event. intros ts. rewrite <- Hself in Hr.
    destruct (closed_running b a vars v Hr) as (d & Hev & Hr' & Hrow);
      [rewrite Hn; apply Hs|apply Hs|].
    exists d. split; [exact Hev|]. apply HQ; [done| |done..]. rewrite <- Hrow. by rewrite Hn. }
  unfold debug_assert_mark, act_mark_completed. rewrite (se_status _ _ Hs).
  pose proof (se_output _ _ Hs). destruct debug_assertions; simpl.
  - apply wp_bind, wp_bind, wp_now. intros t. apply wp_ret. by apply Hb.
  - apply wp_bind, wp_ret. by apply Hb.
Qed.

(** The same with a failure: the thread is to end, where the assertions are compiled in;
    elsewhere the row does not say so, and the thread is not told. *)
Definition after_failure (reason : TerminationReason) : list Command :=
  if debug_assertions then [CTerminateThread (mkTerminateThread th reason)] else [].
Lemma wp_terminated b act reason vars v :
  v_cmds v = [] -> v_defs v = defs ->
  running fv x th vars {[as_raw (self_of b)]} room (v_db v) ->
  db_activities (v_db v) !! m_name (ac_meta b) = Some act -> owner_of act = th ->
  ac_status b = Terminating reason \/ debug_assertions = false /\ ac_status b = Completing ->
  wp (let* terminated := debug_assert_mark b (act_mark_terminated b) in
      append_event (StateTerminated terminated) ;;;
      thread_after_child_terminated th (as_raw (self_of terminated))) v
    (fun _ => between vars (after_failure reason)).
Proof.
  intros Hc Hd Hr Hact Ho Hs.
  assert (forall b', self_of b' = self_of b -> (if debug_assertions
      then ac_status b' = Terminated reason
      else ac_status b' = Terminating reason \/ ac_status b' = Completing) ->
    wp (append_event (StateTerminated b') ;;;
        thread_after_child_terminated th (as_raw (self_of b'))) v
      (fun _ => between vars (after_failure reason))) as Hb.
  { intros b' Hself Hs'. assert (m_name (ac_meta b') = m_name (ac_meta b)) as Hn
      by by injection Hself.
    apply wp_bind, wp_event. intros ts. rewrite <- Hself in Hr.
    destruct (closed_running b' act vars v Hr) as (d & Hev & Hr' & Hrow); [by rewrite Hn|done|].
    exists d. split; [exact Hev|]. unfold thread_after_child_terminated.
    destruct (ru_thread _ _ _ _ _ _ _ Hr') as (t' & Ht' & _ & Htr & _).
    apply wp_bind. wp_read. cbn [v_db to_db]. rewrite Ht', Htr. apply wp_bind.
    eapply (wp_lift_res _ (self_of b')); [by destruct (self_of b')|]. apply wp_bind. wp_read.
    cbn [v_db to_db]. change (ref_name (self_of b')) with (m_name (ac_meta b')). rewrite Hrow.
    unfold after_failure. destruct debug_assertions.
    - rewrite Hs'. apply wp_command. split; [simpl; by rewrite Hc|done].
    - destruct Hs' as [->| ->]; by apply wp_ret. }
  unfold debug_assert_mark, act_mark_terminated. destruct debug_assertions.
  - destruct Hs as [->|[? _]]; [|done]. apply wp_bind, wp_bind, wp_now. intros t. apply wp_ret.
    by apply Hb.
  - apply wp_bind, wp_ret. apply Hb; [done|]. destruct Hs as [|[_ ?]]; auto.
Qed.

Lemma wp_thread_open vars kids v Q :
  running fv x th vars kids room (v_db v) -> Q th v -> wp (thread_open th) v Q.
Proof.
  intros Hr HQ. destruct (ru_thread _ _ _ _ _ _ _ Hr) as (t & Ht & _). unfold thread_open.
  apply wp_bind. wp_read. rewrite Ht. by apply wp_ret.
Qed.

Lemma wp_settle_failed a vars reason v :
  at_work a vars [] v -> wp (settle_failed a reason) v (fun _ => between vars (after_failure reason)).
Proof.
  intros (Hc & Hd & Hr & Hs). unfold settle_failed. rewrite (se_owner _ _ Hs).
  apply wp_bind. eapply wp_thread_open; [exact Hr|].
  assert (forall b, m_name (ac_meta b) = m_name (ac_meta a) -> self_of b = self_of a ->
    ac_status b = Terminating reason \/ debug_assertions = false /\ ac_status b = Completing ->
    owner_of b = th ->
    wp (append_event (StateTerminating b) ;;;
        let* terminated := debug_assert_mark b (act_mark_terminated b) in
        append_event (StateTerminated terminated) ;;;
        thread_after_child_terminated th (as_raw (self_of terminated))) v
      (fun _ => between vars (after_failure reason))) as Hb.
  { intros b Hn Hself Hst Hob. apply wp_bind, wp_event. intros ts. eexists.
    split; [eapply replace_event; rewrite Hn; apply Hs|].
    eapply wp_terminated; [done|done| |simpl; apply lookup_insert_eq|done|done].
    rewrite Hself. by destruct Hr; split. }
  unfold debug_assert_mark at 1, act_mark_terminating. pose proof (se_status _ _ Hs) as Hst.
  rewrite Hst. destruct debug_assertions.
  - apply wp_bind, wp_bind, wp_now. intros t. apply wp_ret. apply Hb; auto. apply Hs.
  - apply wp_bind, wp_ret. apply Hb; auto. apply Hs.
Qed.

(** [Assign] updates the scope of the thread as the interpreter does, or fails as it does. *)
Definition some_work (a : Activity) (v : View) : Prop := exists vars, at_work a vars [] v.
Lemma assign_yields a assign states vars v :
  at_work a vars [] v ->
  yields (apply_assign th assign states vars) v (assign_vars assign states vars)
    (fun s s' v' => s = s' /\ at_work a s [] v') (some_work a).
Proof.
  intros Hw. unfold apply_assign, assign_vars. destruct assign as [m|]; [|by apply yields_ret].
  apply (yields_bind _ _ _ _ _ (fun s s' v' => s = s' /\ v' = v)).
  { apply yields_on_env; [apply eval_json_computes|done|by exists vars]. }
  intros val ? ? [<- ->].
  destruct val as [| | | | |m']; try (apply errs_throw; by exists vars).
  destruct m' as [|kv m']; [by apply yields_ret|].
  apply wp_bind, wp_event. intros ts. eexists. split; [reflexivity|]. apply wp_ret.
  destruct Hw as (Hc & Hd & Hr & Hs). split; [done|]. split; [done|]. split; [done|].
  split; [|by destruct Hs]. eapply running_update; [exact Hr|done|done| |apply Hr|done|apply Hr].
  simpl. by rewrite lookup_insert_eq.
Qed.
Lemma project_yields a output states vars fallback v :
  at_work a vars [] v ->
  yields (project_output output states vars fallback) v (flow_output output states vars fallback)
    (fun o o' v' => o = o' /\ at_work a vars [] v') (some_work a).
Proof.
  intros Hw. unfold project_output, flow_output. destruct output as [o|]; [|by apply yields_ret].
  apply yields_on_env; [apply eval_json_computes|done|by exists vars].
Qed.

(** ** Leaving a state *)

Definition left_with (lead : Leads) (out : Value) : Command :=
  match lead with
  | ToState next => CActivateState (mkActivateState x th (sp_state sp_root next) out)
  | ToEnd => CCompleteThread (mkCompleteThread th out)
  | ToSuccess => CCompleteThread (mkCompleteThread th (if debug_assertions then out else VNull))
  end.

(** What the completion of a state leaves: the next command and the variables, or the
    command that ends the thread or the state on its error. *)
Definition left_as (a : ObjectRef ActivityKind) (r : Res ExecutionError (Variables * Value * Leads))
    (v : View) : Prop :=
  match r with
  | Ok (vars, out, lead) => between vars [left_with lead out] v
  | Err e =>
      (exists vars, between vars (after_failure (Failed e)) v) \/
      (exists b vars, self_of b = a /\
         at_work b vars [CTerminateState (mkTerminateState a (Failed e))] v)
  | Panic _ => False
  end.
Lemma wp_settle_next a vars next out v :
  at_work a vars [] v ->
  wp (settle_next a (sp_state sp_root next) out) v
    (fun _ => between vars [left_with (ToState next) out]).
Proof.
  intros Hw. pose proof Hw as (_ & _ & _ & Hs). eapply wp_completed; [exact Hw|].
  intros b v' (Hc & Hd & Hr) _ _ _. apply wp_bind, wp_event. intros ts. eexists.
  split; [reflexivity|]. apply wp_command. split; [|done]. simpl. rewrite Hc. simpl.
  by rewrite (se_execution _ _ Hs), (se_owner _ _ Hs).
Qed.
Lemma wp_settle_end a vars out v :
  at_work a vars [] v ->
  wp (settle_end a out) v (fun _ => between vars [left_with ToEnd out]).
Proof.
  intros Hw. pose proof Hw as (_ & _ & _ & Hs). eapply wp_completed; [exact Hw|].
  intros b v' (Hc & Hd & Hr) _ _ _. apply wp_command. split; [|done]. simpl. rewrite Hc. simpl.
  by rewrite (se_owner _ _ Hs).
Qed.
Lemma wp_terminate_with a e v :
  some_work a v ->
  wp (E:=ProcessingError) (terminate_with (self_of a) e) v
    (fun _ => left_as (self_of a) (Err e)).
Proof.
  intros (vars & Hc & Hw). apply wp_command. right. exists a, vars. split; [done|].
  split; [simpl; by rewrite Hc|done].
Qed.

(** What a settling state evaluates in is what the interpreter evaluates in. *)
Lemma settling_states a d r :
  settling a d -> settle_states a r None = flow_states name input r.
Proof.
  intros Hs. unfold settle_states, flow_states, retry_count.
  by rewrite (se_input _ _ Hs), (se_path _ _ Hs), (se_retry _ _ Hs).
Qed.

(** A process that may fail, and what follows each of its outcomes. *)
Lemma wp_process {A B} a (m : M (HSt InMemoryTxn) ExecutionError A) (r : Res ExecutionError B)
    (k : A -> M (HSt InMemoryTxn) ProcessingError unit) kr v Q :
  yields m v r Q (some_work a) -> not_panic (res_bind r kr) ->
  (forall x b v', Q x b v' -> not_panic (kr b) -> wp (k x) v' (fun _ => left_as (self_of a) (kr b))) ->
  wp (let* o := attempt m in
      match o with inl e => terminate_with (self_of a) e | inr x => k x end) v
    (fun _ => left_as (self_of a) (res_bind r kr)).
Proof.
  intros Hm He Hk. destruct r as [b|e|]; simpl in *; [..|done].
  - apply wp_bind, wp_attempt. eapply wp_mono; [exact Hm|]. intros y v' HQ. by apply Hk.
  - apply wp_bind, (wp_attempt_fails _ _ e). intros s Hs.
    destruct (Hm s Hs) as (s' & v' & E1 & Hs' & Hw).
    exists s', v'. split_and!; try done. by apply wp_terminate_with.
Qed.

Lemma settled_yields {A} a assign output states vars fallback (f : Value -> A) v :
  at_work a vars [] v ->
  yields (let* scope := apply_assign th assign states vars in
          let* out := project_output output states scope fallback in ret (f out)) v
    (settled_of assign output states vars fallback)
    (fun y s v' => y = f s.2 /\ at_work a s.1 [] v') (some_work a).
Proof.
  intros Hw. eapply yields_bind; [by apply assign_yields|]. intros s ? v1 [<- Hw1].
  eapply yields_bind; [by apply project_yields|]. intros o ? v2 [<- Hw2]. by apply yields_ret.
Qed.

Lemma pass_yields p a vars v :
  at_work a vars [] v ->
  yields (process_pass p a vars) v
    (settled_of (ps_assign p) (ps_output p) (flow_states name input (Some input)) vars input)
    (fun fin s v' => fin = finish_of a (ps_end p) (ps_next p) s.2 /\ at_work a s.1 [] v')
    (some_work a).
Proof.
  intros Hw. pose proof Hw as (_ & _ & _ & Hs). unfold process_pass, process_finish.
  rewrite (se_result _ _ Hs). simpl.
  change (states_build _) with (settle_states a (Some input) None).
  rewrite (settling_states _ _ _ Hs), (se_owner _ _ Hs). by apply settled_yields.
Qed.
Lemma wp_pass p a vars v :
  at_work a vars [] v -> not_panic (flow_step (Pass p) name input vars) ->
  wp (after_completing (create (Pass p)) a vars) v
    (fun _ => left_as (self_of a) (flow_step (Pass p) name input vars)).
Proof.
  intros Hw He. pose proof Hw as (_ & _ & _ & Hs).
  refine (wp_process a (process_pass p a vars) _ (fun fin => match fin with
    | FNext next output => settle_next a next output | FEnd output => settle_end a output
    | FNoTerminal => settle_failed a (Failed (Runtime NoTerminal)) end)
    _ v _ (pass_yields p a vars v Hw) He _).
  intros fin [vars' out] v' [-> Hw'] Hk. unfold finish_of, terminal_of in *.
  rewrite (se_path _ _ Hs).
  destruct (ps_end p) as [[]|], (ps_next p) as [next|]; rewrite ?sp_sibling_state;
    first [by apply wp_settle_next | by apply wp_settle_end |
      eapply wp_mono; [by apply wp_settle_failed|by left; exists vars']].
Qed.

Lemma choice_yields c a vars v :
  at_work a vars [] v ->
  yields (process_choice c a vars) v
    (let states := flow_states name input None in
     res_bind (choice_of c name states vars) (fun '(assign, output, next) =>
       let assign := match assign with Some a => Some a | None => cs_assign c end in
       let output := match output with Some o => Some o | None => cs_output c end in
       res_map (pair next) (settled_of assign output states vars input)))
    (fun p '(next, s) v' => p = (sp_state sp_root next, s.2) /\ at_work a s.1 [] v')
    (some_work a).
Proof.
  intros Hw. pose proof Hw as (_ & _ & _ & Hs). unfold process_choice.
  rewrite (settling_states _ _ _ Hs), (se_owner _ _ Hs), (se_path _ _ Hs), (se_input _ _ Hs).
  eapply (yields_bind _ _ _ _ _ (fun p p' v' => p = p' /\ at_work a vars [] v')).
  { apply yields_on_env; [apply choice_computes|done|by exists vars]. }
  intros [[assign output] next] ? v1 [<- Hw1]. simpl.
  rewrite sp_sibling_state. apply yields_map. by apply settled_yields.
Qed.
Lemma wp_choice c a vars v :
  at_work a vars [] v -> not_panic (flow_step (Choice c) name input vars) ->
  wp (after_completing (create (Choice c)) a vars) v
    (fun _ => left_as (self_of a) (flow_step (Choice c) name input vars)).
Proof.
  intros Hw He. refine (wp_process a (process_choice c a vars) _
    (fun '(next, output) => settle_next a next output) _ v _ (choice_yields c a vars v Hw) He _).
  intros p [next [vars' out]] v' [-> Hw'] _. by apply wp_settle_next.
Qed.

Lemma wp_succeed st a vars v :
  at_work a vars [] v -> not_panic (flow_step (Succeed st) name input vars) ->
  wp (after_completing (create (Succeed st)) a vars) v
    (fun _ => left_as (self_of a) (flow_step (Succeed st) name input vars)).
Proof.
  intros Hw He. pose proof Hw as (_ & _ & _ & Hs).
  refine (wp_process a (process_succeed st a vars) _ (fun output =>
    let* container := thread_open (owner_of a) in
    let* completed := debug_assert_mark a (act_mark_completed a output) in
    append_event (StateCompleted completed) ;;;
    thread_after_child_completed container (as_raw (self_of completed)))
    _ v (fun o o' v' => o = o' /\ at_work a vars [] v') _ He _).
  { unfold process_succeed. rewrite (se_result _ _ Hs). simpl.
    rewrite (settling_states _ _ _ Hs). by apply project_yields. }
  intros out ? v1 [<- Hw1] _. rewrite (se_owner _ _ Hs). apply wp_bind.
  eapply wp_thread_open; [apply Hw1|].
  eapply wp_completed; [exact Hw1|]. intros b v' (Hc & Hd & Hr) Hb Hself Hout.
  rewrite Hself. unfold thread_after_child_completed.
  destruct (ru_thread _ _ _ _ _ _ _ Hr) as (t' & Ht' & _ & Htr & _).
  apply wp_bind. wp_read. rewrite Ht', Htr. apply wp_bind.
  eapply (wp_lift_res _ (self_of a)); [by destruct (self_of a)|]. apply wp_bind. wp_read.
  rewrite Hb, Hout. apply wp_command. split; [|done]. simpl. rewrite Hc. simpl.
  by destruct debug_assertions.
Qed.

Lemma wp_fail f a vars v :
  at_work a vars [] v -> not_panic (flow_step (Fail_ f) name input vars) ->
  wp (after_completing (create (Fail_ f)) a vars) v
    (fun _ => left_as (self_of a) (flow_step (Fail_ f) name input vars)).
Proof.
  intros Hw He. pose proof Hw as (_ & _ & _ & Hs).
  refine (wp_process a (on_env (process_fail f a vars)) _ (fun reason => settle_failed a reason)
    _ v (fun o e v' => o = Failed e /\ at_work a vars [] v') _ He _).
  - unfold process_fail. rewrite (settling_states _ _ _ Hs).
    pose proof (failure_computes f a (flow_states name input None) vars) as Hf.
    rewrite (se_path _ _ Hs) in Hf.
    destruct (failure_of _ _ _ _); simpl in *; [|by apply errs_on_env; [|exists vars]|done].
    by eapply wp_on_env.
  - intros o e v1 [-> Hw1] Hdb. eapply wp_mono; [by apply wp_settle_failed|]. by left; exists vars.
Qed.
End Settling.

(** ** Completing and terminating a state *)

Lemma wp_complete fv x th vars room sm name st input d defs a :
  sm_states sm !! name = Some st -> defs !! fv = Some sm ->
  running fv x th vars {[as_raw a]} room d -> entered x th a name input d ->
  not_panic (flow_step st name input vars) ->
  wp (dispatch_command (CCompleteState (mkCompleteState a input))) (mkView d [] defs)
    (fun _ => left_as fv x th room defs name input a (flow_step st name input vars)).
Proof.
  intros Hsm Hdef Hr (act & Hact & Ha & Ho & Hx & Hp & Hs & Hi & Hre & Hou) He.
  pose proof (ru_thread _ _ _ _ _ _ _ Hr) as (t & Ht & Hth & Htr & Htx & Hto).
  unfold dispatch_command, CompleteStateHandler. cbn [cst_activity]. apply wp_bind. wp_read.
  cbn [v_db]. rewrite Hact. unfold owner_of at 1. rewrite Ho. apply wp_bind. wp_read. cbn [v_db].
  rewrite Ht. apply wp_bind. eapply wp_machine_or_reject; [done..|]. apply wp_bind. rewrite Hp.
  eapply wp_state_or_reject; [done|]. rewrite Hs, Htr. cbn [negb is_running].
  unfold handler_complete. apply wp_bind, wp_now. intros t0. unfold act_mark_completing.
  rewrite Hs. cbn [negb is_running cst_output].
  set (b := act_advance act Completing (Some input) (ac_output act) (clock_at t0)).
  assert (m_name (ac_meta b) = ref_name a) as Hb by by rewrite <- Ha.
  apply wp_bind, wp_event. intros ts. eexists.
  split; [eapply replace_event; rewrite Hb; exact Hact|]. rewrite Hb.
  apply wp_bind. wp_read. cbn [v_db to_db].
  assert (self_of b = a) as Hself by done.
  assert (at_work fv x th room defs name input b vars []
    (mkView (db_set_activities d (<[ref_name a := b]> (db_activities d))) [] defs)) as Hw.
  { split; [done|]. split; [done|]. split; [|split; try done; rewrite Hb; apply lookup_insert_eq].
    rewrite Hself. by destruct Hr; split. }
  replace (default _ _) with vars by (symmetry; rewrite Hth; apply Hr).
  rewrite <- Hself in Hw |- *.
  destruct st; try done;
    first [by apply wp_pass | by apply wp_succeed | by apply wp_fail | by apply wp_choice].
Qed.

Lemma wp_terminate_state fv x th vars room sm name st input d defs b reason :
  flow_state st -> sm_states sm !! name = Some st -> defs !! fv = Some sm ->
  running fv x th vars {[as_raw (self_of b)]} room d -> settling x th name input b d ->
  wp (dispatch_command (CTerminateState (mkTerminateState (self_of b) reason))) (mkView d [] defs)
    (fun _ => between fv x th room defs vars (after_failure th reason)).
Proof.
  intros Hst Hsm Hdef Hr Hs.
  pose proof (ru_thread _ _ _ _ _ _ _ Hr) as (t & Ht & Hth & Htr & Htx & Hto).
  unfold dispatch_command, TerminateStateHandler. cbn [tst_activity]. apply wp_bind. wp_read.
  cbn [v_db]. change (ref_name (self_of b)) with (m_name (ac_meta b)).
  rewrite (se_row _ _ _ _ _ _ Hs), (se_status _ _ _ _ _ _ Hs). unfold resolve_and_terminate.
  rewrite (se_owner _ _ _ _ _ _ Hs). apply wp_bind. wp_read. cbn [v_db]. rewrite Ht.
  apply wp_bind. eapply wp_machine_or_reject; [done..|]. apply wp_bind.
  rewrite (se_path _ _ _ _ _ _ Hs). eapply wp_state_or_reject; [done|].
  unfold handler_terminate. cbn [tst_reason].
  apply wp_bind, (wp_mono _ _ (fun o v' => o = Uncaught /\ v' = mkView d [] defs)).
  { destruct st; try done; destruct reason; by apply wp_ret. }
  intros ? ? [-> ->]. apply wp_bind, wp_now. intros t0. unfold act_mark_terminating.
  rewrite (se_status _ _ _ _ _ _ Hs). cbn [is_terminating is_terminal orb].
  apply wp_bind, wp_event. intros ts. eexists.
  split; [eapply replace_event; apply Hs|]. apply wp_bind. wp_read.
  assert (forall a vs, owner_of a = th -> after_terminating (create st) a vs =
    (let* container := thread_open th in
     let* terminated := debug_assert_mark a (act_mark_terminated a) in
     append_event (StateTerminated terminated) ;;;
     thread_after_child_terminated container (as_raw (self_of terminated)))) as Haft.
  { intros a vs <-. by destruct st. }
  rewrite Haft by apply Hs. apply wp_bind.
  eapply wp_thread_open; [by destruct Hr; split|].
  eapply wp_terminated; [done|done| |simpl; apply lookup_insert_eq|apply Hs|by left].
  by destruct Hr; split.
Qed.

(** ** Ending the run *)

(** The thread is gone, the execution has still to complete. *)
Definition thread_done (x : ObjectRef ExecutionKind) (d : InMemoryDb) : Prop :=
  (exists e, db_executions d !! ref_name x = Some e /\ object_ref (ex_meta e) = x /\
     ex_status e = Running) /\ db_children d (as_raw x) = ∅.

Lemma thread_event_completing (t row : Thread) d :
  db_threads d !! m_name (th_meta t) = Some row ->
  ThreadCompletingApplier t d =
    (Ok tt, db_set_threads d (<[m_name (th_meta row) :=
       thread_advance row Completing (th_output t) (m_updated_at (th_meta t))]> (db_threads d))).
Proof. intros Ht. unfold ThreadCompletingApplier, db, map_err, bind. simpl. by rewrite Ht. Qed.
Lemma thread_event_completed (t row : Thread) d :
  db_threads d !! m_name (th_meta t) = Some row ->
  ThreadCompletedApplier t d =
    (Ok tt, db_set_edges (db_set_threads d (<[m_name (th_meta row) :=
       thread_advance row Completed (th_output t) (m_updated_at (th_meta t))]> (db_threads d)))
       (db_edges d ∖ {[(thread_owner_raw (m_owner (th_meta row)), raw_object_ref (th_meta t))]})).
Proof. intros Ht. unfold ThreadCompletedApplier, db, map_err, bind. simpl. by rewrite Ht. Qed.
Lemma execution_updated (f : Execution -> Execution) (e row : Execution) d :
  db_executions d !! m_name (ex_meta e) = Some row ->
  update_execution e f d =
    (Ok tt, db_set_executions d (<[m_name (ex_meta (f row)) := f row]> (db_executions d))).
Proof. intros Hx. unfold update_execution, db, map_err, bind. simpl. by rewrite Hx. Qed.

(** The execution hears of its thread. *)
Lemma wp_report (x : ObjectRef ExecutionKind) (th : ObjectRef ThreadKind) (t : Thread) out v :
  thread_done x (v_db v) -> db_threads (v_db v) !! ref_name th = Some t -> th_output t = Some out ->
  v_cmds v = [] ->
  wp (execution_after_child_completed x (as_raw th)) v
    (fun _ v' => v' = to_cmds v [CCompleteExecution (mkCompleteExecution x out)]).
Proof.
  intros [(e & He & _ & Her) _] Ht Ho Hc. unfold execution_after_child_completed.
  apply wp_bind. wp_read. rewrite He. cbn [raw_kind as_raw]. rewrite Her. apply wp_bind.
  eapply (wp_lift_res _ th); [by destruct th|]. apply wp_bind. wp_read. rewrite Ht. simpl.
  rewrite Ho. apply wp_command. by rewrite Hc.
Qed.

Lemma wp_thread_complete fv x th vars room defs out d :
  running fv x th vars ∅ room d ->
  wp (dispatch_command (CCompleteThread (mkCompleteThread th out))) (mkView d [] defs)
    (fun _ v => v_cmds v = [CCompleteExecution (mkCompleteExecution x out)] /\ v_defs v = defs /\
       thread_done x (v_db v)).
Proof.
  intros Hr.
  pose proof Hr as [(e & He & Hx & Her & _) (t & Ht & Hth & Htr & Htx & Hto) _ Hk Hxk _].
  unfold dispatch_command, thread_complete. cbn [ct_thread]. apply wp_bind. wp_read.
  cbn [v_db]. rewrite Ht, Htr. cbn [negb is_running].
  assert (m_name (th_meta t) = ref_name th) as Hn by by rewrite <- Hth.
  apply wp_bind, wp_now. intros t0. apply wp_bind, wp_event. intros ts. eexists.
  split; [apply (thread_event_completing _ t); simpl; by rewrite Hn|].
  cbn [v_db to_db v_cmds v_defs ct_output]. apply wp_bind. wp_read.
  rewrite Hth. cbn [v_db]. change (db_children _ (as_raw th)) with (db_children d (as_raw th)).
  rewrite decide_True by done. apply wp_bind, wp_now. intros t1. rewrite Hto, Hn.
  apply wp_bind. unfold owner_open, execution_open. apply wp_bind, wp_bind. wp_read.
  cbn [v_db to_db db_set_threads db_executions]. rewrite He. apply wp_ret, wp_ret.
  apply wp_bind, wp_event. intros ts2. eexists.
  split; [eapply thread_event_completed; simpl; rewrite Hn; apply lookup_insert_eq|].
  match goal with |- wp _ ?v _ => set (v' := v) end.
  assert (thread_done x (v_db v')) as Hdone.
  { split; [by exists e|].
    rewrite (children_removed d _ (as_raw x) (as_raw th)); [|simpl; rewrite Hto, <- Hth; done].
    rewrite decide_True, Hxk by done. set_solver. }
  change (raw_object_ref (th_meta t)) with (as_raw (object_ref (th_meta t))). rewrite Hth.
  eapply wp_mono; [eapply (wp_report x th _ out); [exact Hdone| | |done]|by intros [] v ->].
  - simpl. rewrite Hn. apply lookup_insert_eq.
  - reflexivity.
Qed.

Definition completed_with (x : ObjectRef ExecutionKind) (out : Value) (d : InMemoryDb) : Prop :=
  exists e, db_executions d !! ref_name x = Some e /\ ex_status e = Completed /\
    ex_output e = Some out.
Lemma wp_execution_closed (x : ObjectRef ExecutionKind) (e row : Execution) out v :
  m_name (ex_meta e) = ref_name x -> m_name (ex_meta row) = ref_name x ->
  db_executions (v_db v) !! ref_name x = Some row -> ex_output e = Some out ->
  wp (E:=ProcessingError) (append_event (ExecutionCompleted e)) v
    (fun _ v' => v_cmds v' = v_cmds v /\ completed_with x out (v_db v')).
Proof.
  intros Hn Hnr Hrow Ho. apply wp_event. intros ts. eexists.
  split; [apply (execution_updated _ e row); by rewrite Hn|]. split; [done|]. eexists. simpl.
  by rewrite Hnr, lookup_insert_eq.
Qed.
Lemma set_iter_empty : set_iter ∅ = [].
Proof. apply Permutation_nil_r. by rewrite set_iter_perm, elements_empty. Qed.

Lemma wp_execution_complete x out d defs :
  thread_done x d ->
  wp (dispatch_command (CCompleteExecution (mkCompleteExecution x out))) (mkView d [] defs)
    (fun _ v => v_cmds v = [] /\ completed_with x out (v_db v)).
Proof.
  intros [(e & He & Hx & Her) Hk]. unfold dispatch_command, execution_complete.
  cbn [cx_execution]. apply wp_bind. wp_read. cbn [v_db]. rewrite He.
  apply wp_bind, wp_now. intros t0. unfold exec_mark_completing. rewrite Her.
  cbn [negb is_running cx_output]. set (e1 := exec_advance e Completing (Some out) (clock_at t0)).
  assert (m_name (ex_meta e) = ref_name x) as Hn by by rewrite <- Hx.
  apply wp_bind, wp_event. intros ts. eexists.
  split; [apply (execution_updated _ e1 e); simpl; by rewrite Hn|].
  apply wp_bind. wp_read. rewrite Hx. cbn [v_db to_db].
  change (db_children _ (as_raw x)) with (db_children d (as_raw x)). rewrite Hk, set_iter_empty.
  apply wp_bind, wp_mark.
  - intros t1. eexists. split; [reflexivity|].
    eapply wp_execution_closed; [exact Hn| |simpl; rewrite Hn; apply lookup_insert_eq|done].
    exact Hn.
  - eapply wp_execution_closed; [exact Hn| |simpl; rewrite Hn; apply lookup_insert_eq|done].
    exact Hn.
Qed.

(** ** Ending the run on an error *)

Lemma thread_event_terminating (t row : Thread) d :
  db_threads d !! m_name (th_meta t) = Some row ->
  ThreadTerminatingApplier t d =
    (Ok tt, db_set_threads d (<[m_name (th_meta row) :=
       thread_advance row (th_status t) (th_output row) (m_updated_at (th_meta t))]>
       (db_threads d))).
Proof. intros Ht. unfold ThreadTerminatingApplier, db, map_err, bind. simpl. by rewrite Ht. Qed.
Lemma thread_event_terminated (t row : Thread) d :
  db_threads d !! m_name (th_meta t) = Some row ->
  ThreadTerminatedApplier t d =
    (Ok tt, db_set_edges (db_set_threads d (<[m_name (th_meta row) :=
       thread_advance row (th_status t) (th_output row) (m_updated_at (th_meta t))]>
       (db_threads d)))
       (db_edges d ∖ {[(thread_owner_raw (m_owner (th_meta row)), raw_object_ref (th_meta t))]})).
Proof. intros Ht. unfold ThreadTerminatedApplier, db, map_err, bind. simpl. by rewrite Ht. Qed.

Lemma wp_report_failure (x : ObjectRef ExecutionKind) (th : ObjectRef ThreadKind) (t : Thread)
    reason v :
  thread_done x (v_db v) -> db_threads (v_db v) !! ref_name th = Some t ->
  th_status t = Terminated reason -> v_cmds v = [] ->
  wp (execution_after_child_terminated x (as_raw th)) v (fun _ v' => v' = to_cmds v
    [CTerminateExecution (mkTerminateExecution (ref_name x) (Some (ref_uid x)) reason)]).
Proof.
  intros [(e & He & _ & Her) _] Ht Hs Hc. unfold execution_after_child_terminated.
  apply wp_bind. wp_read. rewrite He. cbn [raw_kind as_raw]. rewrite Her. apply wp_bind.
  eapply (wp_lift_res _ th); [by destruct th|]. apply wp_bind. wp_read. rewrite Ht, Hs. simpl.
  apply wp_command. by rewrite Hc.
Qed.

Lemma wp_thread_terminate fv x th vars room defs reason d :
  running fv x th vars ∅ room d ->
  wp (dispatch_command (CTerminateThread (mkTerminateThread th reason))) (mkView d [] defs)
    (fun _ v => v_cmds v =
         [CTerminateExecution (mkTerminateExecution (ref_name x) (Some (ref_uid x)) reason)] /\
       v_defs v = defs /\ thread_done x (v_db v)).
Proof.
  intros Hr.
  pose proof Hr as [(e & He & Hx & Her & _) (t & Ht & Hth & Htr & Htx & Hto) _ Hk Hxk _].
  unfold dispatch_command, thread_terminate. cbn [tt_thread tt_reason]. apply wp_bind. wp_read.
  cbn [v_db]. rewrite Ht. assert (m_name (th_meta t) = ref_name th) as Hn by by rewrite <- Hth.
  apply wp_bind, wp_now. intros t0. unfold thread_mark_terminating. rewrite Htr.
  cbn [negb is_running]. apply wp_bind, wp_event. intros ts. eexists.
  split; [apply (thread_event_terminating _ t); simpl; by rewrite Hn|].
  cbn [v_db to_db v_cmds v_defs]. apply wp_bind. wp_read.
  rewrite Hth. cbn [v_db]. change (db_children _ (as_raw th)) with (db_children d (as_raw th)).
  rewrite decide_True by done. apply wp_bind, wp_now. intros t1. rewrite Hto, Hn.
  apply wp_bind. unfold owner_open, execution_open. apply wp_bind, wp_bind. wp_read.
  cbn [v_db to_db db_set_threads db_executions]. rewrite He. apply wp_ret, wp_ret.
  apply wp_bind, wp_event. intros ts2. eexists.
  split; [eapply thread_event_terminated; simpl; rewrite Hn; apply lookup_insert_eq|].
  match goal with |- wp _ ?v _ => set (v' := v) end.
  assert (thread_done x (v_db v')) as Hdone.
  { split; [by exists e|].
    rewrite (children_removed d _ (as_raw x) (as_raw th)); [|simpl; rewrite Hto, <- Hth; done].
    rewrite decide_True, Hxk by done. set_solver. }
  change (raw_object_ref (th_meta t)) with (as_raw (object_ref (th_meta t))). rewrite Hth.
  eapply wp_mono;
    [eapply (wp_report_failure x th _ reason); [exact Hdone| | |done]|by intros [] v ->].
  - simpl. rewrite Hn. apply lookup_insert_eq.
  - reflexivity.
Qed.

Definition terminated_with (x : ObjectRef ExecutionKind) (reason : TerminationReason)
    (d : InMemoryDb) : Prop :=
  exists e, db_executions d !! ref_name x = Some e /\ ex_status e = Terminated reason.
Lemma wp_execution_terminate x reason d defs :
  thread_done x d ->
  wp (dispatch_command (CTerminateExecution
       (mkTerminateExecution (ref_name x) (Some (ref_uid x)) reason))) (mkView d [] defs)
    (fun _ v => v_cmds v = [] /\ terminated_with x reason (v_db v)).
Proof.
  intros [(e & He & Hx & Her) Hk]. unfold dispatch_command, execution_terminate.
  cbn [te_name te_uid te_reason]. apply wp_bind. wp_read. cbn [v_db ref_name]. rewrite He.
  assert (m_name (ex_meta e) = ref_name x) as Hn by by rewrite <- Hx.
  assert (m_uid (ex_meta e) = ref_uid x) as Hu by by rewrite <- Hx.
  rewrite Hu, bool_decide_eq_true_2 by done. cbn [negb].
  apply wp_bind, wp_now. intros t0. unfold exec_mark_terminating. rewrite Her.
  cbn [negb is_running]. set (e1 := exec_advance e (Terminating reason) (ex_output e) (clock_at t0)).
  apply wp_bind, wp_event. intros ts. eexists.
  split; [apply (execution_updated _ e1 e); simpl; by rewrite Hn|].
  apply wp_bind. wp_read. rewrite Hx. cbn [v_db to_db].
  change (db_children _ (as_raw x)) with (db_children d (as_raw x)).
  rewrite decide_True by done. apply wp_bind, wp_now. intros t1.
  apply wp_event. intros ts2. eexists.
  split; [eapply execution_updated; simpl; rewrite Hn; apply lookup_insert_eq|].
  split; [done|]. eexists. simpl. by rewrite Hn, lookup_insert_eq.
Qed.

(** ** Starting a run *)

(** The store has nothing under the name of the execution and the next generated name. *)
Record unused (name : ObjectName) (d : InMemoryDb) : Prop := {
  fr_execution : db_executions d !! name = None;
  fr_threads uid : db_children d (as_raw (mkRef name uid : ObjectRef ExecutionKind)) = ∅;
  fr_variables :
    db_variables d !! generated_from_key (base name) (db_next_generated_seq d) = None;
  fr_states uid : db_children d (as_raw (mkRef
    (generated_from_key (base name) (db_next_generated_seq d)) uid : ObjectRef ThreadKind)) = ∅ }.

(** The deadline of the definition, if it has one, is in range of the clock. *)
Definition in_time (sm : StateMachine) : Prop :=
  forall secs k, sm_timeout_seconds sm = Some secs -> 0 < secs ->
    checked_add (clock_at k) (from_secs (as_u64 secs)) <> None.

Lemma wp_deadline sm v (Q : option Z * option Timestamp -> View -> Prop) :
  in_time sm -> (forall secs deadline, (secs = None \/ deadline <> None) -> Q (secs, deadline) v) ->
  wp (execution_deadline sm) v Q.
Proof.
  intros Ht HQ. unfold execution_deadline. destruct (sm_timeout_seconds sm) as [secs|] eqn:Hs.
  - case_decide; [|apply wp_ret, HQ; by left]. apply wp_bind, wp_now. intros k.
    apply wp_ret, HQ. right. by apply (Ht secs k).
  - apply wp_ret, HQ. by left.
Qed.

Lemma thread_created_event ts (t : Thread) x b n d :
  m_name (th_meta t) = Generated b n -> 0 <= n < i64_max ->
  m_owner (th_meta t) = OwnerExecution x ->
  dispatch_event ts (ThreadCreated t) d =
    (Ok tt, db_set_edges
       (db_set_seq (db_set_threads d (<[m_name (th_meta t) := t]> (db_threads d)))
          (Z.max (db_next_generated_seq d) (n + 1)))
       (db_edges d ∪ {[(as_raw x, raw_object_ref (th_meta t))]})).
Proof.
  intros Hn Hb Ho. simpl. unfold ThreadCreatedApplier, bump_generated_seq, db, bind.
  rewrite Hn, Ho.
  assert (as_i64 n = n) as Hi.
  { unfold as_i64. rewrite Z.mod_small; unfold i64_max in *; lia. }
  unfold lift_res, i64_add. simpl. rewrite Hi.
  rewrite decide_True by (unfold i64_min, i64_max in *; lia).
  unfold map_err, writes, ret. simpl. by rewrite Hn.
Qed.

(** What the creation does once the definition and its deadline are known. *)
Definition start_run (req : RequestId) (name : ObjectName) (fv : ObjectRef FlowVersionKind)
    (uid : Ulid) (deadline : option Timestamp) (start : string) (input : Value)
    : M (HSt InMemoryTxn) ProcessingError unit :=
  let* t := now in
  append_event (ExecutionCreated req
    (mkExecution (build_meta uid name t (tt : OwnedBy ExecutionKind)) fv Running deadline
       input None)) ;;;
  let* root_uid := mint in
  let* seq := mint_generated_seq in
  let* t := now in
  append_event (ThreadCreated
    (mkThread (build_meta root_uid (generated_from_key (base name) seq) t
       (OwnerExecution (mkRef name uid) : OwnedBy ThreadKind))
       (mkRef name uid) sp_root start 0 Running input None)) ;;;
  append_command (CActivateState (mkActivateState (mkRef name uid)
    (mkRef (generated_from_key (base name) seq) root_uid) (sp_state sp_root start) input)).

Lemma wp_start_run req name fv uid deadline start input room d defs :
  unused name d -> 0 <= room -> 0 <= db_next_generated_seq d ->
  db_next_generated_seq d + (room + 1) <= i64_max ->
  wp (start_run req name fv uid deadline start input) (mkView d [] defs)
    (fun _ v => exists th, between fv (mkRef name uid) th room defs ∅
       [left_with (mkRef name uid) th (ToState start) input] v).
Proof.
  intros [Hfx Hft Hfv Hfs] Hroom Hq0 Hq.
  apply wp_bind, wp_now. intros t0. apply wp_bind, wp_event. intros ts. eexists.
  split; [reflexivity|]. apply wp_bind, wp_mint. intros root. apply wp_bind, wp_seq; [simpl; lia|].
  cbn [v_db to_db v_cmds v_defs db_set_executions db_next_generated_seq m_name ex_meta build_meta].
  set (n := db_next_generated_seq d) in *. apply wp_bind, wp_now. intros t1.
  set (rn := generated_from_key (base name) n) in *.
  apply wp_bind, wp_event. intros ts2. eexists.
  split; [eapply (thread_created_event _ _ (mkRef name uid) (base name) n); [done|lia|done]|].
  apply wp_command. exists (mkRef rn root). split; [done|]. split; [done|].
  pose proof (fun d' q => children_added d d' (as_raw (mkRef name uid : ObjectRef ExecutionKind))
    (as_raw (mkRef rn root : ObjectRef ThreadKind)) q) as Hch.
  split; simpl.
  - eexists. by rewrite lookup_insert_eq.
  - eexists. by rewrite lookup_insert_eq.
  - by rewrite Hfv.
  - rewrite Hch, decide_False, Hfs by done. apply left_id_L, _.
  - rewrite Hch, decide_True, Hft by done. apply right_id_L, _.
  - lia.
Qed.

Lemma wp_create fv sm name input req room v :
  resolves_to v fv sm -> in_time sm -> unused name (v_db v) -> v_cmds v = [] -> 0 <= room ->
  0 <= db_next_generated_seq (v_db v) ->
  db_next_generated_seq (v_db v) + (room + 1) <= i64_max ->
  wp (dispatch_command (CCreateExecution (mkCreateExecution req name fv input))) v
    (fun _ v' => exists x th defs, ref_name x = name /\ defs !! fv = Some sm /\
       between fv x th room defs ∅ [left_with x th (ToState (sm_start_at sm)) input] v').
Proof.
  intros Hres Htime Hfr Hcmd Hroom Hq0 Hq.
  unfold dispatch_command, execution_create. cbn [ce_name ce_flow_version ce_input ce_request_id].
  apply wp_bind. wp_read. cbn [ref_name]. rewrite (fr_execution _ _ Hfr).
  apply wp_bind, wp_mint. intros uid.
  apply wp_bind, wp_map_err. eapply wp_machine; [exact Hres|]. intros defs Hdefs.
  apply wp_bind, wp_deadline; [done|]. intros secs deadline Hd. rewrite Hcmd.
  assert (wp (start_run req name fv uid deadline (sm_start_at sm) input)
    (mkView (v_db v) [] defs) (fun _ v' => exists th, between fv (mkRef name uid) th room defs ∅
       [left_with (mkRef name uid) th (ToState (sm_start_at sm)) input] v')) as Hrun
    by by apply wp_start_run.
  eapply wp_mono; [destruct secs, deadline; [exact Hrun|by destruct Hd|exact Hrun..]|].
  intros [] v' (th & Hb).
  by exists (mkRef name uid), th, defs.
Qed.
End Commands.
