(* ===== verification/StateFacts.v ===== *)
(** What a container state sends: the commands a hook emits over the rows it reads, and the
    order of its children by index. *)
From S2P Require Import Prelude Names Timestamp Float64 Json Asl Errors Meta Entities Tasks.
From S2P Require Import Commands LogStream Storage StorageFacts Applier ApplierFacts Eval Handler.
From S2P Require Import Containers StateHandler States TaskState FanOut.
Local Open Scope string_scope.
Local Open Scope Z_scope.

Section Sends.
Context `{Engine}.
Notation St := (HSt InMemoryTxn).

(** ** Computations that only send commands *)

(** [s'] is [s] after the commands [cs]: nothing else was emitted, no row has changed. *)
Definition said (s s' : St) (cs : list Command) : Prop :=
  map en_payload (h_entries s') = (map en_payload (h_entries s) ++ map PCommand cs)%list /\
  h_txn s' = h_txn s.
Definition sends {E} (s : St) (m : M St E unit) (cs : list Command) : Prop :=
  exists s', m s = (Ok tt, s') /\ said s s' cs.

Lemma bind_ok {S E A B} (m : M S E A) (k : A -> M S E B) s a s1 :
  m s = (Ok a, s1) -> bind m k s = k a s1.
Proof. intros Hm. unfold bind. by rewrite Hm. Qed.
Lemma said_refl s : said s s [].
Proof. split; [by rewrite app_nil_r|done]. Qed.
Lemma said_trans s1 s2 s3 l1 l2 : said s1 s2 l1 -> said s2 s3 l2 -> said s1 s3 (l1 ++ l2)%list.
Proof.
  intros [H1 Ht1] [H2 Ht2]. split; [|congruence]. rewrite H2, H1, map_app. by rewrite app_assoc.
Qed.
Lemma sends_ret {E} s : sends (E:=E) s (ret tt) [].
Proof. exists s. split; [done|apply said_refl]. Qed.
Lemma sends_command {E} s c : sends (E:=E) s (append_command c) [c].
Proof. eexists. split; [done|]. split; [|done]. simpl. by rewrite map_app. Qed.
Lemma sends_seq {E} s (m k : M St E unit) l1 l2 :
  sends s m l1 -> (forall s1, said s s1 l1 -> sends s1 k l2) -> sends s (m ;;; k) (l1 ++ l2)%list.
Proof.
  intros (s1 & Hm & H1) Hk. destruct (Hk s1 H1) as (s2 & Hk2 & H2). exists s2.
  unfold bind. rewrite Hm. split; [done|]. by eapply said_trans.
Qed.
Lemma sends_unique {E} s (m : M St E unit) l1 l2 : sends s m l1 -> sends s m l2 -> l1 = l2.
Proof.
  intros (s1 & H1 & Hs1 & _) (s2 & H2 & Hs2 & _). rewrite H1 in H2. injection H2 as <-.
  rewrite Hs1 in Hs2. apply app_inv_head in Hs2. revert l2 Hs2.
  clear. induction l1 as [|c l1 IH]; intros [|c2 l2]; try done. simpl. intros [= <- Hl].
  f_equal. by apply IH.
Qed.
(** A read before what follows. *)
Lemma sends_read {E A} s (m : M St E A) (k : A -> M St E unit) a l :
  m s = (Ok a, s) -> sends s (k a) l -> sends s (bind m k) l.
Proof. intros Hm (s' & Hk & Hs). exists s'. unfold bind. by rewrite Hm. Qed.

(** ** Reading rows *)

Lemma set_txn_same (s : St) : set_txn s (h_txn s) = s.
Proof. by destruct s. Qed.
Definition threads (t : InMemoryTxn) : gmap ObjectName Thread :=
  b_threads (tx_batch t) ∪ db_threads (tx_db t).
Definition activities (t : InMemoryTxn) : gmap ObjectName Activity :=
  b_activities (tx_batch t) ∪ db_activities (tx_db t).
Lemma read_thread {E} r (s : St) :
  read_flat (E:=E) (get_thread r) s = (Ok (threads (h_txn s) !! ref_name r), s).
Proof.
  unfold threads, read_flat, read_ok, attempt, on_txn, bind, ret. simpl. unfold overlay, reads.
  simpl. rewrite lookup_overlay, set_txn_same. by destruct ((_ ∪ _) !! _).
Qed.
Lemma read_activity {E} r (s : St) :
  read_flat (E:=E) (get_activity r) s = (Ok (activities (h_txn s) !! ref_name r), s).
Proof.
  unfold activities, read_flat, read_ok, attempt, on_txn, bind, ret. simpl. unfold overlay, reads.
  simpl. rewrite lookup_overlay, set_txn_same. by destruct ((_ ∪ _) !! _).
Qed.
Lemma rd_thread r (s : St) : rd (get_thread r) s = (Ok (threads (h_txn s) !! ref_name r), s).
Proof.
  unfold threads, rd, map_err, on_txn. simpl. unfold overlay, reads. simpl.
  by rewrite lookup_overlay, set_txn_same.
Qed.
Lemma rd_activity r (s : St) : rd (get_activity r) s = (Ok (activities (h_txn s) !! ref_name r), s).
Proof.
  unfold activities, rd, map_err, on_txn. simpl. unfold overlay, reads. simpl.
  by rewrite lookup_overlay, set_txn_same.
Qed.
Definition scope_of (s : St) (r : ObjectRef ThreadKind) : Variables :=
  default ∅ ((b_variables (tx_batch (h_txn s)) ∪ db_variables (tx_db (h_txn s))) !! ref_name r).
Lemma read_scope {E} r (s : St) :
  read_ok (E:=E) (get_variables r) s = (Ok (Some (scope_of s r)), s).
Proof.
  unfold scope_of, read_ok, attempt, on_txn, bind, ret. simpl. unfold reads. simpl.
  rewrite set_txn_same. do 3 f_equal. rewrite lookup_union.
  by destruct (b_variables _ !! _), (db_variables _ !! _).
Qed.
(** The events that terminate an activity write the row they carry, if there is one. *)
Lemma closing_event {E} ev a (s : St) :
  ev = StateTerminating a \/ ev = StateTerminated a ->
  exists s', append_event (E:=E) ev s = (Ok tt, s') /\ threads (h_txn s') = threads (h_txn s) /\
    (activities (h_txn s') !! ref_name (self_of a) = Some a \/
     activities (h_txn s') !! ref_name (self_of a) = None) /\
    map en_payload (h_entries s') = (map en_payload (h_entries s) ++ [PEvent ev])%list.
Proof.
  intros Hev. unfold append_event, build, now, bind, attempt, on_txn. simpl.
  assert (exists t', dispatch_event (clock_at (h_clock s)) ev (h_txn s) = (Ok tt, t') /\
    threads t' = threads (h_txn s) /\
    (activities t' !! ref_name (self_of a) = Some a \/ activities t' !! ref_name (self_of a) = None))
    as (t' & -> & Hth & Hac).
  { assert (forall t, activities t !! ref_name (self_of a) =
      match b_activities (tx_batch t) !! m_name (ac_meta a) with
      | Some x => Some x | None => db_activities (tx_db t) !! m_name (ac_meta a) end) as Hl.
    { intros t. unfold activities. by rewrite lookup_overlay. }
    destruct Hev as [-> | ->]; simpl; unfold_appliers;
      unfold map_err, bind, overlay, reads, upd, writes, ret; simpl;
      destruct (match b_activities _ !! _ with Some x => Some x | None => _ end) as [x|] eqn:Hx;
      eexists; (split; [done|]); (split; [done|]); rewrite Hl; simpl;
      rewrite ?lookup_insert_eq; auto. }
  simpl. eexists. split; [done|]. split_and!; try done. simpl. by rewrite map_app.
Qed.
Lemma read_children {E} r (s : St) :
  read_ok (E:=E) (get_children r) s = (Ok (Some (batch_children (tx_batch (h_txn s)) (tx_db (h_txn s)) r)), s).
Proof.
  unfold read_ok, attempt, on_txn, bind, ret. simpl. unfold reads. simpl. by rewrite set_txn_same.
Qed.
End Sends.

(** ** Children by index *)

(** The refs of the children [0 .. n-1], as the progress of a container keeps them. *)
Definition indexed (refs : list (ObjectRef ThreadKind)) : list (Z * ObjectRef ThreadKind) :=
  zip (seqZ 0 (Z.of_nat (length refs))) refs.

Lemma sorted_unique (l1 l2 : list (Z * ObjectRef ThreadKind)) :
  StronglySorted index_le l1 -> StronglySorted index_le l2 -> NoDup l1.*1 -> l1 ≡ₚ l2 -> l1 = l2.
Proof.
  revert l2. induction l1 as [|x l1 IH]; intros l2 H1 H2 Hnd Hp.
  { by apply Permutation_nil_l in Hp as ->. }
  destruct l2 as [|y l2]; [by apply Permutation_nil_r in Hp|].
  apply StronglySorted_inv in H1 as [H1 Hx]. apply StronglySorted_inv in H2 as [H2 Hy].
  rewrite fmap_cons in Hnd. apply NoDup_cons in Hnd as [Hni Hnd].
  assert (x = y) as <-.
  { destruct (decide (x = y)) as [|Hne]; [done|]. exfalso.
    assert (x ∈ l2) as Hxl2.
    { assert (x ∈ y :: l2) as Hin by (rewrite <- Hp; constructor). set_solver. }
    assert (y ∈ l1) as Hyl1.
    { assert (y ∈ x :: l1) as Hin by (rewrite Hp; constructor). set_solver. }
    rewrite Forall_forall in Hx, Hy. specialize (Hx _ Hyl1). specialize (Hy _ Hxl2).
    unfold index_le in *. assert (x.1 = y.1) as Hxy by lia.
    apply Hni. rewrite Hxy. by apply list_elem_of_fmap_2. }
  f_equal. apply IH; try done. by eapply Permutation_cons_inv.
Qed.

Lemma indexed_fst refs : (indexed refs).*1 = seqZ 0 (Z.of_nat (length refs)).
Proof. unfold indexed. apply fst_zip. rewrite length_seqZ. lia. Qed.
Lemma zip_seqZ_sorted a (refs : list (ObjectRef ThreadKind)) :
  StronglySorted index_le (zip (seqZ a (Z.of_nat (length refs))) refs).
Proof.
  revert a. induction refs as [|r refs IH]; intros a; [constructor|]. cbn [length].
  rewrite seqZ_cons by lia. replace (Z.pred _) with (Z.of_nat (length refs)) by lia. simpl.
  constructor; [apply IH|]. apply Forall_forall. intros [i r'] Hin.
  apply elem_of_zip_l in Hin. apply elem_of_seqZ in Hin. unfold index_le. simpl. lia.
Qed.

(** Sorting the children of a container by index, in whatever order its hash table lists them,
    gives them in the order they were spawned. *)
Lemma sort_children `{HashOrder} refs :
  sort_by_index (index_iter (list_to_map (indexed refs))) = indexed refs.
Proof.
  assert (NoDup (indexed refs).*1) as Hnd by (rewrite indexed_fst; apply NoDup_seqZ).
  symmetry. apply sorted_unique; [apply zip_seqZ_sorted| |done|].
  - unfold sort_by_index. apply StronglySorted_merge_sort; [intros a b c; unfold index_le; lia|].
    intros a b. unfold index_le. lia.
  - unfold sort_by_index. rewrite merge_sort_Permutation, index_iter_perm.
    symmetry. by apply map_to_list_to_map.
Qed.

Lemma elem_of_indexed `{HashOrder} refs i r :
  refs !! i = Some r -> (Z.of_nat i, r) ∈ map_to_list (list_to_map (M:=gmap Z _) (indexed refs)).
Proof.
  intros Hr. rewrite map_to_list_to_map by (rewrite indexed_fst; apply NoDup_seqZ).
  apply (list_elem_of_lookup_2 _ i). unfold indexed. rewrite lookup_zip_with.
  apply lookup_lt_Some in Hr as Hlt. rewrite lookup_seqZ_lt by lia. simpl. by rewrite Hr.
Qed.
Lemma size_indexed refs : size (list_to_map (M:=gmap Z _) (indexed refs)) = length refs.
Proof.
  rewrite map_size_list_to_map by (rewrite indexed_fst; apply NoDup_seqZ).
  unfold indexed. rewrite length_zip, length_seqZ. lia.
Qed.
Lemma unrecorded_beyond refs n :
  Forall (fun k => list_to_map (M:=gmap Z _) (indexed refs) !! k = None)
    (seqZ (Z.of_nat (length refs)) n).
Proof.
  apply Forall_forall. intros k Hk%elem_of_seqZ. apply not_elem_of_list_to_map_1.
  rewrite indexed_fst, elem_of_seqZ. lia.
Qed.
Lemma seqZ_nat a n : seqZ a n = seqZ a (Z.of_nat (Z.to_nat n)).
Proof. destruct (decide (0 <= n)); [by rewrite Z2Nat.id|]. by rewrite !seqZ_nil by lia. Qed.

(** ** The rows of the children *)

Section Children.
Context `{Engine}.
Notation St := (HSt InMemoryTxn).

Definition row_is (s : St) (r : ObjectRef ThreadKind) (t : Thread) : Prop :=
  threads (h_txn s) !! ref_name r = Some t.
Definition output_of (t : Thread) : Value := default VNull (th_output t).

(** The reason of the first child, by index, that failed or was cancelled. *)
Fixpoint first_reason (ts : list Thread) : option TerminationReason :=
  match ts with
  | [] => None
  | t :: ts' =>
      match termination_reason (th_status t) with Some r => Some r | None => first_reason ts' end
  end.

Lemma indexed_snd refs : (indexed refs).*2 = refs.
Proof. unfold indexed. apply snd_zip. rewrite length_seqZ. lia. Qed.

Lemma collect_branches_spec (s : St) entries ts :
  Forall2 (row_is s) entries.*2 ts ->
  collect_branches entries s =
    (Ok (match first_reason ts with Some r => inl r | None => inr ts end), s).
Proof.
  revert ts. induction entries as [|[i r] entries IH]; intros ts; rewrite ?fmap_cons.
  { intros ->%Forall2_nil_inv_l. done. }
  intros (t & ts' & Ht & Hts & ->)%Forall2_cons_inv_l. cbn [collect_branches]. unfold bind at 1.
  rewrite read_thread. unfold row_is in Ht. cbn [snd] in Ht. rewrite Ht. cbn [first_reason].
  destruct (termination_reason (th_status t)); [done|].
  unfold bind. rewrite (IH _ Hts). by destruct (first_reason ts').
Qed.
Lemma branch_outputs_spec ts :
  branch_outputs ts =
    if forallb (fun t => is_terminal (th_status t)) ts then Some (map output_of ts) else None.
Proof.
  induction ts as [|t ts IH]; [done|]. simpl. destruct (is_terminal (th_status t)); [|done].
  rewrite IH. by destruct (forallb _ ts).
Qed.
Lemma item_outputs_spec (s : St) entries ts :
  Forall2 (row_is s) entries.*2 ts -> item_outputs entries s = (Ok (map output_of ts), s).
Proof.
  revert ts. induction entries as [|[i r] entries IH]; intros ts; rewrite ?fmap_cons.
  { intros ->%Forall2_nil_inv_l. done. }
  intros (t & ts' & Ht & Hts & ->)%Forall2_cons_inv_l. cbn [item_outputs]. unfold bind at 1.
  rewrite read_thread. unfold row_is in Ht. cbn [snd] in Ht. rewrite Ht. unfold bind. by rewrite (IH _ Hts).
Qed.
(** How many of the children have succeeded. *)
Definition succeeded (t : Thread) : bool := item_succeeded (Some t).
Definition count_succeeded (ts : list Thread) : Z := Z.of_nat (length (List.filter succeeded ts)).
Definition row_succeeded (s : St) (r : ObjectRef ThreadKind) : bool :=
  item_succeeded (threads (h_txn s) !! ref_name r).
Lemma count_done_rows (s : St) entries :
  count_done entries s = (Ok (Z.of_nat (length (List.filter (row_succeeded s) entries.*2))), s).
Proof.
  induction entries as [|[i r] entries IH]; [done|]. cbn [count_done]. unfold bind at 1.
  rewrite read_thread. unfold bind. rewrite IH. unfold ret. do 2 f_equal. rewrite fmap_cons. cbn [List.filter snd].
  change (item_succeeded _) with (row_succeeded s r). destruct (row_succeeded s r); simpl; lia.
Qed.
Lemma count_rows (s : St) refs ts :
  Forall2 (row_is s) refs ts ->
  Z.of_nat (length (List.filter (row_succeeded s) refs)) = count_succeeded ts.
Proof.
  unfold count_succeeded. induction 1 as [|r t refs ts Hr _ IH]; [done|]. simpl.
  unfold row_succeeded at 1, succeeded at 1. unfold row_is in Hr. rewrite Hr.
  destruct (item_succeeded _); simpl; lia.
Qed.
Lemma filter_perm {A} (f : A -> bool) (l1 l2 : list A) :
  l1 ≡ₚ l2 -> length (List.filter f l1) = length (List.filter f l2).
Proof.
  induction 1; simpl; try done; [destruct (f x); simpl; congruence| |congruence].
  by destruct (f x), (f y).
Qed.
(** The count does not depend on the order of the table. *)
Lemma count_done_spec (s : St) refs ts :
  Forall2 (row_is s) refs ts ->
  count_done (index_iter (list_to_map (indexed refs))) s = (Ok (count_succeeded ts), s).
Proof.
  intros Hts. rewrite count_done_rows, <- (count_rows s refs ts Hts). do 3 f_equal.
  apply filter_perm. rewrite <- (indexed_snd refs) at 2. apply fmap_Permutation.
  rewrite index_iter_perm. apply map_to_list_to_map. rewrite indexed_fst. apply NoDup_seqZ.
Qed.

(** ** Spawning *)

Definition spawn_branch (a : Activity) (i : Z) (b : Branch) : Command :=
  CSpawnThread (mkSpawnThread (self_of a) (ac_execution a)
    (Some (sp_branch (ac_state_path a) i)) i (br_start_at b) (default VNull (ac_input a))).
Lemma spawn_branches_sends (s : St) a bs i :
  sends s (spawn_branches a bs i) (imap (fun k => spawn_branch a (i + Z.of_nat k)) bs).
Proof.
  revert s i. induction bs as [|b bs IH]; intros s i; [apply sends_ret|]. simpl.
  change (?x :: ?l) with ([x] ++ l)%list. rewrite Z.add_0_r. apply sends_seq; [apply sends_command|].
  intros s1 _. specialize (IH s1 (i + 1)).
  erewrite imap_ext; [exact IH|]. intros k b' _. simpl. f_equal. lia.
Qed.

Definition spawn_item (st : MapState) (owner : ObjectRef ActivityKind) (a : Activity)
    (items : list Value) (i : Z) : Command :=
  CSpawnThread (mkSpawnThread owner (ac_execution a) (Some (sp_item_processor (ac_state_path a)))
    i (item_start_at st) (default VNull (vec_get items i))).
Lemma spawn_items_sends {E} (s : St) st owner a items first n :
  sends (E:=E) s (spawn_items st owner a items first n)
    (map (spawn_item st owner a items) (seqZ first (Z.of_nat n))).
Proof.
  revert s first. induction n as [|n IH]; intros s first; [apply sends_ret|].
  rewrite seqZ_cons by lia. replace (Z.pred _) with (Z.of_nat n) by lia.
  change (map ?f (?x :: ?l)) with ([f x] ++ map f l)%list. apply sends_seq; [apply sends_command|].
  intros s1 _. apply IH.
Qed.

(** ** The reaction of [Map] to a settled child *)

(** What a [Map] state answers to the settlement of the child [t]. *)
Definition map_answer (st : MapState) (activity : ObjectRef ActivityKind) (a : Activity)
    (items : list Value) (total limit : Z) (ts : list Thread) (t : Thread) : list Command :=
  let spawned := Z.of_nat (length ts) in
  let in_flight := spawned - count_succeeded ts in
  let slots := if decide (limit = 0) then total else limit in
  if negb (succeeded t) then
    [CTerminateState (mkTerminateState (self_of a)
       (Failed (Runtime (StateFailed (state_name (ac_state_path a)) "Map item failed" VNull))))]
  else if decide (count_succeeded ts = total) then
    [CCompleteState (mkCompleteState activity (VArray (map output_of ts)))]
  else
    map (spawn_item st activity a items)
      (seqZ spawned (Z.min (Z.max 0 (slots - in_flight)) (total - spawned))).
Lemma map_child_completed_sends st a vars (activity : ObjectRef ActivityKind) act items total limit
    refs ts i r t (s : St) :
  activities (h_txn s) !! ref_name activity = Some act ->
  ac_activity_state act = Some (ASMap (mkMapActivity items total limit (list_to_map (indexed refs)))) ->
  Forall2 (row_is s) refs ts -> refs !! i = Some r -> ts !! i = Some t ->
  sends s (child_completed (map_handler st) activity a vars (as_raw r))
    (map_answer st activity a items total limit ts t).
Proof.
  intros Hrow Hst Hts Hr Ht. simpl. unfold map_child_completed.
  eapply sends_read; [apply read_activity|]. rewrite Hrow, Hst. cbn [ma_children ma_total ma_items].
  destruct (List.find _ _) as [[k r']|] eqn:Hf.
  2:{ exfalso. eapply find_none with (x := (Z.of_nat i, r)) in Hf; [by rewrite bool_decide_true in Hf|].
      apply list_elem_of_In. rewrite index_iter_perm. by apply elem_of_indexed. }
  apply find_some in Hf as [_ Hr'%bool_decide_eq_true]. apply as_raw_inj in Hr'. simpl in Hr'. subst r'.
  eapply sends_read; [apply read_thread|].
  pose proof (Forall2_lookup_lr _ _ _ _ _ _ Hts Hr Ht) as Hrt. unfold row_is in Hrt. rewrite Hrt.
  unfold map_answer. change (item_succeeded (Some t)) with (succeeded t).
  destruct (succeeded t); cbn [negb]; [|apply sends_command].
  eapply sends_read; [by apply count_done_spec|]. unfold ma_total.
  rewrite size_indexed, (Forall2_length _ _ _ Hts).
  case_decide.
  - eapply sends_read; [apply item_outputs_spec; by rewrite sort_children, indexed_snd|].
    apply sends_command.
  - unfold capacity. cbn [ma_max_concurrency ma_total]. unfold u64_saturating_sub.
    rewrite seqZ_nat. apply spawn_items_sends.
Qed.

(** The indexes of the threads a list of commands starts. *)
Definition started_indexes (cs : list Command) : list Z :=
  omap (fun c => match c with CSpawnThread p => Some (sp_index p) | _ => None end) cs.
Lemma started_items st owner a items l :
  started_indexes (map (spawn_item st owner a items) l) = l.
Proof. induction l as [|x l IH]; [done|]. simpl. by f_equal. Qed.
Lemma map_answer_bounds st activity a items total limit ts t :
  0 <= limit -> 0 <= total ->
  let new := started_indexes (map_answer st activity a items total limit ts t) in
  let spawned := Z.of_nat (length ts) in
  let in_flight := spawned - count_succeeded ts in
  new = seqZ spawned (Z.of_nat (length new)) /\
  (new <> [] -> spawned + Z.of_nat (length new) <= total /\
     (limit <> 0 -> in_flight + Z.of_nat (length new) <= limit)).
Proof.
  intros Hl Ht. unfold map_answer. cbv zeta.
  destruct (negb (succeeded t)); [done|]. destruct (decide (count_succeeded ts = total)); [done|].
  rewrite started_items. rewrite length_seqZ. split.
  - by rewrite <- seqZ_nat.
  - intros Hne. destruct (decide (limit = 0)).
    + destruct (decide (Z.of_nat (length ts) < total)); [lia|].
      exfalso. apply Hne, seqZ_nil. lia.
    + assert (0 < Z.min (Z.max 0 (limit - (Z.of_nat (length ts) - count_succeeded ts)))
                   (total - Z.of_nat (length ts))).
      { apply Z.nle_gt. intros Hle. by apply Hne, seqZ_nil. }
      lia.
Qed.
End Children.

(** ** Choice and wait without the expression cache *)

Section Reference.
Context `{Engine}.

(** A condition's value; [None] is a rule without a condition. *)
Definition condition_value (c : option ChoiceCondition) (states : Value) (vars : Variables)
    : Res ExecutionError bool :=
  match c with
  | Some (CBool b) => Ok b
  | Some (CExpr e) =>
      res_bind (extract_jsonata (jx_str e)) (fun inner =>
      match inner with
      | None => Err (Runtime (InvalidDefinition "Choice Condition must be a {% %} JSONata expression"))
      | Some inner =>
          res_bind (eval_expr_ref inner states vars) (fun v =>
          match v with
          | VBool b => Ok b
          | _ => Err (Runtime (Jsonata (jx_str e) "Condition must evaluate to a boolean"))
          end)
      end)
  | None => Ok false
  end.
Lemma condition_holds_computes c states vars :
  computes (condition_holds c states vars) (condition_value c states vars).
Proof.
  destruct c as [[b|e]|]; simpl; try apply computes_ret.
  apply computes_bind; [apply computes_lift_res|]. intros [inner|]; [|by intros env].
  apply computes_bind; [apply eval_expr_computes|]. intros []; by intros env.
Qed.

(** The rules before [i] do not hold. *)
Definition rejected_before (rules : list ChoiceRule) states vars (i : nat) : Prop :=
  forall j r, (j < i)%nat -> rules !! j = Some r -> condition_value (cr_condition r) states vars = Ok false.
Lemma first_match_spec rules states vars env :
  cache_ok env ->
  cache_ok (first_match rules states vars env).2 /\
  match (first_match rules states vars env).1 with
  | Ok (Some r) => exists i, rules !! i = Some r /\
      condition_value (cr_condition r) states vars = Ok true /\ rejected_before rules states vars i
  | Ok None => rejected_before rules states vars (length rules)
  | Err e => exists i r, rules !! i = Some r /\
      condition_value (cr_condition r) states vars = Err e /\ rejected_before rules states vars i
  | Panic m => exists i r, rules !! i = Some r /\
      condition_value (cr_condition r) states vars = Panic m /\ rejected_before rules states vars i
  end.
Proof.
  revert env. induction rules as [|r rules IH]; intros env Henv; simpl.
  { split; [done|]. intros j r Hj. simpl in Hj. lia. }
  pose proof (condition_holds_computes (cr_condition r) states vars env Henv) as [Hr Hc].
  unfold bind. destruct (condition_holds _ _ _ env) as [o env1]. simpl in Hr, Hc.
  assert (rejected_before (r :: rules) states vars 0) as Hz by (intros j ? ?; lia).
  destruct o as [[]|e|m]; simpl.
  - split; [done|]. by exists 0%nat.
  - specialize (IH env1 Hc) as [Hc2 IH]. split; [done|].
    assert (forall i, rejected_before rules states vars i -> rejected_before (r :: rules) states vars (S i)) as Hs.
    { intros i Hi [|j] r' Hj; simpl; [by intros [= <-]|]. intros Hl. eapply Hi; [|done]. lia. }
    destruct (first_match rules states vars env1).1 as [[r'|]|e|m].
    + destruct IH as (i & ? & ? & ?). exists (S i). auto.
    + by apply Hs.
    + destruct IH as (i & r' & ? & ? & ?). exists (S i), r'. auto.
    + destruct IH as (i & r' & ? & ? & ?). exists (S i), r'. auto.
  - split; [done|]. by exists 0%nat, r.
  - split; [done|]. by exists 0%nat, r.
Qed.
End Reference.
