(* ===== verification/Fixture.v ===== *)
(** A concrete engine for the witnesses: the external code instantiated by small functions,
    a table of flow definitions by their text, and the node the witnesses run. *)
From S2P Require Import Prelude Names Timestamp Float64 Json Asl Errors Meta Entities Tasks.
From S2P Require Import Commands LogStream Storage Applier Eval Handler Dispatch Leader.
From S2P Require Import StreamProcessor.
Local Open Scope string_scope.
Local Open Scope Z_scope.

(** JSONata reduced to the document, a failing expression and a malformed one. *)
Definition sample_jsonata : JsonataLib := {|
  AstNode := string;
  jsonata_parse e := if String.eqb e "(" then inl "unbalanced" else inr e;
  jsonata_evaluate ast data states vars :=
    if String.eqb ast "input" then inr data
    else if String.eqb ast "fail" then inl "boom"
    else inr (default VNull (vars !! ast)) |}.

Definition pass_state (next : option string) : State :=
  Pass (mkPassState None None None next (match next with None => Some true | _ => None end)).
Definition fail_state : State := Fail_ (mkFailState None None None).
Definition task_state : State :=
  Task_ (mkTaskState None None None None (Some true) None None None "res" None None).
(** A task whose catcher's output expression fails. *)
Definition catching_task : State :=
  Task_ (mkTaskState None None None None (Some true) None None
    (Some [mkCatcher ["States.ALL"] "Done" None (Some (VString "{% fail %}"))]) "res" None None).
Definition wait_state : State := Wait (mkWaitState None None None None (Some true) None None).
Definition map_state : State :=
  Map_ (mkMapState None None None None (Some true)
    (Some (mkItemProcessor "Item" {["Item" := pass_state None]}))
    (Some (MArray [VNull; VBool true; VBool false])) None (Some (IInt 2)) None None None None).
Definition parallel_state : State :=
  Parallel (mkParallelState None None None None (Some true)
    [mkBranch "A" {["A" := pass_state None]}; mkBranch "B" {["B" := pass_state None]}]
    None None None).

(** A definition that keeps its input in a variable and routes on it. *)
Definition keep_state : State :=
  Pass (mkPassState None None (Some [("ok", VString "{% input %}")]) (Some "Route") None).
Definition route_state : State :=
  Choice (mkChoiceState None None None (Some "Refuse")
    [mkChoiceRule (Some (CExpr (mkJsonataExpr "{% ok %}"))) "Accept" None
       (Some (VArray [VString "{% ok %}"]))]).
Definition route_states : gmap string State :=
  {["Start" := keep_state; "Route" := route_state; "Accept" := Succeed (mkSucceedState None None);
    "Refuse" := Fail_ (mkFailState None None (Some "Refused"))]}.

(** The definitions, by their text. *)
Definition machine_of (start : string) (states : gmap string State) : StateMachine :=
  mkStateMachine start None None None states.
Definition sample_parse (text : string) : string + StateMachine :=
  if String.eqb text "pass" then inr (machine_of "Start" {["Start" := pass_state None]})
  else if String.eqb text "fail" then inr (machine_of "Start" {["Start" := fail_state]})
  else if String.eqb text "task" then inr (machine_of "Start" {["Start" := task_state]})
  else if String.eqb text "catch" then inr (machine_of "Start" {["Start" := catching_task]})
  else if String.eqb text "wait" then inr (machine_of "Start" {["Start" := wait_state]})
  else if String.eqb text "map" then inr (machine_of "Start" {["Start" := map_state]})
  else if String.eqb text "parallel" then inr (machine_of "Start" {["Start" := parallel_state]})
  else if String.eqb text "route" then inr (machine_of "Start" route_states)
  else inl "expected value at line 1 column 1".

(** The engine built with or without debug assertions: the clock advances a millisecond a
    reading, ids count up. *)
Definition sample_engine (debug : bool) : Engine := {|
  engine_profile := debug;
  engine_libm := fun x _ => x;
  engine_crc := fun s => Z.of_nat (String.length s);
  engine_hash := canonical_order;
  engine_jsonata := sample_jsonata;
  clock_at n := 1000 + Z.of_nat n;
  ulid_at n := 1 + Z.of_nat n;
  parse_machine := sample_parse;
  debug_state_path _ := "path";
  debug_status s := phase s;
  ulid_str := u64_to_string;
  rfc3339_parts _ := None |}.
Definition debug_engine : Engine := sample_engine true.
Definition release_engine : Engine := sample_engine false.

(** A fresh node, and the two commands that start a run of the definition [text]. *)
Definition node_init (E : Engine) : Node (H:=engine_jsonata) InMemoryDb :=
  mkNode db_default log_new ∅ EvalEnv_new 0 [] 0 0 [] [].
Definition sample_flow (text : string) : Command :=
  CCreateFlow (mkCreateFlow 7 (mkPlainName "flow") text).
Definition sample_run : Command :=
  CCreateExecution (mkCreateExecution 8 (Plain (mkPlainName "order"))
    (mkRef (version_name (mkPlainName "flow") 1) 2) (VBool true)).
Definition started (E : Engine) (text : string) : Node (H:=engine_jsonata) InMemoryDb :=
  ((submit_command (sample_flow text) ;;; submit_command sample_run) (node_init E)).2.
Definition ran (E : Engine) (text : string) (fuel : nat)
    : Res ExecutionError EntryId * Node (H:=engine_jsonata) InMemoryDb :=
  run_processor fuel (started E text).
Definition order_status {J : JsonataLib} (n : Node InMemoryDb) : option Lifecycle :=
  option_map ex_status (db_executions (nd_storage n) !! Plain (mkPlainName "order")).

(** An activity of that run, with a given progress. *)
Definition sample_activity_with (progress : option ActivityState) : Activity :=
  mkActivity (build_meta 5 (Generated (mkPlainName "order") 1) 1000
      (mkRef (Generated (mkPlainName "order") 0) 4 : OwnedBy ActivityKind))
    (mkRef (Plain (mkPlainName "order")) 3) (sp_state sp_root "Start") Running (VBool true) None
    None progress None None.
Definition sample_activity : Activity := sample_activity_with None.
(** A thread of a container, named by its index. *)
Definition sample_ref (i : Z) : ObjectRef ThreadKind :=
  mkRef (Generated (mkPlainName "order") (10 + i)) (10 + i).
Definition sample_thread (i : Z) (s : Lifecycle) (output : option Value) : Thread :=
  mkThread (build_meta (10 + i) (ref_name (sample_ref i)) 1000
      (OwnerActivity (mkRef (Generated (mkPlainName "order") 1) 5) : OwnedBy ThreadKind))
    (mkRef (Plain (mkPlainName "order")) 3) sp_root "A" i s VNull output.
(** A store with that activity and those threads, in a hash order of its own. *)
Definition sample_rows (a : Activity) (ts : list Thread) : InMemoryDb :=
  db_set_activities
    (db_set_threads db_default (list_to_map (map (fun t => (m_name (th_meta t), t)) ts)))
    {[m_name (ac_meta a) := a]}.
