(* ===== verification/RocksFixture.v ===== *)
(** A concrete database for the witnesses of the persistent backends: an ordered map that
    never fails, and a serializer that tags each row with its type. They satisfy
    [RocksLaws] and [RowLaws]. *)
From S2P Require Import Prelude ByteStrings Names Timestamp Json Asl Errors Meta Entities Tasks.
From S2P Require Import Commands Keys Storage Rows RocksStorage RocksFacts RocksRefinement.
From S2P Require Import RocksScans LogStream RocksLog RocksLogFacts Fixture.
Local Open Scope string_scope.
Local Open Scope Z_scope.

#[local] Existing Instance name_order.

(** Rows tagged with their type. *)
Inductive SampleBytes :=
  | SBExecution (e : Execution) | SBThread (t : Thread) | SBVariables (v : Variables)
  | SBActivity (a : Activity) | SBTask (t : Task) | SBFlow (f : Flow)
  | SBFlowVersion (v : FlowVersion) | SBRef (r : RawObjectRef) | SBInt (z : Z).

Definition tagged {A} (inj : A -> SampleBytes) (proj : SampleBytes -> option A)
    : RowCodec SampleBytes A := {|
  to_vec a := Ok (inj a);
  from_slice b := match proj b with Some a => Ok a | None => Err "missing field" end |}.
#[export] Instance sample_codecs : RowCodecs SampleBytes := {|
  codec_execution := tagged SBExecution (fun b => match b with SBExecution x => Some x | _ => None end);
  codec_thread := tagged SBThread (fun b => match b with SBThread x => Some x | _ => None end);
  codec_variables := tagged SBVariables (fun b => match b with SBVariables x => Some x | _ => None end);
  codec_activity := tagged SBActivity (fun b => match b with SBActivity x => Some x | _ => None end);
  codec_task := tagged SBTask (fun b => match b with SBTask x => Some x | _ => None end);
  codec_flow := tagged SBFlow (fun b => match b with SBFlow x => Some x | _ => None end);
  codec_flow_version :=
    tagged SBFlowVersion (fun b => match b with SBFlowVersion x => Some x | _ => None end);
  codec_ref := tagged SBRef (fun b => match b with SBRef x => Some x | _ => None end);
  codec_i64 := tagged SBInt (fun b => match b with SBInt x => Some x | _ => None end) |}.
#[export] Instance sample_row_laws : RowLaws SampleBytes.
Proof.
  refine {| ok_execution _ := True; ok_thread _ := True; ok_variables _ := True;
            ok_activity _ := True; ok_task _ := True; ok_flow _ := True;
            ok_flow_version _ := True; ok_ref _ := True; ok_i64 _ := True |};
    intros a _; by eexists.
Defined.

(** An ordered map and transactions over a copy of it. *)
Section Map.
Context {B : Type}.
Definition key_le (x y : string * B) : Prop := str_le x.1 y.1.
#[export] Instance key_le_dec x y : Decision (key_le x y).
Proof. unfold key_le. apply _. Defined.
#[export] Instance key_le_trans : Transitive key_le.
Proof. intros x y z. unfold key_le. apply transitivity. Qed.
#[export] Instance key_le_total : Total key_le.
Proof. intros x y. unfold key_le. apply total, _. Qed.

Definition map_scan (m : gmap string B) (from : string) : list (string * B) :=
  merge_sort key_le (filter (fun x => str_le from x.1) (map_to_list m)).

Record map_txn := mkMapTxn { mt_base : gmap string B; mt_view : gmap string B }.

Lemma strictly_sorted (l : list (string * B)) :
  NoDup l.*1 -> StronglySorted key_le l -> StronglySorted (fun x y => str_lt x.1 y.1) l.
Proof.
  intros Hnd Hs. induction Hs as [|x l Hs IH Hle]; constructor; simpl in Hnd; apply NoDup_cons in Hnd.
  - apply IH, Hnd.
  - rewrite Forall_forall in Hle. apply Forall_forall. intros y Hy.
    specialize (Hle y Hy). apply str_le_lt_eq in Hle as [?|Heq]; [done|].
    destruct Hnd as [Hnin _]. exfalso. apply Hnin. rewrite Heq. apply list_elem_of_fmap. eauto.
Qed.

Lemma map_scan_spec m from : scan_of m from (map_scan m from).
Proof.
  split.
  - apply strictly_sorted; [|apply StronglySorted_merge_sort; apply _].
    unfold map_scan. rewrite merge_sort_Permutation.
    eapply sublist_NoDup; [apply (NoDup_fst_map_to_list m)|]. apply fmap_sublist.
    apply sublist_filter.
  - intros k b. unfold map_scan.
    rewrite merge_sort_Permutation, list_elem_of_filter, elem_of_map_to_list. simpl. tauto.
Qed.

#[export] Instance map_db : RocksDb B (gmap string B) map_txn := {|
  rdb_open_default _ := Ok ∅;
  rdb_get d k := Ok (d !! k);
  rdb_put k b := fun d => (Ok tt, <[k := b]> d);
  rdb_delete k := fun d => (Ok tt, delete k d);
  rdb_prefix_iterator d p := Ok <$> map_scan d p;
  rdb_transaction d := mkMapTxn d d;
  rtx_get x k := Ok (mt_view x !! k);
  rtx_put k b := fun x => (Ok tt, mkMapTxn (mt_base x) (<[k := b]> (mt_view x)));
  rtx_delete k := fun x => (Ok tt, mkMapTxn (mt_base x) (delete k (mt_view x)));
  rtx_iterator_from x p := Ok <$> map_scan (mt_view x) p;
  rtx_commit x := fun _ => (Ok tt, mt_view x) |}.
#[export] Instance map_db_laws : RocksLaws B (gmap string B) map_txn.
Proof.
  refine {| dview d := d; xview := mt_view; xbase := mt_base |}; try (by intros; eauto);
    intros; eexists; split; [done|apply map_scan_spec|done|apply map_scan_spec].
Defined.
End Map.
Arguments map_txn : clear implicits.

(** ** A store of the default scope *)
Definition sample_kb : KeyBuilder :=
  KeyBuilder_new (Scope_new (mkPlainName "default") (mkPlainName "default")).
Lemma sample_kb_wf : kb_wf sample_kb.
Proof. by split. Qed.
Notation sample_store := (RocksStorage (gmap string SampleBytes)).
Notation sample_txn := (map_txn SampleBytes).
Definition empty_store : sample_store := mkRocksStorage ∅ sample_kb.
Definition sample_uid (_ : ObjectKind) (_ : ObjectName) : Ulid := 5.
Notation stands_for :=
  (store_refines (B:=SampleBytes) (X:=sample_txn) sample_kb sample_uid).

(** A write keeps a store standing for the tables it is written to. *)
Lemma stands_after op m (s : sample_store) d :
  store_op op = Some m -> op_wf sample_uid op -> stands_for s d ->
  stands_for (m s).2 (perform op d).2.
Proof.
  intros Hop Hwf H. exact (proj2 (store_op_sim (D:=gmap string SampleBytes) (X:=sample_txn)
    sample_kb sample_kb_wf sample_uid op m Hop Hwf s d H)).
Qed.

(** A running thread alone in the store. *)
Definition one_thread : Thread := sample_thread 0 Running None.
Definition thread_store : sample_store :=
  (rs_put_thread (X:=sample_txn) one_thread empty_store).2.
Definition thread_tables : InMemoryDb := (perform (OpPutThread one_thread) db_default).2.
Lemma thread_store_refines : stands_for thread_store thread_tables.
Proof.
  apply (stands_after (OpPutThread one_thread) _ empty_store db_default eq_refl); [by vm_compute|].
  by apply empty_refines.
Qed.

(** The thread beside a task that nobody has claimed. *)
Definition one_task : Task :=
  mkTask (build_meta 5 (Generated (mkPlainName "order") 2) 1000
      (mkRef (Generated (mkPlainName "order") 1) 5 : OwnedBy TaskKind))
    (mkRef (Plain (mkPlainName "order")) 5) "res" VNull TPending None None None []
    RetryState_default.
Definition task_store : sample_store := (rs_put_task (X:=sample_txn) one_task thread_store).2.
Definition task_tables : InMemoryDb := (perform (OpPutTask one_task) thread_tables).2.
Lemma task_store_refines : stands_for task_store task_tables.
Proof.
  apply (stands_after (OpPutTask one_task) _ thread_store thread_tables eq_refl); [by vm_compute|].
  apply thread_store_refines.
Qed.

(** A flow alone in the store. *)
Definition one_flow : Flow :=
  mkFlow (build_meta 9 (Plain (mkPlainName "flow")) 1000 (tt : OwnedBy FlowKind)) FlowActive 1.
Definition flow_store : sample_store := (rs_put_flow (X:=sample_txn) one_flow empty_store).2.
Definition flow_tables : InMemoryDb := (perform (OpPutFlow one_flow) db_default).2.
Lemma flow_store_refines : stands_for flow_store flow_tables.
Proof.
  apply (stands_after (OpPutFlow one_flow) _ empty_store db_default eq_refl); [by vm_compute|].
  by apply empty_refines.
Qed.

(** ** A log database *)
#[export] Instance map_log_db : LogDb (gmap string string) := {|
  ldb_open_default _ := Ok ∅;
  ldb_get d k := Ok (d !! k);
  ldb_write_sync puts := fun d => (Ok tt, put_all d puts);
  ldb_iterator_from d k := Ok <$> map_scan d k |}.
#[export] Instance map_log_laws : LogDbLaws (gmap string string).
Proof.
  refine {| lview d := d |}; try (by intros; eauto).
  intros d k. eexists. split; [done|apply map_scan_spec].
Defined.

(** Marks written as the decimal of their position. *)
Definition sample_mark (id : Z) : Entry := mkEntry 1 id None 0 PNoop.
Definition is_sample_mark (e : Entry) : Prop := exists id, 0 <= id <= u64_max /\ e = sample_mark id.
#[export] Instance mark_codec : EntryCodec := {|
  entry_to_vec e := Ok (u64_to_string (en_entry_id e));
  entry_from_slice s :=
    match u64_from_str s with Some id => Ok (sample_mark id) | None => Err "expected value" end |}.
#[export] Instance mark_laws : EntryLaws is_sample_mark.
Proof.
  intros e (id & Hid & ->). eexists. split; [done|]. simpl. by rewrite u64_roundtrip.
Qed.
