(* ===== verification/StorageTheorems.v ===== *)
(** Properties of the persistent store ([crates/storage]): its keys, its transactions and
    its committed reads against the in-memory tables, and where its scans differ. *)
From S2P Require Import Prelude ByteStrings Names Timestamp Json Asl Errors Meta Entities Tasks.
From S2P Require Import Commands Keys Storage StorageFacts Rows RocksStorage RocksFacts.
From S2P Require Import RocksRefinement RocksScans LogStream Applier Eval Handler Dispatch.
From S2P Require Import HandlerSim Leader StreamProcessor LeaderSim Facade PersistentLeader.
From S2P Require Import Fixture RocksFixture.
Local Open Scope Z_scope.

#[local] Existing Instance name_order.
#[local] Existing Instance canonical_row_order.

(** C23: A storage key names one thing: two addresses of a scope with the same key are the
    same address, and the prefix of a range scan is a prefix of exactly the rows of its
    kind, the edges of its parent, or the versions of its flow. *)
Theorem keys_identify_rows (kb : KeyBuilder) (a : address) :
  kb_wf kb -> address_wf a ->
  (forall b, address_wf b -> key_of kb a = key_of kb b -> a = b) /\
  (forall k, starts_with (kind_prefix kb (from_object k)) (key_of kb a) = true <->
             exists n, a = ARow k n) /\
  (forall p, name_wf (raw_name p) ->
     starts_with (child_edge_prefix kb p) (key_of kb a) = true <->
     exists ck cn, a = AEdge (raw_kind p) (raw_name p) ck cn) /\
  (forall f, plain_wf f ->
     starts_with (flow_version_prefix kb f) (key_of kb a) = true <->
     exists v, a = ARow FlowVersionKind (Generated f v)).
Proof.
  intros Hk Ha. split_and!.
  - intros b Hb. by apply key_of_inj.
  - intros k. by apply kind_prefix_iff.
  - intros p Hp. by apply child_edge_prefix_iff.
  - intros f Hf. by apply flow_version_prefix_iff.
Qed.

Lemma keys_identify_rows_witness :
  starts_with (flow_version_prefix sample_kb (mkPlainName "order"))
    (key_of sample_kb (ARow FlowVersionKind (Generated (mkPlainName "order") 3))) = true.
Proof.
  assert (address_wf (ARow FlowVersionKind (Generated (mkPlainName "order") 3))) as Ha
    by by vm_compute.
  destruct (keys_identify_rows sample_kb _ sample_kb_wf Ha) as (_ & _ & _ & H).
  apply (H (mkPlainName "order")); [by vm_compute|by eexists].
Defined.

Section Persistent.
Context {B D X : Type} `{HR : RocksDb B D X, HC : RowCodecs B}.
Context `{!RocksLaws B D X, !RowLaws B} (kb : KeyBuilder) (Hkb : kb_wf kb).
Context (uid_of : ObjectKind -> ObjectName -> Ulid).

(** C9: A transaction on the persistent store refines the in-memory tables. Opened on a store
    that holds the tables [d], it answers every sequence of well-formed operations as the tables
    do, leaves the store as it was until it commits, and its commit succeeds and leaves a store
    that holds the resulting tables with the watermark. The tables leave the order of a scan for
    tasks open: iterated by name they answer exactly as the transaction does; in any other order
    they differ in which of the claimable tasks a scan takes first, and in nothing else. An
    operation is well formed when its names are valid, its row is one the serializer takes, and
    an object of an ownership edge goes by the one uid its name has ([uid_of]): the persistent
    store keys edges by name, the tables by uid as well. *)
Theorem persistent_transaction_refines_memory (s : RocksStorage D) (d : InMemoryDb)
    (ops : list TxnOp) (w : option Z) :
  store_refines (X:=X) kb uid_of s d -> Forall (op_wf uid_of) ops ->
  (forall p, w = Some p -> ok_i64 p) ->
  exists t, rs_begin_txn (X:=X) s = (Ok t, s) /\
    res_rel eq (perform_all ops t).1 (perform_all ops d).1 /\
    (forall order : HashOrder,
       let in_order := perform_all (H:=@InMemoryStorage order) ops d in
       res_rel (same_answers ops d) (perform_all ops t).1 in_order.1 /\
       in_order.2 = (perform_all ops d).2) /\
    exists s', rt_commit (perform_all ops t).2 w s = (Ok tt, s') /\
      store_refines (X:=X) kb uid_of s'
        (match w with
         | Some p => db_set_position (perform_all ops d).2 p
         | None => (perform_all ops d).2
         end).
Proof.
  intros Hs Hops Hw. destruct (begin_refines kb uid_of s d Hs) as (t & Ht & Hr).
  exists t. split; [done|].
  destruct (perform_all_sim kb Hkb uid_of _ ops Hops t d Hr) as [Ha Hr'].
  split; [done|]. split.
  - intros order. destruct (perform_all_any_order name_order order ops d) as [Ho Hd].
    split; [|done]. revert Ha Ho.
    destruct (perform_all ops t).1, (perform_all (H:=@InMemoryStorage name_order) ops d).1;
      simpl; try done; by intros ->.
  - destruct Hs as (m & [Hk _] & _). by apply (commit_refines kb Hkb uid_of s).
Qed.

(** C10: The leader runs on the persistent store as it runs on the in-memory one. From a store
    that holds the tables [n] is over, a script of submissions, leader starts with their
    recovery, loops over the log, stops, and crashes between the append of a batch and its
    commit has over both stores the same outcome, log, hook calls, backoffs and resume
    position, and leaves the persistent store holding the tables of the other. The script is
    one that does not panic, and on which the in-memory store only meets what [good] and
    [good_position] accept: arguments a row store can take (valid names, rows the serializer
    takes, one uid per object) and a counter that does not go down. The in-memory store may
    iterate its tables in any order, by name if [good] accepts scans for tasks. *)
Theorem leader_runs_alike_on_both_stores `{Engine} (good : TxnOp -> bool)
    (good_position : Z -> bool) (order : HashOrder) (n : Node InMemoryDb)
    (nr : Node (RocksStorage D)) (acts : list NodeAct) :
  (forall op, good op = true -> op_wf uid_of op) ->
  (forall p, good_position p = true -> ok_i64 p) ->
  scans_by_name good order ->
  store_refines (X:=X) kb uid_of (nd_storage nr) (nd_storage n) ->
  nr = over_store n (nd_storage nr) ->
  not_panic (node_acts (H0:=checked_storage good good_position) acts n).1 ->
  exists r n' nr', node_acts (H0:=@memory_storage order) acts n = (r, n') /\
    node_acts (H0:=rocks_storage) acts nr = (r, nr') /\
    nr' = over_store n' (nd_storage nr') /\
    store_refines (X:=X) kb uid_of (nd_storage nr') (nd_storage n').
Proof.
  intros Hg Hgp Ho Hs Hn Hp.
  destruct (acts_alike good good_position kb Hkb uid_of Hg Hgp order n nr acts)
    as (r & n' & nr' & Hm & Hr & (? & ? & Hs' & <- & Hn')).
  - done.
  - by exists (nd_storage n), (nd_storage nr).
  - done.
  - exists r, n', nr'. split_and!; [done|done|by rewrite Hn'|]. by rewrite Hn'.
Qed.

(** The committed store answers its point reads and its children as the tables do, and
    keeps holding them after each of its writes. *)
Theorem persistent_store_refines_memory (op : TxnOp) m (p : Z) :
  store_op op = Some m -> op_wf uid_of op -> ok_i64 p ->
  sim (store_refines (D:=D) (X:=X) kb uid_of) eq m (perform op) /\
  sim (store_refines (D:=D) (X:=X) kb uid_of) eq
    (rs_last_processed_position (X:=X)) (reads db_last_processed_position) /\
  sim (store_refines (D:=D) (X:=X) kb uid_of) eq
    (rs_put_last_processed_position (X:=X) p) (writes (fun d => db_set_position d p)).
Proof.
  intros Hm Hop Hp. split; [by apply (store_op_sim kb Hkb uid_of op)|].
  by apply (store_position_sim kb Hkb uid_of).
Qed.

(** A page of a kind that fills before the range of the kind ends, or whose range is the
    last of the store, is the page the in-memory store serves: the rows after the token, in
    name order, up to the limit. *)
Theorem persistent_listing_serves_memory_pages (s : RocksStorage D) (d : InMemoryDb)
    (k : ObjectKind) (after : option ObjectName) (limit : Z) (rows : list (ObjectName * B)) :
  store_refines (X:=X) kb uid_of s d -> 0 < limit ->
  (memory_list_kind k after limit d).1 = Ok rows ->
  Z.of_nat (length rows) = limit \/ last_range kb s k ->
  rs_list_kind (X:=X) k after limit s = (Ok rows, s).
Proof. apply (rs_list_kind_page kb Hkb uid_of). Qed.

(** A page that does not fill runs past its kind: when the next key of the store is shorter
    than the prefix of the kind, the listing panics where the in-memory store returns. *)
Theorem listing_overruns_its_kind (s : RocksStorage D) (d : InMemoryDb) (k : ObjectKind)
    (after : option ObjectName) (limit : Z) (rows : list (ObjectName * B)) (key : string) :
  store_refines (X:=X) kb uid_of s d -> 0 < limit ->
  (memory_list_kind k after limit d).1 = Ok rows -> Z.of_nat (length rows) < limit ->
  next_after kb s k key ->
  (String.length key < String.length (kind_prefix kb (from_object k)))%nat ->
  exists msg, (rs_list_kind (X:=X) k after limit s).1 = Panic msg.
Proof. intros. eexists. by apply (rs_list_kind_overrun kb Hkb uid_of s d k after limit rows key). Qed.

(** Asked for at least as many tasks as are claimable, the committed store of an engine that has
    a thread fails to decode the thread as a task, although the in-memory store answers. *)
Theorem polling_fails_beside_threads (s : RocksStorage D) (d : InMemoryDb)
    (resource : string) (now : Timestamp) (limit : Z) :
  store_refines (X:=X) kb uid_of s d -> db_threads d <> ∅ ->
  (forall (th : Thread) (b : B), to_vec th = Ok b -> exists e, from_slice (A:=Task) b = Err e) ->
  Z.of_nat (length (select_tasks (db_tasks d) resource now limit)) < limit ->
  exists e, (rs_activatable_tasks (X:=X) resource now limit s).1 =
            Err (codec "rocksdb task decode" e).
Proof.
  intros Hs Hth Hdec Hlen. unfold select_tasks in Hlen. rewrite length_take in Hlen.
  destruct (rs_tasks_scan kb Hkb uid_of s d resource now limit Hs) as [_ H]; [lia|].
  apply H; [|done..]. unfold claims. lia.
Qed.
End Persistent.

(** One fold: a thread is written, read back, given a child and listed with it. *)
Definition sample_child : RawObjectRef := mkRaw ActivityKind (Generated (mkPlainName "order") 1) 5.
Definition sample_parent : RawObjectRef := mkRaw ThreadKind (ref_name (sample_ref 0)) 5.
Definition sample_ops : list TxnOp :=
  [OpPutThread one_thread; OpGetThread (sample_ref 0); OpAddChild sample_parent sample_child;
   OpGetChildren sample_parent; OpPutNextGeneratedSeq 4; OpNextGeneratedSeq;
   OpRemoveChild sample_parent sample_child].

(** Where a name goes by two uids the stores part: the persistent one keys the edges of a parent
    by its name, so a namesake has its children; the tables tell them apart. *)
Definition namesake : RawObjectRef := mkRaw ThreadKind (raw_name sample_parent) 6.
Theorem persistent_edges_forget_the_uid :
  let ops := [OpAddChild sample_parent sample_child; OpGetChildren namesake] in
  (exists t, rs_begin_txn (X:=sample_txn) empty_store = (Ok t, empty_store) /\
     (perform_all ops t).1 = Ok [VUnit; VChildren {[sample_child]}]) /\
  (perform_all ops db_default).1 = Ok [VUnit; VChildren ∅].
Proof. split; [eexists; split; [reflexivity|]|]; vm_compute; reflexivity. Qed.

Lemma persistent_transaction_refines_memory_witness :
  exists t, rs_begin_txn empty_store = (Ok t, empty_store) /\
    exists s', rt_commit (perform_all sample_ops t).2 (Some 9) empty_store = (Ok tt, s').
Proof.
  destruct (persistent_transaction_refines_memory (D:=gmap string SampleBytes) (X:=sample_txn)
    sample_kb sample_kb_wf sample_uid empty_store db_default sample_ops (Some 9))
    as (t & Ht & _ & _ & s' & Hs & _).
  - by apply empty_refines.
  - repeat apply Forall_cons_2; try apply Forall_nil_2; by vm_compute.
  - done.
  - eauto.
Defined.

(** A Map run, stopped and started again, over the sample rows. *)
#[export] Instance op_wf_dec uid_of op : Decision (op_wf (B:=SampleBytes) uid_of op).
Proof. destruct op; simpl; unfold coherent, plain_wf; apply _. Defined.
Definition row_uid {E} (f : E -> Ulid) (o : option E) : Ulid := default 0 (f <$> o).
Definition uid_in (d : InMemoryDb) (k : ObjectKind) (n : ObjectName) : Ulid :=
  match k with
  | ExecutionKind => row_uid (fun e => m_uid (ex_meta e)) (db_executions d !! n)
  | ThreadKind => row_uid (fun e => m_uid (th_meta e)) (db_threads d !! n)
  | ActivityKind => row_uid (fun e => m_uid (ac_meta e)) (db_activities d !! n)
  | TaskKind => row_uid (fun e => m_uid (tk_meta e)) (db_tasks d !! n)
  | _ => 0
  end.
Definition map_uids : ObjectKind -> ObjectName -> Ulid :=
  uid_in (nd_storage (ran debug_engine "map" 160).2).
Definition map_acts : list NodeAct :=
  [ActSubmit (sample_flow "map"); ActSubmit sample_run; ActStart 160; ActStop; ActStart 160].
(** The run claims no task: the tables may be iterated in an order of their own. *)
Definition no_scan (op : TxnOp) : bool :=
  match op with OpActivatableTasks _ _ _ => false | _ => true end &&
  bool_decide (op_wf (B:=SampleBytes) map_uids op).
Definition persistent_init : Node (H:=sample_jsonata) sample_store :=
  over_store (node_init debug_engine) empty_store.

Lemma map_acts_complete :
  (node_acts (H:=debug_engine) (H0:=@memory_storage canonical_order) map_acts
     (node_init debug_engine)).1 = Ok tt /\
  order_status (J:=sample_jsonata) (node_acts (H:=debug_engine)
    (H0:=@memory_storage canonical_order) map_acts (node_init debug_engine)).2 = Some Completed.
Proof. split; vm_compute; reflexivity. Qed.

Lemma leader_runs_alike_on_both_stores_witness :
  exists nr' e, node_acts (H:=debug_engine) map_acts persistent_init = (Ok tt, nr') /\
    (rs_get_execution (X:=sample_txn) (mkRef (Plain (mkPlainName "order")) 5) (nd_storage nr')).1
      = Ok (Some e) /\ ex_status e = Completed.
Proof.
  destruct (leader_runs_alike_on_both_stores (D:=gmap string SampleBytes) (X:=sample_txn)
    (H:=debug_engine) sample_kb sample_kb_wf map_uids
    no_scan (fun _ => true) canonical_order
    (node_init debug_engine) persistent_init map_acts) as (r & n' & nr' & Hm & Hr & _ & Hs).
  - intros op. by intros [_ ?%bool_decide_eq_true]%andb_prop.
  - done.
  - by intros resource now limit.
  - by apply empty_refines.
  - done.
  - vm_compute. exact I.
  - destruct map_acts_complete as [Hok Hst].
    rewrite Hm in Hok, Hst. simpl in *. subst r. unfold order_status in Hst.
    pose proof (proj1 (store_op_sim (D:=gmap string SampleBytes) (X:=sample_txn) sample_kb
      sample_kb_wf map_uids (OpGetExecution (mkRef (Plain (mkPlainName "order")) 5)) _ eq_refl
      ltac:(by vm_compute) _ _ Hs)) as He. unfold answer, bind in He. simpl in He.
    destruct (db_executions (nd_storage n') !! _) as [e|]; [|done]. injection Hst as Hst.
    exists nr', e. split; [exact Hr|]. clear Hr Hm. split; [|exact Hst]. simpl.
    destruct (decode_row _) as [o| |]; simpl in He; [by injection He as ->|done..].
Defined.

Lemma persistent_store_refines_memory_witness :
  (rs_get_thread (X:=sample_txn) (sample_ref 0) thread_store).1 = Ok (Some one_thread).
Proof.
  destruct (persistent_store_refines_memory (D:=gmap string SampleBytes) (X:=sample_txn)
    sample_kb sample_kb_wf sample_uid (OpGetThread (sample_ref 0)) _ 0 eq_refl) as [H _].
  - by vm_compute.
  - done.
  - destruct (H _ _ thread_store_refines) as [Hr _]. revert Hr.
    unfold answer, bind. destruct (rs_get_thread _ _) as [[v| |] s]; simpl; try done.
    intros [= ->]. done.
Defined.

Lemma persistent_listing_serves_memory_pages_witness :
  rs_list_kind (X:=sample_txn) ThreadKind None 1 thread_store =
  (Ok [(ref_name (sample_ref 0), SBThread one_thread)], thread_store).
Proof.
  apply (persistent_listing_serves_memory_pages sample_kb sample_kb_wf sample_uid
    thread_store thread_tables); [apply thread_store_refines|lia|by vm_compute|by left].
Defined.

Lemma listing_overruns_its_kind_witness :
  exists msg, (rs_list_kind (X:=sample_txn) ExecutionKind None 10 flow_store).1 = Panic msg.
Proof.
  apply (listing_overruns_its_kind sample_kb sample_kb_wf sample_uid flow_store flow_tables
    ExecutionKind None 10 [] (key_flow sample_kb (mkPlainName "flow"))).
  - apply flow_store_refines.
  - lia.
  - by vm_compute.
  - simpl. lia.
  - split_and!; [by eexists|by vm_compute|by vm_compute|].
    intros key' [b Hb] _ _. unfold flow_store in Hb. simpl in Hb.
    apply lookup_insert_Some in Hb as [[<- _]|[_ ?]]; [reflexivity|done].
  - vm_compute. lia.
Defined.

Lemma polling_fails_beside_threads_witness :
  exists e, (rs_activatable_tasks (X:=sample_txn) "res" 1000 10 thread_store).1 =
            Err (codec "rocksdb task decode" e).
Proof.
  apply (polling_fails_beside_threads sample_kb sample_kb_wf sample_uid thread_store thread_tables).
  - apply thread_store_refines.
  - apply map_non_empty_singleton.
  - intros th b [= <-]. by eexists.
  - by vm_compute.
Defined.
