(* ===== verification/LogTheorems.v ===== *)
(** Properties of the durable log ([crates/logstream/src/rocks.rs]). *)
From S2P Require Import Prelude ByteStrings Names Timestamp Commands LogStream RocksFacts RocksLog.
From S2P Require Import RocksLogFacts RocksFixture.
Local Open Scope Z_scope.

Section Durable.
Context {D : Type} `{LogDb D, EntryCodec, !LogDbLaws D}.
Context (ok_entry : Entry -> Prop) `{!EntryLaws ok_entry}.

(** C11: The durable log is the in-memory log: an append stamps the same positions, returns the
    same last one and leaves a database that holds the longer log; a point read and a
    tailing read, from any position on, return the same entries. Two passes of the tailing
    loop are enough: the second finds nothing left. *)
Theorem durable_log_refines_memory (s : RocksLogStream D) (g : LogState) (l : list Entry)
    (n : nat) (fuel : nat) :
  log_rel s g -> Forall ok_entry (stamp_all (lg_stream_id g) (lg_next_entry_id g) l).1 ->
  lg_next_entry_id g + Z.of_nat (length l) <= i64_max ->
  Z.of_nat n + 1 <= i64_max -> (2 <= fuel)%nat ->
  (exists s', rl_append l s = ((log_append g l).1, s') /\ log_rel s' (log_append g l).2) /\
  (forall i, i <= i64_max -> rl_read s i = log_read g i) /\
  rl_stream_read fuel s (Z.of_nat n + 1) = stream_read g (Z.of_nat n + 1) /\
  rl_stream_read fuel s id_nil = stream_read g id_nil.
Proof.
  intros Hs Hok Hb Hn Hf. split_and!.
  - by apply (rl_append_refines ok_entry).
  - intros i Hi. by apply rl_read_refines.
  - by apply rl_stream_read_refines.
  - by apply rl_stream_read_nil.
Qed.

(** C24: A restart resumes the log: opening the database a log left gives a log with the same
    entries whose next append continues at the position after the last. *)
Theorem reopened_log_resumes (s : RocksLogStream D) (g : LogState) (db : D) (l : list Entry) :
  log_rel s g -> lg_stream_id g = 1 -> lview db = lview (rl_db s) ->
  Forall ok_entry (stamp_all (lg_stream_id g) (lg_next_entry_id g) l).1 ->
  lg_next_entry_id g + Z.of_nat (length l) <= i64_max ->
  exists s', RocksLogStream_boot db = Ok s' /\ log_rel s' g /\
    exists s'', rl_append l s' = ((log_append g l).1, s'') /\ log_rel s'' (log_append g l).2.
Proof.
  intros Hs H1 Hdb Hok Hb. destruct (boot_refines s g db Hs H1 Hdb) as (s' & Hboot & Hs').
  exists s'. split_and!; [done..|]. by apply (rl_append_refines ok_entry).
Qed.
End Durable.

(** A log of two marks in an empty database. *)
Definition sample_log : RocksLogStream (gmap string string) := mkRocksLog ∅ 1 1 0.
Lemma two_marks_ok : Forall is_sample_mark (stamp_all 1 1 [sample_mark 0; sample_mark 0]).1.
Proof. repeat constructor; eexists; (split; [|reflexivity]); unfold u64_max; lia. Qed.

Lemma durable_log_refines_memory_witness :
  exists s', rl_append [sample_mark 0; sample_mark 0] sample_log = (Ok 2, s').
Proof.
  destruct (durable_log_refines_memory is_sample_mark sample_log log_new
    [sample_mark 0; sample_mark 0] 0 2) as [(s' & Hs & _) _].
  - by apply log_rel_empty.
  - apply two_marks_ok.
  - by vm_compute.
  - by vm_compute.
  - lia.
  - by exists s'.
Defined.

Lemma reopened_log_resumes_witness :
  exists s', RocksLogStream_boot (∅ : gmap string string) = Ok s' /\
    exists s'', rl_append [sample_mark 0; sample_mark 0] s' = (Ok 2, s'').
Proof.
  destruct (reopened_log_resumes is_sample_mark sample_log log_new ∅
    [sample_mark 0; sample_mark 0]) as (s' & Hb & _ & s'' & Hs & _).
  - by apply log_rel_empty.
  - done.
  - done.
  - apply two_marks_ok.
  - by vm_compute.
  - eauto.
Defined.

(** A stored entry that does not decode is skipped by the tailing read without its position
    being counted, so the entry after it is delivered twice. *)
Theorem undecodable_entry_repeats_the_next :
  let db := put_all ∅ [(entry_key 1, "1"); (entry_key 2, "?"); (entry_key 3, "3")]%string in
  rl_stream_read 3 (mkRocksLog db 4 1 0) 1 = [sample_mark 1; sample_mark 3; sample_mark 3] /\
  rl_read (mkRocksLog db 4 1 0) 2 = Err (LDeserialize "expected value").
Proof. by vm_compute. Qed.
