(* ===== verification/SystemTheorems.v ===== *)
(** The correctness of the running system: what the log, the store and a follower agree on
    across submissions, processing, stops and starts. *)
From S2P Require Import Prelude Names Timestamp Float64 Json Asl Errors Meta Entities Tasks.
From S2P Require Import Commands LogStream Storage StorageFacts Applier ApplierFacts Eval Handler.
From S2P Require Import Dispatch HandlerFacts Emission Leader Projection Runs LeaderFacts.
From S2P Require Import StreamProcessor StreamFacts System Fixture.
Local Open Scope Z_scope.

(** The engine the witnesses run. *)
#[local] Existing Instance debug_engine.

(** ** Reaching concrete states *)

Lemma submit_ok `{Engine} cmd n c :
  reachable (n, c) ->
  exists n', submit_command cmd n = (Ok tt, n') /\ reachable (n', c).
Proof.
  intros Hr. pose proof (reachable_inv _ Hr) as [Hs _].
  destruct (submit_spec cmd n (sy_wf _ Hs)) as (n' & _ & Hsub & _).
  exists n'. split; [done|]. eapply rtc_r; [done|by econstructor].
Qed.

Lemma lead_steps `{Engine} fuel n c n' c' :
  run_leader fuel c n = (Ok c', n') -> rtc sys_step (n, c) (n', c').
Proof.
  revert n c. induction fuel as [|fuel IH]; intros n c; simpl; [intros [= <- <-]; apply rtc_refl|].
  unfold bind at 1, get_st. destruct (entry_at (nd_log n) c) as [e|] eqn:He;
    [|intros [= <- <-]; apply rtc_refl].
  unfold bind. destruct (lead_entry e n) as [[[]| |] n1] eqn:Hl; try done. intros Hrun.
  eapply rtc_l; [by econstructor|by apply IH].
Qed.
Lemma lead_reachable `{Engine} fuel n c n' c' :
  reachable (n, c) -> run_leader fuel c n = (Ok c', n') -> reachable (n', c').
Proof.
  intros Hr Hl%lead_steps. unfold reachable in *. by etrans.
Qed.

(** The state after [fuel] entries of the run of a sample definition. *)
Definition sample_sys (E : Engine) (text : string) (fuel : nat) : Res ExecutionError EntryId * Node InMemoryDb :=
  run_leader fuel 1 (started E text).

Lemma sample_reachable (E : Engine) text fuel c :
  (sample_sys E text fuel).1 = Ok c -> reachable ((sample_sys E text fuel).2, c).
Proof.
  intros Hc. eapply (lead_reachable fuel (started E text) 1); [|by rewrite <- Hc, <- surjective_pairing].
  unfold started, bind. destruct (submit_ok (sample_flow text) (node_init E) 1) as (n1 & -> & H1);
    [apply rtc_refl|].
  by destruct (submit_ok sample_run n1 1 H1) as (n2 & -> & H2).
Qed.

(** ** Log and store *)

(** C1: in every reachable state of the system the store holds, up to the generated-name
    counter and the resume position, exactly the fold of all the events of the log. *)
Theorem store_is_replay_of_log `{Engine} n c :
  reachable (n, c) ->
  exists d, apply_events (timed_events (lg_entries (nd_log n))) db_default = (Ok tt, d) /\
            same_data (nd_storage n) d.
Proof. intros [[] _]%reachable_inv. done. Qed.

Lemma store_is_replay_of_log_witness :
  let n := (sample_sys debug_engine "map" 160).2 in
  exists d, apply_events (timed_events (lg_entries (nd_log n))) db_default = (Ok tt, d) /\
            same_data (nd_storage n) d.
Proof.
  apply (store_is_replay_of_log _ 87), sample_reachable. vm_compute. reflexivity.
Defined.

(** C5: a crash between the append of a command's batch and its commit loses nothing: the
    restarted leader's recovery succeeds and leaves the same data as the commit would have,
    over the same log. *)
Theorem crash_recovery_equals_commit `{Engine} n c e cmd p n1 last n2 n' :
  reachable (n, c) -> entry_at (nd_log n) c = Some e -> en_payload e = PCommand cmd ->
  process_command (en_entry_id e) cmd n = (Ok p, n1) ->
  append_batch (en_entry_id e) (cp_entries p) n1 = (Ok last, n2) ->
  lead_entry e n = (Ok tt, n') ->
  exists n'' c'', start_leader (restart n2) = (Ok c'', n'') /\ nd_log n'' = nd_log n' /\
    same_data (nd_storage n'') (nd_storage n').
Proof.
  intros [Hs Hw]%reachable_inv He Hp Hpc Hab Hl.
  destruct (crash_inv e cmd p n n1 n2 last Hs Hp Hpc Hab) as (n'' & Hst & Hlog & [[] _] & _).
  destruct (synced_lead e cmd n n' Hs Hp Hl) as ([] & _ & _).
  assert (nd_log n2 = nd_log n') as Hl2.
  { revert Hl. unfold lead_entry. rewrite Hp. unfold bind. rewrite Hpc.
    pose proof (process_command_spec (en_entry_id e) cmd n) as Hspec. rewrite Hpc in Hspec.
    destruct Hspec as [_ Hb%batch_nonempty]. destruct (cp_entries p); [done|]. rewrite Hab.
    unfold map_err, on_storage, after_commit, modify.
    destruct (commit_txn (cp_work p) (Some last) (nd_storage n2)) as [[] d]; try done.
    by intros [= <-]. }
  simpl in *. rewrite Hlog, Hl2 in *. destruct sy_fold as (d & Hd & Hsd), sy_fold0 as (d0 & Hd0 & Hsd0).
  eexists _, _. split; [done|]. split; [done|]. rewrite Hsd, Hsd0. congruence.
Qed.

(** The first entry of the sample run, and the two ways its processing can end. *)
Definition first_node : Node InMemoryDb := started debug_engine "pass".
Definition first_entry : Entry :=
  default (noop_entry None 0) (entry_at (nd_log first_node) 1).
Definition crashed_node : Node InMemoryDb :=
  ((let* p := process_command 1 (sample_flow "pass") in append_batch 1 (cp_entries p))
     first_node).2.
Definition committed_node : Node InMemoryDb := (lead_entry first_entry first_node).2.

Lemma crash_recovery_equals_commit_witness :
  exists n'' c'', start_leader (restart crashed_node) = (Ok c'', n'') /\
    nd_log n'' = nd_log committed_node /\ same_data (nd_storage n'') (nd_storage committed_node).
Proof.
  eapply (crash_recovery_equals_commit first_node 1 first_entry (sample_flow "pass")).
  - apply (sample_reachable debug_engine "pass" 0). reflexivity.
  - vm_compute. reflexivity.
  - vm_compute. reflexivity.
  - vm_compute. reflexivity.
  - vm_compute. reflexivity.
  - vm_compute. reflexivity.
Defined.

(** C6: restarting the leader in any reachable state terminates in success: it keeps the log,
    leaves the data as it was, and resumes no earlier than before. *)
Theorem restart_keeps_data `{Engine} n c :
  reachable (n, c) ->
  exists n', start_leader (restart n) = (Ok (Z.of_nat (resume_at n') + 1), n') /\
    nd_log n' = nd_log n /\ same_data (nd_storage n') (nd_storage n) /\
    (resume_at n <= resume_at n')%nat.
Proof.
  intros [Hs _]%reachable_inv. destruct (synced_restart n Hs) as (n' & Hst & Hlog & [[] _] & Hle).
  exists n'. split_and!; try done. destruct Hs. simpl in *. rewrite Hlog in *.
  destruct sy_fold as (d & Hd & Hsd), sy_fold0 as (d0 & Hd0 & Hsd0).
  rewrite Hsd, Hsd0. congruence.
Qed.

Lemma restart_keeps_data_witness :
  let n := (sample_sys debug_engine "pass" 9).2 in
  exists n', start_leader (restart n) = (Ok (Z.of_nat (resume_at n') + 1), n') /\
    nd_log n' = nd_log n /\ same_data (nd_storage n') (nd_storage n) /\
    (resume_at n <= resume_at n')%nat.
Proof. apply (restart_keeps_data _ 10), sample_reachable. vm_compute. reflexivity. Defined.

(** C7: a follower that folds the log of any reachable state from an empty store succeeds and
    holds the leader's data. *)
Theorem follower_agrees_with_leader `{Engine} n c :
  reachable (n, c) ->
  exists f, run_follower (nd_log n) (mkFollower db_default 0) = (Ok tt, f) /\
    same_data (fo_storage f) (nd_storage n).
Proof. intros [Hs _]%reachable_inv. by apply follower_same. Qed.

Lemma follower_agrees_with_leader_witness :
  let n := (sample_sys debug_engine "parallel" 60).2 in
  exists f, run_follower (nd_log n) (mkFollower db_default 0) = (Ok tt, f) /\
    same_data (fo_storage f) (nd_storage n).
Proof. apply (follower_agrees_with_leader _ 57), sample_reachable. vm_compute. reflexivity. Defined.

(** The leader never reads back an event it has not applied: in any reachable state the
    iteration on an event entry succeeds and changes nothing, the debug assertion included. *)
Theorem leader_reads_back_only_applied_events `{Engine} n c e ev :
  reachable (n, c) -> entry_at (nd_log n) c = Some e -> en_payload e = PEvent ev ->
  lead_entry e n = (Ok tt, n).
Proof. intros [Hs Hw]%reachable_inv He Hp. by apply (event_applied n c e ev). Qed.

Lemma leader_reads_back_only_applied_events_witness :
  let n := (sample_sys debug_engine "pass" 4).2 in
  exists e, entry_at (nd_log n) 5 = Some e /\ lead_entry e n = (Ok tt, n).
Proof.
  eexists. split; [vm_compute; reflexivity|].
  eapply (leader_reads_back_only_applied_events _ 5).
  - apply sample_reachable. vm_compute. reflexivity.
  - vm_compute. reflexivity.
  - vm_compute. reflexivity.
Defined.

(** C30: when the leader has processed a command, restarting it resumes after the end of the
    log, so every command that was still pending in the log — submitted by a client or emitted
    by a handler — is never dispatched. *)
Theorem restart_skips_pending_commands `{Engine} n c e cmd n' :
  reachable (n, c) -> entry_at (nd_log n) c = Some e -> en_payload e = PCommand cmd ->
  lead_entry e n = (Ok tt, n') ->
  exists n'', start_leader (restart n') =
    (Ok (Z.of_nat (length (lg_entries (nd_log n'))) + 1), n'') /\ nd_log n'' = nd_log n'.
Proof.
  intros [Hs _]%reachable_inv He Hp Hl. destruct (synced_lead e cmd n n' Hs Hp Hl) as (Hs' & _ & Hr & _).
  destruct (synced_restart n' Hs') as (n'' & Hst & Hlog & [[] _] & Hle).
  simpl in *. rewrite Hlog in *. exists n''. split; [|done]. rewrite Hst. do 3 f_equal. lia.
Qed.

(** Here the flow's creation has been processed and the submitted run is pending at position 3
    of a log of length 7: the restart resumes at 8. *)
Lemma restart_skips_pending_commands_witness :
  commands_of (lg_entries (nd_log committed_node)) = [sample_flow "pass"; sample_run] /\
  exists n'', start_leader (restart committed_node) = (Ok 8, n'') /\
    nd_log n'' = nd_log committed_node.
Proof.
  split; [vm_compute; reflexivity|].
  assert (Ok (E:=ExecutionError) 8 =
    Ok (Z.of_nat (length (lg_entries (nd_log committed_node))) + 1)) as -> by (vm_compute; reflexivity).
  apply (restart_skips_pending_commands first_node 1 first_entry (sample_flow "pass")).
  - apply (sample_reachable debug_engine "pass" 0). reflexivity.
  - vm_compute. reflexivity.
  - vm_compute. reflexivity.
  - vm_compute. reflexivity.
Defined.

(** A stop between the append of a flow's batch and its commit, and the start after it. *)
Definition stopped_before_commit : Node InMemoryDb :=
  let n := started debug_engine "pass" in
  match process_command 1 (sample_flow "pass") n with
  | (Ok p, n1) => (append_batch 1 (cp_entries p) n1).2
  | (_, n1) => n1
  end.
Definition unknown_task : Command :=
  CCompleteTask (mkCompleteTask 9 (mkRef (Plain (mkPlainName "none")) ulid_nil) "worker" VNull).

Definition rejecting_run : Res ExecutionError EntryId * Node InMemoryDb :=
  (let* from := start_leader in submit_command unknown_task ;;; run_leader 5 from)
    (restart stopped_before_commit).

(** The last event recovered at a start is kept for the observer, and is reported with the
    first command the leader rejects, which has nothing to do with it: here the version of a
    flow created before the stop, beside the rejection of another request. *)
Theorem recovered_event_is_reported_with_a_rejection :
  nd_hooks (start_leader (restart stopped_before_commit)).2 = [] /\
  exists version rej, nd_hooks rejecting_run.2 =
    [on_event_applied (FlowVersionCreated 7 version); on_command_rejected 9 rej].
Proof. split; [|eexists _, _]; vm_compute; reflexivity. Qed.

(** ** Executions *)

(** C3: an execution the store holds stays in it: in every later state of the system — other
    commands, retries, stops, starts and crashes included — it has the same identity, flow
    version, deadline and input, its status has only moved along the lifecycle, and once it is
    completed or terminated its row never changes again. *)
Theorem executions_only_advance `{Engine} n c n' c' k e :
  reachable (n, c) -> rtc sys_step (n, c) (n', c') ->
  db_executions (nd_storage n) !! k = Some e ->
  exists e', db_executions (nd_storage n') !! k = Some e' /\ m_name (ex_meta e') = k /\
    object_ref (ex_meta e') = object_ref (ex_meta e) /\
    ex_flow_version e' = ex_flow_version e /\ ex_deadline e' = ex_deadline e /\
    ex_input e' = ex_input e /\ rtc (lifecycle_step false) (ex_status e) (ex_status e') /\
    (is_terminal (ex_status e) = true -> e' = e).
Proof.
  intros Hr Hs He. pose proof (reachable_names _ Hr) as Hn. apply reachable_inv in Hr.
  destruct (steps_runs _ _ Hs Hr Hn) as [Hn' Ha]. destruct (Ha _ _ He) as (e' & He' & []).
  exists e'. split_and!; try done. by apply (Hn' _ _ He').
Qed.

(** Here the run has just been created at the start and is completed at the end. *)
Lemma executions_only_advance_witness :
  let k := Plain (mkPlainName "order") in
  let n := (sample_sys debug_engine "pass" 4).2 in
  let n' := (sample_sys debug_engine "pass" 60).2 in
  exists e e', db_executions (nd_storage n) !! k = Some e /\ ex_status e = Running /\
    db_executions (nd_storage n') !! k = Some e' /\ ex_status e' = Completed /\
    rtc (lifecycle_step false) (ex_status e) (ex_status e').
Proof.
  eexists. edestruct (executions_only_advance (sample_sys debug_engine "pass" 4).2 5
    (sample_sys debug_engine "pass" 60).2 27 (Plain (mkPlainName "order"))) as (e' & He' & _ & _ & _ & _ & _ & Hst & _).
  - apply sample_reachable. vm_compute. reflexivity.
  - apply (lead_steps 60 (sample_sys debug_engine "pass" 4).2 5). vm_compute. reflexivity.
  - vm_compute. reflexivity.
  - exists e'. split; [vm_compute; reflexivity|]. split; [reflexivity|]. split; [exact He'|].
    split; [|exact Hst]. vm_compute in He'. injection He' as <-. reflexivity.
Defined.
