(* ===== verification/ServerTheorems.v ===== *)
(** Properties of what surrounds the engine: the deadline scheduler ([crates/scheduler]),
    the server's gateway ([crates/server/src/gateway.rs]) and the read facade
    ([crates/engine/src/query.rs]). *)
From S2P Require Import Prelude ByteStrings Names Timestamp Json Asl Errors Meta Entities Tasks.
From S2P Require Import Commands Keys LogStream Storage StorageFacts Rows RocksStorage RocksFacts.
From S2P Require Import RocksRefinement RocksScans Applier Eval Handler Dispatch Leader.
From S2P Require Import StreamProcessor Scheduler Facade FacadeFacts Gateway GatewayFacts.
From S2P Require Import Runs System Fixture RocksFixture SystemTheorems.
Local Open Scope Z_scope.

#[local] Existing Instance name_order.
#[local] Existing Instance canonical_row_order.

(** ** The scheduler *)

(** C17: in every reachable state of the scheduler each deadline pushed into the sink is one
    that was scheduled and has passed; a target is pushed at most as often as it was
    scheduled; and the expectation that a due target is armed holds. *)
Theorem deadlines_fire_once_and_never_early (s : SchedulerState) :
  scheduler_reachable s ->
  (forall t d, (t, d) ∈ sd_triggered s -> d <= sd_now s /\ ScheduleInput t d ∈ sd_sent s) /\
  (forall t, (length (fires t (sd_triggered s)) <= arms t (sd_sent s))%nat) /\
  (forall t rest, sd_phase s = Firing (t :: rest) -> exists s', fire_target s t rest = Ok s').
Proof.
  intros [H1 H2 H3 H4]%scheduler_reachable_inv. split_and!; [done|..].
  - intros t. specialize (H4 t). lia.
  - intros t rest Hp. rewrite Hp in H1. destruct H1 as [_ Hd].
    destruct (Hd t ltac:(set_solver)) as (d & Ha & _). unfold fire_target. rewrite Ha. eauto.
Qed.

(** C18: left alone with its messages, the loop fires exactly the deadlines that have passed,
    once each and in whatever order the table is iterated, keeps the later ones armed, and
    waits for the earliest of them. *)
Theorem due_deadlines_are_fired (s : SchedulerState) (iter : list (DeadlineTarget * Timestamp)) :
  sd_phase s = Draining -> sd_open s = true -> sd_sink s = true ->
  iter ≡ₚ map_to_list (drained s) ->
  exists s' fired next,
    rtc loop_step s s' /\ sd_inbox s' = [] /\ sd_phase s' = Waiting next /\
    sd_triggered s' = sd_triggered s ++ fired /\ NoDup fired /\
    (forall t d, (t, d) ∈ fired <-> drained s !! t = Some d /\ d <= sd_now s) /\
    (forall t d, sd_armed s' !! t = Some d <-> drained s !! t = Some d /\ sd_now s < d) /\
    match next with
    | Some m => sd_now s < m /\ forall t d, sd_armed s' !! t = Some d -> m <= d
    | None => sd_armed s' = ∅
    end.
Proof.
  intros Hp Ho Hk Hit.
  exists (turn_state s iter), (filter (fun x : DeadlineTarget * Timestamp => x.2 <= sd_now s) iter).
  eexists. split; [by apply loop_turn|]. split; [done|]. split; [done|]. simpl. rewrite Hk.
  split; [done|]. split; [|split; [|split]].
  - apply NoDup_filter. rewrite Hit. apply NoDup_map_to_list.
  - intros t d. rewrite list_elem_of_filter, Hit, elem_of_map_to_list. simpl. tauto.
  - intros t d. by rewrite map_lookup_filter_Some.
  - pose proof (next_deadline_spec
      (filter (fun x : DeadlineTarget * Timestamp => sd_now s < x.2) (drained s))) as Hn.
    destruct (next_deadline _) as [m|]; [|done]. destruct Hn as [[t Ht] Hle]. split; [|done].
    by apply map_lookup_filter_Some in Ht as [_ ?].
Qed.

(** The events that end an element, with the target its deadline has. *)
Definition settles (ev : Event) (t : DeadlineTarget) : Prop :=
  (exists a, (ev = StateCompleted a \/ ev = StateTerminated a) /\
             t = DActivity (object_ref (ac_meta a))) \/
  (exists x, (ev = ExecutionCompleted x \/ ev = ExecutionTerminated x) /\
             t = DExecution (object_ref (ex_meta x))).
Lemma settles_cancels ev t : settles ev t -> deadline_inputs ev = [CancelInput t].
Proof. by intros [(a & [-> | ->] & ->)|(x & [-> | ->] & ->)]. Qed.

(** C19: once the observer has reported that a state or an execution settled, and unless a later
    event arms it anew, its deadline reaches the engine no more, in any reachable state of the
    scheduler and whatever happens next; the one exception is a loop that, at the report, had
    already taken that deadline to fire it, which may still push it, once. *)
Theorem settled_deadline_is_disarmed (ack : AckHook) (s s' : SchedulerState) (ev : Event)
    (t : DeadlineTarget) :
  scheduler_reachable s -> settles ev t ->
  rtc scheduler_step (composite_hook (on_event_applied ev) (ack, s)).2 s' ->
  arms t (sd_sent s') = arms t (sd_sent s) ->
  exists late, fires t (sd_triggered s') = fires t (sd_triggered s) ++ late /\
    (length late <= 1)%nat /\
    (late <> [] -> exists due, sd_phase s = Firing due /\ t ∈ due).
Proof.
  intros Hre%scheduler_reachable_inv He%settles_cancels Hr Ha. simpl in Hr. rewrite He in Hr.
  simpl in Hr. change (send_input s (CancelInput t)) with (cancel s t) in Hr.
  assert (arms t (sd_sent s') = arms t (sd_sent (cancel s t))) as Ha'
    by (simpl; rewrite Ha, arms_app; by rewrite Nat.add_0_r).
  assert ((exists due, sd_phase s = Firing due /\ t ∈ due) \/
          match sd_phase s with Firing due => t ∉ due | _ => True end) as [(due & Hp & Hin)|Hout].
  { destruct (sd_phase s) as [|due|next|]; try by right. destruct (decide (t ∈ due)); eauto. }
  - pose proof (inv_due _ Hre) as Hdue. rewrite Hp in Hdue. destruct Hdue as [Hnd _].
    destruct (late_steps t _ _ Hr due) as (late & Hf & Hl); [done|done| |done|].
    { simpl. rewrite foldl_app. simpl. by rewrite decide_True. }
    exists late. split; [exact Hf|]. split; [done|]. intros _. by exists due.
  - exists []. rewrite app_nil_r. split; [|by split; [simpl; lia|]].
    rewrite (disarmed_steps t _ _ Hr); [done| |done]. apply cancel_disarms.
    by destruct (sd_phase s).
Qed.

(** ** The gateway *)


Section Answers.
Context `{Engine} {S B T : Type} `{Storage S T} `{!StoreReads S B, !RowCodecs B}.

(** C12: over any store, when the leader has processed a command whose request a caller
    registered for, the caller's channel holds the outcome of that request: the awaited event,
    the granted tasks, or the rejection. *)
Theorem acknowledged_command_is_answered (g g' : Gateway S) (e : Entry) (c : Command)
    (r : RequestId) (t : AckTarget) (rx : nat) :
  ack_wf (gw_ack g) -> ak_pending (gw_ack g) !! r = Some (t, rx) ->
  en_payload e = PCommand c -> awaited c = Some t -> command_request_id c = Some r ->
  Forall (fun ev => call_id (on_event_applied ev) <> Some r) (nd_last_applied (gw_node g)) ->
  on_engine (lead_entry e) g = (Ok tt, g') ->
  exists o, received rx (gw_ack g') = Some (Ok o) /\ outcome_of r t o.
Proof.
  intros Hwf Hp He Ha Hr Hst Hrun. unfold on_engine in Hrun.
  destruct (lead_entry e (gw_node g)) as [res n'] eqn:Hl. injection Hrun as -> <-.
  destruct (lead_entry_settles e c r t _ _ He Ha Hr Hst Hl)
    as (pre & call & suf & o & Hh & Hpre & Hid & Hv & Ho).
  exists o. split; [|done]. unfold observe. rewrite Hh, drop_app_length, composite_fold. simpl.
  unfold received. erewrite ack_delivers; [by rewrite Hv|done..|by rewrite Hv].
Qed.

Context (elapse : Gateway S -> Gateway S).
Hypothesis Helapse : forall g, rtc ack_step (gw_ack g) (gw_ack (elapse g)).


(** A submission that fails leaves its request registered: nothing will ever answer it. *)
Theorem failed_submission_stays_registered (g : Gateway S) (r : RequestId) (name : PlainName)
    (definition : string) (e : ExecutionError) (n : Node S) :
  engine_create_flow (B:=B) r name definition (gw_node g) = (Err e, n) ->
  exists g', gateway_create_flow (B:=B) elapse r name definition g = (Err e, g') /\
    ak_pending (gw_ack g') !! r = Some (AckFlowVersionCreated, length (ak_channels (gw_ack g))).
Proof.
  intros Hn. unfold gateway_create_flow, with_ack, bind, on_engine. simpl. rewrite Hn.
  eexists. split; [done|].
  pose proof (create_flow_same_hooks (B:=B) r name definition (gw_node g)) as Hh.
  rewrite Hn in Hh. simpl in Hh. rewrite observe_same by by apply Hh. simpl. by rewrite lookup_insert_eq.
Qed.
End Answers.

(** ** The gateway over the persistent store *)
Section Persistent.
Context `{HE : Engine} {B D X : Type} `{HR : RocksDb B D X, HC : RowCodecs B}.
Context `{!RocksLaws B D X, !RowLaws B} (kb : KeyBuilder) (Hkb : kb_wf kb).
Context (uid_of : ObjectKind -> ObjectName -> Ulid).
Context (elapse : Gateway (RocksStorage D) -> Gateway (RocksStorage D)).


(** C27: following the continue tokens from the first page enumerates every object of a kind
    once, in the order of their names, whatever the page size: from the in-memory store, and
    from the persistent store when nothing is stored after the kind. One page more than the
    number of objects is enough. *)
Theorem paging_enumerates_every_object (s : RocksStorage D) (d : InMemoryDb) (k : ObjectKind)
    (limit : Z) (fuel : nat) :
  listable (B:=B) d k -> 0 < limit < u64_max -> (size (table_of d k) < fuel)%nat ->
  list_all (S:=InMemoryDb) (B:=B) (H:=memory_reads (H1:=name_order)) fuel k limit None d =
    (Ok (objects_by_name d k), d) /\
  (store_refines (X:=X) kb uid_of s d -> last_range (X:=X) kb s k ->
   list_all (S:=RocksStorage D) (B:=B) fuel k limit None s = (Ok (objects_by_name d k), s)).
Proof.
  intros Hl Hlim Hfuel. destruct (memory_lists (B:=B) d k Hl) as (ln & Hs & Hwf & Hdec & Hmem).
  assert (length ln < fuel)%nat as Hlen.
  { rewrite (Forall2_length _ _ _ Hdec). unfold objects_by_name. rewrite length_fmap.
    unfold sort_by_name. rewrite merge_sort_Permutation. by rewrite length_map_to_list. }
  split.
  - apply (list_all_enumerates d k ln); try done. intros after n _. apply Hmem.
  - intros Hst Hlast. apply (list_all_enumerates s k ln); try done. intros after n Hn.
    apply (rs_list_kind_page kb Hkb uid_of s d); [done|done|by rewrite Hmem|by right].
Qed.
End Persistent.

(** ** Awaiting an execution *)

(** The states a caller's rounds find the system in. *)
Fixpoint passes_through `{Engine} (s : Sys) (path : list Sys) : Prop :=
  match path with
  | [] => True
  | s' :: path => rtc sys_step s s' /\ passes_through s' path
  end.

Lemma default_last_cons {A} (x y : A) q : default x (last (y :: q)) = default y (last q).
Proof. rewrite last_cons. by destruct (last q). Qed.
Lemma passes_to_last `{Engine} path s :
  passes_through s path -> rtc sys_step s (default s (last path)).
Proof.
  revert s. induction path as [|s1 path IH]; intros s; [constructor|]. intros [Hs Hp].
  rewrite default_last_cons. etrans; [exact Hs|by apply IH].
Qed.

Lemma execution_rows_advance `{Engine} s s' k e :
  reachable s -> rtc sys_step s s' -> db_executions (nd_storage s.1) !! k = Some e ->
  exists e', db_executions (nd_storage s'.1) !! k = Some e' /\
    (is_terminal (ex_status e) = true -> e' = e).
Proof.
  intros Hr Hs He. pose proof (reachable_names _ Hr) as Hn. apply reachable_inv in Hr.
  destruct (steps_runs _ _ Hs Hr Hn) as [_ Ha]. destruct (Ha _ _ He) as (e' & He' & []). eauto.
Qed.

(** C28: a caller that awaits an execution the store holds, in rounds spread over any run of the
    system, never gets an error; it waits as long as the rounds find the execution running, and
    the row it is given is terminal and final: no later state holds another. *)
Theorem awaited_execution_is_final `{Engine} {B : Type} `{RowCodecs B, RowOrder} (s : Sys)
    (path : list Sys) (execution : ObjectRef ExecutionKind) (e : Execution) :
  reachable s -> passes_through s path ->
  db_executions (nd_storage s.1) !! ref_name execution = Some e ->
  match wait_for_execution (B:=B) execution (map (fun x => nd_storage x.1) path) with
  | Some (Ok record) => is_terminal (ex_status record) = true /\
      forall s', rtc sys_step (default s (last path)) s' ->
        db_executions (nd_storage s'.1) !! ref_name execution = Some record
  | Some _ => False
  | None => Forall (fun x => exists record,
      db_executions (nd_storage x.1) !! ref_name execution = Some record /\
      is_terminal (ex_status record) = false) path
  end.
Proof.
  revert s e. induction path as [|s1 path IH]; intros s e Hr Hp He; [by constructor|].
  destruct Hp as [Hs1 Hp]. assert (reachable s1) as Hr1 by (unfold reachable; by etrans).
  destruct (execution_rows_advance _ _ _ _ Hr Hs1 He) as (e1 & He1 & _).
  specialize (IH s1 e1 Hr1 Hp He1). cbn [map wait_for_execution].
  unfold wait_round, bind, map_err, lift_res, ret. simpl. rewrite He1. simpl.
  destruct (is_terminal (ex_status e1)) eqn:Ht.
  - split; [done|]. intros s' Hs'.
    rewrite default_last_cons in Hs'.
    assert (rtc sys_step s1 s') as Hs1' by (etrans; [by apply passes_to_last|done]).
    destruct (execution_rows_advance _ _ _ _ Hr1 Hs1' He1) as (e' & -> & Hfin). by rewrite Hfin.
  - destruct (wait_for_execution execution _) as [[]|] eqn:E; rewrite ?E; try done.
    + destruct IH as [Hterm Hall]. split; [done|]. intros s' Hs'. apply Hall.
      by rewrite default_last_cons in Hs'.
    + constructor; [eauto|done].
Qed.

(** ** Concrete runs *)

(** A state's deadline at 5, scheduled and then passed. *)
Definition sample_target : DeadlineTarget := DActivity (object_ref (ac_meta sample_activity)).
Definition armed_state : SchedulerState :=
  clock_to (schedule (attach_sink (scheduler_spawn 0)) sample_target 5) 10.
Lemma armed_reachable : scheduler_reachable armed_state.
Proof.
  exists 0. eapply rtc_l; [apply caller_attaches|]. eapply rtc_l; [by apply (caller_sends _ (ScheduleInput sample_target 5))|].
  eapply rtc_l; [by apply (clock_moves _ 10)|constructor].
Qed.
Lemma turn_steps (s : SchedulerState) :
  sd_phase s = Draining -> sd_open s = true ->
  rtc scheduler_step s (turn_state s (map_to_list (drained s))).
Proof.
  intros Hp Ho. apply (rtc_congruence (R:=loop_step) id scheduler_step); [apply loop_runs|].
  by apply loop_turn.
Qed.

Lemma deadlines_fire_once_and_never_early_witness :
  let s := turn_state armed_state (map_to_list (drained armed_state)) in
  sd_triggered s = [(sample_target, 5)] /\ 5 <= sd_now s.
Proof.
  intros s. assert (sd_triggered s = [(sample_target, 5)]) as E by (vm_compute; reflexivity).
  split; [exact E|].
  assert (scheduler_reachable s) as Hr.
  { destruct armed_reachable as [t Ht]. exists t. etrans; [exact Ht|]. by apply turn_steps. }
  destruct (deadlines_fire_once_and_never_early s Hr) as [H _].
  apply (H sample_target). rewrite E. by left.
Defined.

Lemma due_deadlines_are_fired_witness :
  exists s' fired, rtc loop_step armed_state s' /\ sd_triggered s' = fired /\
    (sample_target, 5) ∈ fired.
Proof.
  destruct (due_deadlines_are_fired armed_state (map_to_list (drained armed_state)))
    as (s' & fired & next & Hr & _ & _ & Ht & _ & Hin & _); [reflexivity..|].
  exists s', fired. split; [exact Hr|]. split; [exact Ht|]. apply Hin.
  split; [vm_compute; reflexivity|by vm_compute].
Defined.

(** The report comes before the loop turns, and after the loop has taken the deadline. *)
Definition settled_report (s : SchedulerState) : SchedulerState :=
  (composite_hook (on_event_applied (StateCompleted sample_activity)) (AckHook_new, s)).2.
Definition taken_state : SchedulerState :=
  mkScheduler [] true true {[sample_target := 5]} (Firing [sample_target]) 10 []
    [ScheduleInput sample_target 5].
Lemma taken_reachable : scheduler_reachable taken_state.
Proof.
  destruct armed_reachable as [now Hr]. exists now. etrans; [exact Hr|].
  set (read := receive armed_state (ScheduleInput sample_target 5) []).
  replace taken_state with (set_phase read (Firing (due_targets (map_to_list (sd_armed read))
    (sd_now read)))) by (vm_compute; reflexivity).
  eapply rtc_l; [apply loop_runs; by apply (step_drain armed_state (ScheduleInput sample_target 5) [])|].
  apply rtc_once, loop_runs. by apply (step_collect read (map_to_list (sd_armed read))).
Qed.
Lemma taken_fires :
  rtc scheduler_step (settled_report taken_state)
    (fired_state (settled_report taken_state) [sample_target]).
Proof.
  apply (rtc_congruence (R:=loop_step) id scheduler_step); [apply loop_runs|].
  apply loop_fires; [by vm_compute|apply NoDup_singleton|].
  intros t ->%list_elem_of_singleton. exists 5. by vm_compute.
Qed.
Lemma settled_deadline_is_disarmed_witness :
  (let s := settled_report armed_state in
   fires sample_target (sd_triggered (turn_state s (map_to_list (drained s)))) = []) /\
  exists s', rtc scheduler_step (settled_report taken_state) s' /\
    length (fires sample_target (sd_triggered s')) = 1%nat /\
    (length (fires sample_target (sd_triggered s')) <= 1)%nat.
Proof.
  assert (settles (StateCompleted sample_activity) sample_target) as He
    by (left; exists sample_activity; auto).
  split.
  - cbv zeta. set (s := settled_report armed_state).
    destruct (settled_deadline_is_disarmed AckHook_new armed_state
      (turn_state s (map_to_list (drained s))) _ _ armed_reachable He) as (late & -> & _ & Hl);
      [by apply turn_steps|vm_compute; reflexivity|].
    destruct late; [reflexivity|]. destruct (Hl ltac:(done)) as (due & [=] & _).
  - exists (fired_state (settled_report taken_state) [sample_target]).
    split; [exact taken_fires|]. split; [by vm_compute|].
    destruct (settled_deadline_is_disarmed AckHook_new taken_state _ _ _ taken_reachable He
      taken_fires) as (late & -> & Hl & _); [by vm_compute|exact Hl].
Defined.

(** A caller that registered for the flow it submitted. *)
#[local] Existing Instance debug_engine.
Definition waiting_caller : Gateway InMemoryDb :=
  mkGateway (started debug_engine "pass") (register 7 AckFlowVersionCreated AckHook_new).2
    (scheduler_spawn 0) true.

Lemma ack_new_wf : ack_wf AckHook_new.
Proof. by split. Qed.

Definition flow_entry : Entry := mkEntry 1 1 None 1000 (PCommand (sample_flow "pass")).

Lemma acknowledged_command_is_answered_witness :
  entry_at (nd_log (gw_node waiting_caller)) 1 = Some flow_entry /\
  exists g' o, on_engine (lead_entry flow_entry) waiting_caller = (Ok tt, g') /\
    received 0 (gw_ack g') = Some (Ok o) /\ outcome_of 7 AckFlowVersionCreated o.
Proof.
  split; [vm_compute; reflexivity|].
  assert ((on_engine (lead_entry flow_entry) waiting_caller).1 = Ok tt) as Hok
    by (vm_compute; reflexivity).
  destruct (on_engine (lead_entry flow_entry) waiting_caller) as [r g'] eqn:E.
  cbn [fst] in Hok. subst r.
  destruct (acknowledged_command_is_answered waiting_caller g' flow_entry (sample_flow "pass") 7
    AckFlowVersionCreated 0) as (o & Ho); [|reflexivity..|by apply Forall_nil|exact E|].
  - by apply (register_wf 7 AckFlowVersionCreated AckHook_new 0 _ ack_new_wf).
  - exists g', o. split; [reflexivity|exact Ho].
Defined.




Lemma paging_enumerates_every_object_witness :
  list_all (S:=sample_store) (B:=SampleBytes) (H:=rocks_reads (X:=sample_txn)) 2 ThreadKind 1 None
    thread_store = (Ok [QThread one_thread], thread_store).
Proof.
  destruct (paging_enumerates_every_object (X:=sample_txn) sample_kb sample_kb_wf sample_uid
    thread_store thread_tables ThreadKind 1 2) as [_ H].
  - intros n o Ho. simpl in Ho. apply lookup_fmap_Some in Ho as (t & <- & Ht).
    apply lookup_singleton_Some in Ht as [<- <-]. split; [by vm_compute|]. split; [reflexivity|].
    by eexists.
  - by vm_compute.
  - by vm_compute; lia.
  - apply H; [apply thread_store_refines|]. 
    intros key [b Hb] _. cbv [thread_store] in Hb. simpl in Hb.
    apply lookup_insert_Some in Hb as [[<- _]|[_ ?]]; [reflexivity|done].
Defined.

(** A caller whose two rounds find the run started and then completed. *)
Lemma awaited_execution_is_final_witness :
  let n := (sample_sys debug_engine "pass" 4).2 in
  let n' := (sample_sys debug_engine "pass" 60).2 in
  exists record, wait_for_execution (B:=SampleBytes) (mkRef (Plain (mkPlainName "order")) 0)
      [nd_storage n; nd_storage n'] = Some (Ok record) /\ is_terminal (ex_status record) = true.
Proof.
  assert (forall n n' e r, reachable (n, 5) -> rtc sys_step (n, 5) (n', 27) ->
    db_executions (nd_storage n) !! Plain (mkPlainName "order") = Some e ->
    wait_for_execution (B:=SampleBytes) (mkRef (Plain (mkPlainName "order")) 0)
      [nd_storage n; nd_storage n'] = Some (Ok r) -> is_terminal (ex_status r) = true) as Hfinal.
  { intros n n' e r Hr Hs He Hw.
    pose proof (awaited_execution_is_final (B:=SampleBytes) (n, 5) [(n, 5); (n', 27)]
      (mkRef (Plain (mkPlainName "order")) 0) e Hr) as H.
    cbn [map fst] in H. rewrite Hw in H. apply H; [|exact He].
    split; [constructor|]. split; [exact Hs|exact I]. }
  intros n n'.
  assert (exists e, db_executions (nd_storage n) !! Plain (mkPlainName "order") = Some e) as [e He]
    by (eexists; vm_compute; reflexivity).
  assert (exists r, wait_for_execution (B:=SampleBytes) (mkRef (Plain (mkPlainName "order")) 0)
    [nd_storage n; nd_storage n'] = Some (Ok r)) as [r Hr] by (eexists; vm_compute; reflexivity).
  exists r. split; [exact Hr|]. refine (Hfinal n n' e r _ _ He Hr).
  - apply sample_reachable. vm_compute. reflexivity.
  - apply (lead_steps 60 n 5). vm_compute. reflexivity.
Defined.
