(* ===== verification/DurabilityTheorems.v ===== *)
(** What an acknowledgement of the server is worth: the execution a caller was given stays in
    the store through everything that may happen to the process afterwards. *)
From S2P Require Import Prelude ByteStrings Names Timestamp Json Asl Errors Meta Entities Tasks.
From S2P Require Import Commands Keys LogStream Storage Rows Applier Eval Handler Dispatch Leader.
From S2P Require Import StreamProcessor Scheduler Facade Gateway GatewayFacts Runs System.
From S2P Require Import Durability Fixture RocksFixture SystemTheorems.
Local Open Scope Z_scope.

Section Acknowledged.
Context `{Engine} {B : Type} `{RowCodecs B, RowOrder}.

(** A creation the engine accepts is a submission: its read leaves the node as it was. *)
Lemma creation_submits r name v input (n n' : Node InMemoryDb) :
  engine_create_execution (B:=B) r name v input n = (Ok tt, n') ->
  submit_command (CCreateExecution (mkCreateExecution r name v input)) n = (Ok tt, n').
Proof.
  unfold engine_create_execution, on_storage, map_err, bind. simpl.
  destruct (db_executions (nd_storage n) !! name); [done|]. by destruct n.
Qed.

(** The answer of a start is the reference of an execution its channel was given, by what ran
    after the submission. *)
Lemma start_answer elapse r name v input (g g' : Gateway InMemoryDb) ref c :
  start_for_revision (B:=B) elapse r name v input g = (Ok (Some ref), g') ->
  exists rx g1 r' e, g' = elapse g1 /\ rtc gw_step (g, c) (g1, c) /\
    received rx (gw_ack g') = Some (Ok (Applied (ExecutionCreated r' e))) /\
    ref = object_ref (ex_meta e).
Proof.
  unfold start_for_revision, bind at 1. unfold with_ack at 1.
  destruct (register r AckExecutionCreated (gw_ack g)) as [rx h] eqn:Hreg.
  set (g0 := mkGateway (gw_node g) h (gw_scheduler g) (gw_booted g)).
  unfold bind at 1. destruct (on_engine _ g0) as [[[]| |] g1] eqn:Hsub; try done.
  unfold bind, answer_with, rx_await, bind.
  destruct (received rx (gw_ack (elapse g1))) as [o|] eqn:Hrx; [|done].
  destruct (await_event o) as [ev|f|m] eqn:Hev; try done. simpl.
  destruct ev; try done. intros [= <- <-].
  exists rx, g1, request_id, execution. split_and!; try done.
  - eapply rtc_l; [|apply rtc_once].
    + apply (gw_registers g c r AckExecutionCreated).
    + unfold with_ack. rewrite Hreg. fold g0.
      apply (gw_submits _ _ (CCreateExecution (mkCreateExecution r name v input))).
      revert Hsub. unfold on_engine. change (gw_node g0) with (gw_node g).
      destruct (engine_create_execution _ _ _ _ _) as [res n] eqn:Hn. intros [= -> <-].
      cbn [snd]. change (gw_node g0) with (gw_node g).
      by rewrite (creation_submits _ _ _ _ _ _ Hn).
  - rewrite Hrx. destruct o as [[]| |]; by simplify_eq/=.
Qed.

(** C4: an acknowledged execution is durable: once a start is answered with a reference, the
    execution under that reference is in the store of every later state of the system — other
    requests, stops, starts and crashes between the append of a batch and its commit included. *)
Theorem acknowledged_creation_is_durable elapse r name v input (g g' : Gateway InMemoryDb) ref c :
  serving (g, c) -> (forall g1, exists c1, rtc gw_step (g1, c) (elapse g1, c1)) ->
  start_for_revision (B:=B) elapse r name v input g = (Ok (Some ref), g') ->
  exists c', serving (g', c') /\ forall s, rtc sys_step (gw_node g', c') s ->
    exists e, db_executions (nd_storage s.1) !! ref_name ref = Some e /\
              object_ref (ex_meta e) = ref.
Proof.
  intros Hsv Hel (rx & g1 & r' & e & -> & Hg1 & Hrx & ->)%(start_answer _ _ _ _ _ _ _ _ c).
  destruct (Hel g1) as [c' Hc']. exists c'.
  assert (serving (elapse g1, c')) as Hsv'.
  { destruct Hsv as (n0 & c0 & s0 & b0 & Hr0 & Hs0). exists n0, c0, s0, b0. split; [done|].
    by do 2 (etrans; [eassumption|]). }
  split; [done|]. apply serving_serves in Hsv' as [Hr Hb]. cbn [fst snd] in *. intros s Hs.
  assert (on_event_applied (ExecutionCreated r' e) ∈ nd_hooks (gw_node (elapse g1))) as Hh.
  { apply (Hb rx). unfold received in Hrx.
    by destruct (ak_channels _ !! rx) as [[|o|]|]; simplify_eq. }
  pose proof (reachable_durable _ Hr) as [_ Hrec Ht].
  destruct (Hrec r' e) as (e1 & He1 & Ha1); [apply Ht; by left|].
  destruct (steps_runs _ _ Hs (reachable_inv _ Hr) (reachable_names _ Hr)) as [_ Hle].
  destruct (Hle _ _ He1) as (e2 & He2 & Ha2). exists e2. split; [exact He2|].
  by rewrite (adv_ref _ _ Ha2), (adv_ref _ _ Ha1).
Qed.
End Acknowledged.

(** ** A concrete run *)
Section LeadsOn.
Context `{Engine}.
(** The leader of a serving process, over at most [fuel] entries from [c] on. *)
Fixpoint leads_on (fuel : nat) (c : EntryId) (g : Gateway InMemoryDb) : Gateway InMemoryDb :=
  match fuel, entry_at (nd_log (gw_node g)) c with
  | S fuel', Some e =>
      match on_engine (lead_entry e) g with
      | (Ok _, g') => leads_on fuel' (c + 1) g'
      | _ => g
      end
  | _, _ => g
  end.
Lemma leads_on_steps fuel c g : exists c', rtc gw_step (g, c) (leads_on fuel c g, c').
Proof.
  revert c g. induction fuel as [|fuel IH]; intros c g; simpl; [by eexists|].
  destruct (entry_at _ c) as [e|] eqn:He; [|by eexists].
  destruct (on_engine (lead_entry e) g) as [[[]| |] g'] eqn:Hl; [|by eexists..].
  destruct (IH (c + 1) g') as [c' Hc']. exists c'. eapply rtc_l; [by eapply gw_leads|done].
Qed.
End LeadsOn.

#[local] Existing Instance debug_engine.
#[local] Existing Instance canonical_row_order.

(** A server that has run one execution of a flow is asked for a second one. *)
Definition busy_gateway : Gateway InMemoryDb :=
  mkGateway (sample_sys debug_engine "pass" 60).2 AckHook_new (scheduler_spawn 0) true.
Definition second_execution : ObjectRef ExecutionKind := mkRef (Plain (mkPlainName "second")) 6.
Local Notation second_start :=
  (start_for_revision (B:=SampleBytes) (leads_on 20 27) 11 (Plain (mkPlainName "second"))
    (mkRef (version_name (mkPlainName "flow") 1) 2) VNull busy_gateway).

Lemma busy_serving : serving (busy_gateway, 27).
Proof.
  exists (sample_sys debug_engine "pass" 60).2, 27, (scheduler_spawn 0), true.
  split; [|apply rtc_refl]. apply sample_reachable. vm_compute. reflexivity.
Qed.
Lemma second_answered : second_start.1 = Ok (Some second_execution).
Proof. vm_compute. reflexivity. Qed.
Lemma second_run : exists g', second_start = (Ok (Some second_execution), g').
Proof.
  pose proof second_answered as E. destruct second_start as [r g'].
  cbn [fst] in E. subst r. by exists g'.
Qed.

Lemma acknowledged_creation_is_durable_witness :
  exists g' c', second_start = (Ok (Some second_execution), g') /\
    serving (g', c') /\ forall s, rtc sys_step (gw_node g', c') s ->
      exists e, db_executions (nd_storage s.1) !! ref_name second_execution = Some e /\
                object_ref (ex_meta e) = second_execution.
Proof.
  destruct second_run as [g' E]. exists g'.
  destruct (acknowledged_creation_is_durable (B:=SampleBytes) (leads_on 20 27) 11
    (Plain (mkPlainName "second")) (mkRef (version_name (mkPlainName "flow") 1) 2) VNull
    busy_gateway g' second_execution 27) as (c' & Hsv & Hall).
  - exact busy_serving.
  - intros g1. apply leads_on_steps.
  - exact E.
  - exists c'. split; [exact E|]. split; [exact Hsv|exact Hall].
Defined.
