(* ===== verification/LeaderTheorems.v ===== *)
(** The correctness of the leader's handling of one command: it always answers, its working
    transaction is the fold of what it emitted, rejections are atomic, retries are bounded. *)
From S2P Require Import Prelude Names Timestamp Float64 Json Asl Errors Meta Entities Tasks.
From S2P Require Import Commands LogStream Storage StorageFacts Applier ApplierFacts Eval Handler.
From S2P Require Import Dispatch HandlerFacts Emission Leader Projection LeaderFacts.
From S2P Require Import StreamProcessor StreamFacts System Fixture.
Local Open Scope Z_scope.

#[local] Existing Instance debug_engine.

(** C20: processing a command over the in-memory store returns a batch unless a handler panics:
    the batch is not empty, every entry names the command as its cause, none is a batch mark,
    and store, log, watermark and hooks are untouched until the batch is committed. *)
Theorem process_command_answers `{Engine} id c (n : Node InMemoryDb) :
  match process_command id c n with
  | (Ok p, n') =>
      cp_entries p <> [] /\
      Forall (fun e => en_cause_id e = Some id /\ en_payload e <> PNoop) (cp_entries p) /\
      nd_storage n' = nd_storage n /\ nd_log n' = nd_log n /\
      nd_watermark n' = nd_watermark n /\ nd_hooks n' = nd_hooks n
  | (Err _, _) => False
  | (Panic _, _) => True
  end.
Proof.
  pose proof (process_command_spec id c n) as Hs.
  destruct (process_command id c n) as [[p| |] n']; try done.
  by destruct Hs as [[] []].
Qed.

(** The assertion that a dispatch produced an entry never fires: whenever the handlers
    return, the attempt returns their non-empty batch. *)
Theorem dispatch_never_empty `{Engine} id c (n : Node InMemoryDb) h :
  dispatch_command c (open_context n (begin_txn (nd_storage n)) id) = (Ok tt, h) ->
  exists p n', dispatch_once id c n = (Ok p, n') /\ cp_entries p = h_entries h /\
    cp_entries p <> [].
Proof.
  intros Hd. pose proof (dispatch_once_spec id c n) as Hs. rewrite Hd in Hs.
  destruct (dispatch_once id c n) as [[p|e|m] n'] eqn:Hdo; [|exfalso|by destruct Hs].
  - destruct Hs as (_ & Hb & _). eexists _, _. split; [done|].
    split; [|by apply (batch_nonempty _ _ _ Hb)]. revert Hdo.
    unfold dispatch_once, on_storage, map_err, bind. simpl.
    change (open_context _ _ _) with (open_context n (begin_txn (nd_storage n)) id).
    rewrite Hd. by destruct (h_entries h); intros [= <- _].
  - revert Hdo. unfold dispatch_once, on_storage, map_err, bind. simpl.
    change (open_context _ _ _) with (open_context n (begin_txn (nd_storage n)) id).
    rewrite Hd. by destruct (h_entries h).
Qed.

Lemma dispatch_never_empty_witness :
  exists p n', dispatch_once 1 (sample_flow "pass") (node_init debug_engine) = (Ok p, n') /\
    length (cp_entries p) = 2%nat /\ cp_entries p <> [].
Proof.
  edestruct (dispatch_never_empty 1 (sample_flow "pass") (node_init debug_engine))
    as (p & n' & Hd & He & Hne); [vm_compute; reflexivity|].
  exists p, n'. split; [exact Hd|]. split; [|exact Hne]. rewrite He. reflexivity.
Defined.



(** C21: a rejected command is answered by exactly one [Reject] with the command's request id
    and the handler's type and reason; nothing the handler had emitted or projected survives,
    and no retry is made. *)
Theorem rejection_is_atomic `{Engine} id c (n n1 : Node InMemoryDb) ty reason :
  dispatch_once id c n = (Err (PRejected ty reason), n1) ->
  exists p n' t, process_command id c n = (Ok p, n') /\
    cp_entries p = [mkEntry id_nil id_nil (Some id) t
      (PReject (mkReject (default RequestId_nil (command_request_id c)) ty reason))] /\
    cp_work p = begin_txn (nd_storage n) /\ nd_slept n' = nd_slept n1.
Proof.
  intros Hd. pose proof (dispatch_once_spec id c n) as Hs. rewrite Hd in Hs.
  destruct Hs as [Hk _]. unfold process_command. simpl. unfold bind, attempt. rewrite Hd. simpl.
  rewrite <- (keeps_storage _ _ Hk). by eexists _, _, _.
Qed.

(** Here the run names a flow version that does not exist. *)
Lemma rejection_is_atomic_witness :
  exists p n' t reason, process_command 3 sample_run (node_init debug_engine) = (Ok p, n') /\
    cp_entries p = [mkEntry id_nil id_nil (Some 3) t (PReject (mkReject 8 InvalidArgument reason))] /\
    cp_work p = begin_txn db_default /\ nd_slept n' = [].
Proof.
  edestruct (rejection_is_atomic 3 sample_run (node_init debug_engine)) as (p & n' & t & Hp & He & Hw & Hs);
    [vm_compute; reflexivity|].
  exists p, n', t. eexists. split; [exact Hp|]. split; [exact He|]. split; [exact Hw|exact Hs].
Defined.

(** ** Retries *)

Section Retries.
Context `{Engine} {S T : Type} `{Storage S T}.

Lemma dispatch_once_slept id c (n : Node S) :
  nd_slept (dispatch_once id c n).2 = nd_slept n.
Proof.
  unfold dispatch_once, on_storage, map_err, bind.
  destruct (open_txn (nd_storage n)) as [[] s']; try done. simpl.
  destruct (dispatch_command _ _) as [[[]| |] h]; try done. by destruct (h_entries h).
Qed.

Lemma reject_command_slept id c err (n : Node S) :
  nd_slept (reject_command id c err n).2 = nd_slept n /\
  (forall e, (reject_command id c err n).1 = Err e -> exists se, e = from_storage se).
Proof.
  unfold reject_command, on_storage, map_err, bind. destruct (rejection_of err).
  destruct (open_txn (nd_storage n)) as [[] s']; simpl; split; try done; naive_solver.
Qed.

Lemma process_loop_slept left id c (n : Node S) :
  (left <= 2)%nat ->
  exists k, (k <= left)%nat /\
    nd_slept (process_loop left id c n).2 = nd_slept n ++ take k (drop (2 - left) [50; 100]) /\
    (forall e, (process_loop left id c n).1 = Err e -> exists se, e = from_storage se).
Proof.
  revert n. induction left as [|left IH]; intros n Hl; simpl; unfold bind, attempt;
    pose proof (dispatch_once_slept id c n) as Hd;
    destruct (dispatch_once id c n) as [[p|err|m] n1]; simpl in Hd |- *;
    try (exists 0%nat; rewrite app_nil_r; split_and!; (done || lia));
    destruct (reject_command_slept id c err n1) as [Hr1 Hr2]; destruct (is_unexpected err);
    try (exists 0%nat; rewrite app_nil_r; split_and!; (done || lia || congruence)).
  unfold modify. set (n2 := add_sleep n1 _).
  destruct (IH n2) as (k & Hk & Hs & He); [lia|]. exists (Datatypes.S k).
  split_and!; [lia| |done]. rewrite Hs. unfold n2; simpl. rewrite Hd, <- (assoc_L app). f_equal.
  by destruct left as [|[|]]; [..|lia].
Qed.
End Retries.

(** C22: over any store, processing a command makes at most three attempts: the backoffs
    slept are a prefix of 50 ms, 100 ms, and the only error that escapes is a store that cannot
    open the transaction of the rejection itself. *)
Theorem retries_are_bounded `{Engine} {S T} `{Storage S T} id c (n : Node S) :
  exists k, (k <= 2)%nat /\
    nd_slept (process_command id c n).2 = nd_slept n ++ take k [50; 100] /\
    (forall e, (process_command id c n).1 = Err e -> exists se, e = from_storage se).
Proof. apply (process_loop_slept 2). lia. Qed.
