(* ===== verification/DomainTheorems.v ===== *)
(** The correctness of the domain types: names and references, time, the lifecycle of
    executions and activities, tasks and their retry plans, error matching, state paths,
    expression evaluation, and the log. *)
From S2P Require Import Prelude Names Timestamp Float64 Json Asl Errors Meta Entities Tasks.
From S2P Require Import Commands LogStream Storage Eval Handler Runs Fixture.
Local Open Scope string_scope.
Local Open Scope Z_scope.

#[local] Existing Instance debug_engine.

(** ** Names and references *)

(** The text of a well-formed name identifies it: parsing it gives the name back, and no
    other well-formed name prints to it; parsing only ever yields well-formed names. *)
Theorem name_text_identifies n raw m :
  name_wf n -> from_parsed raw = Ok m ->
  from_parsed (as_str n) = Ok n /\ name_wf m /\ (as_str m = as_str n -> m = n).
Proof.
  intros Hn Hm. pose proof (from_parsed_wf _ _ Hm) as Hw.
  split_and!; [by apply name_roundtrip|done|by apply as_str_inj].
Qed.
Lemma name_text_identifies_witness :
  from_parsed "order-12" = Ok (Generated (mkPlainName "order") 12) /\
  name_wf (Plain (mkPlainName "order")) /\
  ("order" = "order-12" -> Plain (mkPlainName "order") = Generated (mkPlainName "order") 12).
Proof.
  refine (name_text_identifies (Generated (mkPlainName "order") 12) "order"
            (Plain (mkPlainName "order")) _ _); vm_compute; [|reflexivity].
  split; [reflexivity|split; discriminate].
Defined.

(** The printed form [kind/name] of a reference parses back to the same kind and name. *)
Theorem reference_text_roundtrip k n u :
  name_wf n -> raw_from_str (raw_str (mkRaw k n u)) = Ok (mkRaw k n ulid_nil).
Proof. apply raw_from_str_display. Qed.
Lemma reference_text_roundtrip_witness :
  raw_from_str "thread/order-3" = Ok (mkRaw ThreadKind (Generated (mkPlainName "order") 3) 0).
Proof.
  apply (reference_text_roundtrip ThreadKind (Generated (mkPlainName "order") 3) 9).
  vm_compute. split; [reflexivity|split; discriminate].
Defined.

(** ** Time *)

(** Adding a duration to an instant is exact or refused: the sum when it fits 64 bits,
    nothing otherwise, never a wrapped instant. *)
Theorem deadline_never_wraps t d :
  ts_wf t -> 0 <= d ->
  match checked_add t d with
  | Some t' => t' = t + d /\ t <= t' /\ ts_wf t'
  | None => u64_max < t + d
  end.
Proof.
  intros Ht Hd. destruct (checked_add t d) as [t'|] eqn:Hc.
  - by apply checked_add_exact.
  - by apply checked_add_None_iff.
Qed.
Lemma deadline_never_wraps_witness :
  match checked_add 5 (from_secs 2) with
  | Some t' => t' = 2005 /\ 5 <= t' /\ ts_wf t'
  | None => u64_max < 2005
  end.
Proof. apply (deadline_never_wraps 5 (from_secs 2)); [split|]; vm_compute; discriminate. Defined.

(** ** Lifecycles *)

(** The transitions a row can be asked for. *)
Inductive Mark :=
  | MCompleting (output : Value)
  | MCompleted (output : Value)
  | MTerminating (r : TerminationReason)
  | MTerminated.
Definition exec_mark (m : Mark) (e : Execution) (t : Timestamp) : Res string Execution :=
  match m with
  | MCompleting o => exec_mark_completing e o t
  | MCompleted _ => exec_mark_completed e t
  | MTerminating r => exec_mark_terminating e r t
  | MTerminated => exec_mark_terminated e t
  end.
Definition act_mark (m : Mark) (a : Activity) (t : Timestamp) : Res string Activity :=
  match m with
  | MCompleting o => act_mark_completing a o t
  | MCompleted o => act_mark_completed a o t
  | MTerminating r => act_mark_terminating a r t
  | MTerminated => act_mark_terminated a t
  end.

(** The status a transition leads to. *)
Definition mark_target (m : Mark) (from : Lifecycle) (to : Lifecycle) : Prop :=
  match m with
  | MCompleting _ => to = Completing
  | MCompleted _ => to = Completed
  | MTerminating r => to = Terminating r
  | MTerminated => exists r, from = Terminating r /\ to = Terminated r
  end.

(** An accepted transition is an edge; a refused one is none. *)
Ltac mark_tac :=
  try (split_and!; try done; try (once constructor); try naive_solver);
  try (intros to Ht Hs; inversion Hs; simplify_eq; naive_solver).

(** C36: an execution's transitions are exactly the edges of its lifecycle: a transition is
    accepted just when the lifecycle has the edge, and refused otherwise; identity, flow
    version, deadline and input never change, and a terminal execution accepts nothing. *)
Theorem execution_follows_lifecycle m e t :
  match exec_mark m e t with
  | Ok e' =>
      lifecycle_step false (ex_status e) (ex_status e') /\
      mark_target m (ex_status e) (ex_status e') /\ is_terminal (ex_status e) = false /\
      object_ref (ex_meta e') = object_ref (ex_meta e) /\
      ex_flow_version e' = ex_flow_version e /\ ex_deadline e' = ex_deadline e /\
      ex_input e' = ex_input e
  | Err _ => forall to, mark_target m (ex_status e) to -> ~ lifecycle_step false (ex_status e) to
  | Panic _ => False
  end.
Proof.
  destruct m; simpl;
    unfold exec_mark_completing, exec_mark_completed, exec_mark_terminating, exec_mark_terminated;
    destruct (ex_status e) eqn:He; simpl; rewrite ?He; mark_tac.
Qed.

(** An activity's transitions are exactly the edges of its lifecycle, which also lets a
    completing activity be terminated; a terminal activity accepts nothing. *)
Theorem activity_follows_lifecycle m a t :
  match act_mark m a t with
  | Ok a' =>
      lifecycle_step true (ac_status a) (ac_status a') /\
      mark_target m (ac_status a) (ac_status a') /\ is_terminal (ac_status a) = false /\
      object_ref (ac_meta a') = object_ref (ac_meta a) /\ ac_raw_input a' = ac_raw_input a /\
      ac_activity_state a' = ac_activity_state a
  | Err _ => forall to, mark_target m (ac_status a) to -> ~ lifecycle_step true (ac_status a) to
  | Panic _ => False
  end.
Proof.
  destruct m; simpl;
    unfold act_mark_completing, act_mark_completed, act_mark_terminating, act_mark_terminated;
    destruct (ac_status a) eqn:He; simpl; rewrite ?He; mark_tac.
Qed.

(** ** Tasks *)

(** C37: over any history of claims, completions, failure reports and cancellations, a task is
    retried at most as often as its plan's budget has units left, each accepted retry using
    exactly one; the backoff before a retry is between one second and the largest delay. *)
Theorem task_retries_are_bounded `{Profile, Libm} ops t p n :
  Z.of_nat (run_ops ops t).2 <= remaining t /\
  remaining (run_ops ops t).1 = remaining t - Z.of_nat (run_ops ops t).2 /\
  1 <= backoff_for_attempt p n <= u64_max.
Proof. split_and!; [apply run_ops_retries_bounded|apply run_ops_remaining|apply backoff_bounds..]. Qed.

(** A task that has completed, failed for good or been cancelled is final: no later claim,
    completion, failure report or cancellation changes its row. *)
Theorem terminal_task_is_final `{Profile, Libm} ops t :
  task_is_terminal (tk_status t) = true -> (run_ops ops t).1 = t.
Proof. intros Ht. by rewrite run_ops_terminal. Qed.
Definition sample_task (s : TaskStatus) : Task :=
  mkTask (build_meta 3 (Generated (mkPlainName "order") 4) 0 (mkRef (Generated (mkPlainName "order") 2) 2
    : OwnedBy TaskKind)) (mkRef (Plain (mkPlainName "order")) 1) "res" VNull s None None None
    [mkRetryPolicy ["States.ALL"] 1 3 (f64_of_Z 2) None] RetryState_default.
Lemma terminal_task_is_final_witness :
  let t := sample_task TCancelled in
  (run_ops [OClaim "w" 9 5; OFail "" (Runtime NoTerminal) 6; OComplete "w" 7] t).1 = t.
Proof. apply (terminal_task_is_final _ (sample_task TCancelled)). reflexivity. Defined.

(** C38: an accepted failure report either re-queues the task, unleased and pending, using one
    unit of the plan's budget, or ends it failed; it is never accepted on a finished task, nor
    from a worker other than the lease holder. *)
Theorem failure_report_outcome `{Profile, Libm} t w e now t' o :
  handle_failure t w e now = Ok (t', o) ->
  task_is_terminal (tk_status t) = false /\
  (w = "" \/ (task_is_running (tk_status t) = true /\ leased_to t w = true)) /\
  tk_worker_id t' = None /\ tk_lease_expires_at t' = None /\
  match o with
  | Retried => tk_status t' = TPending /\ remaining t' = remaining t - 1 /\ 1 <= remaining t
  | Terminal => tk_status t' = TFailed /\ remaining t' = remaining t
  end.
Proof.
  intros Hf. destruct (handle_failure_spec _ _ _ _ _ _ Hf) as (Ht & Hw & Hl & _ & Ho).
  split_and!; try done. revert Hf. unfold handle_failure. rewrite Ht.
  destruct (String.eqb_spec w ""); [by left|]. simpl.
  destruct (task_is_running _), (leased_to t w); simpl; try done. by right.
Qed.
Lemma failure_report_outcome_witness :
  exists t' o, handle_failure (claim (sample_task TPending) "w" 9 5) "w" (Runtime NoTerminal) 6 =
      Ok (t', o) /\ tk_status t' = TPending.
Proof.
  assert (exists t' o, handle_failure (claim (sample_task TPending) "w" 9 5) "w" (Runtime NoTerminal) 6
    = Ok (t', o) /\ o = Retried) as (t' & o & Hf & Ho) by (eexists _, _; split; vm_compute; reflexivity).
  exists t', o. split; [exact Hf|].
  pose proof (failure_report_outcome _ _ _ _ _ _ Hf) as (_ & _ & _ & _ & H). rewrite Ho in H.
  exact (proj1 H).
Defined.

(** The claim query returns at most the limit, only stored tasks of the asked resource
    that are claimable now; and a claimed task is not claimable again until its
    lease has expired. *)
Theorem claim_query_is_sound `{HashOrder} tasks res now n w lease at_ now' :
  (Z.of_nat (length (select_tasks tasks res now n)) <= Z.max 0 n) /\
  (forall t, t ∈ select_tasks tasks res now n ->
     tk_resource t = res /\ is_claimable_at t now = true /\ exists k, tasks !! k = Some t) /\
  (forall t, is_claimable_at (claim t w lease at_) now' = true <-> lease <= now').
Proof.
  unfold select_tasks. split_and!.
  - rewrite length_take. lia.
  - intros t (i & Ht%list_elem_of_lookup_2 & _)%elem_of_take. apply list_elem_of_filter in Ht as [[Hr Hc] Hin]. split_and!; try done.
    rewrite map_iter_perm in Hin. apply list_elem_of_fmap in Hin as ([k t'] & -> & Hk).
    exists k. by apply elem_of_map_to_list.
  - intros t. unfold is_claimable_at, claim. simpl. apply bool_decide_eq_true.
Qed.

(** ** Errors *)

(** An [ErrorEquals] list intercepts an error exactly when it lists [States.ALL], or lists
    [States.TaskFailed] and the error is no timeout, or lists the error's own name and not
    [States.TaskFailed]. *)
Theorem error_equals_rule e l :
  matches_error_names e l = true <->
  (("States.ALL" ∈ l) \/
   (("States.TaskFailed" ∈ l) /\ error_name e <> "States.Timeout") \/
   (("States.TaskFailed" ∉ l) /\ (error_name e ∈ l))).
Proof.
  destruct (decide ("States.TaskFailed" ∈ l)) as [Hin|Hout].
  - unfold matches_error_names. destruct (lists l "States.ALL") eqn:Hall.
    { apply lists_true in Hall. naive_solver. }
    assert ("States.ALL" ∉ l) by (by rewrite <- lists_true, Hall).
    apply lists_true in Hin as Hin'. rewrite Hin'.
    destruct (String.eqb_spec (error_name e) "States.Timeout"); naive_solver.
  - rewrite matches_without_task_failed by done. naive_solver.
Qed.

(** A list that names [States.Timeout] beside [States.TaskFailed] does not intercept a
    timeout, although it lists the error's own name. *)
Theorem timeout_beside_task_failed_is_missed msg l :
  "States.TaskFailed" ∈ l -> "States.ALL" ∉ l ->
  matches_error_names (Runtime (TimedOutError msg)) ("States.Timeout" :: l) = false.
Proof.
  intros Ht Ha. unfold matches_error_names.
  assert (lists ("States.Timeout" :: l) "States.ALL" = false) as ->.
  { apply not_true_iff_false. rewrite lists_true. set_solver. }
  assert (lists ("States.Timeout" :: l) "States.TaskFailed" = true) as ->
    by (apply lists_true; set_solver).
  reflexivity.
Qed.
Lemma timeout_beside_task_failed_is_missed_witness :
  matches_error_names (Runtime (TimedOutError "late")) ["States.Timeout"; "States.TaskFailed"] = false.
Proof.
  apply (timeout_beside_task_failed_is_missed "late" ["States.TaskFailed"]);
    [constructor|]. intros H. inversion H; subst. inversion H2.
Defined.

(** ** State paths *)

(** C39: a path built by the constructors resolves in the scope it names — the top level, a
    branch of a parallel state, the item processor of a map state, at any depth — to the state
    of that name, and so does the hop to a sibling; a name the scope lacks is reported. *)
Theorem path_resolves_in_its_scope sm p states name next :
  scope_at sm p states ->
  state_at sm (sp_state p name) = ok_or (NotFound name) (states !! name) /\
  state_at sm (sp_sibling (sp_state p name) next) = ok_or (NotFound next) (states !! next) /\
  state_name (sp_state p name) = name.
Proof.
  intros Hs. rewrite sp_sibling_state. split_and!; [by apply state_at_scope..|].
  unfold state_name, sp_state. apply last_snoc.
Qed.
Definition nested_machine : StateMachine :=
  machine_of "Par" {["Par" := parallel_state]}.
Lemma path_resolves_in_its_scope_witness :
  state_at nested_machine (sp_state (sp_branch (sp_state sp_root "Par") 1) "B") = Ok (pass_state None).
Proof.
  refine (proj1 (path_resolves_in_its_scope nested_machine (sp_branch (sp_state sp_root "Par") 1)
    {["B" := pass_state None]} "B" "C" _)).
  change {["B" := pass_state None]} with (br_states (mkBranch "B" {["B" := pass_state None]})).
  eapply (scope_branch _ sp_root _ "Par" _ 1 (mkBranch "B" {["B" := pass_state None]})).
  - constructor.
  - vm_compute. reflexivity.
  - reflexivity.
  - split; vm_compute; discriminate.
Defined.

(** ** Expressions *)

(** Evaluating a template through the expression cache gives what evaluating it without a
    cache gives, from any cache that holds only parses of its keys, and leaves such a cache; a
    template with no expression evaluates to itself. *)
Theorem cached_evaluation_is_evaluation `{JsonataLib} v states vars env :
  cache_ok env ->
  (eval_json v states vars env).1 = eval_ref v states vars /\
  cache_ok (eval_json v states vars env).2 /\
  (literal v -> (eval_json v states vars env).1 = Ok v).
Proof.
  intros Hc. destruct (eval_json_computes v states vars env Hc) as [Hr Hc'].
  split_and!; try done. intros Hl. rewrite Hr. by apply eval_literal.
Qed.
Lemma cached_evaluation_is_evaluation_witness :
  (eval_json (VString "{% input %}") (VObject [("input", VBool true)]) ∅ EvalEnv_new).1 =
    Ok (VBool true).
Proof.
  pose proof (cached_evaluation_is_evaluation (VString "{% input %}") (VObject [("input", VBool true)])
    ∅ EvalEnv_new (map_Forall_empty _)) as [H _].
  rewrite H. vm_compute. reflexivity.
Defined.

(** The text [{%}], which the definition's parser accepts as an expression, makes the
    evaluator slice its text backwards and panic, whatever the state. *)
Theorem degenerate_expression_panics `{JsonataLib} states vars env :
  is_jsonata_expr "{%}" = true /\
  exists msg, (eval_json (VString "{%}") states vars env).1 = Panic msg.
Proof. split; [reflexivity|]. by eexists. Qed.

(** ** The log *)

(** An append stamps the next contiguous positions in order, returns the last one, keeps
    every earlier entry and every payload; a tailing read from any position then yields exactly
    the entries from there on. *)
Theorem append_then_tail g l r g' k :
  log_wf g -> log_append g l = (r, g') ->
  r = Ok (Z.of_nat (length (lg_entries g) + length l)) /\ log_wf g' /\
  (exists stamped, lg_entries g' = (lg_entries g ++ stamped)%list /\
     map en_payload stamped = map en_payload l) /\
  stream_read g' (Z.of_nat k + 1) = drop k (lg_entries g').
Proof.
  intros Hwf Ha. pose proof (log_append_spec g l Hwf) as Hs. rewrite Ha in Hs.
  destruct Hs as (st & -> & He & _ & Hp & _ & _ & _ & _ & Hwf').
  split_and!; try done; [by exists st|]. apply stream_read_drop.
Qed.
Lemma append_then_tail_witness :
  stream_read (log_append log_new [mkEntry 0 0 None 5 PNoop]).2 1 = [mkEntry 1 1 None 5 PNoop].
Proof.
  edestruct (append_then_tail log_new [mkEntry 0 0 None 5 PNoop]
    (log_append log_new [mkEntry 0 0 None 5 PNoop]).1
    (log_append log_new [mkEntry 0 0 None 5 PNoop]).2 0) as (_ & _ & _ & H);
    [apply log_new_wf|reflexivity|]. exact H.
Defined.
