(* ===== verification/StateTheorems.v ===== *)
(** The correctness of the state types: fan-out and convergence of [Parallel] and [Map], the
    choice of a rule, the deadline of a [Wait], and what failing states do in either build
    profile. *)
From S2P Require Import Prelude Names Timestamp Float64 Json Asl Errors Meta Entities Tasks.
From S2P Require Import Commands LogStream Storage StorageFacts Applier Eval Handler Containers.
From S2P Require Import StateHandler States TaskState FanOut Leader StreamProcessor StateFacts.
From S2P Require Import Fixture.
Local Open Scope string_scope.
Local Open Scope Z_scope.

#[local] Existing Instance debug_engine.

(** A handler state with nothing emitted yet over the store [d]. *)
Definition fresh {J : JsonataLib} (d : InMemoryDb) : HSt InMemoryTxn :=
  mkHSt (begin_txn d) [] 0 0 EvalEnv_new ∅ 1.

(** ** Fan-out *)

(** A [Parallel] state starts one thread per branch, with the branch's position, its
    start state, the scope of the branch and the state's input; with no branch it completes at
    once with an empty array. *)
Theorem parallel_starts_every_branch `{Engine} st a vars sts (s : HSt InMemoryTxn) :
  sends s (after_activated (parallel_handler st) a vars sts)
    (match pl_branches st with
     | [] => [CCompleteState (mkCompleteState (self_of a) (VArray []))]
     | bs => imap (fun k => spawn_branch a (Z.of_nat k)) bs
     end).
Proof.
  simpl. unfold parallel_after_activated. destruct (pl_branches st) as [|b bs];
    [apply sends_command|apply spawn_branches_sends].
Qed.

(** Activating a [Map] state fixes its items, their number and its concurrency limit, and
    starts threads for the first items, in order: all of them without a limit, else as many as
    the limit allows; with no item it completes at once with an empty array. *)
Theorem map_starts_first_batch `{Engine} st a vars sts now_ env input a' env' (s : HSt InMemoryTxn) :
  process_input (map_handler (T:=InMemoryTxn) st) a vars sts now_ env = (Ok (input, a'), env') ->
  exists items limit,
    ac_activity_state a' = Some (ASMap (mkMapActivity items (Z.of_nat (length items)) limit ∅)) /\
    input = ac_raw_input a /\
    let batch := if decide (limit = 0) then Z.of_nat (length items)
                 else Z.min limit (Z.of_nat (length items)) in
    sends s (after_activated (map_handler st) a' vars sts)
      (map (spawn_item st (self_of a) a' items) (seqZ 0 batch) ++
       if decide (items = []) then [CCompleteState (mkCompleteState (self_of a) (VArray []))] else []).
Proof.
  simpl. unfold bind, ret. destruct (resolve_map_items st a vars sts env) as [[items| |] env1]; try done.
  destruct (resolve_max_concurrency st vars sts env1) as [[limit| |] env2]; try done.
  intros [= <- <- <-]. exists items, limit. split_and!; try done.
  unfold map_after_activated, initial_batch. simpl. apply sends_seq.
  - rewrite seqZ_nat. apply spawn_items_sends.
  - intros s1 _. destruct items as [|x items].
    + rewrite !decide_True by done. apply sends_command.
    + rewrite !decide_False by (done || (cbn [length]; lia)). apply sends_ret.
Qed.
Lemma map_starts_first_batch_witness :
  exists input a', process_input (map_handler (T:=InMemoryTxn)
      (mkMapState None None None None (Some true) None (Some (MArray [VNull; VNull; VNull])) None
         (Some (IInt 2)) None None None None))
      sample_activity ∅ VNull 0 EvalEnv_new = (Ok (input, a'), EvalEnv_new) /\
    exists l, sends (fresh db_default) (after_activated (map_handler
      (mkMapState None None None None (Some true) None (Some (MArray [VNull; VNull; VNull])) None
         (Some (IInt 2)) None None None None)) a' ∅ VNull) l /\ length l = 2%nat.
Proof.
  eexists _, _. split; [vm_compute; reflexivity|].
  edestruct (map_starts_first_batch (mkMapState None None None None (Some true) None
    (Some (MArray [VNull; VNull; VNull])) None (Some (IInt 2)) None None None None)
    sample_activity ∅ VNull 0 EvalEnv_new) as (items & limit & Ha & _ & Hs); [vm_compute; reflexivity|].
  eexists. split; [exact Hs|]. injection Ha as <- <- <-. reflexivity.
Defined.

(** ** Convergence *)

(** C32: when a branch of a [Parallel] state settles: the first branch, by index, that failed or
    was cancelled terminates the state with its reason, whatever the order of the table;
    otherwise nothing happens while a child is left, and once none is the state completes with
    the branches' outputs in the order of the branches. *)
Theorem parallel_converges `{Engine} st a vars child (activity : ObjectRef ActivityKind) act refs ts
    (s : HSt InMemoryTxn) :
  activities (h_txn s) !! ref_name activity = Some act ->
  ac_activity_state act = Some (ASParallel (mkParallelActivity (list_to_map (indexed refs)))) ->
  Forall2 (row_is s) refs ts ->
  sends s (child_completed (parallel_handler st) activity a vars child)
    (match first_reason ts with
     | Some reason => [CTerminateState (mkTerminateState (self_of a) reason)]
     | None =>
         if decide (batch_children (tx_batch (h_txn s)) (tx_db (h_txn s)) (as_raw (self_of a)) = ∅)
         then if forallb (fun t => is_terminal (th_status t)) ts
              then [CCompleteState (mkCompleteState activity (VArray (map output_of ts)))]
              else [CTerminateState (mkTerminateState (self_of a) Cancelled)]
         else []
     end).
Proof.
  intros Hrow Hst Hts. simpl. unfold parallel_child_completed.
  eapply sends_read; [apply read_activity|]. rewrite Hrow, Hst. cbn [pa_branches].
  rewrite sort_children. eapply sends_read; [apply collect_branches_spec; by rewrite indexed_snd|].
  destruct (first_reason ts); [apply sends_command|].
  eapply sends_read; [apply read_children|].
  case_decide; [rewrite decide_True by done|rewrite decide_False by done; apply sends_ret].
  rewrite branch_outputs_spec. destruct (forallb _ ts); apply sends_command.
Qed.



(** Three branches: two completed, in the reverse order of the table, one failed. *)
Definition parallel_activity : Activity :=
  sample_activity_with (Some (ASParallel (mkParallelActivity
    (list_to_map (indexed [sample_ref 0; sample_ref 1]))))).
Lemma parallel_converges_witness :
  let ts := [sample_thread 0 Completed (Some (VBool true)); sample_thread 1 Completed None] in
  sends (fresh (sample_rows parallel_activity ts))
    (child_completed (parallel_handler (mkParallelState None None None None (Some true) [] None None None))
      (self_of parallel_activity) parallel_activity ∅ (as_raw (sample_ref 1)))
    [CCompleteState (mkCompleteState (self_of parallel_activity) (VArray [VBool true; VNull]))].
Proof.
  apply (parallel_converges (mkParallelState None None None None (Some true) [] None None None)
    parallel_activity ∅ (as_raw (sample_ref 1)) (self_of parallel_activity) parallel_activity
    [sample_ref 0; sample_ref 1]
    [sample_thread 0 Completed (Some (VBool true)); sample_thread 1 Completed None]);
    try reflexivity.
  repeat constructor.
Defined.


(** The limit counts the threads whose start has been processed: when a second item settles
    before the thread started for the first has been recorded, the same item is started again.
    Here a [Map] over three items with a limit of two starts item 2 twice. *)
Theorem map_starts_an_item_twice :
  started_indexes (commands_of (lg_entries (nd_log (ran debug_engine "map" 160).2))) = [0; 1; 2; 2] /\
  order_status (ran debug_engine "map" 160).2 = Some Completed.
Proof. by vm_compute. Qed.

(** ** Choice *)

(** C34: a [Choice] state follows the first rule, in order, whose condition holds, all earlier
    ones having evaluated to false; without such a rule it takes the default, or reports that no
    choice matched; the first condition that fails to evaluate fails the state. *)
Theorem choice_takes_first_rule `{Engine} st states vars sname env :
  cache_ok env ->
  match (resolve_choice st states vars sname env).1 with
  | Ok (assign, output, next) =>
      (exists i r, cs_choices st !! i = Some r /\
         condition_value (cr_condition r) states vars = Ok true /\
         rejected_before (cs_choices st) states vars i /\
         (assign, output, next) = (cr_assign r, cr_output r, cr_next r)) \/
      (rejected_before (cs_choices st) states vars (length (cs_choices st)) /\
         cs_default st = Some next /\ (assign, output) = (None, None))
  | Err e =>
      (exists i r, cs_choices st !! i = Some r /\
         condition_value (cr_condition r) states vars = Err e /\
         rejected_before (cs_choices st) states vars i) \/
      (rejected_before (cs_choices st) states vars (length (cs_choices st)) /\
         cs_default st = None /\ e = Runtime (NoChoiceMatched sname))
  | Panic m => exists i r, cs_choices st !! i = Some r /\
      condition_value (cr_condition r) states vars = Panic m /\
      rejected_before (cs_choices st) states vars i
  end.
Proof.
  intros Hc. destruct (first_match_spec (cs_choices st) states vars env Hc) as [_ Hm].
  unfold resolve_choice, bind.
  destruct (first_match (cs_choices st) states vars env) as [[[r|]|e|m] env1]; simpl in *.
  - left. destruct Hm as (i & ? & ? & ?). by exists i, r.
  - destruct (cs_default st); simpl; by right.
  - by left.
  - done.
Qed.
Definition two_rules : ChoiceState :=
  mkChoiceState None None None (Some "C")
    [mkChoiceRule (Some (CBool false)) "A" None None; mkChoiceRule (Some (CBool true)) "B" None None].
Lemma choice_takes_first_rule_witness :
  (resolve_choice two_rules VNull ∅ "Pick" EvalEnv_new).1 = Ok (None, None, "B") /\
  exists i r, cs_choices two_rules !! i = Some r /\ cr_next r = "B".
Proof.
  pose proof (choice_takes_first_rule two_rules VNull ∅ "Pick" EvalEnv_new (map_Forall_empty _)) as H.
  split; [reflexivity|]. destruct H as [(i & r & Hr & _ & _ & [= _ _ Hn])|(_ & [=] & _)].
  exists i, r. by split.
Defined.

(** ** Wait *)

(** The deadline a [Wait] state computes from [Seconds] lies at most 99999999 seconds
    ahead, never before now, and is exact: it never wraps. *)
Theorem wait_ends_within_bounds `{Engine} st vars states now_ env d env' :
  ts_wf now_ -> ws_timestamp st = None ->
  resolve_wait_deadline st vars states now_ env = (Ok d, env') ->
  exists n, 0 <= n <= MAX_WAIT_SECONDS /\ d = now_ + 1000 * n /\ now_ <= d /\ ts_wf d.
Proof.
  intros Hnow Hts. unfold resolve_wait_deadline. rewrite Hts.
  assert (forall n msg env0, 0 <= n <= MAX_WAIT_SECONDS ->
    deadline_in now_ (as_u64 n) msg env0 = (Ok d, env') ->
    exists n, 0 <= n <= MAX_WAIT_SECONDS /\ d = now_ + 1000 * n /\ now_ <= d /\ ts_wf d) as Hd.
  { intros n msg env0 Hn. unfold deadline_in, lift_res, from_secs, as_u64.
    rewrite Z.mod_small by (unfold MAX_WAIT_SECONDS in Hn; lia).
    destruct (checked_add now_ (n * 1000)) as [d0|] eqn:Hc; [|done]. intros [= -> _].
    apply checked_add_exact in Hc as (-> & ? & ?); [|done|lia]. exists n. split_and!; try done; lia. }
  destruct (ws_seconds st) as [[n|e]|]; [|..|done].
  - case_decide; [by apply Hd|done].
  - unfold bind. destruct (eval_string_or_expr _ _ _ env) as [[v| |] env1]; try done.
    destruct (integral_i64 v) as [n|]; [|done]. case_decide; [by apply Hd|done].
Qed.
Lemma wait_ends_within_bounds_witness :
  exists d, resolve_wait_deadline (mkWaitState None None None None (Some true) (Some (IInt 5)) None)
      ∅ VNull 1000 EvalEnv_new = (Ok d, EvalEnv_new) /\
    exists n, 0 <= n <= MAX_WAIT_SECONDS /\ d = 1000 + 1000 * n /\ 1000 <= d /\ ts_wf d.
Proof.
  eexists. split; [vm_compute; reflexivity|].
  apply (wait_ends_within_bounds (mkWaitState None None None None (Some true) (Some (IInt 5)) None)
    ∅ VNull 1000 EvalEnv_new _ EvalEnv_new).
  - split; vm_compute; discriminate.
  - reflexivity.
  - vm_compute. reflexivity.
Defined.

(** A definition whose [Wait] state names neither [Seconds] nor [Timestamp] is accepted,
    and the run that reaches it panics the processor. *)
Theorem wait_without_time_panics :
  (exists v, db_flow_versions (nd_storage (ran debug_engine "wait" 5).2) !!
     version_name (mkPlainName "flow") 1 = Some v) /\
  exists msg, (ran debug_engine "wait" 60).1 = Panic msg.
Proof. split; eexists; vm_compute; reflexivity. Qed.

(** ** Build profiles *)

(** In a build without debug assertions a state that fails while it is completing emits
    its two terminal events with the row still [Completing], and tells the running thread that
    owns it nothing. *)
Theorem release_failure_reports_nothing `{Engine} a reason t (s : HSt InMemoryTxn) :
  engine_profile = false -> ac_status a = Completing ->
  threads (h_txn s) !! ref_name (owner_of a) = Some t -> th_status t = Running ->
  exists s', settle_failed a reason s = (Ok tt, s') /\
    map en_payload (h_entries s') = (map en_payload (h_entries s) ++
      [PEvent (StateTerminating a); PEvent (StateTerminated a)])%list.
Proof.
  intros Hp Ha Ht Hrun. assert (debug_assertions = false) as Hd by exact Hp.
  unfold settle_failed, thread_open, debug_assert_mark. rewrite Hd.
  destruct (closing_event (E:=ProcessingError) (StateTerminating a) a s)
    as (s1 & Ht1 & Hth1 & Ha1 & He1); [by left|].
  destruct (closing_event (E:=ProcessingError) (StateTerminated a) a s1)
    as (s2 & Ht2 & Hth2 & Ha2 & He2); [by right|].
  erewrite bind_ok by (erewrite bind_ok by apply rd_thread; by rewrite Ht).
  do 2 (erewrite bind_ok by done). erewrite bind_ok by done. erewrite bind_ok by done.
  unfold thread_after_child_terminated, bind. rewrite rd_thread, Hth2, Hth1, Ht, Hrun.
  unfold lift_res, typed, ref_try_from. rewrite decide_True by done. rewrite rd_activity.
  exists s2. split; [|by rewrite He2, He1, <- app_assoc].
  destruct Ha2 as [Ha2|Ha2]; simpl in Ha2 |- *; rewrite Ha2; [|done]. by rewrite Ha.
Qed.
Definition failing_activity : Activity :=
  act_advance sample_activity Completing (Some VNull) None 1000.
Definition owning_thread : Thread :=
  mkThread (build_meta 4 (Generated (mkPlainName "order") 0) 1000
      (OwnerExecution (mkRef (Plain (mkPlainName "order")) 3) : OwnedBy ThreadKind))
    (mkRef (Plain (mkPlainName "order")) 3) sp_root "Start" 0 Running VNull None.
Lemma release_failure_reports_nothing_witness :
  exists s', settle_failed (H:=release_engine) failing_activity Cancelled
      (fresh (sample_rows failing_activity [owning_thread])) = (Ok tt, s') /\
    map en_payload (h_entries s') =
      [PEvent (StateTerminating failing_activity); PEvent (StateTerminated failing_activity)].
Proof.
  apply (release_failure_reports_nothing (H:=release_engine) failing_activity Cancelled owning_thread
    (fresh (sample_rows failing_activity [owning_thread]))); reflexivity.
Defined.

(** The same failing definition terminates its run in a build with debug assertions, and
    in a build without them leaves it running for ever: nothing is left to process. *)
Theorem failing_run_ends_only_in_debug :
  (exists r, order_status (ran debug_engine "fail" 60).2 = Some (Terminated r)) /\
  order_status (ran release_engine "fail" 60).2 = Some Running /\
  (ran release_engine "fail" 60).1 =
    Ok (Z.of_nat (length (lg_entries (nd_log (ran release_engine "fail" 60).2))) + 1).
Proof. split; [eexists|split]; vm_compute; reflexivity. Qed.

(** ** Tasks *)

(** When the error of a catcher's own [Output] is intercepted by that same catcher,
    terminating the state answers with that termination again and changes no row: the failure
    is never settled. *)
Theorem failing_catcher_repeats `{Engine} st a catcher o e t owner_row (s : HSt InMemoryTxn) :
  List.find (fun c => matches_error_names e (ca_error_equals c)) (default [] (ts_catch st)) =
    Some catcher ->
  ca_assign catcher = None -> ca_output catcher = Some o ->
  threads (h_txn s) !! ref_name (owner_of a) = Some owner_row -> cache_ok (h_env s) ->
  eval_ref o (settle_states a (Some (default (ac_raw_input a) (ac_raw_output a)))
                (Some (default VNull (error_output e)))) (scope_of s (owner_of a)) = Err e ->
  sends s (handler_terminate (task_handler st) (mkTerminateState (self_of a) (Failed e)) a t)
    [CTerminateState (mkTerminateState (self_of a) (Failed e))].
Proof.
  intros Hf Has Ho Ht Hc He. unfold handler_terminate. cbn [tst_reason on_failed task_handler].
  unfold task_on_failed. rewrite Hf.
  match type of He with eval_ref _ ?ctx ?sc = _ =>
    pose proof (eval_json_computes o ctx sc (h_env s) Hc) as [Hev _];
    destruct (eval_json o ctx sc (h_env s)) as [r env'] eqn:Hj end.
  cbn [fst] in Hev. rewrite He in Hev. subst r.
  set (s1 := mkHSt (h_txn s) (h_entries s) (h_clock s) (h_ids s) env' (h_definitions s) (h_cause_id s)).
  destruct (sends_command (E:=ProcessingError) s1 (CTerminateState (mkTerminateState (self_of a) (Failed e))))
    as (s2 & Hs2 & Hsaid). exists s2. split; [|exact Hsaid].
  refine (bind_ok _ _ s Caught s2 _). erewrite bind_ok; [|apply read_thread]. rewrite Ht.
  erewrite bind_ok; [|apply read_scope]. cbn [default].
  erewrite bind_ok; [|unfold catch_assign; rewrite Has; reflexivity]. cbn beta iota. rewrite Ho.
  erewrite bind_ok; [|unfold attempt, on_env; simpl in Hj |- *; rewrite Hj; reflexivity].
  exact (bind_ok _ _ s1 tt s2 Hs2).
Qed.
(** A catcher of every error whose [Output] always fails. *)
Definition catching : TaskState :=
  mkTaskState None None None None (Some true) None None
    (Some [mkCatcher ["States.ALL"] "Done" None (Some (VString "{% fail %}"))]) "res" None None.
Lemma failing_catcher_repeats_witness :
  let boom := jsonata_error "fail" "boom" in
  sends (fresh (sample_rows sample_activity [owning_thread]))
    (handler_terminate (task_handler catching)
      (mkTerminateState (self_of sample_activity) (Failed boom)) sample_activity owning_thread)
    [CTerminateState (mkTerminateState (self_of sample_activity) (Failed boom))].
Proof.
  apply (failing_catcher_repeats catching sample_activity
    (mkCatcher ["States.ALL"] "Done" None (Some (VString "{% fail %}"))) (VString "{% fail %}")
    (jsonata_error "fail" "boom") owning_thread owning_thread
    (fresh (sample_rows sample_activity [owning_thread])));
    try reflexivity. unfold cache_ok. simpl. exact (map_Forall_empty _).
Defined.

(** A retrier whose [MaxAttempts] is a multiple of [2 ^ 32] never retries: the limit is
    truncated to 32 bits. *)
Theorem max_attempts_truncates p k n :
  rp_max_attempts p = 2 ^ 32 * k -> 0 <= n -> has_budget_after p n = false.
Proof.
  intros Hp Hn. apply bool_decide_eq_false. rewrite Hp. unfold as_u32.
  destruct (decide (0 <= k)).
  - rewrite Z.max_l by lia. rewrite Z.mul_comm, Z.mod_mul by lia. lia.
  - rewrite Z.max_r by lia. rewrite Z.mod_0_l by lia. lia.
Qed.
Lemma max_attempts_truncates_witness :
  has_budget_after (mkRetryPolicy ["States.ALL"] 1 4294967296 f64_one None) 0 = false.
Proof.
  apply (max_attempts_truncates (mkRetryPolicy ["States.ALL"] 1 4294967296 f64_one None) 1 0);
    [reflexivity|discriminate].
Defined.
