(* ===== verification/RemoteTheorems.v ===== *)
(** What a remote caller may rely on: references survive the wire and the command line, a
    malformed request submits nothing, a remote worker acts as a local one, a worker settles
    each claim once, and [executions wait] reports the settlement the store holds. *)
From S2P Require Import Prelude ByteStrings Names Timestamp Json Asl Errors Meta Entities Tasks.
From S2P Require Import Commands Storage Rows RocksStorage RocksScans Handler Leader Facade.
From S2P Require Import StreamProcessor FacadeFacts Scheduler Gateway Wire Services Client Worker.
From S2P Require Import Cli WireFacts WorkerFacts Fixture RocksFixture.
Local Open Scope string_scope.
Local Open Scope Z_scope.

Section Server.
Context `{Engine} {S B T : Type} `{Storage S T} `{!StoreReads S B, !RowCodecs B, !ReadLaws S B}.
Context `{!WireText, !WireJson}.
Context (elapse : Gateway S -> Gateway S) (draw : Gateway S -> RequestId).
Context (wall : Gateway S -> Timestamp).
#[local] Instance remote : Rpc (Gateway S) := served (B:=B) elapse draw wall.

(** ** References *)

(** C25: a reference the server sends is the reference it parses back, at its own kind only;
    and the token [flows create] prints, given to [executions start --flow-version], makes the
    server start that very revision. *)
Theorem references_cross_the_wire {K : ObjectKind} (r : ObjectRef K)
    (v : ObjectRef FlowVersionKind) (version : Z) (name : string) (input : option string)
    (g : Gateway S) :
  name_wf (ref_name r) -> ulid_parse (ulid_str (ref_uid r)) = Some (ref_uid r) ->
  name_wf (ref_name v) -> ulid_parse (ulid_str (ref_uid v)) = Some (ref_uid v) ->
  ulid_str (ref_uid v) <> "" ->
  parse_ref K (proto_ref r) = Ok r /\
  (forall K', K' <> K -> exists st, parse_ref K' (proto_ref r) = Err st /\
     st_code st = CodeInvalidArgument) /\
  start_target (mkStartArgs (Some (reference_str (to_ref (proto_ref v)))) None version name input)
    = Ok (ByVersion (to_ref (proto_ref v))) /\
  svc_target (B:=B) (Some (WTFlowVersion (to_wire (to_ref (proto_ref v))))) 0 g = (Ok v, g).
Proof.
  intros Hr Hu Hv Hvu Hne. split_and!.
  - by apply parse_proto_ref.
  - intros K' HK. unfold parse_ref, proto_ref, proto_raw_ref. simpl.
    rewrite kind_parse_str. simpl. rewrite name_roundtrip by done. simpl. rewrite Hu. simpl.
    unfold ref_try_from. cbn [raw_kind as_raw]. case_decide; [done|]. by eexists.
  - unfold start_target. cbn [xs_flow_version xs_name]. rewrite reference_token; try done; cbn.
    + by apply name_no_slash.
    + by apply name_nonempty.
    + by apply String.eqb_neq.
  - unfold svc_target, lift_res.
    change (to_wire (to_ref (proto_ref v))) with (proto_ref v). by rewrite parse_proto_ref.
Qed.

(** ** Malformed requests *)

(** A request of any call. *)
Inductive AnyRequest :=
  | RqCreateFlow (q : CreateFlowRequest) | RqResolve (q : ResolveFlowVersionRequest)
  | RqStart (q : StartExecutionRequest) | RqStop (q : StopExecutionRequest)
  | RqPoll (q : PollTasksRequest) | RqComplete (q : CompleteTaskRequest)
  | RqFail (q : FailTaskRequest) | RqGet (q : GetObjectRequest) | RqList (q : ListObjectsRequest).
(** The call, its response dropped. *)
Definition call_of (rq : AnyRequest) : M (Gateway S) Status unit :=
  match rq with
  | RqCreateFlow q => rpc_create_flow q ;;; ret tt
  | RqResolve q => rpc_resolve_flow_version q ;;; ret tt
  | RqStart q => rpc_start_execution q ;;; ret tt
  | RqStop q => rpc_stop_execution q ;;; ret tt
  | RqPoll q => rpc_poll_tasks q ;;; ret tt
  | RqComplete q => rpc_complete_task q ;;; ret tt
  | RqFail q => rpc_fail_task q ;;; ret tt
  | RqGet q => rpc_get_object q ;;; ret tt
  | RqList q => rpc_list_objects q ;;; ret tt
  end.

(** The fields that cannot be read: a name, a text, a JSON document, an id, a kind, a target. *)
Definition fails {E A} (r : Res E A) : Prop := exists e, r = Err e.
Definition not_json (bytes : string) : Prop := fails (from_slice (A:=Value) bytes).
Definition bad_reference (w : WObjectReference) : Prop :=
  kind_parse (wr_kind w) <> Some FlowVersionKind \/ fails (from_parsed (wr_name w)) \/
  ulid_parse (wr_uid w) = None.
Definition malformed (g : Gateway S) (rq : AnyRequest) : Prop :=
  match rq with
  | RqCreateFlow q => fails (PlainName_new (cq_name q)) \/ fails (from_utf8 (cq_definition q))
  | RqResolve q => fails (PlainName_new (vq_flow_name q))
  | RqStart q =>
      not_json (sq_input q) \/
      match sq_target q with
      | Some (WTFlowVersion w) => bad_reference w
      | Some (WTFlowName n) => fails (PlainName_new n)
      | None => True
      end \/
      (fails (ObjectName_plain (sq_name q)) /\
       exists r, (svc_target (B:=B) (sq_target q) (sq_version q) g).1 = Ok r)
  | RqStop q => fails (ObjectName_plain (oq_name q)) \/ (oq_uid q <> "" /\ ulid_parse (oq_uid q) = None)
  | RqPoll _ => False
  | RqComplete q => fails (from_parsed (mq_task_name q)) \/ ulid_parse (mq_request_id q) = None \/
      not_json (mq_output q)
  | RqFail q => fails (from_parsed (fq_task_name q)) \/
      match fq_error q with
      | None => True
      | Some f => wf_output f <> "" /\ not_json (wf_output f)
      end
  | RqGet q => kind_parse (gq_kind q) = None \/ fails (from_parsed (gq_name q))
  | RqList q => kind_parse (lq_kind q) = None \/
      (lq_continue_token q <> "" /\ fails (from_parsed (lq_continue_token q)))
  end.

(** The answer is [INVALID_ARGUMENT] and the server is as it was. *)
Definition refused {A} (m : M (Gateway S) Status A) (g : Gateway S) : Prop :=
  exists st, m g = (Err st, g) /\ st_code st = CodeInvalidArgument.
(** A parse: it refuses, or the call goes on with what it read. *)
Definition parses {A} (r : Res Status A) : Prop :=
  match r with Ok _ => True | Err st => st_code st = CodeInvalidArgument | Panic _ => False end.
Lemma refused_bind {A C} (m : M (Gateway S) Status A) (k : A -> M (Gateway S) Status C) g :
  refused m g -> refused (bind m k) g.
Proof. intros (st & E & Hc). exists st. unfold bind. by rewrite E. Qed.
Lemma refused_parse {A C} (r : Res Status A) (k : A -> M (Gateway S) Status C) g :
  parses r -> (forall a, r = Ok a -> refused (k a) g) -> refused (bind (lift_res r) k) g.
Proof.
  intros Hp Hk. unfold refused, bind, lift_res. destruct r as [a|st|]; [by apply Hk|by exists st|done].
Qed.
Lemma refused_throw {A} st g :
  st_code st = CodeInvalidArgument -> refused (A:=A) (throw st) g.
Proof. intros. by exists st. Qed.

Lemma refuse_parses {E A} what (text : E -> string) (r : Res E A) :
  not_panic r -> parses (refuse what text r).
Proof. by destruct r. Qed.
Lemma refuse_ok {E A} what (text : E -> string) (r : Res E A) a :
  refuse what text r = Ok a -> r = Ok a.
Proof. destruct r; by intros [= ->]. Qed.
Lemma ok_or_parses {A} st (o : option A) :
  st_code st = CodeInvalidArgument -> parses (ok_or st o).
Proof. by destruct o. Qed.
Lemma ok_or_ok {E A} (e : E) (o : option A) a : ok_or e o = Ok a -> o = Some a.
Proof. destruct o; by intros [= ->]. Qed.
Lemma plain_new_total raw : not_panic (PlainName_new raw).
Proof. unfold PlainName_new. by destruct (plain_valid raw). Qed.
Lemma plain_total raw : not_panic (ObjectName_plain raw).
Proof. unfold ObjectName_plain, PlainName_new. by destruct (plain_valid raw). Qed.
Lemma from_parsed_total raw : not_panic (from_parsed raw).
Proof.
  unfold from_parsed. destruct (_ && _); [|done]. destruct (split_once _ _) as [[b sfx]|].
  - destruct (u64_from_str sfx); [|done]. unfold PlainName_new. by destruct (plain_valid b).
  - unfold PlainName_new. by destruct (plain_valid raw).
Qed.
Lemma utf8_total b : not_panic (from_utf8 b).
Proof.
  unfold from_utf8. generalize (String.length b) as fuel, 0. intros fuel at_.
  assert (forall s at_, not_panic (from_utf8_from fuel at_ s)) as Hf.
  { induction fuel as [|fuel IH]; intros s z; [done|]. destruct s as [|c s]; [done|]. simpl.
    assert (not_panic (utf8_char z c s)) as Hc.
    { unfold utf8_char. by repeat (case_match; try done). }
    destruct (utf8_char z c s) as [[rest w]| |]; [apply IH|done..]. }
  specialize (Hf b at_). by destruct (from_utf8_from fuel at_ b).
Qed.
Lemma parse_ref_parses K w : parses (parse_ref K w).
Proof.
  unfold parse_ref. destruct (kind_parse (wr_kind w)) as [k|]; [|done]. simpl.
  pose proof (from_parsed_total (wr_name w)) as Hn. destruct (from_parsed _) as [n| |]; [|done..].
  simpl. destruct (ulid_parse (wr_uid w)) as [u|]; [|done]. simpl.
  unfold ref_try_from. by case_decide.
Qed.
Lemma parse_ref_good K w r :
  parse_ref K w = Ok r ->
  kind_parse (wr_kind w) = Some K /\ (exists n, from_parsed (wr_name w) = Ok n) /\
  is_Some (ulid_parse (wr_uid w)).
Proof.
  unfold parse_ref. destruct (kind_parse (wr_kind w)) as [k|]; [|done]. simpl.
  destruct (from_parsed _) as [n| |]; [|done..]. simpl.
  destruct (ulid_parse (wr_uid w)) as [u|]; [|done]. simpl.
  unfold ref_try_from. case_decide; [|done]. intros _. simpl in *. subst. eauto.
Qed.
Lemma fails_not_ok {E A} (r : Res E A) a : fails r -> r <> Ok a.
Proof. by intros [e ->]. Qed.

Hypothesis json_total : forall bytes, not_panic (from_slice (A:=Value) bytes).

Create HintDb wire.
#[local] Hint Resolve plain_new_total plain_total from_parsed_total utf8_total json_total
  refuse_parses ok_or_parses parse_ref_parses refused_throw : wire.
Ltac read_fields :=
  repeat lazymatch goal with
  | |- refused (bind (lift_res _) _) _ =>
      apply refused_parse; [by auto with wire|];
      let E := fresh "E" in intros ? E;
      first [apply refuse_ok in E | apply ok_or_ok in E | idtac]
  | |- refused (bind _ _) _ => apply refused_bind
  end.

Ltac by_fields :=
  read_fields; exfalso; congruence.

Lemma refused_target g target version :
  match target with
  | Some (WTFlowVersion w) => bad_reference w
  | Some (WTFlowName n) => fails (PlainName_new n)
  | None => True
  end -> refused (svc_target (B:=B) target version) g.
Proof.
  destruct target as [[w|n]|]; unfold svc_target;
    [intros Hb|intros [e He]; by_fields|intros _; by apply refused_throw].
  unfold refused, lift_res. pose proof (parse_ref_parses FlowVersionKind w) as Hp.
  destruct (parse_ref FlowVersionKind w) as [r|st|m] eqn:E; [|by exists st|done].
  apply parse_ref_good in E as (Hk & [n Hn] & [u Hu]).
  destruct Hb as [Hb|[[e Hb]|Hb]]; congruence.
Qed.
Lemma svc_target_still target version : still (svc_target (S:=S) (B:=B) target version).
Proof.
  destruct target as [[w|n]|]; [done| |done]. unfold svc_target.
  apply still_bind; [apply still_lift|]. intros p g.
  by rewrite on_facade_still by apply resolve_still.
Qed.
Lemma refused_after {A C} (m : M (Gateway S) Status A) (k : A -> M (Gateway S) Status C) g a :
  still m -> (m g).1 = Ok a -> refused (k a) g -> refused (bind m k) g.
Proof.
  intros Hs Ha Hk. specialize (Hs g). unfold refused, bind. destruct (m g) as [r g'].
  simpl in *. by subst.
Qed.
Lemma refused_start r q g :
  malformed g (RqStart q) -> refused (svc_start_execution (B:=B) elapse r q) g.
Proof.
  intros Hm. unfold svc_start_execution. apply refused_parse; [by auto with wire|].
  intros input E%refuse_ok. destruct Hm as [[e He]|[Hm|[[e He] [fv Hfv]]]]; [congruence| |].
  - by apply refused_bind, refused_target.
  - apply (refused_after _ _ _ fv); [apply svc_target_still|done|]. by_fields.
Qed.
Lemma refused_stop q g : malformed g (RqStop q) -> refused (svc_stop_execution q) g.
Proof.
  intros [[e He]|[Hne Hu]]; unfold svc_stop_execution; [by_fields|].
  apply refused_parse; [by auto with wire|]. intros name _. apply refused_bind.
  rewrite (proj2 (String.eqb_neq _ _)) by done. unfold parse_ulid. rewrite Hu. by eexists.
Qed.
Lemma refused_fail q g : malformed g (RqFail q) -> refused (svc_fail_task q) g.
Proof.
  intros [[e He]|Hm]; unfold svc_fail_task, parse_task_name; [by_fields|].
  apply refused_parse; [by auto with wire|]. intros name _.
  apply refused_parse; [by auto with wire|]. intros f E%ok_or_ok. rewrite E in Hm.
  destruct Hm as [Hne [e He]]. apply refused_bind.
  rewrite (proj2 (String.eqb_neq _ _)) by done. unfold refuse. rewrite He. by eexists.
Qed.
Lemma list_still k limit token : still (query_list_kind (B:=B) k limit token : M S _ _).
Proof.
  assert (forall after n, still (read_list_kind (B:=B) k after n : M S StorageError _))
    by (intros ? ? s; apply listing_read).
  unfold query_list_kind. eauto 8 using still_bind, still_lift, still_map_err, still_ret.
Qed.
Lemma refused_list q g : malformed g (RqList q) -> refused (svc_list_objects (B:=B) q) g.
Proof.
  intros [Hk|[Hne [e He]]]; unfold svc_list_objects, parse_kind; [by_fields|].
  apply refused_parse; [by auto with wire|]. intros kind _.
  rewrite (proj2 (String.eqb_neq _ _)) by done. apply refused_bind.
  unfold refused, map_err, list_objects. rewrite on_storage_still by apply list_still.
  unfold query_list_kind, bind, lift_res, parse_token.
  rewrite (proj2 (String.eqb_neq _ _)) by done. rewrite He. by eexists.
Qed.

(** C26: a request with a field the server cannot read is answered [INVALID_ARGUMENT], and the
    server is left exactly as it was: no command is appended, no caller is registered and no
    row is touched. *)
Theorem malformed_requests_submit_nothing (g : Gateway S) (rq : AnyRequest) :
  malformed g rq -> refused (call_of rq) g.
Proof.
  intros Hm. destruct rq as [q|q|q|q|q|q|q|q|q]; cbn [call_of]; apply refused_bind;
    cbn [rpc_create_flow rpc_resolve_flow_version rpc_start_execution rpc_stop_execution
         rpc_complete_task rpc_fail_task rpc_get_object rpc_list_objects remote served].
  - change (refused (svc_create_flow (B:=B) elapse (draw g) q) g).
    destruct Hm as [[e He]|[e He]]; unfold svc_create_flow; by_fields.
  - destruct Hm as [e He]. unfold svc_resolve_flow_version. by_fields.
  - change (refused (svc_start_execution (B:=B) elapse (draw g) q) g). by apply refused_start.
  - by apply refused_bind, refused_stop.
  - done.
  - unfold svc_complete_task, parse_task_name, parse_ulid. destruct Hm as [[e He]|[Hu|[e He]]];
    by_fields.
  - by apply refused_bind, refused_fail.
  - unfold svc_get_object, parse_kind, parse_name. destruct Hm as [Hk|[e He]]; by_fields.
  - by apply refused_bind, refused_list.
Qed.

(** ** The worker over the wire *)

Context (codes : Value -> Prop) `{!RowCodecLaws string Value codes}.
Hypothesis empty_not_json : forall v, from_slice (A:=Value) "" <> Ok v.
#[local] Instance remote_api : TaskApi (Gateway S) := GrpcTaskApi.

(** C14: a worker in its own process polls, completes and fails through the wire with the effect
    the gateway's operations have in the server's process: the same tasks with the same
    arguments, the same command submitted, the same state left, and every refusal reported as
    its status. A poll asks for the 32 low bits of its batch size: for the size itself when
    it fits, and for nothing at 2^32, whatever a local worker would be granted. The task name and
    the request id are ones the server can read, and the values (the output, the failure's
    output, the arguments of the tasks granted) ones the JSON codec carries. *)
Theorem remote_worker_acts_as_local (g : Gateway S) (worker resource : string)
    (max_tasks lease : Z) (task : ObjectName) (rid : RequestId) (output : Value)
    (failure : TaskFailure) :
  name_wf task -> ulid_parse (ulid_str rid) = Some rid ->
  codes output -> codes (tf_output failure) ->
  (0 <= max_tasks <= u32_max -> as_u32 max_tasks = max_tasks) /\
  match poll_tasks (B:=B) elapse (draw g) (wall g) worker resource (as_u32 max_tasks) lease g with
  | (Ok (Some tasks), g') => Forall (fun t => codes (av_arguments t)) tasks ->
      api_poll_tasks worker resource max_tasks lease g = (Ok (Some (map claimed_of tasks)), g')
  | (Ok None, g') => api_poll_tasks worker resource max_tasks lease g = (Ok None, g')
  | (Err e, g') => api_poll_tasks worker resource max_tasks lease g =
      (Err (to_rpc_error "PollTasks" (to_status e)), g')
  | (Panic m, g') => api_poll_tasks worker resource max_tasks lease g = (Panic m, g')
  end /\
  api_complete worker (as_str task) (ulid_str rid) output g =
    map_err (fun e => to_rpc_error "CompleteTask" (to_status e))
      (gateway_complete elapse worker task rid output) g /\
  api_fail worker (as_str task) failure g =
    map_err (fun e => to_rpc_error "FailTask" (to_status e))
      (gateway_fail worker task
         (Runtime (StateFailed "" (tf_error_name failure) (tf_output failure))) ;;; ret (Some tt)) g.
Proof.
  intros Hn Hu Ho Hf. split_and!.
  - intros Hmax. unfold as_u32. apply Z.mod_small. unfold u32_max in Hmax. lia.
  - unfold api_poll_tasks, remote_api, GrpcTaskApi, client_poll_tasks.
    cbn [rpc_poll_tasks remote served]. unfold svc_poll_tasks.
    cbn [pq_worker_id pq_resource pq_max_tasks pq_lease_seconds].
    unfold returned, bind, map_err.
    destruct (poll_tasks _ _ _ _ _ _ _ _) as [[[tasks|]|e|m] g']; cbn; [|done..].
    intros Ht. by rewrite (claimed_over_the_wire codes).
  - unfold api_complete, remote_api, GrpcTaskApi, client_complete_task.
    cbn [rpc_complete_task remote served].
    unfold svc_complete_task, parse_task_name, refuse, parse_ulid.
    cbn [mq_task_name mq_request_id mq_output mq_worker_id].
    rewrite name_roundtrip, Hu, (wire_value_roundtrip codes) by done.
    unfold map_err, bind, lift_res. cbn [res_map_err ok_or res_map].
    by destruct (gateway_complete elapse worker task rid output g) as [[]].
  - unfold api_fail, remote_api, GrpcTaskApi, client_fail_task.
    cbn [rpc_fail_task remote served]. unfold svc_fail_task, parse_task_name, refuse.
    cbn [fq_task_name fq_error fq_worker_id]. rewrite name_roundtrip by done.
    assert (String.eqb (vec_or_empty (tf_output failure)) "" = false) as Hne.
    { apply String.eqb_neq. intros E. apply (empty_not_json (tf_output failure)). rewrite <- E.
      by apply (wire_value_roundtrip codes). }
    unfold map_err, bind, lift_res.
    cbn [res_map_err ok_or wf_output wf_error_name wi_output wi_error_name].
    rewrite Hne, (wire_value_roundtrip codes) by done. cbn [res_map_err].
    by destruct (gateway_fail worker task _ g) as [[[]| |] g'].
Qed.

(** ** Waiting from the command line *)

Context `{CliWorld} (pause : Gateway S -> Gateway S).

(** The row of an execution after [i] intervals. *)
Definition row_after (n : ObjectName) (i : nat) (g : Gateway S) : Res StorageError (option Execution) :=
  (read_execution (ref_for ExecutionKind n) (nd_storage (gw_node (Nat.iter i pause g)))).1.
Definition in_flight (r : Res StorageError (option Execution)) : Prop :=
  exists e, r = Ok (Some e) /\ is_terminal (ex_status e) = false.

(** What [executions wait] should do once the row is settled or gone. *)
Definition wait_outcome (n : ObjectName) (pretty : bool) (row : option Execution) (con : Console)
    : Res string (option unit) * Console :=
  match row with
  | None => (Err ("execution " +:+ as_str n +:+ ": no projection (never created or GC'd)"), con)
  | Some e =>
      match ex_status e with
      | Completed =>
          let v := default VNull (ex_output e) in
          (Ok (Some tt), mkConsole
            (con_out con +:+ (if pretty then json_pretty v else vec_or_empty v) +:+ newline)
            (con_err con))
      | Terminated (Failed error) =>
          (Err ("execution terminated: " +:+ error_name error +:+ " " +:+
                printable_error (vec_if_some (error_output error))), con)
      | _ => (Err "execution terminated:  ", con)
      end
  end.

(** One read of the loop. *)
Lemma wait_read_row n ms g con row :
  name_wf n -> row_after n 0 g = Ok row ->
  wait_read (mkWaitArgs (as_str n) ms) (g, con) =
  (match row with
   | Some e => Ok (Some (snapshot_of e))
   | None => Err ("execution " +:+ as_str n +:+ ": no projection (never created or GC'd)")
   end, (g, con)).
Proof.
  intros Hn Hrow. unfold wait_read, bind, attempt, call. cbn [xw_execution_name].
  pose proof (served_get_execution (B:=B) elapse draw wall g n row Hn Hrow) as E.
  unfold server in E. unfold remote. rewrite E. by destruct row.
Qed.
Lemma wait_in_flight n ms g con e fuel pretty :
  name_wf n -> row_after n 0 g = Ok (Some e) -> is_terminal (ex_status e) = false ->
  executions_wait pause (Datatypes.S fuel) pretty (mkWaitArgs (as_str n) ms) (g, con) =
  executions_wait pause fuel pretty (mkWaitArgs (as_str n) ms) (pause g, con).
Proof.
  intros Hn Hrow Ht. cbn [executions_wait]. unfold bind at 1.
  rewrite (wait_read_row n ms g con (Some e)) by done. unfold snapshot_of.
  by destruct (ex_status e) as [| |[] | |[]].
Qed.
Lemma wait_settled n ms g con row fuel pretty :
  name_wf n -> row_after n 0 g = Ok row ->
  (forall e, row = Some e -> is_terminal (ex_status e) = true) ->
  (forall e, row = Some e -> ex_status e = Completed -> exists v, ex_output e = Some v /\ codes v) ->
  executions_wait pause (Datatypes.S fuel) pretty (mkWaitArgs (as_str n) ms) (g, con) =
  ((wait_outcome n pretty row con).1, (g, (wait_outcome n pretty row con).2)).
Proof.
  intros Hn Hrow Ht Hc. cbn [executions_wait]. unfold bind at 1.
  rewrite (wait_read_row n ms g con row) by done. destruct row as [e|]; [|done].
  specialize (Ht e eq_refl). specialize (Hc e eq_refl). unfold snapshot_of, wait_outcome.
  destruct (ex_status e) as [| |[] | |[]]; try done.
  destruct Hc as (v & Hv & Hcv); [done|]. rewrite Hv.
  unfold bind, lift_res, completed_output. cbn [sn_state sn_output].
  by rewrite (wire_value_roundtrip codes).
Qed.

(** C16: [executions wait] polls for exactly as long as the server's store holds the execution in
    flight, without changing the server; at the first read that finds it settled it prints the
    stored output, or fails with the stored error, and at one that finds no row it says so. *)
Theorem cli_wait_reports_the_settlement (g : Gateway S) (n : ObjectName) (k fuel : nat)
    (row : option Execution) (pretty : bool) (ms : Z) (con : Console) :
  name_wf n -> (forall i, (i < k)%nat -> in_flight (row_after n i g)) ->
  row_after n k g = Ok row ->
  (forall e, row = Some e -> is_terminal (ex_status e) = true) ->
  (forall e, row = Some e -> ex_status e = Completed -> exists v, ex_output e = Some v /\ codes v) ->
  executions_wait pause fuel pretty (mkWaitArgs (as_str n) ms) (g, con) =
  if decide (k < fuel)%nat
  then ((wait_outcome n pretty row con).1, (Nat.iter k pause g, (wait_outcome n pretty row con).2))
  else (Ok None, (Nat.iter fuel pause g, con)).
Proof.
  intros Hn Hfl Hrow Ht Hc. revert g k Hfl Hrow.
  induction fuel as [|fuel IH]; intros g k Hfl Hrow.
  { case_decide; [lia|done]. }
  destruct k as [|k].
  { rewrite decide_True by lia. by apply wait_settled. }
  destruct (Hfl 0%nat) as (e & He & Hf); [lia|].
  rewrite (wait_in_flight _ _ _ _ e) by done. rewrite (IH (pause g) k).
  - rewrite <- !Nat.iter_succ_r. by repeat case_decide; try lia.
  - intros i Hi. specialize (Hfl (1 + i)%nat ltac:(lia)). unfold row_after in *.
    by rewrite <- Nat.iter_succ_r.
  - unfold row_after in *. by rewrite <- Nat.iter_succ_r.
Qed.
End Server.

(** ** The worker's books *)

(** C15: whatever the interleaving of its loop, its jobs and the rest of the world, every task a
    worker was handed is in exactly one place: running, reported, or lost to a panicking
    handler; what was reported is what its handler returned (or the missing-handler failure);
    and the jobs can always run out, leaving each task reported or lost exactly once. *)
Theorem worker_settles_each_claim_once `{Engine} {S : Type} `{TaskApi S}
    (svc : InMemoryTaskService S) (worker_id : string) (resources : list string)
    (env : S -> S -> Prop) (s0 s : S) (w : WorkerState) :
  worker_reaches svc worker_id resources env (worker_start, s0) (w, s) ->
  wk_handed w ≡ₚ map job_task (wk_jobs w) ++ map fst (wk_reported w) ++ wk_died w /\
  Forall (reports_result svc) (wk_reported w) /\
  exists w' s', worker_reaches svc worker_id resources env (w, s) (w', s') /\
    wk_handed w ≡ₚ map fst (wk_reported w') ++ wk_died w'.
Proof.
  intros Hr. assert (worker_inv svc w) as Hw.
  { by apply (worker_reaches_keeps _ _ _ _ _ _ Hr). }
  split; [apply Hw|]. split; [apply Hw|].
  destruct (jobs_drain svc worker_id resources env w s) as (w' & s' & Hr' & Hd & Hh & _).
  exists w', s'. split; [done|]. rewrite <- Hh.
  pose proof (worker_reaches_keeps _ _ _ _ _ _ Hr' Hw) as [Hp _ _]. simpl in Hp.
  by rewrite Hd in Hp.
Qed.

(** ** Concrete runs *)

#[local] Existing Instance debug_engine.
#[local] Existing Instance canonical_row_order.

(** Ids in decimal, and JSON reduced to [null] and the booleans. *)
#[local] Instance sample_wire_text : WireText := {|
  ulid_parse := u64_from_str;
  pointer_str _ := "/";
  status_str := st_message;
  type_name := kind_str |}.
Definition no_codec {A} : RowCodec string A := {|
  to_vec _ := Err "unsupported";
  from_slice _ := Err "unsupported" |}.
#[local] Instance sample_wire_json : WireJson := {|
  wire_value := {|
    to_vec v := match v with
                | VNull => Ok "null" | VBool true => Ok "true" | VBool false => Ok "false"
                | _ => Err "unsupported"
                end;
    from_slice b :=
      if String.eqb b "null" then Ok VNull
      else if String.eqb b "true" then Ok (VBool true)
      else if String.eqb b "false" then Ok (VBool false)
      else Err "expected value at line 1 column 1" |};
  wire_activity_state := no_codec;
  wire_retry_state := no_codec;
  wire_retry_plan := no_codec |}.
Definition sample_codes (v : Value) : Prop :=
  match v with VNull | VBool _ => True | _ => False end.
#[local] Instance sample_value_laws : RowCodecLaws string Value sample_codes.
Proof. intros [|[]| | | |] Hv; destruct Hv; by eexists. Qed.
#[local] Instance sample_cli : CliWorld := {|
  fs_read p := Err "No such file or directory (os error 2)";
  dial _ := Ok tt;
  json_pretty v := vec_or_empty v |}.

(** A server over a node, and the leader running on behind a caller. *)
Definition server_over (n : Node InMemoryDb) : Gateway InMemoryDb :=
  mkGateway n AckHook_new (scheduler_spawn 0) true.
Definition leader_runs (g : Gateway InMemoryDb) : Gateway InMemoryDb :=
  (on_engine (run_processor 40) g).2.

Definition revision : ObjectRef FlowVersionKind := mkRef (version_name (mkPlainName "flow") 1) 2.
Lemma references_cross_the_wire_witness :
  reference_str (to_ref (proto_ref revision)) = "flowversion/flow-1/2" /\
  svc_target (B:=SampleBytes)
    (Some (WTFlowVersion (to_wire (to_ref (proto_ref revision))))) 0
    (server_over (node_init debug_engine)) = (Ok revision, server_over (node_init debug_engine)).
Proof.
  split; [vm_compute; reflexivity|].
  apply (references_cross_the_wire (B:=SampleBytes) revision revision 0 "order" None);
    first [vm_compute; reflexivity | done | vm_compute; split; congruence].
Defined.

Lemma sample_json_total bytes : not_panic (from_slice (A:=Value) bytes).
Proof. cbn. by repeat destruct (String.eqb _ _). Qed.
Lemma malformed_requests_submit_nothing_witness :
  exists st, call_of (B:=SampleBytes) leader_runs (fun _ => 9) (fun _ => 2000)
      (RqCreateFlow (mkCreateFlowReq "abc" "pass")) (server_over (node_init debug_engine))
    = (Err st, server_over (node_init debug_engine)) /\ st_code st = CodeInvalidArgument.
Proof.
  apply (malformed_requests_submit_nothing (B:=SampleBytes) leader_runs (fun _ => 9)
    (fun _ => 2000) sample_json_total).
  left. eexists. vm_compute. reflexivity.
Defined.

(** A server with one claimable task. *)
Definition task_server : Gateway InMemoryDb := server_over (ran debug_engine "task" 60).2.
Definition granted_task : ActivatedTask :=
  mkActivated (Generated (mkPlainName "order") 2) "res" (VBool true).
Lemma sample_empty (v : Value) : from_slice "" <> Ok v.
Proof. by cbn. Qed.
Lemma sample_grant :
  (poll_tasks (B:=SampleBytes) leader_runs 9 2000 "w-1" "res" 10 60 task_server).1
  = Ok (Some [granted_task]).
Proof. vm_compute. reflexivity. Qed.
Lemma remote_worker_acts_as_local_witness :
  exists g', api_poll_tasks (TaskApi:=remote_api (B:=SampleBytes) leader_runs (fun _ => 9)
      (fun _ => 2000)) "w-1" "res" 10 60 task_server
    = (Ok (Some [mkClaimed "order-2" "res" (VBool true)]), g').
Proof.
  destruct (remote_worker_acts_as_local (B:=SampleBytes) leader_runs (fun _ => 9)
    (fun _ => 2000) sample_codes sample_empty task_server "w-1" "res" 10 60
    (Generated (mkPlainName "order") 2) 9 VNull (mkTaskFailure "boom" VNull)) as [_ [H _]];
    [by apply (bool_decide_eq_true_1 (name_wf _)); vm_compute|vm_compute; reflexivity|exact I|exact I|].
  pose proof sample_grant as Hg. change (as_u32 10) with 10 in H. cbv beta in H.
  destruct (poll_tasks (B:=SampleBytes) leader_runs 9 2000 "w-1" "res" 10 60 task_server)
    as [r g'] eqn:E. cbn [fst] in Hg. subst r.
  exists g'. apply H. repeat constructor.
Defined.

(** A caller that finds the run in flight, and completed after one interval. *)
Definition order : ObjectName := Plain (mkPlainName "order").
Definition early_server : Gateway InMemoryDb := server_over (ran debug_engine "pass" 4).2.
Definition leader_continues (g : Gateway InMemoryDb) : Gateway InMemoryDb :=
  (on_engine (run_leader 60 5) g).2.
Definition status_after (i : nat) : option (Lifecycle * option Value) :=
  match row_after (B:=SampleBytes) leader_continues order i early_server with
  | Ok (Some e) => Some (ex_status e, ex_output e)
  | _ => None
  end.
Lemma early_status : status_after 0 = Some (Running, None).
Proof. vm_compute. reflexivity. Qed.
Lemma late_status : status_after 1 = Some (Completed, Some (VBool true)).
Proof. vm_compute. reflexivity. Qed.
Lemma status_after_row i s v :
  status_after i = Some (s, v) ->
  exists e, row_after (B:=SampleBytes) leader_continues order i early_server = Ok (Some e) /\
    ex_status e = s /\ ex_output e = v.
Proof. unfold status_after. repeat case_match; naive_solver. Qed.

Lemma cli_wait_reports_the_settlement_witness :
  exists g', executions_wait (H:=remote (B:=SampleBytes) leader_runs (fun _ => 9) (fun _ => 2000))
      leader_continues 5 false (mkWaitArgs "order" 100) (early_server, mkConsole "" "")
    = (Ok (Some tt), (g', mkConsole ("true" +:+ newline) "")).
Proof.
  assert (forall g e0 e1, row_after (B:=SampleBytes) leader_continues order 0 g = Ok (Some e0) ->
    ex_status e0 = Running -> row_after (B:=SampleBytes) leader_continues order 1 g = Ok (Some e1) ->
    ex_status e1 = Completed -> ex_output e1 = Some (VBool true) ->
    exists g', executions_wait (H:=remote (B:=SampleBytes) leader_runs (fun _ => 9) (fun _ => 2000))
      leader_continues 5 false (mkWaitArgs "order" 100) (g, mkConsole "" "")
    = (Ok (Some tt), (g', mkConsole ("true" +:+ newline) ""))) as Hw.
  { intros g e0 e1 H0 S0 H1 S1 V1. exists (Nat.iter 1 leader_continues g).
    rewrite (cli_wait_reports_the_settlement (B:=SampleBytes) leader_runs (fun _ => 9)
      (fun _ => 2000) sample_codes leader_continues g order 1 5 (Some e1) false 100
      (mkConsole "" "")).
    - unfold wait_outcome. rewrite S1, V1. reflexivity.
    - by apply (bool_decide_eq_true_1 (name_wf _)); vm_compute.
    - intros i Hi. assert (i = 0%nat) as -> by lia. exists e0. rewrite S0. by split.
    - exact H1.
    - intros e [= <-]. by rewrite S1.
    - intros e [= <-] _. exists (VBool true). by rewrite V1. }
  destruct (status_after_row 0 _ _ early_status) as (e0 & H0 & S0 & _).
  destruct (status_after_row 1 _ _ late_status) as (e1 & H1 & S1 & V1).
  exact (Hw early_server e0 e1 H0 S0 H1 S1 V1).
Defined.

(** A queue of tasks, handed out one at a time, and the completions reported. *)
Definition Queue : Type := list ClaimedTask * list (string * Value).
#[local] Instance queue_api : TaskApi Queue := {|
  api_poll_tasks _ _ _ _ := fun '(q, done_) =>
    match q with
    | [] => (Ok (Some []), ([], done_))
    | t :: q' => (Ok (Some [t]), (q', done_))
    end;
  api_complete _ task _ output := fun '(q, done_) =>
    (Ok (Some tt), (q, (done_ ++ [(task, output)])%list));
  api_fail _ _ _ := fun s => (Ok (Some tt), s) |}.
Definition echo_worker : InMemoryTaskService Queue :=
  spawn {["urn:echo" := (fun _ _ => ret (VBool true)) : TaskHandler Queue]}.
Definition echo_task : ClaimedTask := mkClaimed "order-2" "urn:echo" VNull.
Lemma worker_settles_each_claim_once_witness :
  exists w s, worker_reaches echo_worker (worker_id_of echo_worker 7) ["urn:echo"] (fun _ _ => False)
      (worker_start, ([echo_task], [])) (w, s) /\
    wk_reported w = [(echo_task, ReportComplete "9" (VBool true))] /\
    s.2 = [("order-2", VBool true)] /\
    wk_handed w ≡ₚ map job_task (wk_jobs w) ++ map fst (wk_reported w) ++ wk_died w.
Proof.
  assert (exists w s, worker_reaches echo_worker (worker_id_of echo_worker 7) ["urn:echo"]
    (fun _ _ => False) (worker_start, ([echo_task], [])) (w, s) /\
    wk_reported w = [(echo_task, ReportComplete "9" (VBool true))] /\
    s.2 = [("order-2", VBool true)]) as (w & s & Hr & Hw & Hs).
  { eexists _, _. split; [|split].
    - eapply rtc_l; [by apply worker_wakes|].
      eapply rtc_l; [by apply (worker_polls _ _ _ _ _ _ "urn:echo" [])|].
      eapply rtc_l; [by apply (worker_runs _ _ _ _ _ _ 0 echo_task)|].
      eapply rtc_l; [by apply (worker_settles _ _ _ _ _ _ 0 echo_task (inr (VBool true)) 9)|].
      apply rtc_refl.
    - reflexivity.
    - reflexivity. }
  exists w, s. split_and!; [exact Hr|exact Hw|exact Hs|].
  apply (worker_settles_each_claim_once _ _ _ _ _ _ _ Hr).
Defined.
