(* ===== verification/MetaTheorems.v ===== *)
(** The documents of metadata: what is written is read back as it was, and a document of another
    kind, without its owner, or with an owner its slot does not admit is refused. *)
From S2P Require Import Prelude Names Timestamp Errors Meta RocksStorage Handler Wire MetaSerde.
From S2P Require Import Fixture.
Local Open Scope string_scope.
Local Open Scope Z_scope.

(** Ids of 128 bits and instants of 64. *)
Definition ulid_wf (u : Ulid) : Prop := 0 <= u < 2 ^ 128.
Definition stamp_wf (t : Timestamp) : Prop := 0 <= t <= u64_max.
Definition raw_wf (r : RawObjectRef) : Prop := name_wf (raw_name r) /\ ulid_wf (raw_uid r).

(** The derived forms read back what they write, and a reference is not written as [null]. *)
Class DocLaws (V E : Type) `{DocFormat V E} : Prop := {
  kind_roundtrip k : de (ser (A:=ObjectKind) k) = Ok k;
  scope_roundtrip p : de (ser (A:=PlainName) p) = Ok p;
  text_roundtrip s : de (ser (A:=string) s) = Ok s;
  raw_roundtrip r : raw_wf r -> de (ser (A:=RawObjectRef) r) = Ok r;
  raw_not_null r : doc_is_null (ser (A:=RawObjectRef) r) = false;
  uid_roundtrip u : ulid_wf u -> de (Serde:=doc_uid) (ser (Serde:=doc_uid) u) = Ok u;
  stamp_roundtrip t : stamp_wf t -> de (Serde:=doc_stamp) (ser (Serde:=doc_stamp) t) = Ok t }.

(** A metadata the program can hold. *)
Definition meta_wf {K} (m : ObjectMeta K) : Prop :=
  name_wf (m_name m) /\ ulid_wf (m_uid m) /\ stamp_wf (m_created_at m) /\
  stamp_wf (m_updated_at m) /\ (forall r, owner_raw (m_owner m) = Some r -> raw_wf r).

(** Which kinds may own an object of each kind. *)
Definition admits (K owner : ObjectKind) : bool :=
  match K, owner with
  | FlowVersionKind, FlowKind | ThreadKind, ExecutionKind | ThreadKind, ActivityKind
  | ActivityKind, ThreadKind | TaskKind, ActivityKind => true
  | _, _ => false
  end.
Definition is_root (K : ObjectKind) : bool :=
  match K with FlowKind | ExecutionKind => true | _ => false end.

Section Documents.
Context `{Engine, WireText} {V E : Type} `{DocFormat V E, !DocLaws V E}.

(** The document with another owner. *)
Definition set_doc_owner (o : option V) (d : MetaDoc V) : MetaDoc V :=
  mkMetaDoc (md_kind d) (md_tenant d) (md_namespace d) (md_name d) (md_uid d)
    (md_created_at d) (md_updated_at d) o.

Lemma name_document n : name_wf n -> name_deserialize (name_serialize n) = Ok n.
Proof.
  intros Hn. unfold name_deserialize, name_serialize. rewrite text_roundtrip. simpl.
  by rewrite name_roundtrip.
Qed.
Lemma ref_document {K} (r : ObjectRef K) :
  raw_wf (as_raw r) -> ref_deserialize K (ref_serialize r) = Ok r.
Proof.
  intros Hr. unfold ref_deserialize, ref_serialize. rewrite raw_roundtrip by done. simpl.
  by rewrite ref_try_from_as_raw.
Qed.
Lemma thread_owner_document o :
  raw_wf (thread_owner_raw o) -> thread_owner_deserialize (thread_owner_serialize o) = Ok o.
Proof.
  intros Hr. unfold thread_owner_deserialize.
  destruct o as [r|r]; unfold thread_owner_serialize, ref_serialize;
    rewrite raw_roundtrip by done; cbn [res_bind raw_kind as_raw];
    by rewrite ref_try_from_as_raw.
Qed.
Lemma owner_document K (o : OwnedBy K) :
  (forall r, owner_raw o = Some r -> raw_wf r) ->
  res_bind (read_owner K (if owner_is_absent o then None else Some (owner_serialize o)))
    (fun owner => res_map_err (fun e => custom (missing_owner_str e)) (owner_from_wire K owner))
  = Ok o :> Res E (OwnedBy K).
Proof.
  assert (forall K' (r : ObjectRef K'), raw_wf (as_raw r) ->
    doc_is_null (ref_serialize r) = false /\ ref_deserialize K' (ref_serialize r) = Ok r) as Hr.
  { intros K' r Hr. split; [apply raw_not_null|by apply ref_document]. }
  intros Ho. destruct K; cbn in *; try (by destruct o);
    try (destruct (Hr _ o (Ho _ eq_refl)) as [-> ->]; done).
  assert (doc_is_null (thread_owner_serialize o) = false) as -> by (destruct o; apply raw_not_null).
  by rewrite thread_owner_document by by apply Ho.
Qed.

(** The fields before the owner read back. *)
Lemma fields_document {K} (m : ObjectMeta K) o :
  meta_wf m ->
  meta_deserialize K (set_doc_owner o (meta_serialize m)) =
  res_bind (read_owner K o) (fun owner =>
    res_map_err (fun e => custom (missing_owner_str e))
      (res_map (mkMeta (m_tenant m) (m_namespace m) (m_name m) (m_uid m) (m_created_at m)
         (m_updated_at m)) (owner_from_wire K owner))).
Proof.
  intros (Hn & Hu & Hc & Hup & _). unfold meta_deserialize, set_doc_owner, meta_serialize. cbn.
  unfold kind_tag_deserialize, kind_tag_serialize. rewrite kind_roundtrip. simpl.
  rewrite decide_True by done. simpl. rewrite !scope_roundtrip. simpl.
  rewrite name_document by done. simpl. rewrite uid_roundtrip by done. simpl.
  by rewrite !stamp_roundtrip by done.
Qed.
Lemma owner_refused K r :
  raw_wf r -> admits K (raw_kind r) = false ->
  exists msg, read_owner K (Some (ser r)) = Err (custom msg).
Proof.
  intros Hr Ha. unfold read_owner. rewrite raw_not_null.
  destruct K; cbn; unfold ref_deserialize, thread_owner_deserialize; try by eexists.
  all: rewrite raw_roundtrip by done; cbn [res_bind].
  all: unfold ref_try_from; destruct r as [k n u]; cbn in *; destruct k; try done; by eexists.
Qed.

(** C35: the document of a well-formed metadata is read back as that metadata; read at another
    kind, without the owner its kind must have, with an owner of a kind the slot does not admit,
    or with any owner at all for a root, it is refused. *)
Theorem metadata_survives_its_document {K : ObjectKind} (m : ObjectMeta K) :
  meta_wf m ->
  meta_deserialize K (meta_serialize m) = Ok m /\
  (forall K', K' <> K -> exists msg, meta_deserialize K' (meta_serialize m) = Err (custom msg)) /\
  (is_root K = false -> exists msg,
     meta_deserialize K (set_doc_owner None (meta_serialize m)) = Err (custom msg)) /\
  (forall r, raw_wf r -> admits K (raw_kind r) = false -> exists msg,
     meta_deserialize K (set_doc_owner (Some (ser r)) (meta_serialize m)) = Err (custom msg)).
Proof.
  intros Hm. split_and!.
  - change (meta_serialize m) with (set_doc_owner (md_owner (meta_serialize m)) (meta_serialize m)).
    rewrite fields_document by done. pose proof (owner_document K (m_owner m)) as Ho.
    destruct Hm as (_ & _ & _ & _ & Hr). specialize (Ho Hr). cbn [md_owner meta_serialize] in *.
    destruct (read_owner K _) as [o| |]; try done. simpl in *.
    destruct (owner_from_wire K o) as [o'| |]; try done. injection Ho as ->. by destruct m.
  - intros K' HK. unfold meta_deserialize, meta_serialize, kind_tag_deserialize. cbn.
    unfold kind_tag_serialize. rewrite kind_roundtrip. simpl. rewrite decide_False by done.
    by eexists.
  - intros HK. rewrite fields_document by done. by destruct K; try done; eexists.
  - intros r Hr Ha. rewrite fields_document by done.
    destruct (owner_refused K r Hr Ha) as [msg ->]. by eexists.
Qed.
End Documents.

(** ** A concrete format *)

(** Documents tagged with what they hold. *)
Inductive SampleDoc := SDKind (k : ObjectKind) | SDRaw (r : RawObjectRef) | SDText (s : string)
  | SDNumber (z : Z) | SDNull.
Definition held {A} (inj : A -> SampleDoc) (proj : SampleDoc -> option A)
    : Serde SampleDoc string A := {|
  ser := inj;
  de v := match proj v with Some a => Ok a | None => Err "invalid type" end |}.
#[local] Instance sample_format : DocFormat SampleDoc string := {|
  custom s := s;
  doc_is_null v := match v with SDNull => true | _ => false end;
  doc_unit := SDNull;
  slot_name := kind_str;
  doc_kind := held SDKind (fun v => match v with SDKind k => Some k | _ => None end);
  doc_raw := held SDRaw (fun v => match v with SDRaw r => Some r | _ => None end);
  doc_scope := held (fun p => SDText (pn_str p))
    (fun v => match v with SDText s => Some (mkPlainName s) | _ => None end);
  doc_text := held SDText (fun v => match v with SDText s => Some s | _ => None end);
  doc_uid := held SDNumber (fun v => match v with SDNumber z => Some z | _ => None end);
  doc_stamp := held SDNumber (fun v => match v with SDNumber z => Some z | _ => None end) |}.
#[local] Instance sample_format_laws : DocLaws SampleDoc string.
Proof. split; try done. by intros []. Qed.
#[local] Instance sample_texts : WireText := {|
  ulid_parse := u64_from_str; pointer_str _ := "/"; status_str := st_message;
  type_name := kind_str |}.
#[local] Existing Instance debug_engine.

(** The metadata of a root thread. *)
Definition root_thread_meta : ObjectMeta ThreadKind :=
  builder_with_owner (K:=ThreadKind) (builder_at 1000 (builder_name (Generated (mkPlainName "order") 0)
    (meta_builder 4))) (OwnerExecution (mkRef (Plain (mkPlainName "order")) 3)).
Lemma metadata_survives_its_document_witness :
  meta_deserialize ThreadKind (meta_serialize root_thread_meta) = Ok root_thread_meta /\
  exists msg, meta_deserialize ThreadKind
    (set_doc_owner None (meta_serialize root_thread_meta)) = Err msg.
Proof.
  destruct (metadata_survives_its_document root_thread_meta) as (Hr & _ & Hm & _).
  - split_and!; [by apply (bool_decide_eq_true_1 (name_wf _)); vm_compute|done..|].
    intros r [= <-]. split; [by apply (bool_decide_eq_true_1 (name_wf _)); vm_compute|done].
  - split; [exact Hr|]. exact (Hm eq_refl).
Defined.
