(* ===== verification/FlowTheorems.v ===== *)
(** What a run of a flow returns: the commands of [Flows], one turn of the work queue each, from
    the submission of an execution to its end, and so the engine against the interpreter. *)
From S2P Require Import Prelude Names Timestamp Float64 Json Asl Errors Meta Entities Tasks.
From S2P Require Import Commands LogStream Storage StorageFacts Applier ApplierFacts Eval Handler.
From S2P Require Import StateHandler Dispatch Leader LeaderFacts StreamProcessor StreamFacts.
From S2P Require Import System HandlerLogic CacheFacts WorkQueue Flows Fixture SystemTheorems.
Local Open Scope Z_scope.

(** ** Runs *)
Section FlowRuns.
Context `{Engine}.
Notation LNode := (Node InMemoryDb).

(** A leader at rest but for the commands [cmds]. *)
Record queued (n : LNode) (c : EntryId) (cmds : list Command) : Prop := {
  qu_inv : sys_inv (n, c);
  qu_position : 1 <= c;
  qu_cache : cache_ok (nd_env n);
  qu_pending : pending n c = cmds }.

(** A turn of a queue of one command. *)
Lemma only_turn (n : LNode) c cmd (Q : View -> Prop) :
  queued n c [cmd] -> wp (dispatch_command cmd) (node_view n) (fun _ => Q) ->
  exists n' c' v, leads_to (n, c) (n', c') /\ Q v /\ committed n' v /\ queued n' c' (v_cmds v).
Proof.
  intros [Hi Hc Hca Hp] Hw.
  destruct (queue_turn n c cmd [] _ Hi Hc Hca Hp Hw)
    as (n' & c' & v & Hl & Hi' & Hc' & HQ & Hco & Hp').
  exists n', c', v. split_and!; try done. by split; [..|apply Hco|].
Qed.

(** The run is in the store of a node that a view of it was committed to. *)
Lemma committed_running fv x th vars kids room (n : LNode) v :
  committed n v -> running fv x th vars kids room (v_db v) ->
  running fv x th vars kids room (nd_storage n).
Proof. intros [[w ->] _ _] []. by split. Qed.

(** How a run ends: with the output of its last state, or on an error. Without debug
    assertions a Succeed state loses its output, and a failed run is left running. *)
Definition left_running (x : ObjectRef ExecutionKind) (d : InMemoryDb) : Prop :=
  exists e, db_executions d !! ref_name x = Some e /\ ex_status e = Running.
Definition settled_as (x : ObjectRef ExecutionKind) (o : Outcome) (d : InMemoryDb) : Prop :=
  match o with
  | Finished out => completed_with x out d
  | Succeeded out => completed_with x (if debug_assertions then out else VNull) d
  | FailedWith e => if debug_assertions then terminated_with x (Failed e) d else left_running x d
  end.
Definition over (x : ObjectRef ExecutionKind) (o : Outcome) (s : LNode * EntryId) : Prop :=
  queued s.1 s.2 [] /\ settled_as x o (nd_storage s.1).

Lemma thread_completes fv x th vars room (n : LNode) c out :
  queued n c [CCompleteThread (mkCompleteThread th out)] ->
  running fv x th vars ∅ room (nd_storage n) ->
  exists s, leads_to (n, c) s /\ over x (Finished out) s.
Proof.
  intros Hq Hr.
  destruct (only_turn _ _ _ _ Hq (wp_thread_complete _ _ _ _ _ (nd_definitions n) out _ Hr))
    as (n1 & c1 & v1 & Hl1 & (Hc1 & Hd1 & Ht1) & [[w1 Hw1] _ _] & Hq1).
  rewrite Hc1 in Hq1. assert (thread_done x (nd_storage n1)) as Ht by by rewrite Hw1.
  destruct (only_turn _ _ _ _ Hq1 (wp_execution_complete x out _ (nd_definitions n1) Ht))
    as (n2 & c2 & v2 & Hl2 & [Hc2 He2] & [[w2 Hw2] _ _] & Hq2).
  rewrite Hc2 in Hq2. exists (n2, c2). split; [by etrans|]. split; [done|]. simpl. by rewrite Hw2.
Qed.
Lemma failure_settles fv x th vars room (n : LNode) c e :
  queued n c (after_failure th (Failed e)) -> running fv x th vars ∅ room (nd_storage n) ->
  exists s, leads_to (n, c) s /\ over x (FailedWith e) s.
Proof.
  unfold after_failure, over, settled_as. intros Hq Hr. destruct debug_assertions.
  2:{ exists (n, c). split; [reflexivity|]. split; [done|].
      destruct (ru_exec _ _ _ _ _ _ _ Hr) as (e0 & He0 & _ & Hs & _). by exists e0. }
  destruct (only_turn _ _ _ _ Hq (wp_thread_terminate _ _ _ _ _ (nd_definitions n) _ _ Hr))
    as (n1 & c1 & v1 & Hl1 & (Hc1 & Hd1 & Ht1) & [[w1 Hw1] _ _] & Hq1).
  rewrite Hc1 in Hq1. assert (thread_done x (nd_storage n1)) as Ht by by rewrite Hw1.
  destruct (only_turn _ _ _ _ Hq1 (wp_execution_terminate x (Failed e) _ (nd_definitions n1) Ht))
    as (n2 & c2 & v2 & Hl2 & [Hc2 He2] & [[w2 Hw2] _ _] & Hq2).
  rewrite Hc2 in Hq2. exists (n2, c2). split; [by etrans|]. split; [done|]. simpl. by rewrite Hw2.
Qed.

(** The run is in the state [name]: entered, and completed with what the interpreter gives. *)
Lemma state_runs fv x th sm name st input vars room (n : LNode) c :
  queued n c [left_with x th (ToState name) input] -> nd_definitions n !! fv = Some sm ->
  running fv x th vars ∅ (room + 1) (nd_storage n) -> 0 <= room ->
  sm_states sm !! name = Some st -> flow_state st -> not_panic (flow_step st name input vars) ->
  exists n' c' v a, leads_to (n, c) (n', c') /\ committed n' v /\ queued n' c' (v_cmds v) /\
    nd_definitions n' !! fv = Some sm /\
    left_as fv x th room (nd_definitions n) name input a (flow_step st name input vars) v.
Proof.
  intros Hq Hdef Hr Hroom Hst Hfs He.
  destruct (only_turn _ _ _ _ Hq (wp_activate fv x th vars room sm name st input _
    (nd_definitions n) Hfs Hst Hdef Hr Hroom))
    as (n1 & c1 & v1 & Hl1 & (a & Hc1 & Hd1 & Hr1 & Hen) & Hco1 & Hq1).
  rewrite Hc1 in Hq1. pose proof (committed_running _ _ _ _ _ _ _ _ Hco1 Hr1) as Hr1'.
  assert (entered x th a name input (nd_storage n1)) as Hen'
    by by destruct Hco1 as [[w ->] _ _].
  assert (nd_definitions n1 = nd_definitions n) as Hdn by by rewrite (co_defs _ _ Hco1), Hd1.
  rewrite <- Hdn in Hdef.
  destruct (only_turn _ _ _ _ Hq1 (wp_complete fv x th vars room sm name st input _
    (nd_definitions n1) a Hst Hdef Hr1' Hen' He))
    as (n2 & c2 & v2 & Hl2 & Hleft & Hco2 & Hq2).
  exists n2, c2, v2, a. rewrite Hdn in Hleft, Hdef. split_and!; try done; [by etrans|].
  rewrite (co_defs _ _ Hco2). enough (v_defs v2 = nd_definitions n) as -> by done.
  destruct (flow_step _ _ _ _) as [[[vars' out] lead]|e|]; [|..|done].
  - by destruct Hleft as (_ & ? & _).
  - destruct Hleft as [(vars' & _ & ? & _)|(b & vars' & _ & _ & ? & _)]; done.
Qed.

(** A state that failed takes its run with it. *)
Lemma state_fails fv x th sm name st input room (n : LNode) c v a e :
  sm_states sm !! name = Some st -> flow_state st ->
  nd_definitions n !! fv = Some sm -> committed n v -> queued n c (v_cmds v) ->
  left_as fv x th room (v_defs v) name input a (Err e) v ->
  exists s, leads_to (n, c) s /\ over x (FailedWith e) s.
Proof.
  intros Hst Hfs Hdef Hco Hq [(vars & Hc & _ & Hr)|(b & vars & <- & Hc & _ & Hr & Hs)];
    rewrite Hc in Hq; pose proof (committed_running _ _ _ _ _ _ _ _ Hco Hr) as Hr';
    [by eapply failure_settles|].
  assert (settling x th name input b (nd_storage n)) as Hs'
    by (destruct Hco as [[w ->] _ _], Hs; by split).
  destruct (only_turn _ _ _ _ Hq (wp_terminate_state fv x th vars room sm name st input _
    (nd_definitions n) b (Failed e) Hfs Hst Hdef Hr' Hs'))
    as (n1 & c1 & v1 & Hl1 & (Hc1 & _ & Hr1) & Hco1 & Hq1).
  rewrite Hc1 in Hq1. pose proof (committed_running _ _ _ _ _ _ _ _ Hco1 Hr1) as Hr1'.
  destruct (failure_settles _ _ _ _ _ _ _ _ Hq1 Hr1') as (s & Hl & Hov).
  exists s. split; [by etrans|done].
Qed.

(** The engine runs a flow to what the interpreter gives. *)
Lemma run_computes fuel fv x th sm : forall name input vars room (n : LNode) c o,
  queued n c [left_with x th (ToState name) input] -> nd_definitions n !! fv = Some sm ->
  running fv x th vars ∅ room (nd_storage n) -> Z.of_nat fuel <= room ->
  flow_eval fuel (sm_states sm) name input vars = Some o ->
  exists s, leads_to (n, c) s /\ over x o s.
Proof.
  induction fuel as [|fuel IH]; intros name input vars room n c o Hq Hdef Hr Hroom Hf; [done|].
  simpl in Hf. apply bind_Some in Hf as (st & Hst & Hf).
  assert (flow_state st /\ not_panic (flow_step st name input vars)) as [Hfs He].
  { destruct st; try done; split; try done;
      by destruct (flow_step _ _ _ _). }
  replace room with ((room - 1) + 1) in Hr by lia.
  destruct (state_runs fv x th sm name st input vars (room - 1) n c)
    as (n1 & c1 & v1 & a & Hl1 & Hco1 & Hq1 & Hdef1 & Hleft); try done; [lia|].
  destruct (flow_step st name input vars) as [[[vars' out] lead]|e|]; [| |done].
  - destruct Hleft as (Hc1 & Hd1 & Hr1). rewrite Hc1 in Hq1.
    pose proof (committed_running _ _ _ _ _ _ _ _ Hco1 Hr1) as Hr1'.
    assert (exists s, leads_to (n1, c1) s /\ over x o s) as (s & Hl & Hov).
    { destruct lead as [next| |]; [by eapply (IH next out vars' (room - 1)); try done; lia|..];
        injection Hf as <-; destruct (thread_completes _ _ _ _ _ _ _ _ Hq1 Hr1') as (s & Hl & Hov);
        by exists s. }
    exists s. split; [by etrans|done].
  - injection Hf as <-.
    assert (v_defs v1 = nd_definitions n) as Hd1
      by by destruct Hleft as [(? & _ & ? & _)|(? & ? & _ & _ & ? & _)].
    rewrite <- Hd1 in Hleft.
    destruct (state_fails fv x th sm name st input (room - 1) n1 c1 v1 a e) as (s & Hl & Hov);
      try done. exists s. split; [by etrans|done].
Qed.

(** From the command that creates the execution on. *)
Lemma creation_computes (n : LNode) c req name fv sm input fuel o :
  queued n c [CCreateExecution (mkCreateExecution req name fv input)] ->
  resolves_to (node_view n) fv sm -> in_time sm -> unused name (nd_storage n) ->
  0 <= db_next_generated_seq (nd_storage n) ->
  db_next_generated_seq (nd_storage n) + (Z.of_nat fuel + 1) <= i64_max ->
  flow_eval fuel (sm_states sm) (sm_start_at sm) input ∅ = Some o ->
  exists x s, ref_name x = name /\ leads_to (n, c) s /\ over x o s.
Proof.
  intros Hq Hres Ht Hfr H0 Hroom Hf.
  destruct (only_turn _ _ _ _ Hq (wp_create fv sm name input req (Z.of_nat fuel) _ Hres Ht Hfr
    eq_refl ltac:(lia) H0 Hroom))
    as (n1 & c1 & v1 & Hl1 & (x & th & defs & Hx & Hdef & Hc1 & Hd1 & Hr1) & Hco1 & Hq1).
  rewrite Hc1 in Hq1. pose proof (committed_running _ _ _ _ _ _ _ _ Hco1 Hr1) as Hr1'.
  destruct (run_computes fuel fv x th sm (sm_start_at sm) input ∅ (Z.of_nat fuel) n1 c1 o)
    as (s & Hl & Hov); [done|by rewrite (co_defs _ _ Hco1), Hd1|done|lia|done|].
  exists x, s. split; [done|]. split; [by etrans|done].
Qed.

(** ** The submission *)

Lemma submitted_pending cmd (n n' : LNode) c :
  sys_inv (n, c) -> tidy (n, c) -> submit_command cmd n = (Ok tt, n') ->
  pending n' c = pending n c ++ [cmd] /\ nd_storage n' = nd_storage n /\
  nd_definitions n' = nd_definitions n.
Proof.
  intros [Hs _] [_ Hp Hle] Hsub. destruct (submit_spec cmd n (sy_wf _ Hs))
    as (n2 & b & Hsub' & Hg & _ & _ & Hb & Hst & _).
  rewrite Hsub in Hsub'. injection Hsub' as <-. split_and!; [|done|].
  - unfold pending. rewrite Hg, drop_app_le by (simpl in *; lia). rewrite commands_of_app. f_equal.
    destruct b as [|e1 [|e2 [|]]]; try done. injection Hb as H1 H2. unfold commands_of. simpl.
    by rewrite H1, H2.
  - revert Hsub. unfold submit_command, closed_append, bind, node_now. cbn -[log_append].
    destruct (log_append _ _) as [r g]. destruct r; [|done..]. by intros [= <-].
Qed.
Lemma submitted_queue cmd (n n' : LNode) c :
  reachable (n, c) -> pending n c = [] -> submit_command cmd n = (Ok tt, n') ->
  queued n' c [cmd] /\ nd_storage n' = nd_storage n /\ nd_definitions n' = nd_definitions n.
Proof.
  intros Hr Hp Hsub. pose proof (reachable_inv _ Hr) as Hi. pose proof (reachable_tidy _ Hr) as Ht.
  destruct (submitted_pending _ _ _ _ Hi Ht Hsub) as (Hp' & Hst & Hd). rewrite Hp in Hp'.
  assert (sys_step (n, c) (n', c)) as Hstep by by econstructor.
  split_and!; try done. pose proof (sys_step_tidy _ _ Hstep Hi Ht) as [].
  split; try done. by eapply sys_step_inv.
Qed.

(** With nothing pending, the loop stops at the end of the log. *)
Lemma queue_empty (n : LNode) c :
  queued n c [] -> exists k c', entry_at (nd_log n) c' = None /\
    forall fuel, run_leader (k + fuel) c n = (Ok c', n).
Proof.
  intros [Hi Hc _ Hp]. destruct (next_command n c Hi Hc) as (c1 & _ & [k Hl] & He).
  rewrite Hp in He. destruct He as [He _]. exists k, c1. split; [done|]. intros fuel.
  rewrite Hl. simpl. destruct fuel; simpl; [done|]. unfold bind, get_st. by rewrite He.
Qed.
End FlowRuns.

(** ** The contract *)

(** C2: an execution of a definition of Pass, Choice, Succeed and Fail states whose outcome the
    interpreter determines, created on an idle leader in any reachable state, is run by the tail
    loop to the end of the log and has that outcome there: [Completed] with the interpreter's
    output, or [Terminated] with its error. Every command of the run (the creation, the
    activation, completion or termination of each state, of the thread and of the execution)
    goes through the log and the store. A build without debug assertions differs twice: a run
    that ends in a Succeed state completes with [null], and a failed run is [Running] for ever,
    with nothing left to process. *)
Theorem flow_computes_its_reference `{Engine} n c n1 req name fv sm input fuel o :
  reachable (n, c) -> pending n c = [] ->
  resolves_to (node_view n) fv sm -> in_time sm -> unused name (nd_storage n) ->
  0 <= db_next_generated_seq (nd_storage n) ->
  db_next_generated_seq (nd_storage n) + (Z.of_nat fuel + 1) <= i64_max ->
  flow_eval fuel (sm_states sm) (sm_start_at sm) input ∅ = Some o ->
  submit_command (CCreateExecution (mkCreateExecution req name fv input)) n = (Ok tt, n1) ->
  exists k n' c' e, (forall more, run_leader (k + more) c n1 = (Ok c', n')) /\
    entry_at (nd_log n') c' = None /\ db_executions (nd_storage n') !! name = Some e /\
    match o with
    | Finished out => ex_status e = Completed /\ ex_output e = Some out
    | Succeeded out =>
        ex_status e = Completed /\ ex_output e = Some (if debug_assertions then out else VNull)
    | FailedWith err => ex_status e = if debug_assertions then Terminated (Failed err) else Running
    end.
Proof.
  intros Hr Hp Hres Ht Hfr H0 Hroom Hf Hsub.
  destruct (submitted_queue _ _ _ _ Hr Hp Hsub) as (Hq & Hst & Hd).
  destruct (creation_computes n1 c req name fv sm input fuel o)
    as (x & [n' c1] & Hx & [k1 Hl] & Hq' & Hov); try done; [|by rewrite Hst..|].
  { unfold resolves_to, node_view in *. simpl in *. by rewrite Hst, Hd. }
  destruct (queue_empty _ _ Hq') as (k2 & c2 & Hstop & Hrun).
  exists (k1 + k2)%nat, n', c2. rewrite <- Hx.
  assert (exists e, db_executions (nd_storage n') !! ref_name x = Some e /\ match o with
    | Finished out => ex_status e = Completed /\ ex_output e = Some out
    | Succeeded out =>
        ex_status e = Completed /\ ex_output e = Some (if debug_assertions then out else VNull)
    | FailedWith err => ex_status e = if debug_assertions then Terminated (Failed err) else Running
    end) as (e & He & Hout).
  { unfold settled_as in Hov. destruct o; [done..|]. by destruct debug_assertions. }
  exists e. split; [intros more; by rewrite <- Nat.add_assoc, Hl|done].
Qed.

(** The engine the witnesses run. *)
#[local] Existing Instance debug_engine.

(** A leader that has created the flow and is idle. *)
Definition flow_submitted (E : Engine) : Node (H:=engine_jsonata) InMemoryDb :=
  (submit_command (sample_flow "route") (node_init E)).2.
Definition flow_ready (E : Engine) : Node (H:=engine_jsonata) InMemoryDb :=
  (run_leader 20 1 (flow_submitted E)).2.
Lemma flow_ready_reachable : reachable (flow_ready debug_engine, 6).
Proof.
  destruct (submit_ok (sample_flow "route") (node_init debug_engine) 1)
    as (n & Hs & Hr); [apply rtc_refl|].
  eapply (lead_reachable 20 (flow_submitted debug_engine) 1).
  - unfold flow_submitted. by rewrite Hs.
  - vm_compute. reflexivity.
Qed.

Local Notation order := (Plain (mkPlainName "order")).
Local Notation version := (mkRef (version_name (mkPlainName "flow") 1) 2).
Local Notation ready := (flow_ready debug_engine).
Lemma flow_ready_fresh : unused order (nd_storage ready).
Proof.
  assert (db_edges (nd_storage ready) = ∅) as He by (vm_compute; reflexivity).
  assert (forall q, db_children (nd_storage ready) q = ∅) as Hc.
  { intros q. apply set_eq. intros y. rewrite elem_of_db_children, He. set_solver. }
  split; [vm_compute; reflexivity|intros; apply Hc|vm_compute; reflexivity|intros; apply Hc].
Qed.
Lemma flow_ready_resolves :
  resolves_to (node_view ready) version
    (machine_of "Start" route_states).
Proof.
  right. split; [vm_compute; reflexivity|]. eexists. split; [vm_compute; reflexivity|].
  reflexivity.
Qed.

(** The run of the flow on [b], from that leader. *)
Definition routed (b : bool) : Node (H:=engine_jsonata) InMemoryDb :=
  (submit_command
     (CCreateExecution (mkCreateExecution 8 order version (VBool b))) ready).2.
Lemma flow_computes_its_reference_witness :
  (exists k n' c' e, (forall more, run_leader (k + more) 6 (routed true) =
       (Ok c', n')) /\
     entry_at (nd_log n') c' = None /\ db_executions (nd_storage n') !! order = Some e /\
     ex_status e = Completed /\ ex_output e = Some (VArray [VBool true])) /\
  (exists k n' c' e, (forall more, run_leader (k + more) 6 (routed false) =
       (Ok c', n')) /\
     entry_at (nd_log n') c' = None /\ db_executions (nd_storage n') !! order = Some e /\
     ex_status e = Terminated (Failed (Runtime (StateFailed "Refuse" "Refused"
       (VObject [("Error"%string, VString "Refused")]))))).
Proof.
  assert (pending ready 6 = []) as Hp by (vm_compute; reflexivity).
  assert (0 <= db_next_generated_seq (nd_storage ready) /\
    db_next_generated_seq (nd_storage ready) + (Z.of_nat 3 + 1) <= i64_max) as [H0 Hr]
    by (vm_compute; split; discriminate).
  assert (in_time (machine_of "Start" route_states)) as Ht by by intros secs k.
  assert (forall b, submit_command (CCreateExecution (mkCreateExecution 8 order version (VBool b)))
    ready = (Ok tt, routed b)) as Hs by (intros []; vm_compute; reflexivity).
  split.
  - refine (flow_computes_its_reference ready 6 (routed true) 8 order version
      (machine_of "Start" route_states) (VBool true) 3 (Succeeded (VArray [VBool true]))
      flow_ready_reachable Hp flow_ready_resolves Ht flow_ready_fresh H0 Hr _ (Hs true)).
    vm_compute. reflexivity.
  - refine (flow_computes_its_reference ready 6 (routed false) 8 order version
      (machine_of "Start" route_states) (VBool false) 3 (FailedWith (Runtime
        (StateFailed "Refuse" "Refused" (VObject [("Error"%string, VString "Refused")]))))
      flow_ready_reachable Hp flow_ready_resolves Ht flow_ready_fresh H0 Hr _ (Hs false)).
    vm_compute. reflexivity.
Defined.

(** The same runs in a build without debug assertions: the accepted one loses its output, the
    refused one never ends. *)
Definition routed_in_release (b : bool) : Node (H:=engine_jsonata) InMemoryDb :=
  (run_leader (H:=release_engine) 60 6
    (submit_command (H:=release_engine)
       (CCreateExecution (mkCreateExecution 8 order version (VBool b)))
       (flow_ready release_engine)).2).2.
Theorem succeed_loses_its_output_in_release :
  (fun e => (ex_status e, ex_output e)) <$>
    (db_executions (nd_storage (routed_in_release true)) !! order) =
    Some (Completed, Some VNull) /\
  order_status (routed_in_release false) = Some Running.
Proof. split; vm_compute; reflexivity. Qed.

(** ** Evaluation *)

(** C40: in every reachable state of the system, evaluating a template through the cache of
    parsed expressions the leader holds gives what evaluating it without a cache gives, whatever
    was evaluated before: the cache only ever holds what the parser returns. *)
Theorem evaluation_is_reference_in_reach `{Engine} n c v states vars :
  reachable (n, c) ->
  (eval_json v states vars (nd_env n)).1 = eval_ref v states vars /\
  map_Forall (fun expr ast => jsonata_parse expr = inr ast) (nd_env n).
Proof.
  intros Hr. pose proof (ti_cache _ (reachable_tidy _ Hr)) as Hc. split; [|exact Hc].
  by apply eval_json_computes.
Qed.

(** After the run on [true] the cache holds the two expressions of the definition. *)
Definition route_ran : Node (H:=engine_jsonata) InMemoryDb := (run_leader 60 6 (routed true)).2.
Lemma evaluation_is_reference_in_reach_witness :
  nd_env route_ran !! "ok" = Some "ok" /\
  (eval_json (VString "{% ok %}") VNull {["ok" := VBool false]} (nd_env route_ran)).1 =
    Ok (VBool false).
Proof.
  split; [vm_compute; reflexivity|].
  assert (exists c, (run_leader 60 6 (routed true)).1 = Ok c) as [c Hc]
    by (eexists; vm_compute; reflexivity).
  assert (run_leader 60 6 (routed true) = (Ok c, route_ran)) as Hrun
    by (unfold route_ran; rewrite <- Hc; apply surjective_pairing).
  destruct (submit_ok (CCreateExecution (mkCreateExecution 8 order version (VBool true)))
    ready 6 flow_ready_reachable) as (n & Hs & Hr).
  assert (n = routed true) as -> by (unfold routed; by rewrite Hs).
  destruct (evaluation_is_reference_in_reach route_ran c (VString "{% ok %}") VNull
    {["ok" := VBool false]} (lead_reachable 60 _ _ _ _ Hr Hrun)) as [He _].
  rewrite He. vm_compute. reflexivity.
Defined.
